(* ===== verification/_CoqProject ===== *)
-Q . S2P
Prelude.v
Lagrange.v
Sha512.v
Scalar25519.v
Field25519.v
Table25519.v
Prime25519.v
Edwards.v
Group25519.v
Base25519.v
Vartime25519.v
Tsed25519.v
Hrs.v
Errors.v
Wire.v
Comet.v
SignState.v
Config.v
Strconv.v
Cosigner.v
SoftSigner.v
NonceCache.v
CosignerHealth.v
Cond.v
Conc.v
LocalCosigner.v
ThresholdValidator.v
CosignerProto.v
RemoteProto.v
SignSafety.v
Cluster.v
LocalNet.v
ValidatorSafety.v
Rpc.v
SingleSigner.v
RemoteSigner.v
RemoteRpc.v
SignerLoop.v
ClusterTls.v
RaftStore.v
Sha256.v
Security.v
Services.v
StateCmd.v
ShardsCmd.v
MigrateCmd.v
Startup.v
KeysCmd.v
Resolver.v
LeaderCmd.v
