(* ===== verification/Prelude.v ===== *)
(** * Horcrux: a threshold Ed25519 remote signer

    Horcrux splits a validator key among cosigners, so that a block is signed when a
    threshold of them agrees and no single machine can sign alone.  A chain node asks any of
    the processes for a signature; the process that leads the cluster (raft elects it)
    draws nonces prepared by the cosigners, asks enough of them for signature shares,
    combines the shares into an Ed25519 signature, verifies it and remembers it; the others
    pass the request on to it.  Every cosigner keeps a watermark of height, round and step
    on disk and refuses to sign below it, or twice at it.

    This library models those parts as Rocq definitions named after the Go ones and proves
    what makes them correct.  Paths are relative to src/.

    ** Files

    Shared by all:
    - Prelude: results of fallible code ([Ok], [Err], [Panics]), machine integers with
      their wrap-around ([sint], [uint]), nil and non-nil byte slices ([gobytes]),
      congruences, hexadecimal and decimal text.
    - Conc: handlers that run concurrently, as trees of critical sections; their
      interleavings ([pool_step]), a rely-guarantee condition ([wp]) and its soundness.

    Cryptography (signer/edwards25519, signer/tsed25519, signer/threshold_signer_soft.go):
    - Lagrange: polynomials and interpolation modulo a prime.
    - Sha512: SHA-512 of the Go standard library.
    - Scalar25519: scalars modulo the group order on 21-bit limbs (ScMulAdd, ScReduce,
      ScMinimal).
    - Field25519: field elements on ten limbs (FeMul, FeSquare, FeInvert, FeToBytes, ...).
    - Table25519: the precomputed tables of const.go.
    - Prime25519: 2^255-19 and the group order are prime, by Pocklington certificates.
    - Edwards: the group law of twisted Edwards curves over any prime field.
    - Group25519: the five coordinate systems of edwards25519.go, encoding and decoding.
    - Base25519: the tables hold the multiples they should, and GeScalarMultBase.
    - Vartime25519: GeDoubleScalarMultVartime, with scalars in signed sliding windows.
    - Tsed25519: dealing and combining shares, adding scalars and elements, signing with a
      share.
    - SoftSigner: key files, the soft threshold signer, and that the signature a cluster
      assembles is a valid Ed25519 signature.

    Watermarks and messages (signer/hrs.go, sign_state.go, cosigner.go, config.go):
    - Hrs: height, round and step keys and their order.
    - Errors: the error values, their texts, and errors.As.
    - Comet: what is used of CometBFT's types, behind an interface ([Codec]).
    - SignState: the watermark, its cache, the double-sign gate, the state file.
    - Config: validation of the configuration, chain IDs and paths.
    - Strconv: the conversions between text and numbers of the Go standard library.
    - Cosigner: the messages between cosigners and the check of a payload.

    Processes (signer/local_cosigner.go, threshold_validator.go and what they use):
    - LocalCosigner: the handlers of one cosigner.  SignSafety: what they guarantee in every
      interleaving.  Cluster: what that means for a cluster of them.
    - NonceCache: the leader's cache of prepared nonces (cosigner_nonce_cache.go).
    - CosignerHealth: the order of the peers by round-trip time (cosigner_health.go).
    - Cond: the condition variable requests wait on (cond/cond.go).
    - ThresholdValidator: the handlers of the leader and of a follower.  LocalNet: a cluster
      of LocalCosigner processes behind the interface the validator calls, to run both
      together.  ValidatorSafety: what the validator guarantees in every interleaving.

    Calls between processes (signer/proto, remote_cosigner.go, cosigner_grpc_server.go):
    - Wire: the protobuf wire format as the generated code writes and reads it.
    - CosignerProto: the messages of signer/proto/cosigner.pb.go.  RemoteProto: those of
      remote_signer.pb.go.
    - Rpc: the client and the server of a cosigner, and the recovery of panics.
    - Sha256: SHA-256 of the Go standard library.  Security: how cosigners encrypt and sign
      the nonces they exchange, with ECIES and with RSA, and the files of those keys
      (cosigner_security_ecies.go, cosigner_security_rsa.go, cosigner_key_shares.go).
    - RaftStore: the replicated store, its log and snapshots, and the sign states that the
      leader shares through it (raft_store.go, raft_events.go).
    - ClusterTls: the TLS configuration of a cluster, and which peers TLS accepts with it
      (cluster_tls.go).
    - Resolver: one target for several addresses, and how their updates reach the
      connection (multiresolver/multi.go).

    Towards the chain nodes:
    - SingleSigner: the validator that signs with a whole key (file.go,
      single_signer_validator.go).
    - RemoteSigner: the requests of a node, over its connection and over gRPC, against any
      validator (remote_signer.go, remote_signer_grpc_server.go); the interface
      [PrivValidator] has the single signer and the threshold validator as instances.
      RemoteRpc: its gRPC service, encoded.
    - SignerLoop: the loop that dials a node, answers it and gives it up with the
      leadership, as a step relation, and the keys of connections (remote_signer.go,
      conn_key.go).

    Commands (cmd/horcrux/cmd), as programs over a machine with files, directories and other
    processes:
    - Services: the machine ([Host]) and the PID file (signer/services.go).
    - Startup: [start], with the validator, the peers and the raft store that it composes
      (start.go, threshold.go, single_signer.go).
    - StateCmd: the watermarks shown and set by hand (state.go, root.go).
    - ShardsCmd, KeysCmd: shards, keys and the configuration (shards.go, conn_key.go,
      cluster_key.go, config.go).  MigrateCmd: the migration of older files (migrate.go).
    - LeaderCmd: asking for the leader and electing one (leader_election.go).

    ** State and operations

    A struct is a record with the fields that matter, an error a value of [goerror], a
    panic the result [Panics].  An operation without concurrency is a function that passes
    the state along.  A handler is a program of Conc whose atomic steps are the code's
    critical sections and the calls it makes; the maps behind sync.Map and the pointers in
    them are a map to locations and a heap, so two handlers that hold the same pointer see
    each other's writes.  Writes to disk that run in goroutines are a list of pending
    writes the scheduler completes in any order.  Events a section logs are not seen by the
    code; properties are stated on the log.

    ** Theorems

    - Safety: a cosigner that has loaded a chain never signs two payloads at one height,
      round and step, in any interleaving; two signatures of a cluster with a validated
      configuration are over the same payload, also when its cosigners restart from the state
      they last had; a nonce round is consumed once; what the leader answers was combined
      from the shares of a threshold of cosigners and verified, or is an existing
      signature with its own timestamp; the nonce cache hands out a round once; a single
      signer signs one payload at a height, round and step.
    - Towards the nodes: a vote or proposal that a node is given carries what the validator
      returned for it and what the validator promises of it; a response fits its request; a
      refusal is told apart from a failure; the loop has one connection open, to the node with
      the right key, answers what it was asked, and lets go of it with the leadership.
    - Cluster state: a sign state that was shared raises the watermark of every process that
      applies it; replicas agree whatever the order; a snapshot and the rest of the log
      give what the log gives.  Processes started with the same list of cosigners agree on
      the cluster, and TLS accepts exactly the listed keys.  A nonce is decrypted only if its sender's signature
      verifies, and what one cosigner sends another one reads.
    - Cryptography: every field, scalar and group operation computes what it should within
      its machine words; shares combine to the secret; the assembled signature satisfies
      the verification equation.
    - Commands: a process serves only after its checks passed; a watermark that is set by hand
      only moves up; the shards that are written are the ones that load; a migration
      keeps the key; no key or configuration is replaced unasked; the commands on the leader
      reach the cosigners of the configuration.
    - Persistence and validation: a restart keeps the gate; chain files stay apart; a
      validated configuration has the majority the safety proof needs.
    - Calls between processes: messages survive encoding and decoding; a remote call does
      what the local call does, over a connection that delivers; no bytes of a peer make
      decoding or a conversion panic.
    - Termination and liveness: decoding ends on any data; the loops of the nonce cache
      and the goroutines of a signing request end; no wake-up is lost.
    - Counterexamples, where the code does not do what it means to: races when a chain is
      first loaded, reordered writes of the state file, an overflow with 13 shards,
      peers that send too few nonces, a single signer that trusts the key it is given,
      missed votes counted across chains, two processes started at once that both serve, a
      PID file removed under its owner, a migration onto its own file, addresses that reach a
      connection in the wrong order, a gRPC server registered before its validator is set,
      scalars from 2^255 on in sliding windows.

    ** Bounds and fuel

    Shamir sharing is proved for at most 12 shards, where the int64 products of calcOmega do
    not overflow.  Fuel is given where recursion is not structural, and is enough: the loop
    of ClearNonces gets one more than the entries it visits ([ClearNonces_terminates]), the
    goroutines of a signing request as many iterations as cosigners and remaining peers
    ([sign_goroutines_end]), those of getNoncesFallback two steps each and its select one.
    Decoding gets as many iterations as the data has bytes, and
    running out is a panic of the model, which [messages_total] excludes.  Field operations
    are proved for limbs up to three times what a multiplication leaves, which covers every
    composition in the group operations.

    ** Not modelled

    Code that is not in the repository is an argument with the laws it documents: CometBFT's
    encodings, JSON and YAML, raft, gRPC's transport, X.509, what TLS checks apart from its
    configuration, and the generators, ciphers and
    signatures of RSA and ECIES.  The framing of bytes on a connection (io.go), the descriptors
    and reflection methods of the generated protobuf code, the counters of the metrics and
    their HTTP server, logging, the parsing of flags, the commands that only print (address,
    version) and the integration tests under test/ have no model: they are calls into
    those libraries, or input and output with no state of their own. *)

From stdpp Require Import base gmap sets list strings numbers pretty.
From Stdlib Require Import ZArith Lia Morphisms.

Open Scope Z_scope.

(** ** Results of fallible code *)

(** A Go function that returns [(T, error)] returns a [result]; a run-time panic
    is a third outcome, which unwinds the calls around it. *)
Inductive result (T E : Type) : Type :=
| Ok (t : T)
| Err (e : E)
| Panics (msg : string).
Arguments Ok {T E} t.
Arguments Err {T E} e.
Arguments Panics {T E} msg.

Definition result_bind {A B E} (r : result A E) (f : A → result B E) : result B E :=
  match r with
  | Ok a => f a
  | Err e => Err e
  | Panics m => Panics m
  end.

(** Rewrites the error of a result, as [if err != nil { return f(err) }] does. *)
Definition map_err {A E F} (f : E → F) (r : result A E) : result A F :=
  match r with
  | Ok a => Ok a
  | Err e => Err (f e)
  | Panics m => Panics m
  end.

Definition is_ok {A E} (r : result A E) : bool :=
  match r with
  | Ok _ => true
  | _ => false
  end.

Declare Scope horcrux_scope.
Delimit Scope horcrux_scope with hx.

Notation "'try' x <- r ; k" := (result_bind r (λ x, k))
  (at level 10, x binder, r at level 100, k at level 200) : horcrux_scope.

Open Scope horcrux_scope.

(** ** Machine integers

    A signed [w]-bit integer is a [Z]; arithmetic on it wraps with [sint w]. *)
Definition sint (w x : Z) : Z := (x + 2 ^ (w - 1)) mod 2 ^ w - 2 ^ (w - 1).

(** An unsigned [w]-bit integer wraps with [uint w]. *)
Definition uint (w x : Z) : Z := x mod 2 ^ w.

Definition in_sint (w x : Z) : Prop := - 2 ^ (w - 1) ≤ x < 2 ^ (w - 1).

Abbreviation i64 := (sint 64).
Abbreviation i32 := (sint 32).
Abbreviation i8 := (sint 8).
Abbreviation u8 := (uint 8).

(** Arithmetic on int64 and int32 values, in scopes of their own. *)
Declare Scope int64_scope.
Delimit Scope int64_scope with i64.
Notation "a + b" := (sint 64 (Z.add a b)) : int64_scope.
Notation "a - b" := (sint 64 (Z.sub a b)) : int64_scope.
Notation "a * b" := (sint 64 (Z.mul a b)) : int64_scope.
Notation "a '<<' n" := (sint 64 (Z.shiftl a n)) (at level 40, left associativity) : int64_scope.
Notation "a '>>' n" := (Z.shiftr a n) (at level 40, left associativity) : int64_scope.

Declare Scope int32_scope.
Delimit Scope int32_scope with i32.
Notation "a + b" := (sint 32 (Z.add a b)) : int32_scope.
Notation "a - b" := (sint 32 (Z.sub a b)) : int32_scope.
Notation "- a" := (sint 32 (Z.opp a)) : int32_scope.
Notation "a * b" := (sint 32 (Z.mul a b)) : int32_scope.
Notation "a '<<' n" := (sint 32 (Z.shiftl a n)) (at level 40, left associativity) : int32_scope.
Notation "a '>>' n" := (Z.shiftr a n) (at level 40, left associativity) : int32_scope.

(** ** Congruence modulo [m] *)
Definition cong (m a b : Z) : Prop := a mod m = b mod m.

Notation "a ≡⟨ m ⟩ b" := (cong m a b)
  (at level 70, m at level 200, b at next level, no associativity) : horcrux_scope.

(** ** Little-endian byte strings

    A byte is a [Z] in [0, 256); a Go byte slice or array is a list of them. *)
Definition byte_ok (b : Z) : Prop := 0 ≤ b < 256.

Fixpoint le_val (bs : list Z) : Z :=
  match bs with
  | [] => 0
  | b :: bs' => b + 256 * le_val bs'
  end.

Fixpoint le_bytes (n : nat) (x : Z) : list Z :=
  match n with
  | O => []
  | S n' => x mod 256 :: le_bytes n' (x / 256)
  end.

(** ** Go byte slices

    [None] is the nil slice, which is not the empty one. *)
Definition gobytes : Type := option (list Z).

(** The content, as [range] or [append] see it. *)
Definition slice (b : gobytes) : list Z := default [] b.

Definition is_nil (b : gobytes) : bool :=
  match b with
  | None => true
  | Some _ => false
  end.

(** [len(b)] *)
Definition blen (b : gobytes) : Z := Z.of_nat (length (slice b)).

(** [bytes.Equal]: nil equals empty. *)
Definition bytes_Equal (a b : gobytes) : bool := bool_decide (slice a = slice b).

(** [make([]byte, len(b))] followed by [copy]: never nil. *)
Definition bytes_copy (b : gobytes) : gobytes := Some (slice b).

(** The character of a byte, and a byte slice as the string it holds. *)
Definition byte_char (b : Z) : Ascii.ascii := Ascii.ascii_of_N (Z.to_N b).

Fixpoint bytes_string (bs : list Z) : string :=
  match bs with
  | [] => EmptyString
  | b :: bs' => String (byte_char b) (bytes_string bs')
  end.

(** [hex.EncodeToString] *)
Definition hex_digit (n : Z) : Ascii.ascii :=
  if n <? 10 then Ascii.ascii_of_N (Z.to_N (48 + n)) else Ascii.ascii_of_N (Z.to_N (87 + n)).

Fixpoint hex_EncodeToString (bs : list Z) : string :=
  match bs with
  | [] => EmptyString
  | b :: bs' => String (hex_digit (b / 16)) (String (hex_digit (b mod 16)) (hex_EncodeToString bs'))
  end.

(** [%d] of an integer *)
Definition fmt_d (x : Z) : string := pretty x.

(** ** Slices indexed by Go integers: [None] where Go panics *)
Definition zlookup {A} (i : Z) (l : list A) : option A :=
  if i <? 0 then None else l !! Z.to_nat i.

Definition zinsert {A} (i : Z) (x : A) (l : list A) : option (list A) :=
  if (i <? 0) || (Z.of_nat (length l) <=? i) then None else Some (<[Z.to_nat i := x]> l).

Definition index_out_of_range : string := "runtime error: index out of range".

Definition nil_dereference : string :=
  "runtime error: invalid memory address or nil pointer dereference".

(** ** Tactics and hints *)

Create HintDb horcrux.
Create Rewrite HintDb wrap.

Ltac destruct_result :=
  repeat match goal with
  | H : context [match ?x with _ => _ end] |- _ => destruct x eqn:?; try discriminate
  end.

(** ** Lemmas on machine integers *)

Lemma sint_small w x : 0 < w → in_sint w x → sint w x = x.
Proof.
  unfold sint, in_sint. intros Hw Hx.
  assert (2 ^ w = 2 * 2 ^ (w - 1)) as Hp.
  { rewrite <- Z.pow_succ_r by lia. f_equal. lia. }
  rewrite Z.mod_small; lia.
Qed.

Lemma sint_range w x : 0 < w → in_sint w (sint w x).
Proof.
  unfold sint, in_sint. intros Hw.
  assert (2 ^ w = 2 * 2 ^ (w - 1)) as Hp.
  { rewrite <- Z.pow_succ_r by lia. f_equal. lia. }
  assert (0 < 2 ^ (w - 1)) by (apply Z.pow_pos_nonneg; lia).
  pose proof (Z.mod_pos_bound (x + 2 ^ (w - 1)) (2 ^ w)). lia.
Qed.

Lemma sint_cong w x : 0 ≤ w → sint w x ≡⟨ 2 ^ w ⟩ x.
Proof.
  intros Hw. unfold sint, cong.
  rewrite Zminus_mod_idemp_l. f_equal. lia.
Qed.

Lemma sint_mod w x y : x ≡⟨ 2 ^ w ⟩ y → sint w x = sint w y.
Proof.
  unfold cong, sint. intros H. f_equal.
  rewrite <- (Zplus_mod_idemp_l x), <- (Zplus_mod_idemp_l y). by rewrite H.
Qed.

Global Instance cong_equiv m : Equivalence (cong m).
Proof. split; red; unfold cong; intros; congruence. Qed.

Global Instance cong_add m : Proper (cong m ==> cong m ==> cong m) Z.add.
Proof. intros a b H c d H'. unfold cong in *. rewrite Zplus_mod, H, H'. by rewrite <- Zplus_mod. Qed.

Global Instance cong_sub m : Proper (cong m ==> cong m ==> cong m) Z.sub.
Proof. intros a b H c d H'. unfold cong in *. rewrite Zminus_mod, H, H'. by rewrite <- Zminus_mod. Qed.

Global Instance cong_mul m : Proper (cong m ==> cong m ==> cong m) Z.mul.
Proof. intros a b H c d H'. unfold cong in *. rewrite Zmult_mod, H, H'. by rewrite <- Zmult_mod. Qed.

Global Instance cong_opp m : Proper (cong m ==> cong m) Z.opp.
Proof. intros a b H. by rewrite <- (Z.sub_0_l a), H, Z.sub_0_l. Qed.

Lemma cong_divide m a b : m ≠ 0 → a ≡⟨ m ⟩ b ↔ (m | a - b).
Proof.
  intros Hm. unfold cong. rewrite Z.cong_iff_ex. unfold Z.divide. done.
Qed.

Lemma cong_mod m a : a mod m ≡⟨ m ⟩ a.
Proof. unfold cong. apply Zmod_mod. Qed.

Lemma cong_unique m a b : 0 ≤ a < m → 0 ≤ b < m → a ≡⟨ m ⟩ b → a = b.
Proof. unfold cong. intros Ha Hb H. by rewrite !Z.mod_small in H. Qed.

(** Nested wraps of a ring expression collapse into one. *)
Lemma sint_add_l w x y : 0 ≤ w → sint w (sint w x + y) = sint w (x + y).
Proof. intros. apply sint_mod. by rewrite sint_cong. Qed.
Lemma sint_add_r w x y : 0 ≤ w → sint w (x + sint w y) = sint w (x + y).
Proof. intros. apply sint_mod. by rewrite sint_cong. Qed.
Lemma sint_sub_l w x y : 0 ≤ w → sint w (sint w x - y) = sint w (x - y).
Proof. intros. apply sint_mod. by rewrite sint_cong. Qed.
Lemma sint_sub_r w x y : 0 ≤ w → sint w (x - sint w y) = sint w (x - y).
Proof. intros. apply sint_mod. by rewrite sint_cong. Qed.
Lemma sint_mul_l w x y : 0 ≤ w → sint w (sint w x * y) = sint w (x * y).
Proof. intros. apply sint_mod. by rewrite sint_cong. Qed.
Lemma sint_mul_r w x y : 0 ≤ w → sint w (x * sint w y) = sint w (x * y).
Proof. intros. apply sint_mod. by rewrite sint_cong. Qed.

#[export] Hint Rewrite sint_add_l sint_add_r sint_sub_l sint_sub_r sint_mul_l sint_mul_r
  using lia : wrap.

(** ** Lemmas on byte strings *)

Lemma le_val_range bs :
  Forall byte_ok bs → 0 ≤ le_val bs < 256 ^ Z.of_nat (length bs).
Proof.
  induction 1 as [|b bs Hb _ IH]; cbn [le_val length]; [done|].
  rewrite Nat2Z.inj_succ, Z.pow_succ_r by lia. unfold byte_ok in Hb. lia.
Qed.

Lemma le_bytes_length n x : length (le_bytes n x) = n.
Proof. revert x. induction n; intros; cbn; auto. Qed.

Lemma le_bytes_ok n x : Forall byte_ok (le_bytes n x).
Proof.
  revert x. induction n; intros; cbn; constructor; auto.
  apply Z.mod_pos_bound; lia.
Qed.

Lemma le_val_bytes n x : le_val (le_bytes n x) = x mod 256 ^ Z.of_nat n.
Proof.
  revert x. induction n as [|n IH]; intros x; cbn [le_bytes le_val].
  - by rewrite Z.mod_1_r.
  - rewrite IH, Nat2Z.inj_succ, Z.pow_succ_r by lia.
    rewrite Z.rem_mul_r by lia. lia.
Qed.

Lemma le_bytes_val bs : Forall byte_ok bs → le_bytes (length bs) (le_val bs) = bs.
Proof.
  unfold byte_ok.
  induction 1 as [|b bs Hb _ IH]; cbn [le_val le_bytes length]; [done|].
  rewrite (Z.mul_comm 256), Z.mod_add, Z.mod_small, Z.div_add, Z.div_small by lia.
  by rewrite Z.add_0_l, IH.
Qed.

Lemma le_val_app bs cs :
  le_val (bs ++ cs) = le_val bs + 256 ^ Z.of_nat (length bs) * le_val cs.
Proof.
  induction bs as [|b bs IH]; cbn [le_val app length].
  - by rewrite Z.pow_0_r; lia.
  - rewrite IH, Nat2Z.inj_succ, Z.pow_succ_r by lia. lia.
Qed.

Lemma le_val_zeros n : le_val (replicate n 0) = 0.
Proof. induction n as [|n IH]; cbn [le_val replicate]; [done|]. by rewrite IH. Qed.

Lemma le_val_inj bs cs :
  Forall byte_ok bs → Forall byte_ok cs → length bs = length cs →
  le_val bs = le_val cs → bs = cs.
Proof.
  intros Hb Hc Hl Hv. rewrite <- (le_bytes_val bs), <- (le_bytes_val cs) by done.
  by rewrite Hl, Hv.
Qed.

Lemma le_val_drop k bs :
  Forall byte_ok bs → le_val (drop k bs) = le_val bs / 256 ^ Z.of_nat k.
Proof.
  revert bs. induction k as [|k IH]; intros bs Hbs.
  - rewrite drop_0, Z.pow_0_r, Z.div_1_r. done.
  - destruct Hbs as [|b bs Hb Hbs]; cbn [drop le_val].
    + rewrite Z.div_0_l; [done|]. apply Z.pow_nonzero; lia.
    + rewrite IH by done. unfold byte_ok in Hb.
      rewrite Nat2Z.inj_succ, Z.pow_succ_r by lia.
      rewrite <- Z.div_div by (try lia; apply Z.pow_pos_nonneg; lia).
      rewrite (Z.mul_comm 256 (le_val bs)), Z.div_add by lia.
      by rewrite (Z.div_small b), Z.add_0_l by lia.
Qed.

(** ** Shifts and masks as arithmetic *)

Lemma lor_disjoint a b n :
  0 ≤ n → 0 ≤ a < 2 ^ n → Z.lor a (b * 2 ^ n) = a + b * 2 ^ n.
Proof.
  intros Hn Ha. rewrite <- Z.shiftl_mul_pow2 by lia.
  assert (Z.land a (Z.shiftl b n) = 0) as Hz.
  { apply Z.bits_inj'. intros i Hi. rewrite Z.land_spec, Z.bits_0.
    destruct (Z.lt_ge_cases i n).
    - rewrite (Z.shiftl_spec_low b) by lia. apply andb_false_r.
    - rewrite <- (Z.mod_small a (2 ^ n)) by lia. by rewrite Z.mod_pow2_bits_high by lia. }
  by rewrite <- Z.lxor_lor, <- Z.add_nocarry_lxor.
Qed.

Lemma land_mask n x : 0 ≤ n → Z.land (2 ^ n - 1) x = x mod 2 ^ n.
Proof.
  intros Hn. rewrite Z.land_comm, Z.sub_1_r, <- Z.ones_equiv. by apply Z.land_ones.
Qed.

Lemma mod_div_mod x w j m :
  0 ≤ j → 0 ≤ m → j + m ≤ w → (x mod 2 ^ w) / 2 ^ j mod 2 ^ m = x / 2 ^ j mod 2 ^ m.
Proof.
  intros Hj Hm Hw. rewrite <- !Z.shiftr_div_pow2, <- !Z.land_ones by lia.
  apply Z.bits_inj'. intros i Hi. rewrite !Z.land_spec, !Z.shiftr_spec by lia.
  rewrite Z.land_spec. destruct (Z.lt_ge_cases i m).
  - rewrite (Z.ones_spec_low w) by lia. by rewrite andb_true_r.
  - rewrite (Z.ones_spec_high m) by lia. by rewrite !andb_false_r.
Qed.
