(* ===== verification/Lagrange.v ===== *)
(** * Integer Lagrange interpolation

    The arithmetic behind the threshold scheme of tsed25519/ed25519.go: polynomials with
    integer coefficients, the bound on the number of their roots, interpolation at 0
    with denominators cleared, and the divisibility by factorials that makes the
    cleared coefficients integers. *)

From S2P Require Import Prelude.
From stdpp Require Import base list numbers.
From Stdlib Require Import ZArith Lia.

Open Scope Z_scope.

(** ** Definitions *)

(** Evaluation of a list of coefficients, constant first, by Horner's rule. *)
Fixpoint eval (f : list Z) (x : Z) : Z :=
  match f with
  | [] => 0
  | c :: f' => c + x * eval f' x
  end.

Fixpoint zsum {A} (g : A → Z) (l : list A) : Z :=
  match l with
  | [] => 0
  | a :: l' => g a + zsum g l'
  end.

Fixpoint zprod {A} (g : A → Z) (l : list A) : Z :=
  match l with
  | [] => 1
  | a :: l' => g a * zprod g l'
  end.

(** A function given by at most [n] coefficients. *)
Definition polynomial (n : nat) (p : Z → Z) : Prop :=
  ∃ f, (length f ≤ n)%nat ∧ ∀ x, p x = eval f x.

(** The nodes other than [x]. *)
Definition others (x : Z) (xs : list Z) : list Z := filter (λ y, y ≠ x) xs.

(** [prod_{y <> x} (y - z)]: the numerator of the basis polynomial of node [x]. *)
Definition basis (xs : list Z) (x z : Z) : Z := zprod (λ y, y - z) (others x xs).

Definition zfact (n : nat) : Z := zprod Z.of_nat (seq 1 n).

(** ** Sums and products *)

Lemma zsum_app {A} (g : A → Z) l k : zsum g (l ++ k) = zsum g l + zsum g k.
Proof. induction l; cbn; [done|]. lia. Qed.

Lemma zsum_ext {A} (g h : A → Z) l : (∀ a, a ∈ l → g a = h a) → zsum g l = zsum h l.
Proof.
  induction l as [|a l IH]; intros H; [done|]. cbn.
  rewrite (H a ltac:(left)). f_equal. apply IH. intros b Hb. apply H. by right.
Qed.

Lemma zsum_scale {A} c (g : A → Z) l : zsum (λ a, c * g a) l = c * zsum g l.
Proof. induction l; cbn; [lia|]. lia. Qed.

Lemma zsum_plus {A} (g h : A → Z) l : zsum (λ a, g a + h a) l = zsum g l + zsum h l.
Proof. induction l as [|a l IH]; cbn; lia. Qed.

Lemma zsum_zero {A} (g : A → Z) l : (∀ a, a ∈ l → g a = 0) → zsum g l = 0.
Proof.
  induction l as [|a l IH]; intros H; [done|]. cbn.
  rewrite (H a ltac:(left)). apply IH. intros b Hb. apply H. by right.
Qed.

(** A sum with one term that counts. *)
Lemma zsum_single (g : Z → Z) l x :
  NoDup l → x ∈ l → (∀ y, y ∈ l → y ≠ x → g y = 0) → zsum g l = g x.
Proof.
  induction l as [|a l IH]; intros Hn Hx H; [by apply not_elem_of_nil in Hx|].
  apply list.NoDup_cons in Hn as [Ha Hn]. cbn. apply list.elem_of_cons in Hx as [->|Hx].
  - rewrite zsum_zero; [lia|].
    intros y Hy. apply H; [by right|]. by intros ->.
  - rewrite (H a ltac:(left)) by (by intros ->). apply IH; [done..|].
    intros y Hy. apply H. by right.
Qed.

Lemma zprod_zero {A} (g : A → Z) l a : a ∈ l → g a = 0 → zprod g l = 0.
Proof.
  induction l as [|b l IH]; intros Ha Hg; [by apply not_elem_of_nil in Ha|]. cbn.
  apply list.elem_of_cons in Ha as [<-|Ha]; [by rewrite Hg|]. rewrite IH by done. lia.
Qed.

Lemma zprod_nonzero {A} (g : A → Z) l : (∀ a, a ∈ l → g a ≠ 0) → zprod g l ≠ 0.
Proof.
  induction l as [|b l IH]; intros H; [done|]. cbn. apply Z.neq_mul_0.
  split; [apply H; left|]. apply IH. intros a Ha. apply H. by right.
Qed.

Lemma zprod_ext {A} (g h : A → Z) l : (∀ a, g a = h a) → zprod g l = zprod h l.
Proof. intros H. induction l as [|a l IH]; [done|]. cbn. by rewrite H, IH. Qed.

Lemma zprod_app {A} (g : A → Z) l k : zprod g (l ++ k) = zprod g l * zprod g k.
Proof. induction l; cbn; [lia|]. rewrite IHl. lia. Qed.

Lemma zprod_Permutation {A} (g : A → Z) l k : l ≡ₚ k → zprod g l = zprod g k.
Proof. induction 1; cbn; lia. Qed.

Lemma others_absent x xs : x ∉ xs → others x xs = xs.
Proof.
  unfold others. induction xs as [|y xs IH]; intros Hx; [done|].
  apply not_elem_of_cons in Hx as [Hy Hx]. rewrite filter_cons_True by done. by rewrite IH.
Qed.

Lemma others_Permutation x xs : NoDup xs → x ∈ xs → xs ≡ₚ x :: others x xs.
Proof.
  induction xs as [|y xs IH]; intros Hn Hx; [by apply not_elem_of_nil in Hx|].
  apply list.NoDup_cons in Hn as [Hy Hn]. unfold others.
  destruct (decide (y = x)) as [->|Hyx].
  - rewrite filter_cons_False by (intros H; by apply H).
    f_equiv. change (filter _ xs) with (others x xs). by rewrite others_absent.
  - rewrite filter_cons_True by done. apply list.elem_of_cons in Hx as [->|Hx]; [done|].
    rewrite IH at 1 by done. apply Permutation_swap.
Qed.

Lemma elem_of_others y x xs : y ∈ others x xs ↔ y ≠ x ∧ y ∈ xs.
Proof. unfold others. by rewrite list_elem_of_filter. Qed.

(** ** Polynomials *)

Lemma eval_app f g x : eval (f ++ g) x = eval f x + x ^ Z.of_nat (length f) * eval g x.
Proof.
  induction f as [|c f IH]; cbn [app eval length]; [lia|].
  rewrite IH, Nat2Z.inj_succ, Z.pow_succ_r by lia. lia.
Qed.

Lemma polynomial_const n c : (1 ≤ n)%nat → polynomial n (λ _, c).
Proof. exists [c]. split; [done|]. intros x. cbn. lia. Qed.

Lemma eval_zero k x : eval (replicate k 0) x = 0.
Proof. induction k; cbn; lia. Qed.

(** Coefficient lists can be padded to the length they are bounded by. *)
Lemma polynomial_padded n p :
  polynomial n p → ∃ f, length f = n ∧ ∀ x, p x = eval f x.
Proof.
  intros (f & Hl & Hp). exists (f ++ replicate (n - length f) 0).
  rewrite length_app, length_replicate. split; [lia|]. intros x.
  rewrite eval_app, eval_zero, Hp. lia.
Qed.

Lemma polynomial_add n p q : polynomial n p → polynomial n q → polynomial n (λ x, p x + q x).
Proof.
  intros (f & Hf & Hp)%polynomial_padded (g & Hg & Hq)%polynomial_padded.
  exists (zip_with Z.add f g). rewrite length_zip_with. split; [lia|]. intros x. rewrite Hp, Hq.
  clear Hp Hq. revert g n Hf Hg. induction f as [|a f IH]; intros [|b g] n Hf Hg; cbn in *; try lia.
  rewrite <- (IH g (pred n)) by lia. lia.
Qed.

Lemma polynomial_scale n c p : polynomial n p → polynomial n (λ x, c * p x).
Proof.
  intros (f & Hf & Hp). exists (Z.mul c <$> f). rewrite length_fmap. split; [done|].
  intros x. rewrite Hp. clear. induction f as [|a f IH]; cbn; [lia|]. rewrite <- IH. lia.
Qed.

Lemma polynomial_linear n y p : polynomial n p → polynomial (S n) (λ x, (y - x) * p x).
Proof.
  intros (f & Hf & Hp).
  assert (polynomial (S n) (λ x, y * p x)) as H1.
  { apply polynomial_scale. exists f. split; [lia|done]. }
  assert (polynomial (S n) (λ x, - 1 * (x * p x))) as H2.
  { apply polynomial_scale. exists (0 :: f). split; [cbn; lia|]. intros x. cbn. by rewrite Hp. }
  destruct (polynomial_add _ _ _ H1 H2) as (g & Hg & Hx). exists g. split; [done|].
  intros x. rewrite <- Hx. lia.
Qed.

Lemma polynomial_zprod l : polynomial (S (length l)) (λ x, zprod (λ y, y - x) l).
Proof.
  induction l as [|y l IH]; [by apply (polynomial_const 1 1)|]. by apply (polynomial_linear _ y).
Qed.

Lemma polynomial_zsum {A} n (g : A → Z → Z) l :
  (∀ a, a ∈ l → polynomial n (g a)) → polynomial n (λ x, zsum (λ a, g a x) l).
Proof.
  induction l as [|a l IH]; intros H; [exists []; split; [cbn; lia|done]|].
  apply polynomial_add; [apply H; left|]. apply IH. intros b Hb. apply H. by right.
Qed.

(** Division by [x - r]. *)
Lemma eval_divide f r :
  ∃ q, length q = pred (length f) ∧ ∀ x, eval f x = eval f r + (x - r) * eval q x.
Proof.
  induction f as [|c f (q & Hq & IH)]; [exists []; split; [done|cbn; lia]|].
  destruct f as [|d f]; [exists []; split; [done|]; intros x; cbn; lia|].
  exists (eval (d :: f) r :: q). split; [cbn in *; lia|]. intros x.
  change (eval (c :: d :: f) x) with (c + x * eval (d :: f) x).
  change (eval (c :: d :: f) r) with (c + r * eval (d :: f) r).
  rewrite IH. cbn [eval]. lia.
Qed.

(** As many roots as coefficients make the zero function. *)
Lemma polynomial_roots n p rs :
  polynomial n p → NoDup rs → (n ≤ length rs)%nat → (∀ r, r ∈ rs → p r = 0) → ∀ x, p x = 0.
Proof.
  intros (f & Hf & Hp) Hn Hl Hr x. rewrite Hp.
  assert (∀ r, r ∈ rs → eval f r = 0) as Hr' by (intros; rewrite <- Hp; auto).
  assert (length f ≤ length rs)%nat as Hlen by lia. clear Hp Hr Hf Hl.
  revert f x Hr' Hlen Hn. induction rs as [|r rs IH]; intros f x Hr Hlen Hn.
  { destruct f; [done|cbn in Hlen; lia]. }
  apply list.NoDup_cons in Hn as [Hx Hn]. destruct (eval_divide f r) as (q & Hq & Hd).
  rewrite Hd, (Hr r ltac:(left)). rewrite IH; [lia| |cbn in Hlen; lia|done].
  intros s Hs. assert (eval f s = 0) as E by (apply Hr; by right).
  rewrite Hd, (Hr r ltac:(left)) in E.
  assert (s ≠ r) by (by intros ->). nia.
Qed.

(** ** Interpolation *)

Section interpolation.
Context (xs : list Z) (Hn : NoDup xs).

Lemma basis_zero x z : z ∈ xs → z ≠ x → basis xs x z = 0.
Proof. intros Hz Hne. apply (zprod_zero _ _ z); [by apply elem_of_others|lia]. Qed.

Lemma basis_nonzero x : basis xs x x ≠ 0.
Proof. apply zprod_nonzero. intros y [Hy _]%elem_of_others. lia. Qed.

Lemma basis_polynomial x : x ∈ xs → polynomial (length xs) (basis xs x).
Proof.
  intros Hx. rewrite (Permutation_length (others_Permutation x xs Hn Hx)).
  apply polynomial_zprod.
Qed.

(** Interpolation with the denominators cleared by [d]: weights [w] with
    [w x * prod (y - x) = d * prod y] recover [d * f 0] from the values of [f]. *)
Lemma interpolate_at_0 f d (w : Z → Z) :
  (length f ≤ length xs)%nat →
  (∀ x, x ∈ xs → w x * basis xs x x = d * basis xs x 0) →
  zsum (λ x, w x * eval f x) xs = d * eval f 0.
Proof.
  intros Hf Hw.
  set (D := zprod (λ x, basis xs x x) xs).
  set (E := λ x, zprod (λ y, basis xs y y) (others x xs)).
  assert (∀ x, x ∈ xs → basis xs x x * E x = D) as HE.
  { intros x Hx. symmetry. apply (zprod_Permutation (λ y, basis xs y y) _ (x :: others x xs)).
    by apply others_Permutation. }
  assert (∀ z, zsum (λ x, E x * eval f x * basis xs x z) xs - D * eval f z = 0) as H0.
  { apply (polynomial_roots (length xs) _ xs); [|done|done|].
    - assert (polynomial (length xs) (λ z, - D * eval f z)) as H1
        by (apply polynomial_scale; exists f; done).
      assert (polynomial (length xs) (λ z, zsum (λ x, E x * eval f x * basis xs x z) xs)) as H2.
      { apply polynomial_zsum. intros x Hx. by apply polynomial_scale, basis_polynomial. }
      destruct (polynomial_add _ _ _ H2 H1) as (g & Hg & Hx). exists g. split; [done|].
      intros z. rewrite <- Hx. lia.
    - intros z Hz. rewrite (zsum_single _ xs z) by
        (done || (intros y Hy Hne; rewrite (basis_zero y z) by done; lia)).
      rewrite <- (HE z Hz). lia. }
  specialize (H0 0).
  assert (D ≠ 0) as HD by (apply zprod_nonzero; intros; apply basis_nonzero).
  apply (Z.mul_reg_l _ _ D HD). rewrite <- zsum_scale.
  transitivity (d * zsum (λ x, E x * eval f x * basis xs x 0) xs); [|lia].
  rewrite <- zsum_scale. apply zsum_ext. intros x Hx.
  rewrite <- (HE x Hx).
  transitivity (E x * eval f x * (w x * basis xs x x)); [lia|]. rewrite (Hw x Hx). lia.
Qed.
End interpolation.

(** ** Factorials *)

Lemma zfact_S n : zfact (S n) = zfact n * Z.of_nat (S n).
Proof. unfold zfact. rewrite seq_S, zprod_app. cbn [zprod]. lia. Qed.

Lemma zfact_pos n : 0 < zfact n.
Proof. induction n; [done|]. rewrite zfact_S. lia. Qed.

Lemma zfact_divide n m : (n ≤ m)%nat → (zfact n | zfact m).
Proof.
  induction 1 as [|m _ IH]; [apply Z.divide_refl|]. rewrite zfact_S. by apply Z.divide_mul_l.
Qed.

(** [a! b!] divides [(a + b)!]. *)
Lemma zfact_fact_divide a b : (zfact a * zfact b | zfact (a + b)).
Proof.
  remember (a + b)%nat as n eqn:E. revert a b E. induction n as [|n IH]; intros a b E.
  { by destruct a, b; try lia. }
  destruct a as [|a]; [change (zfact 0) with 1; rewrite E; rewrite Z.mul_1_l; apply Z.divide_refl|].
  destruct b as [|b].
  { change (zfact 0) with 1. rewrite Z.mul_1_r, E, Nat.add_0_r. apply Z.divide_refl. }
  rewrite (zfact_S n). replace (Z.of_nat (S n)) with (Z.of_nat (S a) + Z.of_nat (S b)) by lia.
  rewrite Z.mul_add_distr_l. apply Z.divide_add_r.
  - rewrite (zfact_S a). destruct (IH a (S b) ltac:(lia)) as [k Hk]. exists k. rewrite Hk. lia.
  - rewrite (zfact_S b). destruct (IH (S a) b ltac:(lia)) as [k Hk]. exists k. rewrite Hk. lia.
Qed.

(** Distinct numbers between 1 and [m] have a product that divides [m!]. *)
Lemma distinct_product m l :
  NoDup l → Forall (λ x, 1 ≤ x ≤ Z.of_nat m) l → (zprod id l | zfact m).
Proof.
  revert l. induction m as [|m IH]; intros l Hl Hr.
  { destruct l as [|x l]; [apply Z.divide_refl|]. apply Forall_cons_1 in Hr as [? _]. lia. }
  rewrite zfact_S. rewrite list.Forall_forall in Hr.
  destruct (decide (Z.of_nat (S m) ∈ l)) as [Hin|Hout].
  - rewrite (zprod_Permutation _ _ _ (others_Permutation _ _ Hl Hin)). cbn [zprod].
    rewrite Z.mul_comm. apply Z.mul_divide_mono_r. apply IH; [by apply list.NoDup_filter|].
    apply list.Forall_forall. intros x [Hx Hx']%elem_of_others. specialize (Hr x Hx'). lia.
  - apply Z.divide_mul_l, IH; [done|]. apply list.Forall_forall. intros x Hx.
    specialize (Hr x Hx). assert (x ≠ Z.of_nat (S m)) by (by intros ->). lia.
Qed.

Lemma divide_mul a b c d : (a | c) → (b | d) → (a * b | c * d).
Proof. intros [p ->] [q ->]. exists (p * q). lia. Qed.

Lemma zprod_neg {A} (g : A → Z) l k : (zprod g l | k) → (zprod (λ a, - g a) l | k).
Proof.
  revert k. induction l as [|a l IH]; intros k; [done|]. cbn. intros [q Hq].
  destruct (IH (zprod g l) ltac:(apply Z.divide_refl)) as [p Hp].
  exists (- q * p). rewrite Hq, Hp. lia.
Qed.

Lemma zprod_fmap {A} (g : A → Z) l : zprod g l = zprod id (g <$> l).
Proof. induction l; cbn; unfold id in *; lia. Qed.

(** The differences between a number up to [n] and others divide [n!]. *)
Lemma differences_product n l x :
  NoDup l → Forall (λ y, 1 ≤ y ≤ Z.of_nat n) l → x ∉ l → 1 ≤ x ≤ Z.of_nat n →
  (zprod (λ y, y - x) l | zfact n).
Proof.
  intros Hl Hr Hx Hxn. rewrite list.Forall_forall in Hr.
  rewrite <- (zprod_Permutation _ _ _ (filter_app_complement (λ y, y < x) l)), zprod_app.
  transitivity (zfact (Z.to_nat (x - 1)) * zfact (Z.to_nat (Z.of_nat n - x))).
  - apply divide_mul.
    + rewrite (zprod_ext _ (λ y, - (x - y))) by lia. apply zprod_neg. rewrite zprod_fmap.
      apply distinct_product.
      * apply NoDup_fmap_2; [intros a b; lia|by apply list.NoDup_filter].
      * apply Forall_fmap, list.Forall_forall. intros y [Hy Hy']%list_elem_of_filter. cbn.
        specialize (Hr y Hy'). lia.
    + rewrite zprod_fmap. apply distinct_product.
      * apply NoDup_fmap_2; [intros a b; lia|by apply list.NoDup_filter].
      * apply Forall_fmap, list.Forall_forall. intros y [Hy Hy']%list_elem_of_filter. cbn.
        specialize (Hr y Hy'). assert (y ≠ x) by (by intros ->). lia.
  - etransitivity; [apply zfact_fact_divide|]. apply zfact_divide. lia.
Qed.
