(* ===== verification/Sha512.v ===== *)
(** * SHA-512

    The hash of Go's [crypto/sha512] as tsed25519/ed25519.go uses it ([sha512.New] with
    [Write] and [Sum], and [sha512.Sum512]): FIPS 180-4 on byte lists.  The theorems
    about signing only use that a digest is 64 bytes. *)

From S2P Require Import Prelude.
From stdpp Require Import base list numbers.
From Stdlib Require Import ZArith Lia.

Open Scope Z_scope.

(** ** Definitions *)

Definition w64 (x : Z) : Z := x mod 2 ^ 64.

Definition rotr (n x : Z) : Z := Z.lor (Z.shiftr x n) (w64 (Z.shiftl x (64 - n))).

Definition not64 (x : Z) : Z := 2 ^ 64 - 1 - x.

Definition sha_Ch (x y z : Z) : Z := Z.lxor (Z.land x y) (Z.land (not64 x) z).
Definition sha_Maj (x y z : Z) : Z := Z.lxor (Z.lxor (Z.land x y) (Z.land x z)) (Z.land y z).
Definition sha_S0 (x : Z) : Z := Z.lxor (Z.lxor (rotr 28 x) (rotr 34 x)) (rotr 39 x).
Definition sha_S1 (x : Z) : Z := Z.lxor (Z.lxor (rotr 14 x) (rotr 18 x)) (rotr 41 x).
Definition sha_s0 (x : Z) : Z := Z.lxor (Z.lxor (rotr 1 x) (rotr 8 x)) (Z.shiftr x 7).
Definition sha_s1 (x : Z) : Z := Z.lxor (Z.lxor (rotr 19 x) (rotr 61 x)) (Z.shiftr x 6).

(** The round constants and the initial state: fractional parts of the cube and square
    roots of the first primes. *)
Definition sha_K : list Z :=
  [ 0x428a2f98d728ae22; 0x7137449123ef65cd; 0xb5c0fbcfec4d3b2f; 0xe9b5dba58189dbbc;
    0x3956c25bf348b538; 0x59f111f1b605d019; 0x923f82a4af194f9b; 0xab1c5ed5da6d8118;
    0xd807aa98a3030242; 0x12835b0145706fbe; 0x243185be4ee4b28c; 0x550c7dc3d5ffb4e2;
    0x72be5d74f27b896f; 0x80deb1fe3b1696b1; 0x9bdc06a725c71235; 0xc19bf174cf692694;
    0xe49b69c19ef14ad2; 0xefbe4786384f25e3; 0x0fc19dc68b8cd5b5; 0x240ca1cc77ac9c65;
    0x2de92c6f592b0275; 0x4a7484aa6ea6e483; 0x5cb0a9dcbd41fbd4; 0x76f988da831153b5;
    0x983e5152ee66dfab; 0xa831c66d2db43210; 0xb00327c898fb213f; 0xbf597fc7beef0ee4;
    0xc6e00bf33da88fc2; 0xd5a79147930aa725; 0x06ca6351e003826f; 0x142929670a0e6e70;
    0x27b70a8546d22ffc; 0x2e1b21385c26c926; 0x4d2c6dfc5ac42aed; 0x53380d139d95b3df;
    0x650a73548baf63de; 0x766a0abb3c77b2a8; 0x81c2c92e47edaee6; 0x92722c851482353b;
    0xa2bfe8a14cf10364; 0xa81a664bbc423001; 0xc24b8b70d0f89791; 0xc76c51a30654be30;
    0xd192e819d6ef5218; 0xd69906245565a910; 0xf40e35855771202a; 0x106aa07032bbd1b8;
    0x19a4c116b8d2d0c8; 0x1e376c085141ab53; 0x2748774cdf8eeb99; 0x34b0bcb5e19b48a8;
    0x391c0cb3c5c95a63; 0x4ed8aa4ae3418acb; 0x5b9cca4f7763e373; 0x682e6ff3d6b2b8a3;
    0x748f82ee5defb2fc; 0x78a5636f43172f60; 0x84c87814a1f0ab72; 0x8cc702081a6439ec;
    0x90befffa23631e28; 0xa4506cebde82bde9; 0xbef9a3f7b2c67915; 0xc67178f2e372532b;
    0xca273eceea26619c; 0xd186b8c721c0c207; 0xeada7dd6cde0eb1e; 0xf57d4f7fee6ed178;
    0x06f067aa72176fba; 0x0a637dc5a2c898a6; 0x113f9804bef90dae; 0x1b710b35131c471b;
    0x28db77f523047d84; 0x32caab7b40c72493; 0x3c9ebe0a15c9bebc; 0x431d67c49c100d4c;
    0x4cc5d4becb3e42b6; 0x597f299cfc657e2a; 0x5fcb6fab3ad6faec; 0x6c44198c4a475817 ].

Definition sha_H0 : list Z :=
  [ 0x6a09e667f3bcc908; 0xbb67ae8584caa73b; 0x3c6ef372fe94f82b; 0xa54ff53a5f1d36f1;
    0x510e527fade682d1; 0x9b05688c2b3e6c1f; 0x1f83d9abfb41bd6b; 0x5be0cd19137e2179 ].

(** Padding: a one bit, zeros, and the 128-bit length in bits. *)
Definition sha_pad (msg : list Z) : list Z :=
  let n := Z.of_nat (length msg) in
  msg ++ [128] ++ replicate (Z.to_nat ((111 - n) mod 128)) 0 ++ reverse (le_bytes 16 (8 * n)).

(** A block of 128 bytes as 16 big-endian words. *)
Fixpoint sha_words (n : nat) (b : list Z) : list Z :=
  match n with
  | O => []
  | S n' => le_val (reverse (take 8 b)) :: sha_words n' (drop 8 b)
  end.

(** The message schedule, with the last sixteen words kept in a window. *)
Definition sha_next (w : list Z) : Z :=
  w64 (sha_s1 (w !!! 14%nat) + w !!! 9%nat + sha_s0 (w !!! 1%nat) + w !!! 0%nat).

Definition sha_round (s : list Z) (k w : Z) : list Z :=
  match s with
  | [a; b; c; d; e; f; g; h] =>
      let t1 := w64 (h + sha_S1 e + sha_Ch e f g + k + w) in
      let t2 := w64 (sha_S0 a + sha_Maj a b c) in
      [w64 (t1 + t2); a; b; c; w64 (d + t1); e; f; g]
  | _ => s
  end.

Fixpoint sha_rounds (ks w s : list Z) : list Z :=
  match ks with
  | [] => s
  | k :: ks' => sha_rounds ks' (drop 1 w ++ [sha_next w]) (sha_round s k (w !!! 0%nat))
  end.

Definition sha_block (h b : list Z) : list Z :=
  zip_with (λ x y, w64 (x + y)) h (sha_rounds sha_K (sha_words 16 b) h).

Fixpoint sha_blocks (n : nat) (h b : list Z) : list Z :=
  match n with
  | O => h
  | S n' => sha_blocks n' (sha_block h (take 128 b)) (drop 128 b)
  end.

Definition sha512 (msg : list Z) : list Z :=
  let p := sha_pad msg in
  mjoin ((λ x, reverse (le_bytes 8 x)) <$> sha_blocks (length p / 128) sha_H0 p).

(** ** Lemmas *)

Lemma sha_round_length s k w : length (sha_round s k w) = length s.
Proof. unfold sha_round. do 9 (destruct s as [|? s]; try done). Qed.

Lemma sha_rounds_length ks w s : length (sha_rounds ks w s) = length s.
Proof.
  revert w s. induction ks as [|k ks IH]; intros w s; [done|]. cbn [sha_rounds].
  by rewrite IH, sha_round_length.
Qed.

Lemma sha_blocks_length n h b : length (sha_blocks n h b) = length h.
Proof.
  revert h b. induction n as [|n IH]; intros h b; [done|]. cbn [sha_blocks]. rewrite IH.
  unfold sha_block. rewrite length_zip_with, sha_rounds_length. lia.
Qed.

Lemma be_words_ok l :
  length (mjoin ((λ x, reverse (le_bytes 8 x)) <$> l)) = (8 * length l)%nat ∧
  Forall byte_ok (mjoin ((λ x, reverse (le_bytes 8 x)) <$> l)).
Proof.
  induction l as [|x l [IH1 IH2]]; [split; [done|constructor]|].
  rewrite fmap_cons. cbn [mjoin list_join]. rewrite length_app, length_reverse, le_bytes_length.
  split; [cbn [length]; unfold mjoin in *; lia|].
  apply Forall_app. split; [|done]. apply Forall_reverse, le_bytes_ok.
Qed.

Lemma sha512_length msg : length (sha512 msg) = 64%nat.
Proof.
  unfold sha512. destruct (be_words_ok (sha_blocks (length (sha_pad msg) / 128) sha_H0 (sha_pad msg)))
    as [-> _]. by rewrite sha_blocks_length.
Qed.

Lemma sha512_bytes msg : Forall byte_ok (sha512 msg).
Proof. apply be_words_ok. Qed.
