(* ===== verification/Scalar25519.v ===== *)
(** * Scalars modulo the order of the edwards25519 base point

    Models the scalar half of src/signer/edwards25519/edwards25519.go:
    [load3], [load4], [ScMulAdd], [ScReduce], [ScMinimal] and [order].  A scalar
    in flight is a vector of signed 64-bit limbs of 21 bits each; every addition,
    subtraction, multiplication and left shift of the Go code wraps at 64 bits
    here ([i64]).  The theorems show that no wrap ever happens on any input, and
    that the routines return the canonical little-endian encoding of the
    mathematical result modulo the group order. *)

From S2P Require Import Prelude.
From stdpp Require Import base list numbers.
From Stdlib Require Import ZArith Lia.

Open Scope Z_scope.

(** ** Definitions *)

(** The order of the base point, 2^252 + 27742317777372353535851937790883648493. *)
Definition orderL : Z := 2 ^ 252 + 27742317777372353535851937790883648493.

(** [order]: the same number as four little-endian 64-bit words. *)
Definition order : list Z :=
  [0x5812631a5cf5d3ed; 0x14def9dea2f79cd6; 0; 0x1000000000000000].

Definition load3 (b : list Z) : Z :=
  let r := b !!! 0%nat in
  let r := Z.lor r (i64 (Z.shiftl (b !!! 1%nat) 8)) in
  let r := Z.lor r (i64 (Z.shiftl (b !!! 2%nat) 16)) in
  r.

Definition load4 (b : list Z) : Z :=
  let r := b !!! 0%nat in
  let r := Z.lor r (i64 (Z.shiftl (b !!! 1%nat) 8)) in
  let r := Z.lor r (i64 (Z.shiftl (b !!! 2%nat) 16)) in
  let r := Z.lor r (i64 (Z.shiftl (b !!! 3%nat) 24)) in
  r.

(** The twelve limbs [a0 .. a11] that [ScMulAdd] reads from a 32-byte operand. *)
Definition sc_load12 (a : list Z) : list Z :=
  [ Z.land 2097151 (load3 a);
    Z.land 2097151 (Z.shiftr (load4 (drop 2 a)) 5);
    Z.land 2097151 (Z.shiftr (load3 (drop 5 a)) 2);
    Z.land 2097151 (Z.shiftr (load4 (drop 7 a)) 7);
    Z.land 2097151 (Z.shiftr (load4 (drop 10 a)) 4);
    Z.land 2097151 (Z.shiftr (load3 (drop 13 a)) 1);
    Z.land 2097151 (Z.shiftr (load4 (drop 15 a)) 6);
    Z.land 2097151 (Z.shiftr (load3 (drop 18 a)) 3);
    Z.land 2097151 (load3 (drop 21 a));
    Z.land 2097151 (Z.shiftr (load4 (drop 23 a)) 5);
    Z.land 2097151 (Z.shiftr (load3 (drop 26 a)) 2);
    Z.shiftr (load4 (drop 28 a)) 7 ].

(** The twenty-four limbs [s0 .. s23] that [ScReduce] reads from 64 bytes. *)
Definition sc_load24 (s : list Z) : list Z :=
  [ Z.land 2097151 (load3 s);
    Z.land 2097151 (Z.shiftr (load4 (drop 2 s)) 5);
    Z.land 2097151 (Z.shiftr (load3 (drop 5 s)) 2);
    Z.land 2097151 (Z.shiftr (load4 (drop 7 s)) 7);
    Z.land 2097151 (Z.shiftr (load4 (drop 10 s)) 4);
    Z.land 2097151 (Z.shiftr (load3 (drop 13 s)) 1);
    Z.land 2097151 (Z.shiftr (load4 (drop 15 s)) 6);
    Z.land 2097151 (Z.shiftr (load3 (drop 18 s)) 3);
    Z.land 2097151 (load3 (drop 21 s));
    Z.land 2097151 (Z.shiftr (load4 (drop 23 s)) 5);
    Z.land 2097151 (Z.shiftr (load3 (drop 26 s)) 2);
    Z.land 2097151 (Z.shiftr (load4 (drop 28 s)) 7);
    Z.land 2097151 (Z.shiftr (load4 (drop 31 s)) 4);
    Z.land 2097151 (Z.shiftr (load3 (drop 34 s)) 1);
    Z.land 2097151 (Z.shiftr (load4 (drop 36 s)) 6);
    Z.land 2097151 (Z.shiftr (load3 (drop 39 s)) 3);
    Z.land 2097151 (load3 (drop 42 s));
    Z.land 2097151 (Z.shiftr (load4 (drop 44 s)) 5);
    Z.land 2097151 (Z.shiftr (load3 (drop 47 s)) 2);
    Z.land 2097151 (Z.shiftr (load4 (drop 49 s)) 7);
    Z.land 2097151 (Z.shiftr (load4 (drop 52 s)) 4);
    Z.land 2097151 (Z.shiftr (load3 (drop 55 s)) 1);
    Z.land 2097151 (Z.shiftr (load4 (drop 57 s)) 6);
    Z.shiftr (load4 (drop 60 s)) 3 ].

(** The three statement groups the limb arithmetic is made of.  [Round i] is
    [carry[i] = (s_i + (1 << 20)) >> 21; s_{i+1} += carry[i]; s_i -= carry[i] << 21],
    [Floor i] is the same without the rounding addend, and [Fold i] is the group
    that eliminates limb [i] ([s_{i-12} += s_i * 666643; ...; s_i = 0]). *)
Inductive sc_step : Set :=
| Round (i : nat)
| Floor (i : nat)
| Fold (i : nat).

(** The carry group with addend [r]. *)
Definition sc_carry (r : Z) (i : nat) (s : list Z) : list Z :=
  let c := Z.shiftr (i64 (s !!! i + r)) 21 in
  let s := <[ S i := i64 (s !!! S i + c) ]> s in
  <[ i := i64 (s !!! i - i64 (Z.shiftl c 21)) ]> s.

Definition sc_fold (i : nat) (s : list Z) : list Z :=
  let x := s !!! i in
  let s := <[ (i - 12)%nat := i64 (s !!! (i - 12)%nat + i64 (x * 666643)) ]> s in
  let s := <[ (i - 11)%nat := i64 (s !!! (i - 11)%nat + i64 (x * 470296)) ]> s in
  let s := <[ (i - 10)%nat := i64 (s !!! (i - 10)%nat + i64 (x * 654183)) ]> s in
  let s := <[ (i - 9)%nat := i64 (s !!! (i - 9)%nat - i64 (x * 997805)) ]> s in
  let s := <[ (i - 8)%nat := i64 (s !!! (i - 8)%nat + i64 (x * 136657)) ]> s in
  let s := <[ (i - 7)%nat := i64 (s !!! (i - 7)%nat - i64 (x * 683901)) ]> s in
  <[ i := 0 ]> s.

Definition sc_exec (st : sc_step) (s : list Z) : list Z :=
  match st with
  | Round i => sc_carry (2 ^ 20) i s
  | Floor i => sc_carry 0 i s
  | Fold i => sc_fold i s
  end.

Definition sc_run (p : list sc_step) (s : list Z) : list Z :=
  fold_left (λ s st, sc_exec st s) p s.

(** The carry passes that [ScMulAdd] runs on the product before reducing it. *)
Definition sc_mul_carries : list sc_step :=
  Round <$> [0; 2; 4; 6; 8; 10; 12; 14; 16; 18; 20; 22;
             1; 3; 5; 7; 9; 11; 13; 15; 17; 19; 21]%nat.

(** The reduction: the first fold of the high limbs, the carry passes between
    the folds, and the fold that leaves twelve limbs of about 21 bits. *)
Definition sc_reduce_head : list sc_step :=
  (Fold <$> [23; 22; 21; 20; 19; 18]%nat) ++
  (Round <$> [6; 8; 10; 12; 14; 16; 7; 9; 11; 13; 15]%nat) ++
  (Fold <$> [17; 16; 15; 14; 13; 12]%nat) ++
  (Round <$> [0; 2; 4; 6; 8; 10; 1; 3; 5; 7; 9; 11]%nat) ++
  [Fold 12].

(** The last two passes, with floor carries, that make the result canonical. *)
Definition sc_reduce_pass1 : list sc_step :=
  Floor <$> [0; 1; 2; 3; 4; 5; 6; 7; 8; 9; 10; 11]%nat.

Definition sc_reduce_pass2 : list sc_step :=
  Floor <$> [0; 1; 2; 3; 4; 5; 6; 7; 8; 9; 10]%nat.

Definition sc_reduce_limbs (s : list Z) : list Z :=
  sc_run sc_reduce_pass2 (sc_run [Fold 12] (sc_run sc_reduce_pass1 (sc_run sc_reduce_head s))).

(** The 32 output bytes; [byte(x)] keeps the low eight bits. *)
Definition sc_store (s : list Z) : list Z :=
  let s0 := s !!! 0%nat in let s1 := s !!! 1%nat in let s2 := s !!! 2%nat in
  let s3 := s !!! 3%nat in let s4 := s !!! 4%nat in let s5 := s !!! 5%nat in
  let s6 := s !!! 6%nat in let s7 := s !!! 7%nat in let s8 := s !!! 8%nat in
  let s9 := s !!! 9%nat in let s10 := s !!! 10%nat in let s11 := s !!! 11%nat in
  [ u8 (Z.shiftr s0 0);
    u8 (Z.shiftr s0 8);
    u8 (Z.lor (Z.shiftr s0 16) (i64 (Z.shiftl s1 5)));
    u8 (Z.shiftr s1 3);
    u8 (Z.shiftr s1 11);
    u8 (Z.lor (Z.shiftr s1 19) (i64 (Z.shiftl s2 2)));
    u8 (Z.shiftr s2 6);
    u8 (Z.lor (Z.shiftr s2 14) (i64 (Z.shiftl s3 7)));
    u8 (Z.shiftr s3 1);
    u8 (Z.shiftr s3 9);
    u8 (Z.lor (Z.shiftr s3 17) (i64 (Z.shiftl s4 4)));
    u8 (Z.shiftr s4 4);
    u8 (Z.shiftr s4 12);
    u8 (Z.lor (Z.shiftr s4 20) (i64 (Z.shiftl s5 1)));
    u8 (Z.shiftr s5 7);
    u8 (Z.lor (Z.shiftr s5 15) (i64 (Z.shiftl s6 6)));
    u8 (Z.shiftr s6 2);
    u8 (Z.shiftr s6 10);
    u8 (Z.lor (Z.shiftr s6 18) (i64 (Z.shiftl s7 3)));
    u8 (Z.shiftr s7 5);
    u8 (Z.shiftr s7 13);
    u8 (Z.shiftr s8 0);
    u8 (Z.shiftr s8 8);
    u8 (Z.lor (Z.shiftr s8 16) (i64 (Z.shiftl s9 5)));
    u8 (Z.shiftr s9 3);
    u8 (Z.shiftr s9 11);
    u8 (Z.lor (Z.shiftr s9 19) (i64 (Z.shiftl s10 2)));
    u8 (Z.shiftr s10 6);
    u8 (Z.lor (Z.shiftr s10 14) (i64 (Z.shiftl s11 7)));
    u8 (Z.shiftr s11 1);
    u8 (Z.shiftr s11 9);
    u8 (Z.shiftr s11 17) ].

Definition ScReduce (s : list Z) : list Z := sc_store (sc_reduce_limbs (sc_load24 s)).

(** The schoolbook product of [ScMulAdd]: [s0 .. s23] from the limbs of the three
    operands. *)
Definition sc_mul_limbs (a b c : list Z) : list Z :=
  let a0 := a !!! 0%nat in let a1 := a !!! 1%nat in let a2 := a !!! 2%nat in
  let a3 := a !!! 3%nat in let a4 := a !!! 4%nat in let a5 := a !!! 5%nat in
  let a6 := a !!! 6%nat in let a7 := a !!! 7%nat in let a8 := a !!! 8%nat in
  let a9 := a !!! 9%nat in let a10 := a !!! 10%nat in let a11 := a !!! 11%nat in
  let b0 := b !!! 0%nat in let b1 := b !!! 1%nat in let b2 := b !!! 2%nat in
  let b3 := b !!! 3%nat in let b4 := b !!! 4%nat in let b5 := b !!! 5%nat in
  let b6 := b !!! 6%nat in let b7 := b !!! 7%nat in let b8 := b !!! 8%nat in
  let b9 := b !!! 9%nat in let b10 := b !!! 10%nat in let b11 := b !!! 11%nat in
  let c0 := c !!! 0%nat in let c1 := c !!! 1%nat in let c2 := c !!! 2%nat in
  let c3 := c !!! 3%nat in let c4 := c !!! 4%nat in let c5 := c !!! 5%nat in
  let c6 := c !!! 6%nat in let c7 := c !!! 7%nat in let c8 := c !!! 8%nat in
  let c9 := c !!! 9%nat in let c10 := c !!! 10%nat in let c11 := c !!! 11%nat in
  ([ c0 + a0 * b0;
     c1 + a0 * b1 + a1 * b0;
     c2 + a0 * b2 + a1 * b1 + a2 * b0;
     c3 + a0 * b3 + a1 * b2 + a2 * b1 + a3 * b0;
     c4 + a0 * b4 + a1 * b3 + a2 * b2 + a3 * b1 + a4 * b0;
     c5 + a0 * b5 + a1 * b4 + a2 * b3 + a3 * b2 + a4 * b1 + a5 * b0;
     c6 + a0 * b6 + a1 * b5 + a2 * b4 + a3 * b3 + a4 * b2 + a5 * b1 + a6 * b0;
     c7 + a0 * b7 + a1 * b6 + a2 * b5 + a3 * b4 + a4 * b3 + a5 * b2 + a6 * b1 + a7 * b0;
     c8 + a0 * b8 + a1 * b7 + a2 * b6 + a3 * b5 + a4 * b4 + a5 * b3 + a6 * b2 + a7 * b1 + a8 * b0;
     c9 + a0 * b9 + a1 * b8 + a2 * b7 + a3 * b6 + a4 * b5 + a5 * b4 + a6 * b3 + a7 * b2 + a8 * b1 + a9 * b0;
     c10 + a0 * b10 + a1 * b9 + a2 * b8 + a3 * b7 + a4 * b6 + a5 * b5 + a6 * b4 + a7 * b3 + a8 * b2 + a9 * b1 + a10 * b0;
     c11 + a0 * b11 + a1 * b10 + a2 * b9 + a3 * b8 + a4 * b7 + a5 * b6 + a6 * b5 + a7 * b4 + a8 * b3 + a9 * b2 + a10 * b1 + a11 * b0;
     a1 * b11 + a2 * b10 + a3 * b9 + a4 * b8 + a5 * b7 + a6 * b6 + a7 * b5 + a8 * b4 + a9 * b3 + a10 * b2 + a11 * b1;
     a2 * b11 + a3 * b10 + a4 * b9 + a5 * b8 + a6 * b7 + a7 * b6 + a8 * b5 + a9 * b4 + a10 * b3 + a11 * b2;
     a3 * b11 + a4 * b10 + a5 * b9 + a6 * b8 + a7 * b7 + a8 * b6 + a9 * b5 + a10 * b4 + a11 * b3;
     a4 * b11 + a5 * b10 + a6 * b9 + a7 * b8 + a8 * b7 + a9 * b6 + a10 * b5 + a11 * b4;
     a5 * b11 + a6 * b10 + a7 * b9 + a8 * b8 + a9 * b7 + a10 * b6 + a11 * b5;
     a6 * b11 + a7 * b10 + a8 * b9 + a9 * b8 + a10 * b7 + a11 * b6;
     a7 * b11 + a8 * b10 + a9 * b9 + a10 * b8 + a11 * b7;
     a8 * b11 + a9 * b10 + a10 * b9 + a11 * b8;
     a9 * b11 + a10 * b10 + a11 * b9;
     a10 * b11 + a11 * b10;
     a11 * b11;
     0 ])%i64.

Definition ScMulAdd (a b c : list Z) : list Z :=
  sc_store (sc_reduce_limbs (sc_run sc_mul_carries
    (sc_mul_limbs (sc_load12 a) (sc_load12 b) (sc_load12 c)))).

(** [binary.LittleEndian.Uint64] on the [i]-th 8-byte word. *)
Definition word64 (scalar : list Z) (i : nat) : Z := le_val (take 8 (drop (i * 8) scalar)).

(** The loop of [ScMinimal], from word [i] down to word 0. *)
Fixpoint sc_minimal_from (scalar : list Z) (i : nat) : bool :=
  let v := word64 scalar i in
  if order !!! i <? v then false
  else if v <? order !!! i then true
  else match i with
       | O => false
       | S i' => sc_minimal_from scalar i'
       end.

Definition ScMinimal (scalar : list Z) : bool := sc_minimal_from scalar 3.

(** *** What the routines are measured against *)

(** The number a vector of 21-bit limbs stands for. *)
Fixpoint limbs_val (s : list Z) : Z :=
  match s with
  | [] => 0
  | x :: s' => x + 2 ^ 21 * limbs_val s'
  end.

(** An interval for each limb. *)
Definition within (x : Z) (iv : Z * Z) : Prop := iv.1 ≤ x ≤ iv.2.

Definition limbs_in (s : list Z) (ivs : list (Z * Z)) : Prop := Forall2 within s ivs.

(** The same statement groups on unbounded integers. *)
Definition carryZ (r : Z) (i : nat) (s : list Z) : list Z :=
  let c := (s !!! i + r) / 2 ^ 21 in
  let s := <[ S i := s !!! S i + c ]> s in
  <[ i := s !!! i - c * 2 ^ 21 ]> s.

Definition addmulZ (j : nat) (k x : Z) (s : list Z) : list Z := <[ j := s !!! j + x * k ]> s.

Definition foldZ (i : nat) (s : list Z) : list Z :=
  let x := s !!! i in
  <[ i := 0 ]>
    (addmulZ (i - 7) (- 683901) x (addmulZ (i - 8) 136657 x (addmulZ (i - 9) (- 997805) x
      (addmulZ (i - 10) 654183 x (addmulZ (i - 11) 470296 x (addmulZ (i - 12) 666643 x s)))))).

Definition execZ (st : sc_step) (s : list Z) : list Z :=
  match st with
  | Round i => carryZ (2 ^ 20) i s
  | Floor i => carryZ 0 i s
  | Fold i => foldZ i s
  end.

Definition runZ (p : list sc_step) (s : list Z) : list Z := fold_left (λ s st, execZ st s) p s.

(** Interval analysis of the statement groups: [None] when a 64-bit operation
    could overflow. *)
Definition fits (lo hi : Z) : bool := (- 2 ^ 63 <=? lo) && (hi <? 2 ^ 63).

Definition abs_carry (r : Z) (i : nat) (ivs : list (Z * Z)) : option (list (Z * Z)) :=
  let x := ivs !!! i in
  let y := ivs !!! S i in
  let c := ((x.1 + r) / 2 ^ 21, (x.2 + r) / 2 ^ 21) in
  if (S i <? length ivs)%nat && fits (x.1 + r) (x.2 + r) && fits (c.1 * 2 ^ 21) (c.2 * 2 ^ 21)
     && fits (y.1 + c.1) (y.2 + c.2) && fits (- r) (2 ^ 21 - 1 - r)
  then Some (<[ i := (- r, 2 ^ 21 - 1 - r) ]> (<[ S i := (y.1 + c.1, y.2 + c.2) ]> ivs))
  else None.

Definition abs_addmul (j : nat) (k : Z) (x : Z * Z) (ivs : list (Z * Z)) : option (list (Z * Z)) :=
  let y := ivs !!! j in
  let m := (Z.min (x.1 * k) (x.2 * k), Z.max (x.1 * k) (x.2 * k)) in
  if (j <? length ivs)%nat && fits (y.1 + m.1) (y.2 + m.2)
  then Some (<[ j := (y.1 + m.1, y.2 + m.2) ]> ivs)
  else None.

Definition abs_fold (i : nat) (ivs : list (Z * Z)) : option (list (Z * Z)) :=
  let x := ivs !!! i in
  if (i <? length ivs)%nat then
    ivs ← abs_addmul (i - 12) 666643 x ivs;
    ivs ← abs_addmul (i - 11) 470296 x ivs;
    ivs ← abs_addmul (i - 10) 654183 x ivs;
    ivs ← abs_addmul (i - 9) (- 997805) x ivs;
    ivs ← abs_addmul (i - 8) 136657 x ivs;
    ivs ← abs_addmul (i - 7) (- 683901) x ivs;
    Some (<[ i := (0, 0) ]> ivs)
  else None.

Definition abs_exec (st : sc_step) (ivs : list (Z * Z)) : option (list (Z * Z)) :=
  match st with
  | Round i => abs_carry (2 ^ 20) i ivs
  | Floor i => abs_carry 0 i ivs
  | Fold i => abs_fold i ivs
  end.

Fixpoint abs_run (p : list sc_step) (ivs : list (Z * Z)) : option (list (Z * Z)) :=
  match p with
  | [] => Some ivs
  | st :: p' => ivs' ← abs_exec st ivs; abs_run p' ivs'
  end.

(** The limbs a statement group touches exist. *)
Definition step_in_range (n : nat) (st : sc_step) : bool :=
  match st with
  | Round i | Floor i => (S i <? n)%nat
  | Fold i => (12 <=? i)%nat && (i <? n)%nat
  end.

Definition is_floor (n : nat) (st : sc_step) : bool :=
  match st with
  | Floor i => (S i <? n)%nat
  | _ => false
  end.

(** The base-2^21 digits of a number, the last one unreduced. *)
Definition digits_of (n : nat) (x : Z) : list Z :=
  (fix go (n : nat) (x : Z) : list Z :=
     match n with
     | O => [x]
     | S n' => x mod 2 ^ 21 :: go n' (x / 2 ^ 21)
     end) n x.

(** Twenty-five bits: the width of the top operand limb. *)
Definition small25 (x : Z) : Prop := 0 ≤ x < 2 ^ 25.

(** The interval check of a whole reduction: no overflow, a value between
    [-orderL] and [2^252] after the folds, and limbs of the final shape. *)
Definition abs_final (ivs : list (Z * Z)) : bool :=
  bool_decide (take 11 ivs = replicate 11 (0, 2 ^ 21 - 1))
  && bool_decide (drop 12 ivs = replicate 12 (0, 0)).

Definition abs_passes (ivs : list (Z * Z)) : bool :=
  match abs_run sc_reduce_pass1 ivs with
  | None => false
  | Some ivs2 =>
      bool_decide (ivs2 = replicate 12 (0, 2 ^ 21 - 1) ++ [(-1, 0)] ++ replicate 11 (0, 0)) &&
      match abs_run [Fold 12] ivs2 with
      | None => false
      | Some ivs3 =>
          match abs_run sc_reduce_pass2 ivs3 with
          | None => false
          | Some ivs4 => abs_final ivs4
          end
      end
  end.

Definition abs_reduce (ivs : list (Z * Z)) : bool :=
  match abs_run sc_reduce_head ivs with
  | None => false
  | Some ivs1 =>
      (- orderL <? limbs_val (ivs1.*1)) && (limbs_val (ivs1.*2) <? 2 ^ 252) && abs_passes ivs1
  end.

(** ** Soundness of the interval analysis *)

Lemma fits_in_sint lo hi x : fits lo hi = true → lo ≤ x ≤ hi → in_sint 64 x.
Proof.
  unfold fits, in_sint. rewrite andb_true_iff, Z.leb_le, Z.ltb_lt.
  change (64 - 1) with 63. lia.
Qed.

Lemma i64_fits lo hi x : fits lo hi = true → lo ≤ x ≤ hi → i64 x = x.
Proof. intros. apply sint_small; [lia|]. by eapply fits_in_sint. Qed.

Lemma limbs_in_lookup s ivs i :
  limbs_in s ivs → (i < length ivs)%nat → within (s !!! i) (ivs !!! i).
Proof.
  intros H Hi. destruct (lookup_lt_is_Some_2 ivs i Hi) as [iv Hiv].
  destruct (Forall2_lookup_r _ _ _ _ _ H Hiv) as (x & Hx & Hw).
  by rewrite (list_lookup_total_correct _ _ _ Hx), (list_lookup_total_correct _ _ _ Hiv).
Qed.

Lemma limbs_in_insert s ivs i x iv :
  limbs_in s ivs → within x iv → limbs_in (<[i := x]> s) (<[i := iv]> ivs).
Proof. intros. by apply Forall2_insert. Qed.

Lemma carry_sound r i s ivs ivs' :
  limbs_in s ivs → abs_carry r i ivs = Some ivs' →
  sc_carry r i s = carryZ r i s ∧ limbs_in (carryZ r i s) ivs'.
Proof.
  intros Hs. unfold abs_carry.
  destruct ((S i <? length ivs)%nat && _ && _ && _ && _) eqn:E; [|done].
  intros [= <-]. rewrite !andb_true_iff in E.
  destruct E as [[[[Hl F1] F2] F3] F4]. apply Nat.ltb_lt in Hl.
  pose proof (limbs_in_lookup s ivs i Hs ltac:(lia)) as Hx.
  pose proof (limbs_in_lookup s ivs (S i) Hs Hl) as Hy.
  unfold within in Hx, Hy. cbn [fst snd] in *.
  set (x := s !!! i) in *. set (y := s !!! S i) in *.
  set (c := (x + r) / 2 ^ 21).
  assert ((ivs !!! i).1 + r ≤ x + r ≤ (ivs !!! i).2 + r) as B1 by lia.
  assert (((ivs !!! i).1 + r) / 2 ^ 21 ≤ c ≤ ((ivs !!! i).2 + r) / 2 ^ 21) as B2.
  { split; apply Z.div_le_mono; lia. }
  assert (- r ≤ x - c * 2 ^ 21 ≤ 2 ^ 21 - 1 - r) as B3.
  { unfold c. pose proof (Z.div_mod (x + r) (2 ^ 21)). pose proof (Z.mod_pos_bound (x + r) (2 ^ 21)). lia. }
  assert (<[S i := y + c]> s !!! i = x) as Hsi.
  { rewrite list_lookup_total_insert_ne by lia. done. }
  split.
  - unfold sc_carry, carryZ. cbv zeta. fold x y. rewrite (i64_fits _ _ _ F1 B1).
    rewrite Z.shiftr_div_pow2 by lia. fold c.
    rewrite (i64_fits _ _ (y + c) F3) by lia.
    rewrite Hsi. rewrite Z.shiftl_mul_pow2 by lia.
    rewrite (i64_fits _ _ (c * 2 ^ 21) F2) by lia.
    by rewrite (i64_fits _ _ _ F4 B3).
  - unfold carryZ. cbv zeta. fold x y. fold c. rewrite Hsi.
    apply limbs_in_insert; [apply limbs_in_insert; [done|]|exact B3].
    unfold within. cbn [fst snd]. split; apply Z.add_le_mono; tauto.
Qed.

Lemma mul_between k x lo hi :
  lo ≤ x ≤ hi → Z.min (lo * k) (hi * k) ≤ x * k ≤ Z.max (lo * k) (hi * k).
Proof.
  intros [H1 H2]. destruct (Z.le_ge_cases 0 k) as [Hk|Hk].
  - pose proof (Z.mul_le_mono_nonneg_r _ _ k Hk H1).
    pose proof (Z.mul_le_mono_nonneg_r _ _ k Hk H2). lia.
  - pose proof (Z.mul_le_mono_nonpos_r _ _ k Hk H1).
    pose proof (Z.mul_le_mono_nonpos_r _ _ k Hk H2). lia.
Qed.

Lemma addmul_sound j k x xiv s ivs ivs' :
  limbs_in s ivs → within x xiv → abs_addmul j k xiv ivs = Some ivs' →
  <[ j := i64 (s !!! j + x * k) ]> s = addmulZ j k x s ∧ limbs_in (addmulZ j k x s) ivs' ∧
  length ivs' = length ivs.
Proof.
  intros Hs Hx. unfold abs_addmul.
  destruct ((j <? length ivs)%nat && _) eqn:E; [|done].
  intros [= <-]. rewrite andb_true_iff in E. destruct E as [Hl F]. apply Nat.ltb_lt in Hl.
  pose proof (limbs_in_lookup s ivs j Hs Hl) as Hy. unfold within in *. cbn [fst snd] in *.
  pose proof (mul_between k x xiv.1 xiv.2 Hx).
  split; [|split].
  - unfold addmulZ. f_equal. apply (i64_fits _ _ _ F). lia.
  - apply limbs_in_insert; [done|]. unfold within. cbn [fst snd]. split; apply Z.add_le_mono; tauto.
  - by rewrite length_insert.
Qed.

Lemma addmul_unwrap_add (s : list Z) (j : nat) k x : i64 (s !!! j + i64 (x * k)) = i64 (s !!! j + x * k).
Proof. by rewrite sint_add_r. Qed.

Lemma addmul_unwrap_sub (s : list Z) (j : nat) k x : i64 (s !!! j - i64 (x * k)) = i64 (s !!! j + x * - k).
Proof. rewrite sint_sub_r by lia. f_equal. lia. Qed.

Lemma fold_sound i s ivs ivs' :
  limbs_in s ivs → abs_fold i ivs = Some ivs' →
  sc_fold i s = foldZ i s ∧ limbs_in (foldZ i s) ivs'.
Proof.
  intros Hs. unfold abs_fold, sc_fold, foldZ. cbv zeta.
  destruct (i <? length ivs)%nat eqn:Hl; [|done]. apply Nat.ltb_lt in Hl.
  pose proof (limbs_in_lookup s ivs i Hs Hl) as Hx. revert Hx.
  generalize (s !!! i) as x, (ivs !!! i) as xiv. intros x xiv Hx H.
  rewrite !addmul_unwrap_add, !addmul_unwrap_sub.
  change (Z.opp 997805) with (-997805). change (Z.opp 683901) with (-683901).
  repeat match goal with
  | H : (_ ← _; _) = Some _ |- _ =>
      apply bind_Some in H; destruct H as (? & ? & H)
  end.
  injection H as <-.
  repeat match goal with
  | Hs : limbs_in ?s ?ivs, H : abs_addmul _ _ _ ?ivs = Some _ |- _ =>
      destruct (addmul_sound _ _ _ _ _ _ _ Hs Hx H) as (-> & ? & _); clear H
  end.
  split; [done|].
  apply limbs_in_insert; [done|]. unfold within. cbn [fst snd]. lia.
Qed.

Lemma exec_sound st s ivs ivs' :
  limbs_in s ivs → abs_exec st ivs = Some ivs' →
  sc_exec st s = execZ st s ∧ limbs_in (execZ st s) ivs'.
Proof. destruct st; [apply carry_sound|apply carry_sound|apply fold_sound]. Qed.

Lemma run_sound p s ivs ivs' :
  limbs_in s ivs → abs_run p ivs = Some ivs' →
  sc_run p s = runZ p s ∧ limbs_in (runZ p s) ivs'.
Proof.
  unfold sc_run, runZ. revert s ivs.
  induction p as [|st p IH]; intros s ivs Hs; cbn [abs_run fold_left].
  - by intros [= <-].
  - intros (ivs1 & H1 & H2)%bind_Some.
    destruct (exec_sound st s ivs ivs1 Hs H1) as [-> Hs1]. by apply (IH _ ivs1).
Qed.

(** ** The statement groups and the number they represent *)

Lemma limbs_val_insert s i x :
  (i < length s)%nat →
  limbs_val (<[i := x]> s) = limbs_val s + (x - s !!! i) * 2 ^ (21 * Z.of_nat i).
Proof.
  revert i. induction s as [|y s IH]; intros i Hi; cbn [length] in Hi; [lia|].
  destruct i as [|i].
  - cbn [insert list_insert limbs_val]. rewrite Z.mul_0_r, Z.pow_0_r.
    change ((y :: s) !!! 0%nat) with y. lia.
  - cbn [insert list_insert limbs_val]. fold (<[i := x]> s).
    change (list_insert i x s) with (<[i := x]> s).
    rewrite IH by lia. change ((y :: s) !!! S i) with (s !!! i).
    replace (21 * Z.of_nat (S i)) with (21 + 21 * Z.of_nat i) by lia.
    rewrite Z.pow_add_r by lia. lia.
Qed.

Lemma carryZ_val r i s :
  (S i < length s)%nat → limbs_val (carryZ r i s) = limbs_val s.
Proof.
  intros Hi. unfold carryZ. cbv zeta.
  rewrite limbs_val_insert by (rewrite length_insert; lia).
  rewrite limbs_val_insert by lia. rewrite list_lookup_total_insert_ne by lia.
  replace (21 * Z.of_nat (S i)) with (21 + 21 * Z.of_nat i) by lia.
  rewrite Z.pow_add_r by lia. lia.
Qed.

Lemma addmulZ_val j k x s :
  (j < length s)%nat →
  limbs_val (addmulZ j k x s) = limbs_val s + x * k * 2 ^ (21 * Z.of_nat j).
Proof. intros Hj. unfold addmulZ. rewrite limbs_val_insert by done. lia. Qed.

Lemma addmulZ_length j k x s : length (addmulZ j k x s) = length s.
Proof. apply length_insert. Qed.

Lemma addmulZ_lookup_ne j k x s i : j ≠ i → addmulZ j k x s !!! i = s !!! i.
Proof. apply list_lookup_total_insert_ne. Qed.

Lemma foldZ_val i s :
  (12 ≤ i < length s)%nat →
  limbs_val (foldZ i s) = limbs_val s - s !!! i * 2 ^ (21 * Z.of_nat (i - 12)) * orderL.
Proof.
  intros Hi. unfold foldZ. cbv zeta.
  rewrite limbs_val_insert by (rewrite !addmulZ_length; lia).
  rewrite !addmulZ_lookup_ne by lia. rewrite !addmulZ_val by (rewrite ?addmulZ_length; lia).
  generalize (s !!! i) as x. intros x.
  replace (Z.of_nat i) with (12 + Z.of_nat (i - 12)) by lia.
  replace (Z.of_nat (i - 7)) with (5 + Z.of_nat (i - 12)) by lia.
  replace (Z.of_nat (i - 8)) with (4 + Z.of_nat (i - 12)) by lia.
  replace (Z.of_nat (i - 9)) with (3 + Z.of_nat (i - 12)) by lia.
  replace (Z.of_nat (i - 10)) with (2 + Z.of_nat (i - 12)) by lia.
  replace (Z.of_nat (i - 11)) with (1 + Z.of_nat (i - 12)) by lia.
  rewrite !Z.mul_add_distr_l, !Z.pow_add_r by lia.
  generalize (2 ^ (21 * Z.of_nat (i - 12))) as w. intros w. unfold orderL. lia.
Qed.

Lemma execZ_length st s : length (execZ st s) = length s.
Proof.
  destruct st; cbn [execZ]; unfold carryZ, foldZ; cbv zeta;
    by rewrite !length_insert, ?addmulZ_length.
Qed.

Lemma execZ_val st s :
  step_in_range (length s) st = true → limbs_val (execZ st s) ≡⟨ orderL ⟩ limbs_val s.
Proof.
  destruct st as [i|i|i]; cbn [step_in_range execZ].
  - intros H%Nat.ltb_lt. by rewrite carryZ_val.
  - intros H%Nat.ltb_lt. by rewrite carryZ_val.
  - rewrite andb_true_iff, Nat.leb_le, Nat.ltb_lt. intros H. rewrite foldZ_val by done.
    apply cong_divide; [done|]. exists (- (s !!! i * 2 ^ (21 * Z.of_nat (i - 12)))). lia.
Qed.

Lemma runZ_length p s : length (runZ p s) = length s.
Proof.
  unfold runZ. revert s. induction p as [|st p IH]; intros s; cbn [fold_left]; [done|].
  by rewrite IH, execZ_length.
Qed.

Lemma runZ_val p s :
  forallb (step_in_range (length s)) p = true → limbs_val (runZ p s) ≡⟨ orderL ⟩ limbs_val s.
Proof.
  unfold runZ. revert s. induction p as [|st p IH]; intros s; cbn [fold_left forallb]; [done|].
  rewrite andb_true_iff. intros [H1 H2]. rewrite IH by (by rewrite execZ_length).
  by apply execZ_val.
Qed.

(** ** Reading operands *)

Lemma digits_of_val n x : limbs_val (digits_of n x) = x.
Proof.
  revert x. induction n as [|n IH]; intros x.
  - cbn [digits_of limbs_val]. lia.
  - change (digits_of (S n) x) with (x mod 2 ^ 21 :: digits_of n (x / 2 ^ 21)).
    cbn [limbs_val]. rewrite IH. pose proof (Z.div_mod x (2 ^ 21)). lia.
Qed.

Lemma load3_val b :
  Forall byte_ok b → (3 ≤ length b)%nat → load3 b = le_val b mod 2 ^ 24.
Proof.
  intros Hb Hl. destruct b as [|b0 [|b1 [|b2 b]]]; cbn [length] in Hl; try lia.
  decompose_Forall_hyps. unfold byte_ok in *.
  unfold load3. cbv zeta.
  change ((b0 :: b1 :: b2 :: b) !!! 0%nat) with b0.
  change ((b0 :: b1 :: b2 :: b) !!! 1%nat) with b1.
  change ((b0 :: b1 :: b2 :: b) !!! 2%nat) with b2.
  rewrite !Z.shiftl_mul_pow2 by lia.
  rewrite !(sint_small 64) by (unfold in_sint; lia).
  rewrite (lor_disjoint b0 b1), (lor_disjoint _ b2) by lia. cbn [le_val].
  replace (b0 + 256 * (b1 + 256 * (b2 + 256 * le_val b)))
    with (b0 + b1 * 2 ^ 8 + b2 * 2 ^ 16 + le_val b * 2 ^ 24) by lia.
  rewrite Z.mod_add, Z.mod_small by lia. done.
Qed.

Lemma load4_val b :
  Forall byte_ok b → (4 ≤ length b)%nat → load4 b = le_val b mod 2 ^ 32.
Proof.
  intros Hb Hl. destruct b as [|b0 [|b1 [|b2 [|b3 b]]]]; cbn [length] in Hl; try lia.
  decompose_Forall_hyps. unfold byte_ok in *.
  unfold load4. cbv zeta.
  change ((b0 :: b1 :: b2 :: b3 :: b) !!! 0%nat) with b0.
  change ((b0 :: b1 :: b2 :: b3 :: b) !!! 1%nat) with b1.
  change ((b0 :: b1 :: b2 :: b3 :: b) !!! 2%nat) with b2.
  change ((b0 :: b1 :: b2 :: b3 :: b) !!! 3%nat) with b3.
  rewrite !Z.shiftl_mul_pow2 by lia.
  rewrite !(sint_small 64) by (unfold in_sint; lia).
  rewrite (lor_disjoint b0 b1), (lor_disjoint _ b2), (lor_disjoint _ b3) by lia. cbn [le_val].
  replace (b0 + 256 * (b1 + 256 * (b2 + 256 * (b3 + 256 * le_val b))))
    with (b0 + b1 * 2 ^ 8 + b2 * 2 ^ 16 + b3 * 2 ^ 24 + le_val b * 2 ^ 32) by lia.
  rewrite Z.mod_add, Z.mod_small by lia. done.
Qed.

(** A masked load at byte [k], bit [j] is a window of the number. *)
Lemma window3 k j bs :
  Forall byte_ok bs → (k + 3 ≤ length bs)%nat → 0 ≤ j ≤ 3 →
  Z.land 2097151 (Z.shiftr (load3 (drop k bs)) j)
  = le_val bs / 2 ^ (8 * Z.of_nat k + j) mod 2 ^ 21.
Proof.
  intros Hb Hl Hj. rewrite load3_val by (rewrite ?length_drop; (lia || by apply Forall_drop)).
  change 2097151 with (2 ^ 21 - 1). rewrite land_mask, Z.shiftr_div_pow2 by lia.
  rewrite mod_div_mod, le_val_drop by (try done; lia). rewrite Z.div_div by lia.
  change 256 with (2 ^ 8). rewrite <- Z.pow_mul_r, <- Z.pow_add_r by lia. done.
Qed.

Lemma window4 k j bs :
  Forall byte_ok bs → (k + 4 ≤ length bs)%nat → 0 ≤ j ≤ 11 →
  Z.land 2097151 (Z.shiftr (load4 (drop k bs)) j)
  = le_val bs / 2 ^ (8 * Z.of_nat k + j) mod 2 ^ 21.
Proof.
  intros Hb Hl Hj. rewrite load4_val by (rewrite ?length_drop; (lia || by apply Forall_drop)).
  change 2097151 with (2 ^ 21 - 1). rewrite land_mask, Z.shiftr_div_pow2 by lia.
  rewrite mod_div_mod, le_val_drop by (try done; lia). rewrite Z.div_div by lia.
  change 256 with (2 ^ 8). rewrite <- Z.pow_mul_r, <- Z.pow_add_r by lia. done.
Qed.

(** The last load is not masked: it reads the top of the number. *)
Lemma window_top k j bs :
  Forall byte_ok bs → length bs = (k + 4)%nat → 0 ≤ j →
  Z.shiftr (load4 (drop k bs)) j = le_val bs / 2 ^ (8 * Z.of_nat k + j).
Proof.
  intros Hb Hl Hj. rewrite load4_val by (rewrite ?length_drop; (lia || by apply Forall_drop)).
  rewrite Z.shiftr_div_pow2 by lia. rewrite Z.mod_small.
  - rewrite le_val_drop, Z.div_div by (try done; lia).
    change 256 with (2 ^ 8). rewrite <- Z.pow_mul_r, <- Z.pow_add_r by lia. done.
  - pose proof (le_val_range (drop k bs)) as H. rewrite length_drop, Hl in H.
    replace (k + 4 - k)%nat with 4%nat in H by lia. apply H. by apply Forall_drop.
Qed.

Ltac load_windows :=
  repeat first
    [ rewrite window4 by (try done; lia)
    | rewrite window3 by (try done; lia)
    | rewrite window_top by (try done; lia) ].

Lemma sc_load12_digits a :
  Forall byte_ok a → length a = 32%nat → sc_load12 a = digits_of 11 (le_val a).
Proof.
  intros Ha Hl. unfold sc_load12.
  rewrite <- (Z.shiftr_0_r (load3 a)), <- (drop_0 a) at 1.
  rewrite <- (Z.shiftr_0_r (load3 (drop 21 a))).
  load_windows. unfold digits_of. rewrite !Z.div_div by lia.
  by rewrite Z.div_1_r.
Qed.

Lemma sc_load24_digits a :
  Forall byte_ok a → length a = 64%nat → sc_load24 a = digits_of 23 (le_val a).
Proof.
  intros Ha Hl. unfold sc_load24.
  rewrite <- (Z.shiftr_0_r (load3 a)), <- (drop_0 a) at 1.
  rewrite <- (Z.shiftr_0_r (load3 (drop 21 a))), <- (Z.shiftr_0_r (load3 (drop 42 a))).
  load_windows. unfold digits_of. rewrite !Z.div_div by lia.
  by rewrite Z.div_1_r.
Qed.

(** ** The reduction leaves the canonical residue *)

Lemma limbs_val_mono s ivs :
  limbs_in s ivs → limbs_val (ivs.*1) ≤ limbs_val s ≤ limbs_val (ivs.*2).
Proof.
  unfold limbs_in. induction 1 as [|x [lo hi] s ivs Hx _ IH]; [done|].
  rewrite !fmap_cons. cbn [limbs_val fst snd]. unfold within in Hx. cbn [fst snd] in Hx. lia.
Qed.

Lemma limbs_val_app s t :
  limbs_val (s ++ t) = limbs_val s + 2 ^ (21 * Z.of_nat (length s)) * limbs_val t.
Proof.
  induction s as [|x s IH].
  - cbn [app limbs_val length]. change (2 ^ (21 * Z.of_nat 0)) with 1. lia.
  - cbn [app limbs_val length]. rewrite IH.
    replace (21 * Z.of_nat (S (length s))) with (21 + 21 * Z.of_nat (length s)) by lia.
    rewrite Z.pow_add_r by lia. lia.
Qed.

Lemma runZ_floor_val p s :
  forallb (is_floor (length s)) p = true → limbs_val (runZ p s) = limbs_val s.
Proof.
  unfold runZ. revert s. induction p as [|st p IH]; intros s; cbn [fold_left forallb]; [done|].
  rewrite andb_true_iff. intros [H1 H2]. rewrite IH by (by rewrite execZ_length).
  destruct st as [i|i|i]; try discriminate. apply carryZ_val. by apply Nat.ltb_lt.
Qed.

Lemma limbs_in_length s ivs : limbs_in s ivs → length s = length ivs.
Proof. apply Forall2_length. Qed.

(** After the first floor pass, folding limb 12 lands in [0, orderL). *)
Lemma fold_canonical s :
  limbs_in s (replicate 12 (0, 2 ^ 21 - 1) ++ [(-1, 0)] ++ replicate 11 (0, 0)) →
  - orderL < limbs_val s < 2 ^ 252 →
  0 ≤ limbs_val (foldZ 12 s) < orderL.
Proof.
  intros Hs HV. pose proof (limbs_in_length _ _ Hs) as Hl. cbn in Hl.
  rewrite foldZ_val by lia. change (2 ^ (21 * Z.of_nat (12 - 12))) with 1.
  apply Forall2_app_inv_r in Hs as (lo & hi & Hlo & Hhi & ->).
  assert (0 ≤ limbs_val lo ≤ 2 ^ 252 - 1) as Blo by exact (limbs_val_mono _ _ Hlo).
  pose proof (limbs_in_length _ _ Hlo) as Llo.
  apply Forall2_app_inv_r in Hhi as (q & z & Hq & Hz & ->).
  assert (0 ≤ limbs_val z ≤ 0) as Bz by exact (limbs_val_mono _ _ Hz).
  inversion Hq as [|x iv q' ivs' Hx Hn]; subst. inversion Hn; subst.
  rewrite !limbs_val_app, Llo in *. cbn [length replicate] in *.
  rewrite lookup_total_app_r by lia. rewrite Llo. cbn [app] in *.
  change ((x :: z) !!! (12 - 12)%nat) with x.
  unfold within in Hx. cbn [fst snd] in Hx. cbn [limbs_val] in *.
  change (2 ^ (21 * Z.of_nat 12)) with (2 ^ 252) in *.
  assert (limbs_val z = 0) as Ez by lia. rewrite Ez in *. clear Ez Bz.
  assert (x = 0 ∨ x = -1) as [-> | ->] by lia; unfold orderL in *; lia.
Qed.

Lemma reduce_limbs_spec s ivs :
  limbs_in s ivs → length s = 24%nat → abs_reduce ivs = true →
  limbs_val (sc_reduce_limbs s) = limbs_val s mod orderL ∧
  length (sc_reduce_limbs s) = 24%nat ∧
  ∃ ivs', limbs_in (sc_reduce_limbs s) ivs' ∧ abs_final ivs' = true.
Proof.
  intros Hs Hl. unfold abs_reduce, abs_passes.
  destruct (abs_run sc_reduce_head ivs) as [ivs1|] eqn:E1; [|done].
  destruct (abs_run sc_reduce_pass1 ivs1) as [ivs2|] eqn:E2; [|by rewrite andb_false_r].
  destruct (abs_run [Fold 12] ivs2) as [ivs3|] eqn:E3; [|by rewrite !andb_false_r].
  destruct (abs_run sc_reduce_pass2 ivs3) as [ivs4|] eqn:E4; [|by rewrite !andb_false_r].
  rewrite !andb_true_iff, !Z.ltb_lt, bool_decide_eq_true. intros ([B1 B2] & S2 & S4).
  destruct (run_sound _ _ _ _ Hs E1) as [R1 H1].
  destruct (run_sound _ _ _ _ H1 E2) as [R2 H2].
  destruct (run_sound _ _ _ _ H2 E3) as [R3 H3].
  destruct (run_sound _ _ _ _ H3 E4) as [R4 H4].
  unfold sc_reduce_limbs. rewrite R1, R2, R3, R4.
  split; [|split; [by rewrite !runZ_length|by exists ivs4]].
  pose proof (limbs_val_mono _ _ H1) as M1.
  rewrite runZ_floor_val by (by rewrite !runZ_length, Hl).
  set (s1 := runZ sc_reduce_head s) in *.
  assert (limbs_val (runZ sc_reduce_pass1 s1) = limbs_val s1) as V2
    by (apply runZ_floor_val; unfold s1; by rewrite runZ_length, Hl).
  assert (limbs_val (runZ [Fold 12] (runZ sc_reduce_pass1 s1)) ≡⟨ orderL ⟩ limbs_val s) as V3.
  { rewrite runZ_val, V2 by (unfold s1; by rewrite !runZ_length, Hl).
    apply runZ_val. by rewrite Hl. }
  unfold cong in V3. rewrite <- V3. symmetry. apply Z.mod_small.
  apply fold_canonical; [by rewrite <- S2|]. rewrite V2. lia.
Qed.

(** ** Writing the result *)

Lemma limbs_val_shift x s j :
  0 ≤ x < 2 ^ 21 → 21 ≤ j → limbs_val (x :: s) / 2 ^ j = limbs_val s / 2 ^ (j - 21).
Proof.
  intros Hx Hj. cbn [limbs_val]. replace j with (21 + (j - 21)) at 1 by lia.
  rewrite Z.pow_add_r, <- Z.div_div by lia.
  rewrite (Z.mul_comm (2 ^ 21)), Z.div_add, (Z.div_small x) by lia. done.
Qed.

Lemma byte_inside x s j :
  0 ≤ j ≤ 13 → limbs_val (x :: s) / 2 ^ j mod 2 ^ 8 = x / 2 ^ j mod 2 ^ 8.
Proof.
  intros Hj. cbn [limbs_val]. replace (2 ^ 21) with (2 ^ (13 - j) * 2 ^ 8 * 2 ^ j)
    by (rewrite <- !Z.pow_add_r by lia; f_equal; lia).
  replace (2 ^ (13 - j) * 2 ^ 8 * 2 ^ j * limbs_val s)
    with ((limbs_val s * 2 ^ (13 - j) * 2 ^ 8) * 2 ^ j) by lia.
  rewrite Z.div_add by lia. by rewrite Z.mod_add by lia.
Qed.

Lemma byte_across x y s j :
  0 ≤ x < 2 ^ 21 → 0 ≤ y < 2 ^ 22 → 13 ≤ j ≤ 20 →
  u8 (Z.lor (Z.shiftr x j) (i64 (Z.shiftl y (21 - j))))
  = limbs_val (x :: y :: s) / 2 ^ j mod 2 ^ 8.
Proof.
  intros Hx Hy Hj. rewrite Z.shiftr_div_pow2, Z.shiftl_mul_pow2 by lia.
  assert (2 ^ 21 = 2 ^ (21 - j) * 2 ^ j) as E21 by (rewrite <- Z.pow_add_r by lia; f_equal; lia).
  assert (0 < 2 ^ (21 - j) ≤ 2 ^ 8) as B
    by (split; [apply Z.pow_pos_nonneg; lia|apply Z.pow_le_mono_r; lia]).
  rewrite sint_small by (unfold in_sint; (lia || nia)).
  rewrite lor_disjoint; [|lia|].
  2:{ split; [apply Z.div_pos; lia|]. apply Z.div_lt_upper_bound; lia. }
  unfold uint. cbn [limbs_val].
  replace (x + 2 ^ 21 * (y + 2 ^ 21 * limbs_val s))
    with (x + ((y + 2 ^ 21 * limbs_val s) * 2 ^ (21 - j)) * 2 ^ j) by (rewrite E21 at 2; lia).
  rewrite Z.div_add by lia.
  replace (x / 2 ^ j + (y + 2 ^ 21 * limbs_val s) * 2 ^ (21 - j))
    with (x / 2 ^ j + y * 2 ^ (21 - j) + (2 ^ 13 * limbs_val s * 2 ^ (21 - j)) * 2 ^ 8) by lia.
  by rewrite Z.mod_add by lia.
Qed.

Lemma byte_high x j : 0 ≤ j → u8 (Z.shiftr x j) = limbs_val [x] / 2 ^ j mod 2 ^ 8.
Proof.
  intros Hj. rewrite Z.shiftr_div_pow2 by lia. unfold uint. cbn [limbs_val].
  by rewrite Z.mul_0_r, Z.add_0_r.
Qed.

Lemma byte_low x s j : 0 ≤ j ≤ 13 → u8 (Z.shiftr x j) = limbs_val (x :: s) / 2 ^ j mod 2 ^ 8.
Proof. intros Hj. rewrite Z.shiftr_div_pow2, byte_inside by lia. done. Qed.

Lemma le_bytes_step n k x :
  0 ≤ k → le_bytes (S n) (x / 2 ^ k) = x / 2 ^ k mod 2 ^ 8 :: le_bytes n (x / 2 ^ (8 + k)).
Proof.
  intros Hk. cbn [le_bytes]. rewrite Z.div_div by lia. change 256 with (2 ^ 8).
  by rewrite <- Z.pow_add_r, (Z.add_comm k) by lia.
Qed.

Ltac store_byte :=
  repeat rewrite limbs_val_shift by lia;
  match goal with |- _ = _ / 2 ^ ?e mod _ =>
    let v := eval vm_compute in e in change e with v end;
  first [ apply byte_low; lia | apply byte_across; lia | apply byte_high; lia ].

Lemma sc_store_spec x0 x1 x2 x3 x4 x5 x6 x7 x8 x9 x10 x11 r :
  Forall (λ x, 0 ≤ x < 2 ^ 21) [x0; x1; x2; x3; x4; x5; x6; x7; x8; x9; x10] →
  0 ≤ x11 < 2 ^ 22 →
  sc_store (x0 :: x1 :: x2 :: x3 :: x4 :: x5 :: x6 :: x7 :: x8 :: x9 :: x10 :: x11 :: r)
  = le_bytes 32 (limbs_val [x0; x1; x2; x3; x4; x5; x6; x7; x8; x9; x10; x11]).
Proof.
  intros H H11.
  repeat match goal with H : Forall _ (_ :: _) |- _ => apply Forall_cons_1 in H as [? H] end.
  rewrite <- (Z.div_1_r (limbs_val _)). change 1 with (2 ^ 0).
  do 32 (rewrite le_bytes_step by lia;
    match goal with |- context [le_bytes _ (_ / 2 ^ ?e)] =>
      let v := eval vm_compute in e in change e with v end).
  unfold sc_store. cbv zeta.
  cbn [le_bytes lookup_total list_lookup_total].
  repeat (apply f_equal2; [store_byte|]). done.
Qed.

(** The bytes of a fully reduced vector. *)
Lemma sc_store_final s ivs :
  limbs_in s ivs → length s = 24%nat → abs_final ivs = true → 0 ≤ limbs_val s < orderL →
  sc_store s = le_bytes 32 (limbs_val s).
Proof.
  intros Hs Hl Hf HV. unfold abs_final in Hf.
  rewrite andb_true_iff, !bool_decide_eq_true in Hf. destruct Hf as [Hlo Hhi].
  pose proof (Forall2_take _ _ _ 11 Hs) as H1. rewrite Hlo in H1.
  pose proof (Forall2_drop _ _ _ 12 Hs) as H2. rewrite Hhi in H2.
  assert (0 ≤ limbs_val (take 11 s) ≤ 2 ^ 231 - 1) as B1 by exact (limbs_val_mono _ _ H1).
  assert (0 ≤ limbs_val (drop 12 s) ≤ 0) as B2 by exact (limbs_val_mono _ _ H2).
  do 12 (destruct s as [|? s]; [discriminate Hl|]). cbn [take drop] in *.
  rewrite drop_0 in B2.
  match goal with |- sc_store ?l = _ =>
    let l12 := eval cbv [firstn] in (take 12 l) in
    assert (limbs_val l = limbs_val l12) as Ev
      by (cbn [limbs_val]; replace (limbs_val s) with 0 by lia; reflexivity) end.
  rewrite Ev in *. apply sc_store_spec.
  - unfold limbs_in in H1. cbn [replicate] in H1. decompose_Forall_hyps.
    unfold within in *. cbn [fst snd] in *. repeat constructor; lia.
  - match type of B1 with 0 ≤ limbs_val ?lo ≤ _ =>
      match type of HV with 0 ≤ limbs_val ?l < _ =>
        change l with (lo ++ [List.last l 0]) in HV; rewrite limbs_val_app in HV;
        change (2 ^ (21 * Z.of_nat (length lo))) with (2 ^ 231) in HV;
        set (low := limbs_val lo) in * end end.
    cbn [List.last limbs_val] in HV. clearbody low. unfold orderL in HV. clear -HV B1.
    lia.
Qed.

Lemma reduce_store s ivs :
  limbs_in s ivs → length s = 24%nat → abs_reduce ivs = true →
  sc_store (sc_reduce_limbs s) = le_bytes 32 (limbs_val s mod orderL).
Proof.
  intros Hs Hl Ha. destruct (reduce_limbs_spec s ivs Hs Hl Ha) as (Hv & Hl' & ivs' & Hi & Hf).
  rewrite <- Hv. apply (sc_store_final _ ivs'); [done|done|done|].
  rewrite Hv. by apply Z.mod_pos_bound.
Qed.

(** ** The product of [ScMulAdd] *)

Lemma digits_of_small n w x :
  21 ≤ w → 0 ≤ x < 2 ^ (21 * Z.of_nat n + w) → Forall (λ d, 0 ≤ d < 2 ^ w) (digits_of n x).
Proof.
  intros Hw. revert x. induction n as [|n IH]; intros x Hx.
  - repeat constructor; apply Hx.
  - change (digits_of (S n) x) with (x mod 2 ^ 21 :: digits_of n (x / 2 ^ 21)).
    constructor.
    + pose proof (Z.mod_pos_bound x (2 ^ 21)). pose proof (Z.pow_le_mono_r 2 21 w). lia.
    + apply IH. split; [apply Z.div_pos; lia|]. apply Z.div_lt_upper_bound; [lia|].
      rewrite <- Z.pow_add_r by lia.
      replace (21 + (21 * Z.of_nat n + w)) with (21 * Z.of_nat (S n) + w) by lia. apply Hx.
Qed.

Lemma digits_of_length n x : length (digits_of n x) = S n.
Proof.
  revert x. induction n as [|n IH]; intros x; [done|].
  change (digits_of (S n) x) with (x mod 2 ^ 21 :: digits_of n (x / 2 ^ 21)).
  cbn [length]. by rewrite IH.
Qed.

Lemma limbs_in_uniform w s :
  Forall (λ x, 0 ≤ x < 2 ^ w) s → limbs_in s (replicate (length s) (0, 2 ^ w - 1)).
Proof.
  induction 1 as [|x s Hx _ IH]; [constructor|]. cbn [length replicate].
  constructor; [|done]. unfold within. cbn [fst snd]. lia.
Qed.

Lemma small25_mul a b : small25 a → small25 b → 0 ≤ a * b ≤ 2 ^ 50.
Proof. unfold small25. intros. nia. Qed.

(** Twelve operand limbs, as variables. *)
Ltac twelve l H :=
  do 12 (destruct l as [|? l]; [discriminate H|]); destruct l; [|discriminate H]; clear H.

(** Bounds of a sum of products of operand limbs. *)
Ltac product_bounds :=
  repeat match goal with
  | Hx : small25 ?x, Hy : small25 ?y |- context [?x * ?y] =>
      let B := fresh "B" in
      pose proof (small25_mul x y Hx Hy) as B; revert B; generalize (x * y); intros ? B
  end; unfold small25 in *.

(** One limb of the product: its wraps collapse, and the one left is void. *)
Ltac product_limb :=
  autorewrite with wrap; apply sint_small; [lia|]; unfold in_sint; product_bounds; lia.

(** No wrap happens in the product, and it is the product. *)
Lemma sc_mul_limbs_spec a b c :
  Forall small25 a → Forall small25 b → Forall small25 c →
  length a = 12%nat → length b = 12%nat → length c = 12%nat →
  limbs_in (sc_mul_limbs a b c) (replicate 23 (0, 12 * 2 ^ 50 + 2 ^ 25) ++ [(0, 0)]) ∧
  limbs_val (sc_mul_limbs a b c) = limbs_val a * limbs_val b + limbs_val c.
Proof.
  intros Ha Hb Hc La Lb Lc. twelve a La. twelve b Lb. twelve c Lc.
  repeat match goal with H : Forall _ (_ :: _) |- _ => apply Forall_cons_1 in H as [? H] end.
  unfold sc_mul_limbs. cbv zeta. cbn [lookup_total list_lookup_total].
  match goal with |- limbs_in ?l _ ∧ _ =>
    evar (l' : list Z);
    assert (l = l') as E by (subst l'; repeat (eapply f_equal2; [product_limb|]); reflexivity);
    rewrite E; subst l'; clear E
  end.
  split.
  - cbn [replicate app]. unfold limbs_in.
    repeat (apply Forall2_cons; [unfold within; cbn [fst snd]; product_bounds; lia|]). constructor.
  - cbn [limbs_val]. ring.
Qed.

Lemma sc_load12_small a :
  Forall byte_ok a → length a = 32%nat →
  Forall small25 (sc_load12 a) ∧ length (sc_load12 a) = 12%nat ∧ limbs_val (sc_load12 a) = le_val a.
Proof.
  intros Ha Hl. rewrite sc_load12_digits by done. split; [|split].
  - apply digits_of_small; [lia|]. pose proof (le_val_range a Ha) as H. by rewrite Hl in H.
  - apply digits_of_length.
  - apply digits_of_val.
Qed.

(** ** [ScReduce], [ScMulAdd] and [ScMinimal] *)

(** The 64-byte scalar reduction returns the canonical encoding of its input
    modulo the group order, for every input. *)
Lemma ScReduce_spec s :
  Forall byte_ok s → length s = 64%nat →
  ScReduce s = le_bytes 32 (le_val s mod orderL).
Proof.
  intros Hs Hl. unfold ScReduce.
  pose proof (le_val_range s Hs) as HV. rewrite Hl in HV.
  rewrite sc_load24_digits by done. rewrite <- (digits_of_val 23 (le_val s)) at 2.
  pose proof (limbs_in_uniform 29 _ (digits_of_small 23 29 (le_val s) ltac:(lia) HV)) as Hin.
  rewrite digits_of_length in Hin.
  apply (reduce_store _ _ Hin); [apply digits_of_length|]. by vm_compute.
Qed.

Lemma ScMulAdd_spec a b c :
  Forall byte_ok a → Forall byte_ok b → Forall byte_ok c →
  length a = 32%nat → length b = 32%nat → length c = 32%nat →
  ScMulAdd a b c = le_bytes 32 ((le_val a * le_val b + le_val c) mod orderL).
Proof.
  intros Ha Hb Hc La Lb Lc. unfold ScMulAdd.
  destruct (sc_load12_small a Ha La) as (Sa & Ka & Va).
  destruct (sc_load12_small b Hb Lb) as (Sb & Kb & Vb).
  destruct (sc_load12_small c Hc Lc) as (Sc & Kc & Vc).
  destruct (sc_mul_limbs_spec _ _ _ Sa Sb Sc Ka Kb Kc) as [Hin Hv].
  rewrite Va, Vb, Vc in Hv. pose proof (limbs_in_length _ _ Hin) as Hlen.
  destruct (abs_run sc_mul_carries (replicate 23 (0, 12 * 2 ^ 50 + 2 ^ 25) ++ [(0, 0)]))
    as [ivs|] eqn:E; [|by vm_compute in E].
  destruct (run_sound _ _ _ _ Hin E) as [-> Hin'].
  rewrite (reduce_store _ ivs Hin').
  - f_equal. rewrite <- Hv. apply runZ_val. by rewrite Hlen.
  - by rewrite runZ_length, Hlen.
  - vm_compute in E. injection E as <-. by vm_compute.
Qed.

(** Comparison of two four-word numbers from the top word down. *)
Lemma words_compare v0 v1 v2 v3 w0 w1 w2 w3 :
  Forall (λ x, 0 ≤ x < 2 ^ 64) [v0; v1; v2; v3; w0; w1; w2; w3] →
  (if w3 <? v3 then false else if v3 <? w3 then true else
   if w2 <? v2 then false else if v2 <? w2 then true else
   if w1 <? v1 then false else if v1 <? w1 then true else
   if w0 <? v0 then false else if v0 <? w0 then true else false)
  = (v0 + 2 ^ 64 * (v1 + 2 ^ 64 * (v2 + 2 ^ 64 * v3))
     <? w0 + 2 ^ 64 * (w1 + 2 ^ 64 * (w2 + 2 ^ 64 * w3))).
Proof.
  intros H.
  repeat match goal with H : Forall _ (_ :: _) |- _ => apply Forall_cons_1 in H as [? H] end.
  repeat (case_match; [symmetry; (apply Z.ltb_lt || apply Z.ltb_ge); lia|]).
  symmetry. apply Z.ltb_ge. lia.
Qed.

Lemma word64_split s :
  Forall byte_ok s → length s = 32%nat →
  le_val s = word64 s 0 + 2 ^ 64 * (word64 s 1 + 2 ^ 64 * (word64 s 2 + 2 ^ 64 * word64 s 3)) ∧
  ∀ i, (i < 4)%nat → 0 ≤ word64 s i < 2 ^ 64.
Proof.
  intros Hs Hl. split.
  - unfold word64. do 32 (destruct s as [|? s]; [discriminate Hl|]).
    destruct s; [|discriminate Hl]. cbn [Nat.mul Nat.add take drop le_val]. lia.
  - intros i Hi. unfold word64.
    pose proof (le_val_range (take 8 (drop (i * 8) s))) as H.
    rewrite length_take, length_drop, Hl in H. replace (8 `min` _)%nat with 8%nat in H by lia.
    apply H. by apply Forall_take, Forall_drop.
Qed.

Lemma ScMinimal_spec s :
  Forall byte_ok s → length s = 32%nat → ScMinimal s = (le_val s <? orderL).
Proof.
  intros Hs Hl. destruct (word64_split s Hs Hl) as [E B]. rewrite E.
  apply (words_compare _ _ _ _ 0x5812631a5cf5d3ed 0x14def9dea2f79cd6 0 0x1000000000000000).
  repeat (apply Forall_cons_2; [first [apply B; lia | lia]|]). constructor.
Qed.

Lemma le_bytes_mod_order x :
  let r := le_bytes 32 (x mod orderL) in
  Forall byte_ok r ∧ length r = 32%nat ∧ le_val r = x mod orderL ∧ ScMinimal r = true.
Proof.
  cbv zeta. pose proof (le_bytes_ok 32 (x mod orderL)) as Hok.
  pose proof (le_bytes_length 32 (x mod orderL)) as Hl.
  assert (0 ≤ x mod orderL < orderL) as Hx by by apply Z.mod_pos_bound.
  assert (le_val (le_bytes 32 (x mod orderL)) = x mod orderL) as Hv.
  { rewrite le_val_bytes. apply Z.mod_small. unfold orderL in *. lia. }
  split; [done|split; [done|split; [done|]]].
  rewrite ScMinimal_spec, Hv by done. apply Z.ltb_lt. lia.
Qed.

(** [ScMulAdd] computes [a * b + c] modulo the group order on every three
    32-byte operands, reduced or not: none of its 64-bit operations overflows, the
    result is 32 bytes, and it is the canonical encoding, the one [ScMinimal]
    accepts. *)
Theorem ScMulAdd_correct a b c :
  Forall byte_ok a → Forall byte_ok b → Forall byte_ok c →
  length a = 32%nat → length b = 32%nat → length c = 32%nat →
  Forall byte_ok (ScMulAdd a b c) ∧ length (ScMulAdd a b c) = 32%nat ∧
  le_val (ScMulAdd a b c) = (le_val a * le_val b + le_val c) mod orderL ∧
  ScMinimal (ScMulAdd a b c) = true.
Proof. intros. rewrite ScMulAdd_spec by done. apply le_bytes_mod_order. Qed.

Lemma ScMulAdd_correct_witness :
  le_val (ScMulAdd (replicate 32 255) (replicate 32 255) (replicate 32 255))
  = ((2 ^ 256 - 1) * (2 ^ 256 - 1) + (2 ^ 256 - 1)) mod orderL.
Proof.
  assert (Forall byte_ok (replicate 32 255)) as Hb by (repeat constructor; unfold byte_ok; lia).
  destruct (ScMulAdd_correct _ _ _ Hb Hb Hb eq_refl eq_refl eq_refl) as (_ & _ & H & _).
  rewrite H. reflexivity.
Defined.

(** [ScReduce] returns the canonical 32-byte encoding of its 64-byte
    input modulo the group order, on every input and with no 64-bit overflow. *)
Theorem ScReduce_correct s :
  Forall byte_ok s → length s = 64%nat →
  Forall byte_ok (ScReduce s) ∧ length (ScReduce s) = 32%nat ∧
  le_val (ScReduce s) = le_val s mod orderL ∧ ScMinimal (ScReduce s) = true.
Proof. intros. rewrite ScReduce_spec by done. apply le_bytes_mod_order. Qed.

Lemma ScReduce_correct_witness :
  le_val (ScReduce (replicate 64 255)) = (2 ^ 512 - 1) mod orderL.
Proof.
  assert (Forall byte_ok (replicate 64 255)) as Hb by (repeat constructor; unfold byte_ok; lia).
  destruct (ScReduce_correct _ Hb eq_refl) as (_ & _ & H & _).
  rewrite H. reflexivity.
Defined.

(** [ScMinimal] accepts a 32-byte scalar exactly when it is below the
    group order, so a signature whose [S] half was shifted by the order is refused. *)
Theorem ScMinimal_correct s :
  Forall byte_ok s → length s = 32%nat → ScMinimal s = true ↔ le_val s < orderL.
Proof. intros. rewrite ScMinimal_spec by done. apply Z.ltb_lt. Qed.

Lemma ScMinimal_correct_witness :
  ScMinimal (le_bytes 32 (orderL - 1)) = true ∧ ScMinimal (le_bytes 32 orderL) = false.
Proof.
  split; [|reflexivity].
  apply (ScMinimal_correct (le_bytes 32 (orderL - 1)));
    [apply le_bytes_ok|reflexivity|rewrite le_val_bytes; reflexivity].
Defined.
