(* ===== verification/Field25519.v ===== *)
(** * The field of Curve25519 (signer/edwards25519/edwards25519.go)

    Arithmetic modulo [2^255 - 19] on ten limbs of alternately 26 and 25 bits, in int32
    and int64: every routine of the first part of the file, with its documented
    preconditions on the size of the limbs turned into hypotheses and its
    postconditions into theorems. *)

From S2P Require Import Prelude Scalar25519.
From stdpp Require Import base list numbers.
From Stdlib Require Import ZArith Lia.

Open Scope Z_scope.

(** ** Definitions *)

(** A [FieldElement] is a list of ten int32 values. *)
Abbreviation FieldElement := (list Z).

Definition FeZero : FieldElement := replicate 10 0.

Definition FeOne : FieldElement := <[0%nat := 1]> FeZero.

Definition FeAdd (a b : FieldElement) : FieldElement := zip_with (λ x y, i32 (x + y)) a b.

Definition FeSub (a b : FieldElement) : FieldElement := zip_with (λ x y, i32 (x - y)) a b.

Definition FeCMove (f g : FieldElement) (b : Z) : FieldElement :=
  let b := i32 (- b) in
  zip_with (λ x y, Z.lxor x (Z.land b (Z.lxor x y))) f g.

Definition FeNeg (f : FieldElement) : FieldElement := (λ x, i32 (- x)) <$> f.

(** Bits of limb [i]. *)
Definition fe_bits (i : nat) : Z := if Nat.even i then 26 else 25.

(** One carry group of [FeCombine]: [c_i = (h_i + (1 << (b-1))) >> b; h_{i+1} += c_i;
    h_i -= c_i << b]; the carry out of limb 9 comes back to limb 0 times 19. *)
Definition fe_carry (i : nat) (h : list Z) : list Z :=
  let b := fe_bits i in
  let c := Z.shiftr (i64 (h !!! i + Z.shiftl 1 (b - 1))) b in
  let h := if (i =? 9)%nat
           then <[0%nat := i64 (h !!! 0%nat + i64 (c * 19))]> h
           else <[S i := i64 (h !!! S i + c)]> h in
  <[i := i64 (h !!! i - i64 (Z.shiftl c b))]> h.

Definition FeCombine (h : list Z) : FieldElement :=
  i32 <$> fold_left (λ h i, fe_carry i h) [0; 4; 1; 5; 2; 6; 3; 7; 4; 8; 9; 0]%nat h.

Definition FeFromBytes (src : list Z) : FieldElement :=
  FeCombine
    [ load4 src;
      i64 (Z.shiftl (load3 (drop 4 src)) 6);
      i64 (Z.shiftl (load3 (drop 7 src)) 5);
      i64 (Z.shiftl (load3 (drop 10 src)) 3);
      i64 (Z.shiftl (load3 (drop 13 src)) 2);
      load4 (drop 16 src);
      i64 (Z.shiftl (load3 (drop 20 src)) 7);
      i64 (Z.shiftl (load3 (drop 23 src)) 5);
      i64 (Z.shiftl (load3 (drop 26 src)) 4);
      i64 (Z.shiftl (Z.land (load3 (drop 29 src)) 8388607) 2) ].

(** The quotient [FeToBytes] subtracts: [q = (h[i] + q) >> bits] along the limbs. *)
Definition fe_quotient (h : FieldElement) : Z :=
  let q := Z.shiftr (i32 (i32 (19 * h !!! 9%nat) + Z.shiftl 1 24)) 25 in
  fold_left (λ q i, Z.shiftr (i32 (h !!! i + q)) (fe_bits i)) (seq 0 10) q.

(** One floor carry of [FeToBytes]; the one out of limb 9 is dropped. *)
Definition fe_floor (i : nat) (h : list Z) : list Z :=
  let b := fe_bits i in
  let c := Z.shiftr (h !!! i) b in
  let h := if (i =? 9)%nat then h else <[S i := i32 (h !!! S i + c)]> h in
  <[i := i32 (h !!! i - i32 (Z.shiftl c b))]> h.

(** The limbs [FeToBytes] leaves in [h]. *)
Definition fe_canonical (h : FieldElement) : FieldElement :=
  let q := fe_quotient h in
  fold_left (λ h i, fe_floor i h) (seq 0 10) (<[0%nat := i32 (h !!! 0%nat + i32 (19 * q))]> h).

Definition fe_store (h : list Z) : list Z :=
  let h0 := h !!! 0%nat in let h1 := h !!! 1%nat in let h2 := h !!! 2%nat in
  let h3 := h !!! 3%nat in let h4 := h !!! 4%nat in let h5 := h !!! 5%nat in
  let h6 := h !!! 6%nat in let h7 := h !!! 7%nat in let h8 := h !!! 8%nat in
  let h9 := h !!! 9%nat in
  [ u8 (Z.shiftr h0 0);
    u8 (Z.shiftr h0 8);
    u8 (Z.shiftr h0 16);
    u8 (Z.lor (Z.shiftr h0 24) (i32 (Z.shiftl h1 2)));
    u8 (Z.shiftr h1 6);
    u8 (Z.shiftr h1 14);
    u8 (Z.lor (Z.shiftr h1 22) (i32 (Z.shiftl h2 3)));
    u8 (Z.shiftr h2 5);
    u8 (Z.shiftr h2 13);
    u8 (Z.lor (Z.shiftr h2 21) (i32 (Z.shiftl h3 5)));
    u8 (Z.shiftr h3 3);
    u8 (Z.shiftr h3 11);
    u8 (Z.lor (Z.shiftr h3 19) (i32 (Z.shiftl h4 6)));
    u8 (Z.shiftr h4 2);
    u8 (Z.shiftr h4 10);
    u8 (Z.shiftr h4 18);
    u8 (Z.shiftr h5 0);
    u8 (Z.shiftr h5 8);
    u8 (Z.shiftr h5 16);
    u8 (Z.lor (Z.shiftr h5 24) (i32 (Z.shiftl h6 1)));
    u8 (Z.shiftr h6 7);
    u8 (Z.shiftr h6 15);
    u8 (Z.lor (Z.shiftr h6 23) (i32 (Z.shiftl h7 3)));
    u8 (Z.shiftr h7 5);
    u8 (Z.shiftr h7 13);
    u8 (Z.lor (Z.shiftr h7 21) (i32 (Z.shiftl h8 4)));
    u8 (Z.shiftr h8 4);
    u8 (Z.shiftr h8 12);
    u8 (Z.lor (Z.shiftr h8 20) (i32 (Z.shiftl h9 6)));
    u8 (Z.shiftr h9 2);
    u8 (Z.shiftr h9 10);
    u8 (Z.shiftr h9 18) ].

(** [FeToBytes] writes the bytes and leaves [h] in canonical form: both are returned. *)
Definition FeToBytes (h : FieldElement) : list Z * FieldElement :=
  let h' := fe_canonical h in (fe_store h', h').

(** The sign bit of a field element; [f] is left canonical. *)
Definition FeIsNegative (f : FieldElement) : Z * FieldElement :=
  let '(s, f') := FeToBytes f in (Z.land (s !!! 0%nat) 1, f').

(** The end of [FeIsNonZero]: a byte folded onto its lowest bit. *)
Definition fold_bits (x : Z) : Z :=
  let x := Z.lor x (Z.shiftr x 4) in
  let x := Z.lor x (Z.shiftr x 2) in
  let x := Z.lor x (Z.shiftr x 1) in
  Z.land x 1.

Definition FeIsNonZero (f : FieldElement) : Z * FieldElement :=
  let '(s, f') := FeToBytes f in (fold_bits (fold_left Z.lor s 0), f').

(** The ten sums of products of [FeMul]; [2*f[i]] and [19*g[i]] are int32. *)
Definition fe_mul_limbs (f g : FieldElement) : list Z :=
  let f0 := f !!! 0%nat in  let f1 := f !!! 1%nat in  let f2 := f !!! 2%nat in
  let f3 := f !!! 3%nat in  let f4 := f !!! 4%nat in  let f5 := f !!! 5%nat in
  let f6 := f !!! 6%nat in  let f7 := f !!! 7%nat in  let f8 := f !!! 8%nat in
  let f9 := f !!! 9%nat in
  let g0 := g !!! 0%nat in  let g1 := g !!! 1%nat in  let g2 := g !!! 2%nat in
  let g3 := g !!! 3%nat in  let g4 := g !!! 4%nat in  let g5 := g !!! 5%nat in
  let g6 := g !!! 6%nat in  let g7 := g !!! 7%nat in  let g8 := g !!! 8%nat in
  let g9 := g !!! 9%nat in
  let f1_2 := i32 (2 * f1) in
  let f3_2 := i32 (2 * f3) in
  let f5_2 := i32 (2 * f5) in
  let f7_2 := i32 (2 * f7) in
  let f9_2 := i32 (2 * f9) in
  let g1_19 := i32 (19 * g1) in
  let g2_19 := i32 (19 * g2) in
  let g3_19 := i32 (19 * g3) in
  let g4_19 := i32 (19 * g4) in
  let g5_19 := i32 (19 * g5) in
  let g6_19 := i32 (19 * g6) in
  let g7_19 := i32 (19 * g7) in
  let g8_19 := i32 (19 * g8) in
  let g9_19 := i32 (19 * g9) in
  ([ f0 * g0 + f1_2 * g9_19 + f2 * g8_19 + f3_2 * g7_19 + f4 * g6_19 + f5_2 * g5_19 + f6 * g4_19 + f7_2 * g3_19 + f8 * g2_19 + f9_2 * g1_19;
     f0 * g1 + f1 * g0 + f2 * g9_19 + f3 * g8_19 + f4 * g7_19 + f5 * g6_19 + f6 * g5_19 + f7 * g4_19 + f8 * g3_19 + f9 * g2_19;
     f0 * g2 + f1_2 * g1 + f2 * g0 + f3_2 * g9_19 + f4 * g8_19 + f5_2 * g7_19 + f6 * g6_19 + f7_2 * g5_19 + f8 * g4_19 + f9_2 * g3_19;
     f0 * g3 + f1 * g2 + f2 * g1 + f3 * g0 + f4 * g9_19 + f5 * g8_19 + f6 * g7_19 + f7 * g6_19 + f8 * g5_19 + f9 * g4_19;
     f0 * g4 + f1_2 * g3 + f2 * g2 + f3_2 * g1 + f4 * g0 + f5_2 * g9_19 + f6 * g8_19 + f7_2 * g7_19 + f8 * g6_19 + f9_2 * g5_19;
     f0 * g5 + f1 * g4 + f2 * g3 + f3 * g2 + f4 * g1 + f5 * g0 + f6 * g9_19 + f7 * g8_19 + f8 * g7_19 + f9 * g6_19;
     f0 * g6 + f1_2 * g5 + f2 * g4 + f3_2 * g3 + f4 * g2 + f5_2 * g1 + f6 * g0 + f7_2 * g9_19 + f8 * g8_19 + f9_2 * g7_19;
     f0 * g7 + f1 * g6 + f2 * g5 + f3 * g4 + f4 * g3 + f5 * g2 + f6 * g1 + f7 * g0 + f8 * g9_19 + f9 * g8_19;
     f0 * g8 + f1_2 * g7 + f2 * g6 + f3_2 * g5 + f4 * g4 + f5_2 * g3 + f6 * g2 + f7_2 * g1 + f8 * g0 + f9_2 * g9_19;
     f0 * g9 + f1 * g8 + f2 * g7 + f3 * g6 + f4 * g5 + f5 * g4 + f6 * g3 + f7 * g2 + f8 * g1 + f9 * g0 ])%i64.

Definition FeMul (f g : FieldElement) : FieldElement := FeCombine (fe_mul_limbs f g).

(** [feSquare]; [38*f5] and the like are int64. *)
Definition feSquare (f : FieldElement) : list Z :=
  let f0 := f !!! 0%nat in  let f1 := f !!! 1%nat in  let f2 := f !!! 2%nat in
  let f3 := f !!! 3%nat in  let f4 := f !!! 4%nat in  let f5 := f !!! 5%nat in
  let f6 := f !!! 6%nat in  let f7 := f !!! 7%nat in  let f8 := f !!! 8%nat in
  let f9 := f !!! 9%nat in
  let f0_2 := i32 (2 * f0) in
  let f1_2 := i32 (2 * f1) in
  let f2_2 := i32 (2 * f2) in
  let f3_2 := i32 (2 * f3) in
  let f4_2 := i32 (2 * f4) in
  let f5_2 := i32 (2 * f5) in
  let f6_2 := i32 (2 * f6) in
  let f7_2 := i32 (2 * f7) in
  let f5_38 := i64 (38 * f5) in
  let f6_19 := i64 (19 * f6) in
  let f7_38 := i64 (38 * f7) in
  let f8_19 := i64 (19 * f8) in
  let f9_38 := i64 (38 * f9) in
  ([ f0 * f0 + f1_2 * f9_38 + f2_2 * f8_19 + f3_2 * f7_38 + f4_2 * f6_19 + f5 * f5_38;
     f0_2 * f1 + f2 * f9_38 + f3_2 * f8_19 + f4 * f7_38 + f5_2 * f6_19;
     f0_2 * f2 + f1_2 * f1 + f3_2 * f9_38 + f4_2 * f8_19 + f5_2 * f7_38 + f6 * f6_19;
     f0_2 * f3 + f1_2 * f2 + f4 * f9_38 + f5_2 * f8_19 + f6 * f7_38;
     f0_2 * f4 + f1_2 * f3_2 + f2 * f2 + f5_2 * f9_38 + f6_2 * f8_19 + f7 * f7_38;
     f0_2 * f5 + f1_2 * f4 + f2_2 * f3 + f6 * f9_38 + f7_2 * f8_19;
     f0_2 * f6 + f1_2 * f5_2 + f2_2 * f4 + f3_2 * f3 + f7_2 * f9_38 + f8 * f8_19;
     f0_2 * f7 + f1_2 * f6 + f2_2 * f5 + f3_2 * f4 + f8 * f9_38;
     f0_2 * f8 + f1_2 * f7_2 + f2_2 * f6 + f3_2 * f5_2 + f4 * f4 + f9 * f9_38;
     f0_2 * f9 + f1_2 * f8 + f2_2 * f7 + f3_2 * f6 + f4_2 * f5 ])%i64.

Definition FeSquare (f : FieldElement) : FieldElement := FeCombine (feSquare f).

Definition FeSquare2 (f : FieldElement) : FieldElement :=
  FeCombine ((λ h, i64 (h + h)) <$> feSquare f).

(** [FeSquare(&t, &t)] repeated: [for i = 1; i < n; i++]. *)
Definition FeSquares (n : nat) (t : FieldElement) : FieldElement := Nat.iter (n - 1) FeSquare t.

Definition FeInvert (z : FieldElement) : FieldElement :=
  let t0 := FeSquare z in
  let t1 := FeSquare t0 in
  let t1 := FeSquares 2 t1 in
  let t1 := FeMul z t1 in
  let t0 := FeMul t0 t1 in
  let t2 := FeSquare t0 in
  let t1 := FeMul t1 t2 in
  let t2 := FeSquare t1 in
  let t2 := FeSquares 5 t2 in
  let t1 := FeMul t2 t1 in
  let t2 := FeSquare t1 in
  let t2 := FeSquares 10 t2 in
  let t2 := FeMul t2 t1 in
  let t3 := FeSquare t2 in
  let t3 := FeSquares 20 t3 in
  let t2 := FeMul t3 t2 in
  let t2 := FeSquare t2 in
  let t2 := FeSquares 10 t2 in
  let t1 := FeMul t2 t1 in
  let t2 := FeSquare t1 in
  let t2 := FeSquares 50 t2 in
  let t2 := FeMul t2 t1 in
  let t3 := FeSquare t2 in
  let t3 := FeSquares 100 t3 in
  let t2 := FeMul t3 t2 in
  let t2 := FeSquare t2 in
  let t2 := FeSquares 50 t2 in
  let t1 := FeMul t2 t1 in
  let t1 := FeSquare t1 in
  let t1 := FeSquares 5 t1 in
  FeMul t1 t0.

Definition fePow22523 (z : FieldElement) : FieldElement :=
  let t0 := FeSquare z in
  let t0 := FeSquares 1 t0 in
  let t1 := FeSquare t0 in
  let t1 := FeSquares 2 t1 in
  let t1 := FeMul z t1 in
  let t0 := FeMul t0 t1 in
  let t0 := FeSquare t0 in
  let t0 := FeSquares 1 t0 in
  let t0 := FeMul t1 t0 in
  let t1 := FeSquare t0 in
  let t1 := FeSquares 5 t1 in
  let t0 := FeMul t1 t0 in
  let t1 := FeSquare t0 in
  let t1 := FeSquares 10 t1 in
  let t1 := FeMul t1 t0 in
  let t2 := FeSquare t1 in
  let t2 := FeSquares 20 t2 in
  let t1 := FeMul t2 t1 in
  let t1 := FeSquare t1 in
  let t1 := FeSquares 10 t1 in
  let t0 := FeMul t1 t0 in
  let t1 := FeSquare t0 in
  let t1 := FeSquares 50 t1 in
  let t1 := FeMul t1 t0 in
  let t2 := FeSquare t1 in
  let t2 := FeSquares 100 t2 in
  let t1 := FeMul t2 t1 in
  let t1 := FeSquare t1 in
  let t1 := FeSquares 50 t1 in
  let t0 := FeMul t1 t0 in
  let t0 := FeSquare t0 in
  let t0 := FeSquares 2 t0 in
  FeMul t0 z.

(** *** What the routines are measured against *)

Definition p25519 : Z := 2 ^ 255 - 19.

(** The integer ten limbs stand for: [h0 + 2^26 h1 + 2^51 h2 + ... + 2^230 h9]. *)
Fixpoint radix_val (i : nat) (h : list Z) : Z :=
  match h with
  | [] => 0
  | x :: h' => x + 2 ^ fe_bits i * radix_val (S i) h'
  end.

Definition fe_val (h : FieldElement) : Z := radix_val 0 h.

(** The weight of limb [i + n] relative to limb [i]. *)
Fixpoint radix_weight (i n : nat) : Z :=
  match n with
  | O => 1
  | S n' => 2 ^ fe_bits i * radix_weight (S i) n'
  end.

(** Limbs bounded by [e] at even and by [o] at odd positions. *)
Definition fe_box (e o : Z) : list (Z * Z) :=
  [(-e, e); (-o, o); (-e, e); (-o, o); (-e, e); (-o, o); (-e, e); (-o, o); (-e, e); (-o, o)].

(** The bounds of the source's comments: [1.1*2^25, 1.1*2^24, ...] for results, and
    [1.65*2^26, 1.65*2^25, ...] for what the group operations multiply. *)
Definition tight : list (Z * Z) := fe_box 36909875 18454937.
Definition loose : list (Z * Z) := fe_box 110729625 55364811.

(** The limbs of a fully reduced element. *)
Definition reduced : list (Z * Z) := (λ i, (0, 2 ^ fe_bits i - 1)) <$> seq 0 10.

(** The sums [FeMul], [feSquare] and [FeSquare2] hand to [FeCombine] are below this. *)
Definition wide : list (Z * Z) := replicate 10 (- (3 * 2 ^ 60), 3 * 2 ^ 60).

(** A bound on the absolute value. *)
Definition babs (b x : Z) : Prop := - b ≤ x ≤ b.

(** A carry out of limb [i] of a value of width [w], added [k]-fold to limb [j], on
    unbounded integers and on intervals. *)
Definition gcarryZ (r b : Z) (i j : nat) (k : Z) (h : list Z) : list Z :=
  let c := (h !!! i + r) / 2 ^ b in
  let h := <[j := h !!! j + c * k]> h in
  <[i := h !!! i - c * 2 ^ b]> h.

Definition fitsw (w lo hi : Z) : bool := (- 2 ^ (w - 1) <=? lo) && (hi <? 2 ^ (w - 1)).

Definition abs_gcarry (w r b : Z) (i j : nat) (k : Z) (ivs : list (Z * Z)) : option (list (Z * Z)) :=
  let x := ivs !!! i in
  let y := ivs !!! j in
  let c := ((x.1 + r) / 2 ^ b, (x.2 + r) / 2 ^ b) in
  if (i <? length ivs)%nat && (j <? length ivs)%nat && negb (i =? j)%nat && (0 <=? k) && (0 <? b)
     && fitsw w (x.1 + r) (x.2 + r) && fitsw w (c.1 * 2 ^ b) (c.2 * 2 ^ b)
     && fitsw w (c.1 * k) (c.2 * k) && fitsw w (y.1 + c.1 * k) (y.2 + c.2 * k)
     && fitsw w (- r) (2 ^ b - 1 - r)
  then Some (<[i := (- r, 2 ^ b - 1 - r)]> (<[j := (y.1 + c.1 * k, y.2 + c.2 * k)]> ivs))
  else None.

(** Where the carry out of limb [i] goes, and how many times. *)
Definition fe_next (i : nat) : nat * Z := if (i =? 9)%nat then (0%nat, 19) else (S i, 1).

Definition fe_carryZ (i : nat) (h : list Z) : list Z :=
  gcarryZ (2 ^ (fe_bits i - 1)) (fe_bits i) i (fe_next i).1 (fe_next i).2 h.

Definition abs_fe_carry (i : nat) (ivs : list (Z * Z)) : option (list (Z * Z)) :=
  abs_gcarry 64 (2 ^ (fe_bits i - 1)) (fe_bits i) i (fe_next i).1 (fe_next i).2 ivs.

(** A floor carry; the one out of limb 9 is dropped, that is added 0 times. *)
Definition floor_next (i : nat) : nat * Z := if (i =? 9)%nat then (0%nat, 0) else (S i, 1).

Definition fe_floorZ (i : nat) (h : list Z) : list Z :=
  gcarryZ 0 (fe_bits i) i (floor_next i).1 (floor_next i).2 h.

Definition abs_fe_floor (i : nat) (ivs : list (Z * Z)) : option (list (Z * Z)) :=
  if forallb (λ iv, fitsw 32 iv.1 iv.2) ivs
  then abs_gcarry 32 0 (fe_bits i) i (floor_next i).1 (floor_next i).2 ivs else None.

Fixpoint abs_steps (f : nat → list (Z * Z) → option (list (Z * Z))) (l : list nat)
    (ivs : list (Z * Z)) : option (list (Z * Z)) :=
  match l with
  | [] => Some ivs
  | i :: l' => ivs' ← f i ivs; abs_steps f l' ivs'
  end.

(** One interval list inside another. *)
Definition ivs_le (a b : list (Z * Z)) : bool :=
  bool_decide (Forall2 (λ x y, y.1 ≤ x.1 ∧ x.2 ≤ y.2) a b).

(** A field element [x] is [z ^ e]. *)
Definition fe_pow (z : FieldElement) (e : Z) (x : FieldElement) : Prop :=
  limbs_in x tight ∧ fe_val x ≡⟨ p25519 ⟩ fe_val z ^ e.

(** ** Soundness of the interval analysis *)

Lemma sint_fits w lo hi x : 0 < w → fitsw w lo hi = true → lo ≤ x ≤ hi → sint w x = x.
Proof.
  unfold fitsw. rewrite andb_true_iff, Z.leb_le, Z.ltb_lt. intros Hw [H1 H2] Hx.
  apply sint_small; [done|]. unfold in_sint. lia.
Qed.

Lemma gcarry_sound w r b i j k h ivs ivs' :
  0 < w → limbs_in h ivs → abs_gcarry w r b i j k ivs = Some ivs' →
  let c := Z.shiftr (sint w (h !!! i + r)) b in
  let h' := <[j := sint w (h !!! j + sint w (c * k))]> h in
  <[i := sint w (h' !!! i - sint w (Z.shiftl c b))]> h' = gcarryZ r b i j k h ∧
  limbs_in (gcarryZ r b i j k h) ivs'.
Proof.
  intros Hw Hs. unfold abs_gcarry. cbv zeta.
  match goal with |- (if ?b then _ else _) = _ → _ => destruct b eqn:E; [|done] end.
  intros [= <-]. rewrite !andb_true_iff, !Nat.ltb_lt, negb_true_iff, Nat.eqb_neq, Z.leb_le, Z.ltb_lt in E.
  destruct E as [[[[[[[[[Hi Hj] Hij] Hk] Hb] F1] F2] F3] F4] F5].
  pose proof (limbs_in_lookup h ivs i Hs Hi) as Hx.
  pose proof (limbs_in_lookup h ivs j Hs Hj) as Hy.
  unfold within in Hx, Hy. cbn [fst snd] in *.
  set (x := h !!! i) in *. set (y := h !!! j) in *.
  assert (0 < 2 ^ b) as Pb by (apply Z.pow_pos_nonneg; lia).
  set (c := (x + r) / 2 ^ b).
  assert (((ivs !!! i).1 + r) / 2 ^ b ≤ c ≤ ((ivs !!! i).2 + r) / 2 ^ b) as B2.
  { split; apply Z.div_le_mono; lia. }
  assert (- r ≤ x - c * 2 ^ b ≤ 2 ^ b - 1 - r) as B3.
  { unfold c. pose proof (Z.div_mod (x + r) (2 ^ b)). pose proof (Z.mod_pos_bound (x + r) (2 ^ b)). lia. }
  set (lo := ((ivs !!! i).1 + r) / 2 ^ b) in *. set (hi := ((ivs !!! i).2 + r) / 2 ^ b) in *.
  assert (lo * k ≤ c * k ≤ hi * k) as B4 by (split; apply Z.mul_le_mono_nonneg_r; lia).
  assert (lo * 2 ^ b ≤ c * 2 ^ b ≤ hi * 2 ^ b) as B5 by (split; apply Z.mul_le_mono_nonneg_r; lia).
  rewrite (sint_fits _ _ _ (x + r) Hw F1) by lia.
  rewrite Z.shiftr_div_pow2 by lia. fold c.
  rewrite (sint_fits _ _ _ (c * k) Hw F3), (sint_fits _ _ _ (y + c * k) Hw F4) by lia.
  unfold gcarryZ. cbv zeta. fold x y. fold c.
  rewrite list_lookup_total_insert_ne by done. fold x. rewrite Z.shiftl_mul_pow2 by lia.
  rewrite (sint_fits _ _ _ (c * 2 ^ b) Hw F2), (sint_fits _ _ _ _ Hw F5 B3) by lia.
  split; [done|]. apply limbs_in_insert; [apply limbs_in_insert; [done|]|exact B3].
  unfold within. cbn [fst snd]. split; apply Z.add_le_mono; tauto.
Qed.

Lemma fe_carry_sound i h ivs ivs' :
  limbs_in h ivs → abs_fe_carry i ivs = Some ivs' →
  fe_carry i h = fe_carryZ i h ∧ limbs_in (fe_carryZ i h) ivs'.
Proof.
  intros Hs Ha. destruct (gcarry_sound 64 _ _ _ _ _ h _ _ ltac:(lia) Hs Ha) as [E H].
  split; [|exact H]. unfold fe_carryZ. rewrite <- E. unfold fe_carry, fe_next. cbv zeta.
  replace (Z.shiftl 1 (fe_bits i - 1)) with (2 ^ (fe_bits i - 1)).
  2:{ rewrite Z.shiftl_mul_pow2 by (unfold fe_bits; destruct (Nat.even i); lia). lia. }
  destruct (i =? 9)%nat; cbn [fst snd]; [done|].
  by rewrite Z.mul_1_r, (sint_add_r 64) by lia.
Qed.

Lemma limbs_in_int32 h ivs :
  limbs_in h ivs → forallb (λ iv, fitsw 32 iv.1 iv.2) ivs = true →
  ∀ j, (j < length h)%nat → i32 (h !!! j) = h !!! j.
Proof.
  intros Hs Hf j Hj. rewrite (limbs_in_length _ _ Hs) in Hj.
  pose proof (limbs_in_lookup h ivs j Hs Hj) as Hw. rewrite List.forallb_forall in Hf.
  apply (sint_fits 32 (ivs !!! j).1 (ivs !!! j).2); [lia| |exact Hw].
  apply Hf. apply list_elem_of_In, list_elem_of_lookup_2 with j. by apply list_lookup_lookup_total_lt.
Qed.

Lemma fe_floor_sound i h ivs ivs' :
  limbs_in h ivs → abs_fe_floor i ivs = Some ivs' →
  fe_floor i h = fe_floorZ i h ∧ limbs_in (fe_floorZ i h) ivs'.
Proof.
  intros Hs. unfold abs_fe_floor. destruct (forallb _ ivs) eqn:Hf; [|done]. intros Ha.
  pose proof (limbs_in_int32 h ivs Hs Hf) as Hsm.
  destruct (gcarry_sound 32 _ _ _ _ _ h _ _ ltac:(lia) Hs Ha) as [E H].
  split; [|exact H]. unfold fe_floorZ. rewrite <- E. unfold fe_floor, floor_next. cbv zeta.
  assert (i < length h ∧ 0 < length h)%nat as [Hi H0].
  { pose proof (limbs_in_length _ _ Hs) as Hl. unfold abs_gcarry in Ha. cbv zeta in Ha.
    destruct (i <? length ivs)%nat eqn:El; [|done]. apply Nat.ltb_lt in El. lia. }
  rewrite Z.add_0_r, (Hsm i Hi).
  destruct (i =? 9)%nat; cbn [fst snd].
  - rewrite Z.mul_0_r. change (i32 0) with 0. rewrite Z.add_0_r, (Hsm 0%nat H0).
    rewrite (list_insert_id h 0); [done|]. by apply list_lookup_lookup_total_lt.
  - by rewrite Z.mul_1_r, (sint_add_r 32) by lia.
Qed.

Lemma steps_sound f fZ (abs : nat → list (Z * Z) → option (list (Z * Z))) l h ivs ivs' :
  (∀ i h ivs ivs', limbs_in h ivs → abs i ivs = Some ivs' → f i h = fZ i h ∧ limbs_in (fZ i h) ivs') →
  limbs_in h ivs → abs_steps abs l ivs = Some ivs' →
  fold_left (λ h i, f i h) l h = fold_left (λ h i, fZ i h) l h ∧
  limbs_in (fold_left (λ h i, fZ i h) l h) ivs'.
Proof.
  intros Hf. revert h ivs. induction l as [|i l IH]; intros h ivs Hs; cbn [abs_steps fold_left].
  - by intros [= <-].
  - intros (ivs1 & H1 & H2)%bind_Some. destruct (Hf i h ivs ivs1 Hs H1) as [-> Hs1].
    by apply (IH _ ivs1).
Qed.

(** Ten limbs, as variables. *)
Ltac ten l H :=
  do 10 (destruct l as [|? l]; [discriminate H|]); destruct l; [|discriminate H]; clear H.

Ltac show_limbs :=
  cbn [lookup_total list_lookup_total insert list_insert fe_next floor_next fe_bits fst snd
       Nat.even Nat.eqb radix_val].

Lemma fe_carryZ_length i h : length (fe_carryZ i h) = length h.
Proof. unfold fe_carryZ, gcarryZ. cbv zeta. by rewrite !length_insert. Qed.

Lemma fe_carryZ_val i h :
  length h = 10%nat → (i < 10)%nat → fe_val (fe_carryZ i h) ≡⟨ p25519 ⟩ fe_val h.
Proof.
  intros Hl Hi. ten h Hl. apply cong_divide; [done|].
  do 10 (destruct i as [|i];
    [unfold fe_carryZ, gcarryZ, fe_val; cbv zeta; show_limbs;
     match goal with |- context [?x / 2 ^ ?b] => generalize (x / 2 ^ b); intros c end;
     first [exists 0; unfold p25519; lia | exists (- c); unfold p25519; lia]|]).
  lia.
Qed.

Lemma fe_steps_val l h :
  length h = 10%nat → Forall (λ i, (i < 10)%nat) l →
  fe_val (fold_left (λ h i, fe_carryZ i h) l h) ≡⟨ p25519 ⟩ fe_val h.
Proof.
  intros Hl H. revert h Hl. induction H as [|i l Hi _ IH]; intros h Hl; [done|]. cbn [fold_left].
  rewrite IH by (by rewrite fe_carryZ_length). by apply fe_carryZ_val.
Qed.

Lemma limbs_in_weaken h a b : limbs_in h a → ivs_le a b = true → limbs_in h b.
Proof.
  unfold ivs_le. rewrite bool_decide_eq_true. unfold limbs_in. intros H. revert b.
  induction H as [|x iv h a Hx _ IH]; intros b Hb; inversion Hb; subst; constructor; [|auto].
  unfold within in *. lia.
Qed.

(** Narrowing to int32 keeps limbs that fit. *)
Lemma i32_limbs h ivs :
  limbs_in h ivs → forallb (λ iv, fitsw 32 iv.1 iv.2) ivs = true → i32 <$> h = h.
Proof.
  unfold limbs_in. induction 1 as [|x iv h ivs Hx _ IH]; [done|]. cbn [forallb].
  rewrite andb_true_iff. intros [H1 H2]. rewrite fmap_cons, IH by done. f_equal.
  by apply (sint_fits 32 iv.1 iv.2).
Qed.

Lemma FeCombine_spec h :
  limbs_in h wide → limbs_in (FeCombine h) tight ∧ fe_val (FeCombine h) ≡⟨ p25519 ⟩ fe_val h.
Proof.
  intros Hs. pose proof (limbs_in_length _ _ Hs) as Hl. cbn in Hl.
  destruct (abs_steps abs_fe_carry [0; 4; 1; 5; 2; 6; 3; 7; 4; 8; 9; 0]%nat wide)
    as [ivs'|] eqn:E; [|by vm_compute in E].
  destruct (steps_sound fe_carry fe_carryZ abs_fe_carry _ _ _ _ fe_carry_sound Hs E) as [R H].
  assert (ivs_le ivs' tight = true) as Ht by (vm_compute in E; injection E as <-; by vm_compute).
  pose proof (limbs_in_weaken _ _ _ H Ht) as Hin.
  unfold FeCombine. rewrite R, (i32_limbs _ tight Hin) by done.
  split; [done|]. apply fe_steps_val; [done|]. repeat constructor; lia.
Qed.

(** ** Multiplication *)

Lemma babs_add a b x y : babs a x → babs b y → babs (a + b) (x + y).
Proof. unfold babs. lia. Qed.

Lemma babs_mul a b x y : babs a x → babs b y → babs (a * b) (x * y).
Proof. unfold babs. intros. nia. Qed.

Lemma babs_lit n : babs (Z.abs n) n.
Proof. unfold babs. lia. Qed.

(** Bounds of an expression, from the bounds of its variables. *)
Ltac bound :=
  match goal with
  | |- babs _ (_ + _) => apply babs_add; bound
  | |- babs _ (_ * _) => apply babs_mul; bound
  | |- babs _ _ => first [eassumption | apply babs_lit]
  end.

Lemma sint_babs w b x : 0 < w → babs b x → (b <? 2 ^ (w - 1)) = true → sint w x = x.
Proof.
  rewrite Z.ltb_lt. unfold babs. intros Hw Hx Hb. apply sint_small; [done|]. unfold in_sint. lia.
Qed.

Lemma within_wide b x : babs b x → (b <=? 3 * 2 ^ 60) = true → within x (- (3 * 2 ^ 60), 3 * 2 ^ 60).
Proof. rewrite Z.leb_le. unfold babs, within. cbn [fst snd]. lia. Qed.

(** The variables of ten bounded limbs. *)
Lemma limbs_in_loose h :
  limbs_in h loose → ∃ f0 f1 f2 f3 f4 f5 f6 f7 f8 f9,
    h = [f0; f1; f2; f3; f4; f5; f6; f7; f8; f9] ∧
    (babs 110729625 f0 ∧ babs 55364811 f1 ∧ babs 110729625 f2 ∧ babs 55364811 f3 ∧
     babs 110729625 f4 ∧ babs 55364811 f5 ∧ babs 110729625 f6 ∧ babs 55364811 f7 ∧
     babs 110729625 f8 ∧ babs 55364811 f9).
Proof.
  intros H. pose proof (limbs_in_length _ _ H) as Hl. cbn in Hl. ten h Hl.
  unfold limbs_in, loose, fe_box in H.
  repeat match goal with H : Forall2 _ (_ :: _) (_ :: _) |- _ =>
    apply Forall2_cons_1 in H as [? H] end.
  do 10 eexists. split; [reflexivity|]. repeat split; apply H || (unfold within in *; cbn [fst snd] in *; lia).
Qed.

(** One limb of a product: its wraps collapse, and the one left is void. *)
Ltac exact_limb :=
  autorewrite with wrap; eapply sint_babs; [lia|bound|vm_compute; reflexivity].

Ltac small_limb := eapply sint_babs; [lia|bound|vm_compute; reflexivity].

Ltac narrow_limbs :=
  repeat match goal with
  | |- context [sint 32 ?x] =>
      let E := fresh in assert (sint 32 x = x) as E by small_limb; rewrite !E; clear E
  | |- context [sint 64 (?k * ?x)] =>
      is_ground k; is_var x;
      let E := fresh in assert (sint 64 (k * x) = k * x) as E by small_limb; rewrite !E; clear E
  end.

Ltac exact_limbs :=
  match goal with |- limbs_in ?l _ ∧ _ =>
    let E := fresh in
    eassert (l = _) as E by (repeat (eapply f_equal2; [exact_limb|]); reflexivity);
    rewrite E; clear E
  end.

Ltac wide_limbs :=
  unfold limbs_in, wide; cbn [replicate];
  repeat (apply Forall2_cons; [eapply within_wide; [bound|vm_compute; reflexivity]|]); constructor.

Lemma fe_mul_limbs_spec f g :
  limbs_in f loose → limbs_in g loose →
  limbs_in (fe_mul_limbs f g) wide ∧ fe_val (fe_mul_limbs f g) ≡⟨ p25519 ⟩ fe_val f * fe_val g.
Proof.
  intros (f0 & f1 & f2 & f3 & f4 & f5 & f6 & f7 & f8 & f9 & -> & ?)%limbs_in_loose (g0 & g1 & g2 & g3 & g4 & g5 & g6 & g7 & g8 & g9 & -> & ?)%limbs_in_loose.
  destruct_and!. unfold fe_mul_limbs. cbv zeta. cbn [lookup_total list_lookup_total].
  narrow_limbs.
  exact_limbs. split; [wide_limbs|].
  apply cong_divide; [done|]. unfold fe_val. show_limbs. unfold p25519.
  exists (- (2 ^ 1 * (f1 * g9) + 2 ^ 0 * (f2 * g8) + 2 ^ 26 * (f2 * g9) + 2 ^ 1 * (f3 * g7) + 2 ^ 26 * (f3 *
    g8) + 2 ^ 52 * (f3 * g9) + 2 ^ 0 * (f4 * g6) + 2 ^ 26 * (f4 * g7) + 2 ^ 51 * (f4 * g8) + 2 ^ 77
    * (f4 * g9) + 2 ^ 1 * (f5 * g5) + 2 ^ 26 * (f5 * g6) + 2 ^ 52 * (f5 * g7) + 2 ^ 77 * (f5 * g8) +
    2 ^ 103 * (f5 * g9) + 2 ^ 0 * (f6 * g4) + 2 ^ 26 * (f6 * g5) + 2 ^ 51 * (f6 * g6) + 2 ^ 77 * (f6
    * g7) + 2 ^ 102 * (f6 * g8) + 2 ^ 128 * (f6 * g9) + 2 ^ 1 * (f7 * g3) + 2 ^ 26 * (f7 * g4) + 2 ^
    52 * (f7 * g5) + 2 ^ 77 * (f7 * g6) + 2 ^ 103 * (f7 * g7) + 2 ^ 128 * (f7 * g8) + 2 ^ 154 * (f7
    * g9) + 2 ^ 0 * (f8 * g2) + 2 ^ 26 * (f8 * g3) + 2 ^ 51 * (f8 * g4) + 2 ^ 77 * (f8 * g5) + 2 ^
    102 * (f8 * g6) + 2 ^ 128 * (f8 * g7) + 2 ^ 153 * (f8 * g8) + 2 ^ 179 * (f8 * g9) + 2 ^ 1 * (f9
    * g1) + 2 ^ 26 * (f9 * g2) + 2 ^ 52 * (f9 * g3) + 2 ^ 77 * (f9 * g4) + 2 ^ 103 * (f9 * g5) + 2 ^
    128 * (f9 * g6) + 2 ^ 154 * (f9 * g7) + 2 ^ 179 * (f9 * g8) + 2 ^ 205 * (f9 * g9))).
  ring.
Qed.

Lemma feSquare_spec f :
  limbs_in f loose →
  limbs_in (feSquare f) wide ∧
  limbs_in ((λ h, i64 (h + h)) <$> feSquare f) wide ∧
  fe_val (feSquare f) ≡⟨ p25519 ⟩ fe_val f * fe_val f ∧
  fe_val ((λ h, i64 (h + h)) <$> feSquare f) ≡⟨ p25519 ⟩ 2 * (fe_val f * fe_val f).
Proof.
  intros (f0 & f1 & f2 & f3 & f4 & f5 & f6 & f7 & f8 & f9 & -> & ?)%limbs_in_loose.
  destruct_and!. unfold feSquare. cbv zeta. cbn [lookup_total list_lookup_total].
  narrow_limbs. exact_limbs.
  match goal with |- context [fmap ?g ?l] =>
    let E := fresh in
    eassert (fmap g l = _) as E by (cbn [fmap list_fmap]; repeat (eapply f_equal2; [exact_limb|]); reflexivity);
    rewrite E; clear E end.
  split; [wide_limbs|]. split; [wide_limbs|].
  unfold fe_val. show_limbs. unfold p25519.
  split; (apply cong_divide; [done|]).
  - exists (- (2 ^ 1 * (f1 * f9) + 2 ^ 0 * (f2 * f8) + 2 ^ 26 * (f2 * f9) + 2 ^ 1 * (f3 * f7) + 2 ^ 26 * (f3 *
      f8) + 2 ^ 52 * (f3 * f9) + 2 ^ 0 * (f4 * f6) + 2 ^ 26 * (f4 * f7) + 2 ^ 51 * (f4 * f8) + 2 ^ 77
      * (f4 * f9) + 2 ^ 1 * (f5 * f5) + 2 ^ 26 * (f5 * f6) + 2 ^ 52 * (f5 * f7) + 2 ^ 77 * (f5 * f8) +
      2 ^ 103 * (f5 * f9) + 2 ^ 0 * (f6 * f4) + 2 ^ 26 * (f6 * f5) + 2 ^ 51 * (f6 * f6) + 2 ^ 77 * (f6
      * f7) + 2 ^ 102 * (f6 * f8) + 2 ^ 128 * (f6 * f9) + 2 ^ 1 * (f7 * f3) + 2 ^ 26 * (f7 * f4) + 2 ^
      52 * (f7 * f5) + 2 ^ 77 * (f7 * f6) + 2 ^ 103 * (f7 * f7) + 2 ^ 128 * (f7 * f8) + 2 ^ 154 * (f7
      * f9) + 2 ^ 0 * (f8 * f2) + 2 ^ 26 * (f8 * f3) + 2 ^ 51 * (f8 * f4) + 2 ^ 77 * (f8 * f5) + 2 ^
      102 * (f8 * f6) + 2 ^ 128 * (f8 * f7) + 2 ^ 153 * (f8 * f8) + 2 ^ 179 * (f8 * f9) + 2 ^ 1 * (f9
      * f1) + 2 ^ 26 * (f9 * f2) + 2 ^ 52 * (f9 * f3) + 2 ^ 77 * (f9 * f4) + 2 ^ 103 * (f9 * f5) + 2 ^
      128 * (f9 * f6) + 2 ^ 154 * (f9 * f7) + 2 ^ 179 * (f9 * f8) + 2 ^ 205 * (f9 * f9))).
    ring.
  - exists (- (2 * (2 ^ 1 * (f1 * f9) + 2 ^ 0 * (f2 * f8) + 2 ^ 26 * (f2 * f9) + 2 ^ 1 * (f3 * f7) + 2 ^ 26 * (f3 *
      f8) + 2 ^ 52 * (f3 * f9) + 2 ^ 0 * (f4 * f6) + 2 ^ 26 * (f4 * f7) + 2 ^ 51 * (f4 * f8) + 2 ^ 77
      * (f4 * f9) + 2 ^ 1 * (f5 * f5) + 2 ^ 26 * (f5 * f6) + 2 ^ 52 * (f5 * f7) + 2 ^ 77 * (f5 * f8) +
      2 ^ 103 * (f5 * f9) + 2 ^ 0 * (f6 * f4) + 2 ^ 26 * (f6 * f5) + 2 ^ 51 * (f6 * f6) + 2 ^ 77 * (f6
      * f7) + 2 ^ 102 * (f6 * f8) + 2 ^ 128 * (f6 * f9) + 2 ^ 1 * (f7 * f3) + 2 ^ 26 * (f7 * f4) + 2 ^
      52 * (f7 * f5) + 2 ^ 77 * (f7 * f6) + 2 ^ 103 * (f7 * f7) + 2 ^ 128 * (f7 * f8) + 2 ^ 154 * (f7
      * f9) + 2 ^ 0 * (f8 * f2) + 2 ^ 26 * (f8 * f3) + 2 ^ 51 * (f8 * f4) + 2 ^ 77 * (f8 * f5) + 2 ^
      102 * (f8 * f6) + 2 ^ 128 * (f8 * f7) + 2 ^ 153 * (f8 * f8) + 2 ^ 179 * (f8 * f9) + 2 ^ 1 * (f9
      * f1) + 2 ^ 26 * (f9 * f2) + 2 ^ 52 * (f9 * f3) + 2 ^ 77 * (f9 * f4) + 2 ^ 103 * (f9 * f5) + 2 ^
      128 * (f9 * f6) + 2 ^ 154 * (f9 * f7) + 2 ^ 179 * (f9 * f8) + 2 ^ 205 * (f9 * f9)))).
    ring.
Qed.

Lemma FeMul_spec f g :
  limbs_in f loose → limbs_in g loose →
  limbs_in (FeMul f g) tight ∧ fe_val (FeMul f g) ≡⟨ p25519 ⟩ fe_val f * fe_val g.
Proof.
  intros Hf Hg. destruct (fe_mul_limbs_spec f g Hf Hg) as [H1 H2].
  destruct (FeCombine_spec _ H1) as [H3 H4]. split; [exact H3|]. unfold FeMul. rewrite H4. exact H2.
Qed.

Lemma FeSquare_spec f :
  limbs_in f loose →
  limbs_in (FeSquare f) tight ∧ fe_val (FeSquare f) ≡⟨ p25519 ⟩ fe_val f * fe_val f.
Proof.
  intros Hf. destruct (feSquare_spec f Hf) as (H1 & _ & H2 & _).
  destruct (FeCombine_spec _ H1) as [H3 H4]. split; [exact H3|]. unfold FeSquare. rewrite H4. exact H2.
Qed.

Lemma FeSquare2_spec f :
  limbs_in f loose →
  limbs_in (FeSquare2 f) tight ∧ fe_val (FeSquare2 f) ≡⟨ p25519 ⟩ 2 * (fe_val f * fe_val f).
Proof.
  intros Hf. destruct (feSquare_spec f Hf) as (_ & H1 & _ & H2).
  destruct (FeCombine_spec _ H1) as [H3 H4]. split; [exact H3|]. unfold FeSquare2. rewrite H4. exact H2.
Qed.

Lemma tight_loose h : limbs_in h tight → limbs_in h loose.
Proof. intros H. by apply (limbs_in_weaken _ _ _ H). Qed.

(** ** Powers *)

Lemma fe_pow_base z : limbs_in z tight → fe_pow z 1 z.
Proof. intros H. split; [done|]. by rewrite Z.pow_1_r. Qed.

Lemma fe_pow_square z e x : 0 ≤ e → fe_pow z e x → fe_pow z (2 * e) (FeSquare x).
Proof.
  intros He [H1 H2]. destruct (FeSquare_spec x (tight_loose _ H1)) as [H3 H4].
  split; [exact H3|]. rewrite H4, H2, <- Z.pow_add_r by lia.
  replace (e + e) with (2 * e) by lia. reflexivity.
Qed.

Lemma fe_pow_mul z a b x y :
  0 ≤ a → 0 ≤ b → fe_pow z a x → fe_pow z b y → fe_pow z (a + b) (FeMul x y).
Proof.
  intros Ha Hb [H1 H2] [H3 H4].
  destruct (FeMul_spec x y (tight_loose _ H1) (tight_loose _ H3)) as [H5 H6].
  split; [exact H5|]. rewrite H6, H2, H4, <- Z.pow_add_r by lia. reflexivity.
Qed.

Lemma fe_pow_squares z n e x : 0 ≤ e → fe_pow z e x → fe_pow z (2 ^ Z.of_nat (n - 1) * e) (FeSquares n x).
Proof.
  intros He H. unfold FeSquares. induction (n - 1)%nat as [|k IH].
  { by replace (2 ^ Z.of_nat 0 * e) with e by lia. }
  cbn [Nat.iter]. rewrite Nat2Z.inj_succ, Z.pow_succ_r, <- Z.mul_assoc by lia.
  apply fe_pow_square; [|done]. apply Z.mul_nonneg_nonneg; [|done]. apply Z.pow_nonneg. lia.
Qed.

(** One operation of an addition chain on known powers. *)
Ltac pow_step :=
  match goal with
  | |- fe_pow _ _ (FeMul _ _) => eapply fe_pow_mul; [| |eassumption|eassumption]; lia
  | |- fe_pow _ _ (FeSquares _ _) => eapply fe_pow_squares; [|eassumption]; lia
  | |- fe_pow _ _ (FeSquare _) => eapply fe_pow_square; [|eassumption]; lia
  end.

Ltac pow_known H :=
  match type of H with fe_pow _ ?x _ => let y := eval vm_compute in x in change x with y in H end.

(** An addition chain, followed one assignment at a time. *)
Ltac follow_chain :=
  repeat lazymatch goal with |- fe_pow ?z ?E (let t := ?e in @?k t) =>
    let H := fresh "P" in
    eassert (fe_pow z _ e) as H by pow_step; pow_known H;
    change (fe_pow z E (k e)); revert H; generalize e; intros ? H; cbv beta
  end;
  lazymatch goal with |- fe_pow ?z ?E ?e =>
    let H := fresh "P" in
    eassert (fe_pow z _ e) as H by pow_step;
    match type of H with fe_pow _ ?x _ => replace E with x by (vm_compute; reflexivity) end;
    exact H
  end.

Lemma FeInvert_spec z : limbs_in z tight → fe_pow z (p25519 - 2) (FeInvert z).
Proof.
  intros H%fe_pow_base. cbv beta delta [FeInvert]. follow_chain.
Qed.

Lemma fePow22523_spec z : limbs_in z tight → fe_pow z (2 ^ 252 - 3) (fePow22523 z).
Proof.
  intros H%fe_pow_base. cbv beta delta [fePow22523]. follow_chain.
Qed.

(** ** Canonical form and bytes *)

(** A step of the quotient stays small and does not wrap. *)
Lemma quotient_step x q b :
  babs 110729625 x → babs 40 q → 25 ≤ b ≤ 26 →
  Z.shiftr (i32 (x + q)) b = (x + q) / 2 ^ b ∧ babs 40 ((x + q) / 2 ^ b).
Proof.
  unfold babs. intros Hx Hq Hb. rewrite sint_small by (unfold in_sint; lia).
  rewrite Z.shiftr_div_pow2 by lia. split; [done|].
  assert (2 ^ 25 ≤ 2 ^ b) by (apply Z.pow_le_mono_r; lia).
  split; [apply Z.div_le_lower_bound; lia|]. apply Z.div_le_upper_bound; lia.
Qed.

Lemma div_carry y a m n : 0 < m → 0 < n → (y + a / m) / n = (y * m + a) / (m * n).
Proof. intros Hm Hn. by rewrite <- Z.div_add_l, Z.div_div by lia. Qed.

Lemma fe_bits_range i : 25 ≤ fe_bits i ≤ 26.
Proof. unfold fe_bits. destruct (Nat.even i); lia. Qed.

Lemma radix_weight_pos i n : 0 < radix_weight i n.
Proof.
  revert i. induction n as [|n IH]; intros i; cbn [radix_weight]; [lia|].
  apply Z.mul_pos_pos; [|done]. pose proof (fe_bits_range i). apply Z.pow_pos_nonneg; lia.
Qed.

(** The chain of quotients divides the whole number. *)
Lemma quotient_fold pre l q :
  Forall (babs 110729625) l → babs 40 q →
  let r := fold_left (λ q i, Z.shiftr (i32 ((pre ++ l) !!! i + q)) (fe_bits i))
             (seq (length pre) (length l)) q in
  r = (radix_val (length pre) l + q) / radix_weight (length pre) (length l) ∧ babs 40 r.
Proof.
  cbv zeta. intros Hl. revert pre q. induction Hl as [|x l Hx _ IH]; intros pre q Hq.
  { cbn [fold_left seq length radix_val radix_weight]. by rewrite Z.add_0_l, Z.div_1_r. }
  cbn [length seq fold_left radix_val radix_weight].
  rewrite lookup_total_app_r, Nat.sub_diag by lia. change ((x :: l) !!! 0%nat) with x.
  destruct (quotient_step x q (fe_bits (length pre)) Hx Hq (fe_bits_range _)) as [-> Hq'].
  destruct (IH (pre ++ [x]) _ Hq') as [E B]. rewrite <- app_assoc, length_app in *.
  cbn [app length] in E, B. rewrite Nat.add_1_r in *. split; [|exact B]. rewrite E.
  pose proof (fe_bits_range (length pre)).
  rewrite div_carry; [|apply Z.pow_pos_nonneg; lia|apply radix_weight_pos]. f_equal. lia.
Qed.

Lemma fe_quotient_spec h :
  limbs_in h loose →
  let q0 := (19 * h !!! 9%nat + 2 ^ 24) / 2 ^ 25 in
  fe_quotient h = (fe_val h + q0) / 2 ^ 255 ∧ babs 40 q0 ∧ babs 40 (fe_quotient h).
Proof.
  intros (h0 & h1 & h2 & h3 & h4 & h5 & h6 & h7 & h8 & h9 & -> & H)%limbs_in_loose.
  destruct_and!. unfold fe_quotient. cbv zeta.
  change ([h0; h1; h2; h3; h4; h5; h6; h7; h8; h9] !!! 9%nat) with h9.
  assert (babs 40 ((19 * h9 + 2 ^ 24) / 2 ^ 25)) as B.
  { unfold babs in *. split; [apply Z.div_le_lower_bound; lia|]. apply Z.div_le_upper_bound; lia. }
  rewrite (sint_small 32 (19 * h9)) by (unfold in_sint, babs in *; lia).
  change (Z.shiftl 1 24) with (2 ^ 24).
  rewrite (sint_small 32 (19 * h9 + 2 ^ 24)) by (unfold in_sint, babs in *; lia).
  rewrite (Z.shiftr_div_pow2 _ 25) by lia.
  destruct (quotient_fold [] [h0; h1; h2; h3; h4; h5; h6; h7; h8; h9] _
    ltac:(repeat constructor; unfold babs in *; lia) B) as [E B'].
  split; [exact E|]. split; [exact B|exact B'].
Qed.

(** The quotient is the floor of the division by the prime: [q0] is within the
    distance the remainder allows of [19 * floor(h/p)]. *)
Lemma fe_quotient_floor h : limbs_in h loose → fe_quotient h = fe_val h / p25519.
Proof.
  intros H. destruct (fe_quotient_spec h H) as (E & B0 & _). rewrite E. clear E.
  destruct (limbs_in_loose h H) as (h0 & h1 & h2 & h3 & h4 & h5 & h6 & h7 & h8 & h9 & -> & Hb).
  change ([h0; h1; h2; h3; h4; h5; h6; h7; h8; h9] !!! 9%nat) with h9 in *.
  unfold fe_val in *. show_limbs. destruct_and!.
  set (V := h0 + _) in *.
  assert (h9 * 2 ^ 230 - 2 ^ 232 ≤ V ≤ h9 * 2 ^ 230 + 2 ^ 232) as HV
    by (unfold babs in *; subst V; lia).
  assert (- 2 ^ 257 ≤ V ≤ 2 ^ 257) as HV2 by (unfold babs in *; lia).
  clearbody V. clear H B0.
  pose proof (Z.div_mod V p25519 ltac:(done)) as Hd.
  pose proof (Z.mod_pos_bound V p25519 ltac:(done)) as Hr.
  set (q := V / p25519) in *. set (r := V mod p25519) in *. clearbody q r. unfold p25519 in *.
  assert (- 5 ≤ q ≤ 5) as Hq by lia.
  assert (19 * q ≤ (19 * h9 + 2 ^ 24) / 2 ^ 25) as L1 by (apply Z.div_le_lower_bound; lia).
  assert ((19 * h9 + 2 ^ 24) / 2 ^ 25 < 19 * q + 20) as L2 by (apply Z.div_lt_upper_bound; lia).
  symmetry. apply (Z.div_unique _ _ _ (r - 19 * q + (19 * h9 + 2 ^ 24) / 2 ^ 25)); lia.
Qed.

Lemma fe_floorZ_length i h : length (fe_floorZ i h) = length h.
Proof. unfold fe_floorZ, gcarryZ. cbv zeta. by rewrite !length_insert. Qed.

Lemma fe_floorZ_val i h :
  length h = 10%nat → (i < 10)%nat → fe_val (fe_floorZ i h) ≡⟨ 2 ^ 255 ⟩ fe_val h.
Proof.
  intros Hl Hi. ten h Hl. apply cong_divide; [done|].
  do 10 (destruct i as [|i];
    [unfold fe_floorZ, gcarryZ, fe_val; cbv zeta; show_limbs;
     match goal with |- context [?x / 2 ^ ?b] => generalize (x / 2 ^ b); intros c end;
     first [exists 0; lia | exists (- c); lia]|]).
  lia.
Qed.

Lemma fe_floors_val l h :
  length h = 10%nat → Forall (λ i, (i < 10)%nat) l →
  fe_val (fold_left (λ h i, fe_floorZ i h) l h) ≡⟨ 2 ^ 255 ⟩ fe_val h.
Proof.
  intros Hl H. revert h Hl. induction H as [|i l Hi _ IH]; intros h Hl; [done|]. cbn [fold_left].
  rewrite IH by (by rewrite fe_floorZ_length). by apply fe_floorZ_val.
Qed.

Lemma radix_val_mono i h ivs :
  limbs_in h ivs → radix_val i (ivs.*1) ≤ radix_val i h ≤ radix_val i (ivs.*2).
Proof.
  unfold limbs_in. intros H. revert i. induction H as [|x [lo hi] h ivs Hx _ IH]; intros i; [done|].
  rewrite !fmap_cons. cbn [radix_val fst snd]. unfold within in Hx. cbn [fst snd] in Hx.
  specialize (IH (S i)). pose proof (fe_bits_range i).
  assert (0 < 2 ^ fe_bits i) by (apply Z.pow_pos_nonneg; lia). nia.
Qed.

(** [FeToBytes] leaves the canonical limbs of the residue. *)
Lemma fe_canonical_spec h :
  limbs_in h loose →
  limbs_in (fe_canonical h) reduced ∧ fe_val (fe_canonical h) = fe_val h mod p25519.
Proof.
  intros H. destruct (fe_quotient_spec h H) as (_ & _ & Bq).
  pose proof (fe_quotient_floor h H) as Eq. unfold fe_canonical. cbv zeta.
  destruct (limbs_in_loose h H) as (h0 & h1 & h2 & h3 & h4 & h5 & h6 & h7 & h8 & h9 & -> & Hb).
  set (l := [h0; h1; h2; h3; h4; h5; h6; h7; h8; h9]) in *.
  set (q := fe_quotient l) in *. destruct_and!. unfold babs in *.
  rewrite (sint_small 32 (19 * q)) by (unfold in_sint; lia).
  change (l !!! 0%nat) with h0. rewrite (sint_small 32 (h0 + 19 * q)) by (unfold in_sint; lia).
  assert (limbs_in (<[0%nat := h0 + 19 * q]> l) (<[0%nat := (-111000000, 111000000)]> loose)) as Hin.
  { apply limbs_in_insert; [done|]. unfold within. cbn [fst snd]. lia. }
  destruct (abs_steps abs_fe_floor (seq 0 10) (<[0%nat := (-111000000, 111000000)]> loose))
    as [ivs'|] eqn:E; [|by vm_compute in E].
  destruct (steps_sound fe_floor fe_floorZ abs_fe_floor _ _ _ _ fe_floor_sound Hin E) as [-> Hr].
  assert (ivs' = reduced) as -> by (vm_compute in E; injection E as <-; by vm_compute).
  split; [exact Hr|].
  pose proof (radix_val_mono 0 _ _ Hr) as HV. change (radix_val 0 (reduced.*1)) with 0 in HV.
  change (radix_val 0 (reduced.*2)) with (2 ^ 255 - 1) in HV.
  assert (0 ≤ fe_val l mod p25519 < p25519) as Hm by (apply Z.mod_pos_bound; done).
  apply (cong_unique (2 ^ 255)); [unfold fe_val; lia|unfold p25519 in *; lia|].
  etransitivity; [apply fe_floors_val; [reflexivity|repeat constructor; lia]|].
  apply cong_divide; [done|]. exists q.
  pose proof (Z.div_mod (fe_val l) p25519 ltac:(done)) as Hd. rewrite <- Eq in Hd.
  unfold fe_val in *. subst l. cbn [insert list_insert radix_val] in *. unfold p25519 in *. lia.
Qed.

(** ** Writing the bytes *)

Lemma radix_shift i x s j :
  0 ≤ x < 2 ^ fe_bits i → fe_bits i ≤ j →
  radix_val i (x :: s) / 2 ^ j = radix_val (S i) s / 2 ^ (j - fe_bits i).
Proof.
  intros Hx Hj. pose proof (fe_bits_range i). cbn [radix_val].
  replace j with (fe_bits i + (j - fe_bits i)) at 1 by lia.
  rewrite Z.pow_add_r, <- Z.div_div by lia.
  rewrite (Z.mul_comm (2 ^ fe_bits i)), Z.div_add, (Z.div_small x) by lia. done.
Qed.

Lemma fe_byte_low i x s j :
  0 ≤ j → j + 8 ≤ fe_bits i → u8 (Z.shiftr x j) = radix_val i (x :: s) / 2 ^ j mod 2 ^ 8.
Proof.
  intros Hj Hb. rewrite Z.shiftr_div_pow2 by lia. unfold uint. cbn [radix_val].
  replace (2 ^ fe_bits i) with (2 ^ (fe_bits i - 8 - j) * 2 ^ 8 * 2 ^ j)
    by (rewrite <- !Z.pow_add_r by lia; f_equal; lia).
  replace (2 ^ (fe_bits i - 8 - j) * 2 ^ 8 * 2 ^ j * radix_val (S i) s)
    with ((radix_val (S i) s * 2 ^ (fe_bits i - 8 - j) * 2 ^ 8) * 2 ^ j) by lia.
  rewrite Z.div_add by lia. by rewrite Z.mod_add by lia.
Qed.

Lemma fe_byte_high i x j : 0 ≤ j → u8 (Z.shiftr x j) = radix_val i [x] / 2 ^ j mod 2 ^ 8.
Proof.
  intros Hj. rewrite Z.shiftr_div_pow2 by lia. unfold uint. cbn [radix_val].
  by rewrite Z.mul_0_r, Z.add_0_r.
Qed.

(** Only the low byte of the shifted limb is used, so its wrap does not matter. *)
Lemma u8_lor_wrap a z : u8 (Z.lor a (i32 z)) = u8 (Z.lor a z).
Proof.
  assert (∀ x, u8 x = Z.land x (Z.ones 8)) as H by (intros; by rewrite Z.land_ones).
  rewrite !H, !Z.land_lor_distr_l. f_equal. rewrite <- !H. unfold uint.
  pose proof (sint_cong 32 z ltac:(lia)) as Hc. unfold cong in Hc.
  assert (2 ^ 8 | 2 ^ 32) as Hd by (by exists (2 ^ 24)).
  by rewrite <- (Z.mod_mod_divide (i32 z) _ _ Hd), Hc, Z.mod_mod_divide.
Qed.

Lemma fe_byte_across i x y s j :
  0 ≤ x < 2 ^ fe_bits i → 0 ≤ y → 0 ≤ j ≤ fe_bits i → fe_bits i ≤ j + 8 →
  u8 (Z.lor (Z.shiftr x j) (i32 (Z.shiftl y (fe_bits i - j))))
  = radix_val i (x :: y :: s) / 2 ^ j mod 2 ^ 8.
Proof.
  intros Hx Hy Hj Hb. rewrite u8_lor_wrap, Z.shiftr_div_pow2, Z.shiftl_mul_pow2 by lia.
  pose proof (fe_bits_range i). pose proof (fe_bits_range (S i)).
  assert (2 ^ fe_bits i = 2 ^ (fe_bits i - j) * 2 ^ j) as E
    by (rewrite <- Z.pow_add_r by lia; f_equal; lia).
  rewrite lor_disjoint; [|lia|].
  2:{ split; [apply Z.div_pos; lia|]. apply Z.div_lt_upper_bound; lia. }
  unfold uint. cbn [radix_val]. set (r := radix_val (S (S i)) s).
  replace (x + 2 ^ fe_bits i * (y + 2 ^ fe_bits (S i) * r))
    with (x + ((y + 2 ^ fe_bits (S i) * r) * 2 ^ (fe_bits i - j)) * 2 ^ j) by (rewrite E; lia).
  rewrite Z.div_add by lia.
  replace (2 ^ fe_bits (S i)) with (2 ^ (fe_bits (S i) - 8) * 2 ^ 8)
    by (rewrite <- Z.pow_add_r by lia; f_equal; lia).
  replace (x / 2 ^ j + (y + 2 ^ (fe_bits (S i) - 8) * 2 ^ 8 * r) * 2 ^ (fe_bits i - j))
    with (x / 2 ^ j + y * 2 ^ (fe_bits i - j)
          + (2 ^ (fe_bits (S i) - 8) * r * 2 ^ (fe_bits i - j)) * 2 ^ 8) by lia.
  by rewrite Z.mod_add by lia.
Qed.

Ltac fe_store_byte :=
  repeat rewrite radix_shift by (cbn [fe_bits Nat.even]; lia);
  cbn [fe_bits Nat.even];
  match goal with |- _ = _ / 2 ^ ?e mod _ =>
    let v := eval vm_compute in e in change e with v end;
  first [ apply fe_byte_low; cbn [fe_bits Nat.even]; lia
        | apply fe_byte_high; lia
        | match goal with
          |- u8 (Z.lor (Z.shiftr _ ?j) (i32 (Z.shiftl _ ?k))) = radix_val ?i _ / _ mod _ =>
            change k with (fe_bits i - j); apply fe_byte_across; cbn [fe_bits Nat.even]; lia end ].

Lemma fe_store_spec h : limbs_in h reduced → fe_store h = le_bytes 32 (fe_val h).
Proof.
  intros H. pose proof (limbs_in_length _ _ H) as Hl. cbn in Hl. ten h Hl.
  unfold limbs_in in H. cbn [reduced fmap list_fmap seq fe_bits Nat.even] in H.
  repeat match goal with H : Forall2 _ (_ :: _) (_ :: _) |- _ =>
    apply Forall2_cons_1 in H as [? H] end.
  unfold within in *. cbn [fst snd] in *.
  unfold fe_val. rewrite <- (Z.div_1_r (radix_val _ _)). change 1 with (2 ^ 0).
  do 32 (rewrite le_bytes_step by lia;
    match goal with |- context [le_bytes _ (_ / 2 ^ ?e)] =>
      let v := eval vm_compute in e in change e with v end).
  unfold fe_store. cbv zeta. cbn [le_bytes lookup_total list_lookup_total].
  repeat (apply f_equal2; [fe_store_byte|]). done.
Qed.

Lemma FeToBytes_spec h :
  limbs_in h loose →
  (FeToBytes h).1 = le_bytes 32 (fe_val h mod p25519) ∧
  limbs_in (FeToBytes h).2 reduced ∧ fe_val (FeToBytes h).2 = fe_val h mod p25519.
Proof.
  intros H. destruct (fe_canonical_spec h H) as [H1 H2]. unfold FeToBytes. cbn [fst snd].
  split; [|done]. rewrite (fe_store_spec _ H1). by rewrite H2.
Qed.

(** ** Reading bytes *)

Lemma load3_bytes a b c l :
  byte_ok a → byte_ok b → byte_ok c → load3 (a :: b :: c :: l) = a + 2 ^ 8 * b + 2 ^ 16 * c.
Proof.
  unfold byte_ok. intros Ha Hb Hc. unfold load3. cbv zeta. cbn [lookup_total list_lookup_total].
  rewrite !Z.shiftl_mul_pow2 by lia. rewrite !(sint_small 64) by (unfold in_sint; lia).
  rewrite (lor_disjoint a b), (lor_disjoint _ c) by lia. lia.
Qed.

Lemma load4_bytes a b c d l :
  byte_ok a → byte_ok b → byte_ok c → byte_ok d →
  load4 (a :: b :: c :: d :: l) = a + 2 ^ 8 * b + 2 ^ 16 * c + 2 ^ 24 * d.
Proof.
  unfold byte_ok. intros Ha Hb Hc Hd. unfold load4. cbv zeta. cbn [lookup_total list_lookup_total].
  rewrite !Z.shiftl_mul_pow2 by lia. rewrite !(sint_small 64) by (unfold in_sint; lia).
  rewrite (lor_disjoint a b), (lor_disjoint _ c), (lor_disjoint _ d) by lia. lia.
Qed.

(** The top bit of the 32 bytes is ignored. *)
Lemma FeFromBytes_spec src :
  Forall byte_ok src → length src = 32%nat →
  limbs_in (FeFromBytes src) tight ∧ fe_val (FeFromBytes src) ≡⟨ p25519 ⟩ le_val src mod 2 ^ 255.
Proof.
  intros H Hl. do 32 (destruct src as [|? src]; [discriminate Hl|]).
  destruct src; [|discriminate Hl]. clear Hl.
  repeat match goal with H : Forall _ (_ :: _) |- _ => apply Forall_cons_1 in H as [? H] end.
  unfold FeFromBytes. cbn [drop]. rewrite ?drop_0.
  rewrite !load3_bytes, !load4_bytes by done.
  rewrite (Z.land_comm _ 8388607). change 8388607 with (2 ^ 23 - 1). rewrite land_mask by lia.
  rewrite !Z.shiftl_mul_pow2 by lia. unfold byte_ok in *.
  match goal with |- context [(?a + 2 ^ 8 * ?b + 2 ^ 16 * ?c) mod 2 ^ 23] =>
    assert ((a + 2 ^ 8 * b + 2 ^ 16 * c) mod 2 ^ 23 = a + 2 ^ 8 * b + 2 ^ 16 * (c mod 2 ^ 7)) as -> by
      (rewrite (Z.div_mod c (2 ^ 7)) at 1 by lia; symmetry;
       apply (Z.mod_unique _ _ (c / 2 ^ 7)); pose proof (Z.mod_pos_bound c (2 ^ 7)); lia)
  end.
  match goal with |- context [?c mod 2 ^ 7] => pose proof (Z.mod_pos_bound c (2 ^ 7) ltac:(lia));
    pose proof (Z.div_mod c (2 ^ 7) ltac:(lia)); pose proof (Z.div_pos c (2 ^ 7)) end.
  rewrite !(sint_small 64) by (unfold in_sint; lia).
  match goal with |- limbs_in (FeCombine ?l) _ ∧ _ =>
    assert (limbs_in l wide) as Hw end.
  { unfold limbs_in, wide. cbn [replicate].
    repeat (apply Forall2_cons; [unfold within; cbn [fst snd]; lia|]). constructor. }
  destruct (FeCombine_spec _ Hw) as [Ht Hv]. split; [exact Ht|]. rewrite Hv. clear Ht Hv Hw.
  match goal with |- cong _ ?a ?b => assert (a = b) as ->; [|reflexivity] end.
  unfold fe_val. cbn [radix_val fe_bits Nat.even le_val].
  match goal with |- context [?c mod 2 ^ 7] =>
    apply (Z.mod_unique _ _ (c / 2 ^ 7)); [left|]; generalize dependent (c mod 2 ^ 7);
    generalize dependent (c / 2 ^ 7); intros; subst; lia end.
Qed.

(** ** Linear operations *)

Lemma limbs_in_box e o h :
  limbs_in h (fe_box e o) → ∃ h0 h1 h2 h3 h4 h5 h6 h7 h8 h9,
    h = [h0; h1; h2; h3; h4; h5; h6; h7; h8; h9] ∧
    (babs e h0 ∧ babs o h1 ∧ babs e h2 ∧ babs o h3 ∧ babs e h4 ∧
     babs o h5 ∧ babs e h6 ∧ babs o h7 ∧ babs e h8 ∧ babs o h9).
Proof.
  intros H. pose proof (limbs_in_length _ _ H) as Hl. cbn in Hl. ten h Hl.
  unfold limbs_in, fe_box in H.
  repeat match goal with H : Forall2 _ (_ :: _) (_ :: _) |- _ =>
    apply Forall2_cons_1 in H as [? H] end.
  do 10 eexists. split; [reflexivity|]. unfold within in *. cbn [fst snd] in *. done.
Qed.

(** Ten limbs of an operation that does not wrap. *)
Ltac linear_limbs :=
  repeat match goal with |- context [sint 32 ?x] =>
    rewrite (sint_small 32 x) by (unfold in_sint, babs in *; lia) end.

Ltac box_limbs :=
  unfold limbs_in, fe_box;
  repeat (apply Forall2_cons; [unfold within, babs in *; cbn [fst snd]; lia|]); constructor.

Lemma FeAdd_spec e o e' o' a b :
  limbs_in a (fe_box e o) → limbs_in b (fe_box e' o') → e + e' < 2 ^ 31 → o + o' < 2 ^ 31 →
  limbs_in (FeAdd a b) (fe_box (e + e') (o + o')) ∧ fe_val (FeAdd a b) = fe_val a + fe_val b.
Proof.
  intros (a0 & a1 & a2 & a3 & a4 & a5 & a6 & a7 & a8 & a9 & -> & ?)%limbs_in_box
    (b0 & b1 & b2 & b3 & b4 & b5 & b6 & b7 & b8 & b9 & -> & ?)%limbs_in_box He Ho.
  destruct_and!. unfold FeAdd. cbn [zip_with]. linear_limbs. split; [box_limbs|].
  unfold fe_val. cbn [radix_val fe_bits Nat.even]. lia.
Qed.

Lemma FeSub_spec e o e' o' a b :
  limbs_in a (fe_box e o) → limbs_in b (fe_box e' o') → e + e' < 2 ^ 31 → o + o' < 2 ^ 31 →
  limbs_in (FeSub a b) (fe_box (e + e') (o + o')) ∧ fe_val (FeSub a b) = fe_val a - fe_val b.
Proof.
  intros (a0 & a1 & a2 & a3 & a4 & a5 & a6 & a7 & a8 & a9 & -> & ?)%limbs_in_box
    (b0 & b1 & b2 & b3 & b4 & b5 & b6 & b7 & b8 & b9 & -> & ?)%limbs_in_box He Ho.
  destruct_and!. unfold FeSub. cbn [zip_with]. linear_limbs. split; [box_limbs|].
  unfold fe_val. cbn [radix_val fe_bits Nat.even]. lia.
Qed.

Lemma FeNeg_spec e o f :
  limbs_in f (fe_box e o) → e < 2 ^ 31 → o < 2 ^ 31 →
  limbs_in (FeNeg f) (fe_box e o) ∧ fe_val (FeNeg f) = - fe_val f.
Proof.
  intros (a0 & a1 & a2 & a3 & a4 & a5 & a6 & a7 & a8 & a9 & -> & ?)%limbs_in_box He Ho.
  destruct_and!. unfold FeNeg. cbn [fmap list_fmap]. linear_limbs. split; [box_limbs|].
  unfold fe_val. cbn [radix_val fe_bits Nat.even]. lia.
Qed.

Lemma FeCMove_spec f g b :
  length f = length g → FeCMove f g b = if b =? 1 then g else if b =? 0 then f else FeCMove f g b.
Proof.
  intros Hl. destruct (Z.eqb_spec b 1) as [->|]; [|destruct (Z.eqb_spec b 0) as [->|]; [|done]].
  - unfold FeCMove. change (i32 (- 1)) with (- 1). cbv zeta. revert g Hl.
    induction f as [|x f IH]; intros [|y g] Hl; try done.
    cbn [zip_with]. rewrite IH by (by injection Hl).
    f_equal. by rewrite Z.land_m1_l, <- Z.lxor_assoc, Z.lxor_nilpotent, Z.lxor_0_l.
  - unfold FeCMove. change (i32 (- 0)) with 0. cbv zeta. revert g Hl.
    induction f as [|x f IH]; intros [|y g] Hl; try done.
    cbn [zip_with]. rewrite IH by (by injection Hl).
    f_equal. by rewrite Z.land_0_l, Z.lxor_0_r.
Qed.

(** ** Tests *)

Lemma reduced_loose h : limbs_in h reduced → limbs_in h loose.
Proof. intros H. apply (limbs_in_weaken _ _ _ H). vm_compute. reflexivity. Qed.

Lemma FeIsNegative_spec f :
  limbs_in f loose →
  (FeIsNegative f).1 = (fe_val f mod p25519) mod 2 ∧
  limbs_in (FeIsNegative f).2 reduced ∧ fe_val (FeIsNegative f).2 = fe_val f mod p25519.
Proof.
  intros H. destruct (FeToBytes_spec f H) as (H1 & H2 & H3). unfold FeIsNegative.
  destruct (FeToBytes f) as [s f']. cbn [fst snd] in *. subst s.
  split; [|done].
  cbn [le_bytes lookup_total list_lookup_total]. change 1 with (Z.ones 1).
  rewrite Z.land_ones by lia. change 256 with (2 ^ 8). apply Z.mod_mod_divide. by exists (2 ^ 7).
Qed.

Lemma lor_all_zero l : Forall byte_ok l → ∀ x, 0 ≤ x < 256 →
  0 ≤ fold_left Z.lor l x < 256 ∧ (fold_left Z.lor l x = 0 ↔ x = 0 ∧ Forall (λ b, b = 0) l).
Proof.
  induction 1 as [|b l Hb _ IH]; intros x Hx; cbn [fold_left].
  { split; [done|]. split; [intros ->; by split|by intros [-> _]]. }
  assert (0 ≤ Z.lor x b < 256) as Hr.
  { unfold byte_ok in Hb. replace (Z.lor x b) with (Z.lor x b mod 2 ^ 8); [by apply Z.mod_pos_bound|].
    rewrite <- Z.land_ones, Z.land_lor_distr_l, !Z.land_ones by lia. by rewrite !Z.mod_small by lia. }
  destruct (IH (Z.lor x b) Hr) as [H1 H2]. split; [done|]. rewrite H2, Z.lor_eq_0_iff.
  rewrite list.Forall_cons. tauto.
Qed.

(** The fold tells whether the byte is zero. *)
Lemma fold_bits_zero x : 0 ≤ x < 256 → fold_bits x = if x =? 0 then 0 else 1.
Proof.
  intros Hx. assert (List.In x (seqZ 0 256)) as Hin by (apply list_elem_of_In, elem_of_seqZ; lia).
  assert (forallb (λ x, fold_bits x =? if x =? 0 then 0 else 1) (seqZ 0 256) = true) as H
    by (vm_compute; reflexivity).
  rewrite List.forallb_forall in H. by apply Z.eqb_eq, H.
Qed.

Lemma le_bytes_zero n x : 0 ≤ x < 256 ^ Z.of_nat n → Forall (λ b, b = 0) (le_bytes n x) ↔ x = 0.
Proof.
  intros Hx. split; [|intros ->].
  - intros H. rewrite <- (Z.mod_small x (256 ^ Z.of_nat n)), <- le_val_bytes by done.
    induction H as [|b l -> _ IH]; [done|]. cbn [le_val]. lia.
  - clear Hx. induction n as [|n IH]; [constructor|]. cbn [le_bytes]. by constructor.
Qed.

Lemma FeIsNonZero_spec f :
  limbs_in f loose →
  (FeIsNonZero f).1 = if fe_val f mod p25519 =? 0 then 0 else 1.
Proof.
  intros H. destruct (FeToBytes_spec f H) as (H1 & _ & _). unfold FeIsNonZero.
  destruct (FeToBytes f) as [s f']. cbn [fst snd] in *. subst s.
  assert (0 ≤ fe_val f mod p25519 < p25519) as Hm by (by apply Z.mod_pos_bound).
  destruct (lor_all_zero (le_bytes 32 (fe_val f mod p25519)) (le_bytes_ok _ _) 0 ltac:(lia)) as [Hr Hz].
  rewrite fold_bits_zero by done. 
  rewrite le_bytes_zero in Hz by (split; [lia|]; apply Z.lt_trans with p25519; [lia|reflexivity]).
  destruct (Z.eqb_spec (fold_left Z.lor (le_bytes 32 (fe_val f mod p25519)) 0) 0),
    (Z.eqb_spec (fe_val f mod p25519) 0); first [reflexivity | exfalso; tauto].
Qed.

(** ** Properties *)

(** C38: [FeMul], [FeSquare] and [FeSquare2] multiply modulo [2^255 - 19]
    without overflow, for limbs up to [1.65*2^26, 1.65*2^25], and their results are
    within [1.1*2^25, 1.1*2^24], so that chains of group operations stay in range. *)
Theorem field_multiplication f g :
  limbs_in f loose → limbs_in g loose →
  (limbs_in (FeMul f g) tight ∧ fe_val (FeMul f g) ≡⟨ p25519 ⟩ fe_val f * fe_val g) ∧
  (limbs_in (FeSquare f) tight ∧ fe_val (FeSquare f) ≡⟨ p25519 ⟩ fe_val f ^ 2) ∧
  (limbs_in (FeSquare2 f) tight ∧ fe_val (FeSquare2 f) ≡⟨ p25519 ⟩ 2 * fe_val f ^ 2).
Proof.
  intros Hf Hg. rewrite Z.pow_2_r.
  split; [by apply FeMul_spec|]. split; [by apply FeSquare_spec|by apply FeSquare2_spec].
Qed.

Lemma field_multiplication_witness :
  fe_val (FeMul (replicate 10 3) (replicate 10 (-7))) mod p25519
  = (fe_val (replicate 10 3) * fe_val (replicate 10 (-7))) mod p25519.
Proof.
  refine (proj2 (proj1 (field_multiplication (replicate 10 3) (replicate 10 (-7)) _ _)));
    unfold limbs_in; repeat constructor; by cbn.
Defined.

(** The bytes [FeToBytes] writes are the canonical little-endian form of
    the residue, and [FeFromBytes] reads them back, ignoring the top bit: a field
    element has one encoding, whatever limbs it is held in. *)
Theorem field_encoding h src :
  limbs_in h loose → Forall byte_ok src → length src = 32%nat →
  (FeToBytes h).1 = le_bytes 32 (fe_val h mod p25519) ∧
  fe_val (FeToBytes h).2 = fe_val h mod p25519 ∧
  (FeToBytes (FeFromBytes src)).1 = le_bytes 32 ((le_val src mod 2 ^ 255) mod p25519) ∧
  fe_val (FeFromBytes (FeToBytes h).1) ≡⟨ p25519 ⟩ fe_val h.
Proof.
  intros Hh Hs Hl. destruct (FeToBytes_spec h Hh) as (E & _ & V).
  destruct (FeFromBytes_spec src Hs Hl) as [B1 V1].
  destruct (FeToBytes_spec _ (tight_loose _ B1)) as (E1 & _ & _).
  split; [exact E|]. split; [exact V|]. split; [rewrite E1; by rewrite V1|].
  destruct (FeFromBytes_spec (FeToBytes h).1) as [_ V2]; [rewrite E; apply le_bytes_ok|by rewrite E|].
  rewrite V2, E, le_val_bytes.
  assert (0 ≤ fe_val h mod p25519 < p25519) as Hm by (by apply Z.mod_pos_bound).
  rewrite (Z.mod_small (fe_val h mod p25519) (256 ^ Z.of_nat 32)),
    (Z.mod_small (fe_val h mod p25519) (2 ^ 255)); [apply cong_mod|..];
    (split; [lia|]; apply Z.lt_trans with p25519; [lia|reflexivity]).
Qed.

Lemma field_encoding_witness :
  (FeToBytes (FeFromBytes (le_bytes 32 (2 ^ 256 - 1)))).1 = le_bytes 32 18.
Proof.
  refine (proj1 (proj2 (proj2 (field_encoding FeZero (le_bytes 32 (2 ^ 256 - 1)) _ (le_bytes_ok _ _) _))));
    [unfold limbs_in; repeat constructor; by cbn|reflexivity].
Defined.

(** The addition chains of [FeInvert] and [fePow22523] raise to the powers
    [p - 2] and [2^252 - 3 = (p - 5)/8]. *)
Theorem field_powers z :
  limbs_in z tight →
  fe_val (FeInvert z) ≡⟨ p25519 ⟩ fe_val z ^ (p25519 - 2) ∧
  fe_val (fePow22523 z) ≡⟨ p25519 ⟩ fe_val z ^ ((p25519 - 5) / 8).
Proof.
  intros H. split; [apply (FeInvert_spec z H)|]. change ((p25519 - 5) / 8) with (2 ^ 252 - 3).
  apply (fePow22523_spec z H).
Qed.

Lemma field_powers_witness :
  fe_val (FeInvert FeOne) ≡⟨ p25519 ⟩ fe_val FeOne ^ (p25519 - 2).
Proof.
  refine (proj1 (field_powers FeOne _)). unfold limbs_in. repeat constructor; by cbn.
Defined.
