(* ===== verification/Prime25519.v ===== *)
(** * 2^255 - 19 is prime

    Inversion by exponentiation ([FeInvert]), decoding of points and the completeness of
    the addition law rest on the primality of the field's modulus.  It is proved by
    a chain of Pocklington certificates that the kernel evaluates. *)

From S2P Require Import Prelude Field25519.
From stdpp Require Import base list numbers.
From Stdlib Require Import ZArith Lia Zpow_facts Zdivisibility ZmodInv.

Open Scope Z_scope.

(** ** Definitions *)

(** A certificate for [n]: [a^(n-1) = 1], and for the primes [qs] that make up [F],
    [a^((n-1)/q) - 1] is invertible. *)
Definition pocklington_check (n a : Z) (qs : list Z) : bool :=
  (1 <? n) && (Zpow_mod a (n - 1) n =? 1) && (n <? (foldr Z.mul 1 qs + 1) ^ 2)
  && forallb (λ q, ((n - 1) mod q =? 0) && (Z.gcd (Zpow_mod a ((n - 1) / q) n - 1) n =? 1)) qs
  && bool_decide (NoDup qs).

(** Trial division, for the small primes at the leaves. *)
Definition small_prime_check (n : Z) : bool :=
  (1 <? n) && forallb (λ k, negb (n mod k =? 0)) (seqZ 2 (Z.sqrt n)).

(** ** Prime divisors *)

Lemma prime_divisor n : 1 < n → ∃ r, Z.prime r ∧ (r | n).
Proof.
  intros Hn. revert Hn. induction (Z.lt_wf 0 n) as [n _ IH]. intros Hn.
  destruct (decide (Exists (λ k, n mod k = 0) (seqZ 2 (n - 2)))) as [He|He].
  - apply list.Exists_exists in He as (k & Hk%elem_of_seqZ & Hd). apply Z.mod_divide in Hd; [|lia].
    destruct (IH k ltac:(lia) ltac:(lia)) as (r & Hr & Hrk). exists r. split; [done|].
    by transitivity k.
  - exists n. split; [|apply Z.divide_refl]. split; [done|]. intros k Hk Hd. apply He.
    apply list.Exists_exists. exists k. split; [apply elem_of_seqZ; lia|]. apply Z.mod_divide; [lia|done].
Qed.

(** A number with no prime divisor up to its square root is prime. *)
Lemma prime_by_divisors n :
  1 < n → (∀ r, Z.prime r → (r | n) → n < r * r) → Z.prime n.
Proof.
  intros Hn H. split; [done|]. intros d Hd [e He].
  assert (∃ c, 1 < c ∧ c * c ≤ n ∧ (c | n)) as (c & Hc & Hcn & Hdiv).
  { assert (1 < e < n) by nia. destruct (Z.le_gt_cases (d * d) n).
    - exists d. split; [lia|]. split; [done|]. by exists e.
    - exists e. split; [lia|]. split; [nia|]. exists d. lia. }
  destruct (prime_divisor c Hc) as (r & Hr & Hrc).
  pose proof (H r Hr ltac:(by transitivity c)). apply Z.divide_pos_le in Hrc; [|lia].
  pose proof (Z.prime_ge_2 r Hr). nia.
Qed.

Lemma small_prime n : small_prime_check n = true → Z.prime n.
Proof.
  unfold small_prime_check. rewrite andb_true_iff, Z.ltb_lt, List.forallb_forall. intros [Hn H].
  apply prime_by_divisors; [done|]. intros r Hr Hd. pose proof (Z.prime_ge_2 r Hr).
  destruct (Z.le_gt_cases (r * r) n) as [Hle|]; [|done]. exfalso.
  assert (r ≤ Z.sqrt n) as Hs by (apply Z.sqrt_le_square; lia).
  specialize (H r). rewrite negb_true_iff, Z.eqb_neq in H. apply H.
  - apply list_elem_of_In, elem_of_seqZ. lia.
  - by apply Z.mod_divide; [lia|].
Qed.

(** ** Powers with two coprime exponents *)

Lemma cong_pow m a b e : a ≡⟨ m ⟩ b → a ^ e ≡⟨ m ⟩ b ^ e.
Proof. unfold cong. intros H. rewrite <- (Z.mod_pow_l a), <- (Z.mod_pow_l b). by rewrite H. Qed.

Lemma pow_one_multiple m b e k : 0 ≤ e → 0 ≤ k → b ^ e ≡⟨ m ⟩ 1 → b ^ (e * k) ≡⟨ m ⟩ 1.
Proof.
  intros He Hk H. rewrite Z.pow_mul_r by done. rewrite (cong_pow m _ 1 k H).
  by rewrite Z.pow_1_l by done.
Qed.

Lemma pow_one_coprime m b x y :
  0 ≤ x → 0 ≤ y → Z.gcd x y = 1 → b ^ x ≡⟨ m ⟩ 1 → b ^ y ≡⟨ m ⟩ 1 → b ≡⟨ m ⟩ 1.
Proof.
  intros Hx Hy Hg H1 H2.
  destruct (Z.eq_dec y 1) as [->|Hy1]; [by rewrite Z.pow_1_r in H2|].
  destruct (Z.eq_dec y 0) as [->|Hy0].
  { rewrite Z.gcd_0_r_nonneg in Hg by done. subst x. by rewrite Z.pow_1_r in H1. }
  assert (∃ u v, 0 ≤ u ∧ 0 ≤ v ∧ (x * u = 1 + y * v)) as (u & v & Hu & Hv & E).
  { destruct (Z.gcd_bezout x y 1 Hg) as (s & t & Hst).
    pose proof (Z.mod_pos_bound s y ltac:(lia)).
    assert (x * (s mod y) - 1 = (- t - x * (s / y)) * y) as Hk.
    { rewrite Z.mod_eq by done. lia. }
    set (k := - t - x * (s / y)) in *. clearbody k.
    assert (0 ≤ x * (s mod y)) by (apply Z.mul_nonneg_nonneg; lia).
    exists (s mod y), k. split; [lia|]. split; [|lia].
    destruct (Z.le_gt_cases 0 k); [done|]. exfalso. nia. }
  transitivity (b ^ (x * u)); [|by apply pow_one_multiple].
  rewrite E, Z.pow_add_r, Z.pow_1_r by nia.
  rewrite (pow_one_multiple m b y v) by done. by rewrite Z.mul_1_r.
Qed.

(** ** Pocklington's criterion *)

Lemma cong_divisor m r a b : (r | m) → m ≠ 0 → r ≠ 0 → a ≡⟨ m ⟩ b → a ≡⟨ r ⟩ b.
Proof. intros Hd Hm Hr. rewrite !cong_divide by done. intros H. by transitivity m. Qed.

Lemma pocklington_divides n a q r :
  1 < n → a ^ (n - 1) ≡⟨ n ⟩ 1 → Z.prime q → (q | n - 1) →
  Z.gcd (a ^ ((n - 1) / q) - 1) n = 1 → Z.prime r → (r | n) → (q | r - 1).
Proof.
  intros Hn Ha Hq [k Hk] Hg Hr Hrn. pose proof (Z.prime_ge_2 q Hq) as Pq. pose proof (Z.prime_ge_2 r Hr) as Pr.
  destruct (Z.eq_dec ((r - 1) mod q) 0) as [E|E]; [by apply Z.mod_divide; [lia|]|].
  exfalso. rewrite Hk, Z.div_mul in Hg by lia. set (b := a ^ k) in *. assert (0 ≤ k) as Pk by nia.
  assert (b ^ q ≡⟨ r ⟩ 1) as H1.
  { apply (cong_divisor n); [done|lia..|]. unfold b. by rewrite <- Z.pow_mul_r, <- Hk by lia. }
  assert (b mod r ≠ 0) as Hb.
  { intros Hz. unfold cong in H1. rewrite <- Z.mod_pow_l, Hz, Z.pow_0_l, Z.mod_0_l in H1 by lia.
    by rewrite Z.mod_small in H1 by lia. }
  assert (b ^ (r - 1) ≡⟨ r ⟩ 1) as H2.
  { unfold cong. rewrite (ZmodInv.Z.fermat_nz r b Hr Hb). by rewrite Z.mod_small by lia. }
  assert (b ≡⟨ r ⟩ 1) as H3.
  { apply (pow_one_coprime r b q (r - 1)); [lia|lia| |done|done].
    apply (Z.coprime_prime_l q (r - 1) Hq). intros Hd. apply E. by apply Z.mod_divide; [lia|]. }
  apply cong_divide in H3; [|lia].
  pose proof (Z.gcd_greatest _ _ _ H3 Hrn) as Hd. rewrite Hg in Hd.
  apply Z.divide_1_r_nonneg in Hd; lia.
Qed.

Lemma distinct_primes_product qs x :
  NoDup qs → Forall Z.prime qs → Forall (λ q, (q | x)) qs → (foldr Z.mul 1 qs | x).
Proof.
  intros Hn Hp Hd. induction qs as [|q qs IH]; cbn [foldr]; [apply Z.divide_1_l|].
  apply list.NoDup_cons in Hn as [Hq Hn]. apply list.Forall_cons in Hp as [Hp Hps].
  apply list.Forall_cons in Hd as [Hd Hds].
  destruct (IH Hn Hps Hds) as [k Hk]. rewrite Hk in *.
  assert (¬ (q | foldr Z.mul 1 qs)) as Hnd.
  { clear -Hp Hps Hq. induction qs as [|t qs IH]; cbn [foldr].
    - intros Hd. apply Z.divide_1_r_nonneg in Hd; pose proof (Z.prime_ge_2 q Hp); lia.
    - apply list.Forall_cons in Hps as [Ht Hps]. apply not_elem_of_cons in Hq as [Hne Hq].
      rewrite Z.divide_prime_mul by done. intros [Hd|Hd]; [|by apply IH].
      apply Hne. by apply Z.divide_prime_prime. }
  apply Z.divide_prime_mul in Hd as [Hd|Hd]; [|done|done].
  destruct Hd as [j ->]. exists j. lia.
Qed.

Lemma pocklington n a qs :
  Forall Z.prime qs → pocklington_check n a qs = true → Z.prime n.
Proof.
  intros Hp. unfold pocklington_check.
  rewrite !andb_true_iff, bool_decide_eq_true, List.forallb_forall, !Z.ltb_lt, Z.eqb_eq.
  intros [[[[Hn Ha] HF] Hq] Hnd]. rewrite Zpow_mod_correct in Ha by lia.
  assert (a ^ (n - 1) ≡⟨ n ⟩ 1) as Ha' by (unfold cong; by rewrite Ha, Z.mod_small by lia).
  apply prime_by_divisors; [done|]. intros r Hr Hrn. pose proof (Z.prime_ge_2 r Hr).
  assert (foldr Z.mul 1 qs | r - 1) as Hd.
  { apply distinct_primes_product; [done..|]. apply list.Forall_forall. intros q Hin.
    specialize (Hq q ltac:(by apply list_elem_of_In)). rewrite andb_true_iff, !Z.eqb_eq in Hq.
    destruct Hq as [Hq1 Hq2]. rewrite list.Forall_forall in Hp. specialize (Hp q Hin).
    pose proof (Z.prime_ge_2 q Hp).
    apply (pocklington_divides n a q r); try done; [by apply Z.mod_divide; [lia|]|].
    rewrite Zpow_mod_correct in Hq2 by lia. etransitivity; [|exact Hq2].
    rewrite <- (Z.gcd_mod_l (a ^ ((n - 1) / q) - 1)), <- (Z.gcd_mod_l (_ mod n - 1)).
    by rewrite Zminus_mod_idemp_l. }
  apply Z.divide_abs_l, Z.divide_pos_le in Hd; [|lia]. set (F := foldr Z.mul 1 qs) in *.
  clearbody F. assert (- r ≤ F + 1 ≤ r) as HF' by lia. rewrite Z.pow_2_r in HF. nia.
Qed.

(** ** The certificate *)

Ltac certify a qs :=
  apply (pocklington _ a qs); [repeat (apply Forall_cons_2; [assumption|]); constructor|vm_compute; reflexivity].

Lemma prime_p25519 : Z.prime p25519.
Proof.
  assert (Z.prime 991) by (apply small_prime; vm_compute; reflexivity).
  assert (Z.prime 103) by (apply small_prime; vm_compute; reflexivity).
  assert (Z.prime 127) by (apply small_prime; vm_compute; reflexivity).
  assert (Z.prime 4153) by (apply small_prime; vm_compute; reflexivity).
  assert (Z.prime 430751) by (apply small_prime; vm_compute; reflexivity).
  assert (Z.prime 569003) by (apply small_prime; vm_compute; reflexivity).
  assert (Z.prime 8574133) by certify 2 [991; 103].
  assert (Z.prime 1919519569386763) by certify 2 [8574133; 127].
  assert (Z.prime 2773320623) by certify 2 [569003].
  assert (Z.prime 72106336199) by certify 2 [2773320623].
  assert (Z.prime 75445702479781427272750846543864801) by certify 2 [1919519569386763; 72106336199].
  assert (Z.prime 31757755568855353) by certify 2 [430751; 4153].
  assert (Z.prime 74058212732561358302231226437062788676166966415465897661863160754340907)
    by certify 2 [75445702479781427272750846543864801; 31757755568855353].
  certify 2 [74058212732561358302231226437062788676166966415465897661863160754340907].
Qed.
