(* ===== verification/Edwards.v ===== *)
(** * Twisted Edwards curves modulo a prime

    The affine addition law of the curve [y^2 - x^2 = 1 + d x^2 y^2] over the integers
    modulo a prime in which -1 is a square and [d] is not: its denominators never vanish,
    the curve is closed under it, and it makes the points a commutative group.  The
    coordinate systems of [edwards25519.go] are measured against this law. *)

From S2P Require Import Prelude.
From stdpp Require Import base list numbers.
From Stdlib Require Import ZArith Lia Zdivisibility ZmodInv Znumtheory.

Open Scope Z_scope.

(** ** Definitions *)

Section Law.
Context (p d : Z).

Definition on_curve (P : Z * Z) : Prop :=
  let '(x, y) := P in y * y - x * x ≡⟨ p ⟩ 1 + d * (x * x) * (y * y).

(** The affine addition law. *)
Definition ed_add (P Q : Z * Z) : Z * Z :=
  let '(x1, y1) := P in
  let '(x2, y2) := Q in
  let e := d * (x1 * x2 * y1 * y2) in
  (((x1 * y2 + x2 * y1) * Z.invmod (1 + e) p) mod p,
   ((y1 * y2 + x1 * x2) * Z.invmod (1 - e) p) mod p).

Definition ed_neg (P : Z * Z) : Z * Z := ((- P.1) mod p, P.2 mod p).

Definition ed_zero : Z * Z := (0, 1).

Fixpoint ed_mul_nat (n : nat) (P : Z * Z) : Z * Z :=
  match n with
  | O => ed_zero
  | S n => ed_add P (ed_mul_nat n P)
  end.

(** Multiples of a point, negative ones as multiples of the opposite. *)
Definition ed_mul (n : Z) (P : Z * Z) : Z * Z :=
  if 0 <=? n then ed_mul_nat (Z.to_nat n) P else ed_mul_nat (Z.to_nat (- n)) (ed_neg P).

(** Points are equal when their coordinates are congruent. *)
Definition ed_eq (P Q : Z * Z) : Prop := P.1 ≡⟨ p ⟩ Q.1 ∧ P.2 ≡⟨ p ⟩ Q.2.

Definition reduced_point (P : Z * Z) : Prop := 0 ≤ P.1 < p ∧ 0 ≤ P.2 < p.

(** The coordinates of a sum of three points, each as one quotient. *)
Definition num3_x x1 y1 x2 y2 x3 y3 : Z :=
  (x1 * y2 + x2 * y1) * y3 * (1 - d * (x1 * x2 * y1 * y2))
  + x3 * (y1 * y2 + x1 * x2) * (1 + d * (x1 * x2 * y1 * y2)).

Definition den3_x x1 y1 x2 y2 x3 y3 : Z :=
  (1 + d * (x1 * x2 * y1 * y2)) * (1 - d * (x1 * x2 * y1 * y2))
  + d * (x1 * y2 + x2 * y1) * (y1 * y2 + x1 * x2) * x3 * y3.

Definition num3_y x1 y1 x2 y2 x3 y3 : Z :=
  (y1 * y2 + x1 * x2) * y3 * (1 + d * (x1 * x2 * y1 * y2))
  + x3 * (x1 * y2 + x2 * y1) * (1 - d * (x1 * x2 * y1 * y2)).

Definition den3_y x1 y1 x2 y2 x3 y3 : Z :=
  (1 + d * (x1 * x2 * y1 * y2)) * (1 - d * (x1 * x2 * y1 * y2))
  - d * (x1 * y2 + x2 * y1) * (y1 * y2 + x1 * x2) * x3 * y3.
End Law.

(** What the addition law relies on: a prime modulus other than 2 in which -1 is a
    square and [d] is not. *)
Class EdwardsCurve (p d : Z) : Prop := {
  ec_prime : Z.prime p;
  ec_odd : ¬ 2 ≡⟨ p ⟩ 0;
  ec_root : ∃ i, i * i ≡⟨ p ⟩ - 1;
  ec_nonsquare s r : d * (s * s) ≡⟨ p ⟩ r * r → s ≡⟨ p ⟩ 0
}.

(** ** Congruences *)

(** A congruence that is a combination of others: [ring] checks the coefficients. *)
Lemma cong_lc1 c1 m a1 b1 a b :
  a1 ≡⟨ m ⟩ b1 → a - b = c1 * (a1 - b1) → a ≡⟨ m ⟩ b.
Proof.
  intros H1 E. replace a with (b + c1 * (a1 - b1)) by (rewrite <- E; ring).
  rewrite H1. replace (b + c1 * (b1 - b1)) with b by ring. reflexivity.
Qed.

Lemma cong_lc2 c1 c2 m a1 b1 a2 b2 a b :
  a1 ≡⟨ m ⟩ b1 → a2 ≡⟨ m ⟩ b2 → a - b = c1 * (a1 - b1) + c2 * (a2 - b2) → a ≡⟨ m ⟩ b.
Proof.
  intros H1 H2 E. replace a with (b + (c1 * (a1 - b1) + c2 * (a2 - b2))) by (rewrite <- E; ring).
  rewrite H1, H2. replace (b + (c1 * (b1 - b1) + c2 * (b2 - b2))) with b by ring. reflexivity.
Qed.

Lemma cong_lc3 c1 c2 c3 m a1 b1 a2 b2 a3 b3 a b :
  a1 ≡⟨ m ⟩ b1 → a2 ≡⟨ m ⟩ b2 → a3 ≡⟨ m ⟩ b3 →
  a - b = c1 * (a1 - b1) + c2 * (a2 - b2) + c3 * (a3 - b3) → a ≡⟨ m ⟩ b.
Proof.
  intros H1 H2 H3 E.
  replace a with (b + (c1 * (a1 - b1) + c2 * (a2 - b2) + c3 * (a3 - b3))) by (rewrite <- E; ring).
  rewrite H1, H2, H3.
  replace (b + (c1 * (b1 - b1) + c2 * (b2 - b2) + c3 * (b3 - b3))) with b by ring. reflexivity.
Qed.

(** Equal integers are congruent. *)
Ltac by_ring := match goal with |- cong _ ?a ?b => replace b with a by ring; reflexivity end.

Global Instance ed_eq_equiv p : Equivalence (ed_eq p).
Proof.
  split; red; unfold ed_eq.
  - done.
  - intros x y [H1 H2]. by rewrite H1, H2.
  - intros x y z [H1 H2] [H3 H4]. by rewrite H1, H2.
Qed.

(** ** The field *)

Section Prime.
Context (p : Z) (Hp : Z.prime p).
Local Notation "a ≈ b" := (cong p a b) (at level 70, no associativity).

Lemma prime_nonzero : p ≠ 0.
Proof. pose proof (Z.prime_ge_2 p Hp). lia. Qed.

Lemma cong_mul_0 a b : a * b ≈ 0 → a ≈ 0 ∨ b ≈ 0.
Proof.
  rewrite !cong_divide by apply prime_nonzero. rewrite !Z.sub_0_r.
  apply Z.divide_prime_mul. exact Hp.
Qed.

Lemma mul_nonzero a b : ¬ a ≈ 0 → ¬ b ≈ 0 → ¬ a * b ≈ 0.
Proof. intros Ha Hb [?|?]%cong_mul_0; contradiction. Qed.

Lemma cong_cancel a b c : ¬ c ≈ 0 → a * c ≈ b * c → a ≈ b.
Proof.
  intros Hc H. assert ((a - b) * c ≈ 0) as H0 by (apply (cong_lc1 1 _ _ _ _ _ H); ring).
  apply cong_mul_0 in H0 as [H0|]; [|contradiction].
  apply (cong_lc1 1 _ _ _ _ _ H0). ring.
Qed.

Lemma one_nonzero : ¬ 1 ≈ 0.
Proof.
  unfold cong. pose proof (Z.prime_ge_2 p Hp). rewrite Z.mod_1_l, Z.mod_0_l by lia. lia.
Qed.

Lemma fermat_cong a : ¬ a ≈ 0 → a ^ (p - 1) ≈ 1.
Proof.
  intros Ha. unfold cong in *. rewrite Z.mod_0_l in Ha by apply prime_nonzero.
  rewrite (Z.fermat_nz p a Hp Ha). pose proof (Z.prime_ge_2 p Hp). rewrite Z.mod_1_l by lia. reflexivity.
Qed.

Lemma invmod_cong a : ¬ a ≈ 0 → a * Z.invmod a p ≈ 1.
Proof.
  intros Ha. unfold cong in *. rewrite Z.mod_0_l in Ha by apply prime_nonzero.
  rewrite Z.mul_comm, Z.invmod_prime by assumption.
  pose proof (Z.prime_ge_2 p Hp). rewrite Z.mod_1_l by lia. reflexivity.
Qed.

(** A quotient is characterised by its product with the denominator. *)
Lemma quotient_cong n a q : ¬ a ≈ 0 → q * a ≈ n → (n * Z.invmod a p) mod p ≈ q.
Proof.
  intros Ha H. rewrite cong_mod. apply (cong_lc2 (q) (- Z.invmod a p) _ _ _ _ _ _ _ (invmod_cong a Ha) H).
  ring.
Qed.

Lemma quotient_mul n a : ¬ a ≈ 0 → ((n * Z.invmod a p) mod p) * a ≈ n.
Proof.
  intros Ha. rewrite cong_mod. apply (cong_lc1 n _ _ _ _ _ (invmod_cong a Ha)). ring.
Qed.
End Prime.

(** ** The addition law *)

Section Curve.
Context {p d : Z} {HC : EdwardsCurve p d}.
#[local] Abbreviation Hp := (ec_prime (p := p) (d := d)).
Local Notation "a ≈ b" := (cong p a b) (at level 70, no associativity).
Local Abbreviation on_curve := (on_curve p d).
Local Abbreviation ed_add := (ed_add p d).
Local Abbreviation num3_x := (num3_x d).
Local Abbreviation den3_x := (den3_x d).
Local Abbreviation num3_y := (num3_y d).
Local Abbreviation den3_y := (den3_y d).
Local Abbreviation ed_neg := (ed_neg p).
Local Abbreviation ed_mul_nat := (ed_mul_nat p d).
Local Abbreviation ed_mul := (ed_mul p d).
Local Abbreviation ed_eq := (ed_eq p).

(** The two squares that would make [d] a square if a denominator vanished. *)
Lemma completeness_square i x1 y1 x2 y2 e :
  i * i ≈ - 1 → on_curve (x1, y1) → on_curve (x2, y2) → d * (x1 * x2 * y1 * y2) ≈ e → e * e ≈ 1 →
  d * ((x1 * y1 * (i * x2 + y2)) * (x1 * y1 * (i * x2 + y2)))
  ≈ (i * x1 + e * y1) * (i * x1 + e * y1).
Proof.
  unfold Edwards.on_curve. intros Hi C1 C2 He H1.
  transitivity (d * (x1 * x1) * (y1 * y1) * (y2 * y2 - x2 * x2) + 2 * i * (x1 * y1) * e).
  { apply (cong_lc2 (d * (x1 * x1) * (y1 * y1) * (x2 * x2)) (2 * i * (x1 * y1)) _ _ _ _ _ _ _ Hi He). ring. }
  transitivity (d * (x1 * x1) * (y1 * y1) + (d * (x1 * x2 * y1 * y2)) * (d * (x1 * x2 * y1 * y2))
                + 2 * i * (x1 * y1) * e).
  { apply (cong_lc1 (d * (x1 * x1) * (y1 * y1)) _ _ _ _ _ C2). ring. }
  rewrite He, H1. symmetry.
  apply (cong_lc3 (x1 * x1) (y1 * y1) 1 _ _ _ _ _ _ _ _ _ Hi H1 C1). ring.
Qed.

Lemma completeness x1 y1 x2 y2 e :
  on_curve (x1, y1) → on_curve (x2, y2) → e * e ≈ 1 → ¬ d * (x1 * x2 * y1 * y2) ≈ e.
Proof.
  intros C1 C2 H1 He. destruct (ec_root (p := p) (d := d)) as [i Hi].
  assert (¬ e ≈ 0) as Ne.
  { intros E. apply (one_nonzero p Hp). rewrite <- H1, E. reflexivity. }
  assert (∀ a b, a * b ≈ e → ¬ a ≈ 0) as Na.
  { intros a b H E. apply Ne. rewrite <- H, E. reflexivity. }
  assert (¬ x1 * y1 ≈ 0) as N1.
  { apply (Na _ (d * (x2 * y2))). rewrite <- He. by_ring. }
  assert (¬ y2 ≈ 0) as N2.
  { apply (Na _ (d * (x1 * x2 * y1))). rewrite <- He. by_ring. }
  pose proof (ec_nonsquare _ _ (completeness_square i x1 y1 x2 y2 e Hi C1 C2 He H1)) as S1.
  assert (d * (x1 * x2 * - y1 * - y2) ≈ e) as He' by (rewrite <- He; by_ring).
  assert (∀ x y, on_curve (x, y) → on_curve (x, - y)) as Hneg.
  { unfold Edwards.on_curve. intros x y H. rewrite !Z.mul_opp_opp. exact H. }
  pose proof (ec_nonsquare _ _ (completeness_square i x1 (- y1) x2 (- y2) e Hi
                        (Hneg _ _ C1) (Hneg _ _ C2) He' H1)) as S2.
  apply (cong_mul_0 p Hp) in S1 as [|S1]; [contradiction|].
  apply (cong_mul_0 p Hp) in S2 as [S2|S2].
  { apply N1. apply (cong_lc1 (- 1) _ _ _ _ _ S2). ring. }
  apply N2, (cong_cancel p Hp _ _ 2 ec_odd). apply (cong_lc2 1 (- 1) _ _ _ _ _ _ _ S1 S2). ring.
Qed.

Lemma denominators x1 y1 x2 y2 :
  on_curve (x1, y1) → on_curve (x2, y2) →
  ¬ 1 + d * (x1 * x2 * y1 * y2) ≈ 0 ∧ ¬ 1 - d * (x1 * x2 * y1 * y2) ≈ 0.
Proof.
  intros C1 C2. split; intros H.
  - apply (completeness x1 y1 x2 y2 (- 1) C1 C2); [reflexivity|].
    apply (cong_lc1 1 _ _ _ _ _ H). ring.
  - apply (completeness x1 y1 x2 y2 1 C1 C2); [reflexivity|].
    apply (cong_lc1 (- 1) _ _ _ _ _ H). ring.
Qed.

(** The sum, by its two quotients. *)
Lemma ed_add_quotients x1 y1 x2 y2 :
  on_curve (x1, y1) → on_curve (x2, y2) →
  let e := d * (x1 * x2 * y1 * y2) in
  let S := ed_add (x1, y1) (x2, y2) in
  S.1 * (1 + e) ≈ x1 * y2 + x2 * y1 ∧ S.2 * (1 - e) ≈ y1 * y2 + x1 * x2.
Proof.
  intros C1 C2 e S. destruct (denominators _ _ _ _ C1 C2) as [D1 D2].
  split; apply (quotient_mul p Hp); assumption.
Qed.

Lemma ed_add_unique x1 y1 x2 y2 x3 y3 :
  on_curve (x1, y1) → on_curve (x2, y2) →
  x3 * (1 + d * (x1 * x2 * y1 * y2)) ≈ x1 * y2 + x2 * y1 →
  y3 * (1 - d * (x1 * x2 * y1 * y2)) ≈ y1 * y2 + x1 * x2 →
  ed_eq (ed_add (x1, y1) (x2, y2)) (x3, y3).
Proof.
  intros C1 C2 Hx Hy. destruct (denominators _ _ _ _ C1 C2) as [D1 D2].
  split; apply (quotient_cong p Hp); assumption.
Qed.

Lemma curve_closed_identity x1 y1 x2 y2 :
  on_curve (x1, y1) → on_curve (x2, y2) →
  let e := d * (x1 * x2 * y1 * y2) in
  let n1 := x1 * y2 + x2 * y1 in
  let n2 := y1 * y2 + x1 * x2 in
  n2 * n2 * ((1 + e) * (1 + e)) - n1 * n1 * ((1 - e) * (1 - e))
  ≈ (1 + e) * (1 + e) * ((1 - e) * (1 - e)) + d * (n1 * n1) * (n2 * n2).
Proof.
  unfold Edwards.on_curve. cbv zeta. intros C1 C2.
  set (u1 := d * (x1 * x1) * (y1 * y1)) in *. set (u2 := d * (x2 * x2) * (y2 * y2)) in *.
  set (q1 := y1 * y1 - x1 * x1). set (q2 := y2 * y2 - x2 * x2).
  apply (cong_lc2 ((1 + u1 * u2) * q2 - u2 * (q1 + (1 + u1)))
                  ((1 + u1 * u2) * (1 + u1) - u1 * (q2 + (1 + u2))) _ _ _ _ _ _ _ C1 C2).
  subst u1 u2 q1 q2. ring.
Qed.

Lemma on_curve_add P Q : on_curve P → on_curve Q → on_curve (ed_add P Q).
Proof.
  destruct P as [x1 y1], Q as [x2 y2]. intros C1 C2.
  destruct (denominators _ _ _ _ C1 C2) as [D1 D2].
  destruct (ed_add_quotients _ _ _ _ C1 C2) as [E1 E2].
  pose proof (curve_closed_identity _ _ _ _ C1 C2) as G. cbv zeta in *.
  set (e := d * (x1 * x2 * y1 * y2)) in *. destruct (ed_add (x1, y1) (x2, y2)) as [x3 y3].
  cbn [fst snd] in *. unfold Edwards.on_curve.
  rewrite <- E1, <- E2 in G.
  apply (cong_cancel p Hp _ _ ((1 + e) * (1 + e) * ((1 - e) * (1 - e)))).
  { repeat apply (mul_nonzero p Hp); assumption. }
  apply (cong_lc1 1 _ _ _ _ _ G). ring.
Qed.

(** ** Associativity

    A sum of three points by one quotient for each coordinate; the two groupings agree
    because the difference of their cross products is a combination of the three curve
    equations, whose coefficients are given. *)

Lemma assoc_x x1 y1 x2 y2 x3 y3 :
  on_curve (x1, y1) → on_curve (x2, y2) → on_curve (x3, y3) →
  num3_x x1 y1 x2 y2 x3 y3 * den3_x x2 y2 x3 y3 x1 y1
  ≈ num3_x x2 y2 x3 y3 x1 y1 * den3_x x1 y1 x2 y2 x3 y3.
Proof.
  unfold Edwards.on_curve. intros C1 C2 C3. unfold Edwards.num3_x, Edwards.den3_x.
  apply (cong_lc3
      (- (x1 * x2^4 * y2^3 * x3^2 * y3 * d^2 + x1 * x2^4 * y2 * x3^2 * y3 * d
         + x1 * x2^3 * y2^4 * x3 * y3^2 * d^2 + x1 * x2^3 * y2^2 * x3^3 * d
         + x1 * x2^3 * y2^2 * x3 * d - x1 * x2^2 * y2^3 * y3^3 * d + x1 * x2^2 * y2^3 * y3 * d
         - x1 * x2 * y2^4 * x3 * y3^2 * d - y1 * x2^4 * y2^3 * x3 * y3^2 * d^2
         - y1 * x2^4 * y2 * x3 * y3^2 * d - y1 * x2^3 * y2^4 * x3^2 * y3 * d^2
         - y1 * x2^3 * y2^2 * y3^3 * d + y1 * x2^3 * y2^2 * y3 * d + y1 * x2^2 * y2^3 * x3^3 * d
         + y1 * x2^2 * y2^3 * x3 * d + y1 * x2 * y2^4 * x3^2 * y3 * d))
      (- (- x1^3 * x2^2 * y2 * x3^2 * y3 * d - x1^3 * x2 * y2^2 * x3 * y3^2 * d
         + x1^2 * y1 * x2^2 * y2 * x3^3 * d + x1^2 * y1 * x2^2 * y2 * x3 * d
         + x1^2 * y1 * x2 * y2^2 * y3^3 * d - x1^2 * y1 * x2 * y2^2 * y3 * d
         + x1 * y1^2 * x2^2 * y2 * y3^3 * d - x1 * y1^2 * x2^2 * y2 * y3 * d
         + x1 * y1^2 * x2 * y2^2 * x3^3 * d + x1 * y1^2 * x2 * y2^2 * x3 * d
         - x1 * x2^2 * y2 * x3^2 * y3 * d - x1 * x2 * y2^2 * x3 * y3^2 * d
         - y1^3 * x2^2 * y2 * x3 * y3^2 * d - y1^3 * x2 * y2^2 * x3^2 * y3 * d
         + y1 * x2^2 * y2 * x3 * y3^2 * d + y1 * x2 * y2^2 * x3^2 * y3 * d))
      (- (- x1^3 * x2^3 * y2^2 * x3 * d - x1^3 * x2^2 * y2^3 * y3 * d
         - x1^2 * y1 * x2^4 * y2^3 * x3 * d^2 - x1^2 * y1 * x2^4 * y2 * x3 * d
         + x1^2 * y1 * x2^3 * y2^4 * y3 * d^2 - x1^2 * y1 * x2 * y2^4 * y3 * d
         + x1 * y1^2 * x2^4 * y2^3 * y3 * d^2 + x1 * y1^2 * x2^4 * y2 * y3 * d
         - x1 * y1^2 * x2^3 * y2^4 * x3 * d^2 + x1 * y1^2 * x2 * y2^4 * x3 * d
         - x1 * x2^3 * y2^2 * x3 * d - x1 * x2^2 * y2^3 * y3 * d + y1^3 * x2^3 * y2^2 * y3 * d
         + y1^3 * x2^2 * y2^3 * x3 * d - y1 * x2^3 * y2^2 * y3 * d - y1 * x2^2 * y2^3 * x3 * d))
      _ _ _ _ _ _ _ _ _ C1 C2 C3).
  ring.
Qed.

Lemma assoc_y x1 y1 x2 y2 x3 y3 :
  on_curve (x1, y1) → on_curve (x2, y2) → on_curve (x3, y3) →
  num3_y x1 y1 x2 y2 x3 y3 * den3_y x2 y2 x3 y3 x1 y1
  ≈ num3_y x2 y2 x3 y3 x1 y1 * den3_y x1 y1 x2 y2 x3 y3.
Proof.
  unfold Edwards.on_curve. intros C1 C2 C3. unfold Edwards.num3_y, Edwards.den3_y.
  apply (cong_lc3
      (- (- x1 * x2^4 * y2^3 * x3 * y3^2 * d^2 - x1 * x2^4 * y2 * x3 * y3^2 * d
         - x1 * x2^3 * y2^4 * x3^2 * y3 * d^2 - x1 * x2^3 * y2^2 * y3^3 * d
         + x1 * x2^3 * y2^2 * y3 * d + x1 * x2^2 * y2^3 * x3^3 * d + x1 * x2^2 * y2^3 * x3 * d
         + x1 * x2 * y2^4 * x3^2 * y3 * d + y1 * x2^4 * y2^3 * x3^2 * y3 * d^2
         + y1 * x2^4 * y2 * x3^2 * y3 * d + y1 * x2^3 * y2^4 * x3 * y3^2 * d^2
         + y1 * x2^3 * y2^2 * x3^3 * d + y1 * x2^3 * y2^2 * x3 * d - y1 * x2^2 * y2^3 * y3^3 * d
         + y1 * x2^2 * y2^3 * y3 * d - y1 * x2 * y2^4 * x3 * y3^2 * d))
      (- (x1^3 * x2^2 * y2 * x3 * y3^2 * d + x1^3 * x2 * y2^2 * x3^2 * y3 * d
         - x1^2 * y1 * x2^2 * y2 * y3^3 * d + x1^2 * y1 * x2^2 * y2 * y3 * d
         - x1^2 * y1 * x2 * y2^2 * x3^3 * d - x1^2 * y1 * x2 * y2^2 * x3 * d
         - x1 * y1^2 * x2^2 * y2 * x3^3 * d - x1 * y1^2 * x2^2 * y2 * x3 * d
         - x1 * y1^2 * x2 * y2^2 * y3^3 * d + x1 * y1^2 * x2 * y2^2 * y3 * d
         + x1 * x2^2 * y2 * x3 * y3^2 * d + x1 * x2 * y2^2 * x3^2 * y3 * d
         + y1^3 * x2^2 * y2 * x3^2 * y3 * d + y1^3 * x2 * y2^2 * x3 * y3^2 * d
         - y1 * x2^2 * y2 * x3^2 * y3 * d - y1 * x2 * y2^2 * x3 * y3^2 * d))
      (- (- x1^3 * x2^3 * y2^2 * y3 * d - x1^3 * x2^2 * y2^3 * x3 * d
         - x1^2 * y1 * x2^4 * y2^3 * y3 * d^2 - x1^2 * y1 * x2^4 * y2 * y3 * d
         + x1^2 * y1 * x2^3 * y2^4 * x3 * d^2 - x1^2 * y1 * x2 * y2^4 * x3 * d
         + x1 * y1^2 * x2^4 * y2^3 * x3 * d^2 + x1 * y1^2 * x2^4 * y2 * x3 * d
         - x1 * y1^2 * x2^3 * y2^4 * y3 * d^2 + x1 * y1^2 * x2 * y2^4 * y3 * d
         - x1 * x2^3 * y2^2 * y3 * d - x1 * x2^2 * y2^3 * x3 * d + y1^3 * x2^3 * y2^2 * x3 * d
         + y1^3 * x2^2 * y2^3 * y3 * d - y1 * x2^3 * y2^2 * x3 * d - y1 * x2^2 * y2^3 * y3 * d))
      _ _ _ _ _ _ _ _ _ C1 C2 C3).
  ring.
Qed.

Lemma ed_add_triple x1 y1 x2 y2 x3 y3 :
  on_curve (x1, y1) → on_curve (x2, y2) → on_curve (x3, y3) →
  let S := ed_add (ed_add (x1, y1) (x2, y2)) (x3, y3) in
  (S.1 * den3_x x1 y1 x2 y2 x3 y3 ≈ num3_x x1 y1 x2 y2 x3 y3 ∧ ¬ den3_x x1 y1 x2 y2 x3 y3 ≈ 0)
  ∧ (S.2 * den3_y x1 y1 x2 y2 x3 y3 ≈ num3_y x1 y1 x2 y2 x3 y3 ∧ ¬ den3_y x1 y1 x2 y2 x3 y3 ≈ 0).
Proof.
  intros C1 C2 C3 S. subst S. pose proof (on_curve_add _ _ C1 C2) as C12.
  destruct (denominators _ _ _ _ C1 C2) as [D1 D2].
  destruct (ed_add_quotients _ _ _ _ C1 C2) as [E1 E2]. cbv zeta in *.
  destruct (ed_add (x1, y1) (x2, y2)) as [x y]. cbn [fst snd] in E1, E2.
  destruct (denominators _ _ _ _ C12 C3) as [D3 D4].
  destruct (ed_add_quotients _ _ _ _ C12 C3) as [E3 E4]. cbv zeta in *.
  destruct (ed_add (x, y) (x3, y3)) as [xs ys]. cbn [fst snd] in *.
  unfold Edwards.num3_x, Edwards.num3_y, Edwards.den3_x, Edwards.den3_y. rewrite <- E1, <- E2.
  set (e := d * (x1 * x2 * y1 * y2)) in *.
  assert (∀ k, (1 + e) * (1 - e) + k * (x * (1 + e)) * (y * (1 - e)) * x3 * y3
            = (1 + e) * (1 - e) * (1 + k * (x * x3 * y * y3))) as F by (intros; ring).
  split; (split; [|first [rewrite F|idtac]]).
  - rewrite F. apply (cong_lc1 ((1 + e) * (1 - e)) _ _ _ _ _ E3). ring.
  - repeat apply (mul_nonzero p Hp); assumption.
  - apply (cong_lc1 ((1 + e) * (1 - e)) _ _ _ _ _ E4). ring.
  - replace (_ - _) with ((1 + e) * (1 - e) * (1 - d * (x * x3 * y * y3))) by ring.
    repeat apply (mul_nonzero p Hp); assumption.
Qed.

Lemma ed_add_comm P Q : ed_add P Q = ed_add Q P.
Proof.
  destruct P as [x1 y1], Q as [x2 y2]. unfold Edwards.ed_add.
  rewrite (Z.add_comm (x1 * y2)), (Z.mul_comm y1 y2), (Z.mul_comm x1 x2).
  replace (x2 * x1 * y1 * y2) with (x2 * x1 * y2 * y1) by ring. reflexivity.
Qed.

Lemma ed_add_reduced P Q : reduced_point p (ed_add P Q).
Proof.
  pose proof (Z.prime_ge_2 p Hp). destruct P, Q. split; apply Z.mod_pos_bound; lia.
Qed.

Lemma reduced_eq P Q : reduced_point p P → reduced_point p Q → ed_eq P Q → P = Q.
Proof.
  destruct P, Q. intros [P1 P2] [Q1 Q2] [E1 E2].
  f_equal; apply (cong_unique p); assumption.
Qed.

Lemma ed_add_assoc P Q R :
  on_curve P → on_curve Q → on_curve R → ed_add (ed_add P Q) R = ed_add P (ed_add Q R).
Proof.
  intros C1 C2 C3. apply reduced_eq; [apply ed_add_reduced..|].
  rewrite (ed_add_comm P (ed_add Q R)). destruct P as [x1 y1], Q as [x2 y2], R as [x3 y3].
  destruct (ed_add_triple _ _ _ _ _ _ C1 C2 C3) as [[X1 N1] [Y1 M1]].
  destruct (ed_add_triple _ _ _ _ _ _ C2 C3 C1) as [[X2 N2] [Y2 M2]].
  pose proof (assoc_x _ _ _ _ _ _ C1 C2 C3) as AX. pose proof (assoc_y _ _ _ _ _ _ C1 C2 C3) as AY.
  rewrite <- X1, <- X2 in AX. rewrite <- Y1, <- Y2 in AY.
  split.
  - apply (cong_cancel p Hp _ _ _ (mul_nonzero p Hp _ _ N1 N2)).
    apply (cong_lc1 1 _ _ _ _ _ AX). ring.
  - apply (cong_cancel p Hp _ _ _ (mul_nonzero p Hp _ _ M1 M2)).
    apply (cong_lc1 1 _ _ _ _ _ AY). ring.
Qed.
(** ** The group and multiples *)

Lemma ed_add_cong P P' Q Q' : ed_eq P P' → ed_eq Q Q' → ed_add P Q = ed_add P' Q'.
Proof.
  destruct P, P', Q, Q'. intros [E1 E2] [E3 E4]. unfold Edwards.ed_add. cbn [fst snd] in *.
  assert (∀ a b a' b', a ≈ a' → b ≈ b' → (a * Z.invmod b p) mod p = (a' * Z.invmod b' p) mod p) as F.
  { intros a b a' b' Ha Hb. rewrite <- (Z.invmod_mod_l b), <- (Z.invmod_mod_l b'), Hb.
    change (a * Z.invmod (b' mod p) p ≈ a' * Z.invmod (b' mod p) p). rewrite Ha. reflexivity. }
  f_equal; apply F; rewrite E1, E2, E3, E4; reflexivity.
Qed.

Lemma on_curve_cong P Q : ed_eq P Q → on_curve P → on_curve Q.
Proof. destruct P, Q. intros [E1 E2]. cbn in *. rewrite E1, E2. done. Qed.

Lemma on_curve_zero : on_curve ed_zero.
Proof. cbn. by_ring. Qed.

Lemma reduced_zero : reduced_point p ed_zero.
Proof. pose proof (Z.prime_ge_2 p Hp). split; cbn; lia. Qed.

Lemma ed_neg_eq P : ed_eq (ed_neg P) (- P.1, P.2).
Proof. split; apply cong_mod. Qed.

Lemma on_curve_neg P : on_curve P → on_curve (ed_neg P).
Proof.
  intros C. apply (on_curve_cong (- P.1, P.2)).
  { destruct (ed_neg_eq P). split; by symmetry. }
  destruct P. cbn in *. rewrite Z.mul_opp_opp. done.
Qed.

Lemma ed_add_0_r P : on_curve P → ed_eq (ed_add P ed_zero) P.
Proof.
  intros C. destruct P as [x y]. apply ed_add_unique; [done|apply on_curve_zero|by_ring..].
Qed.

Lemma ed_add_neg_r P : on_curve P → ed_add P (ed_neg P) = ed_zero.
Proof.
  intros C. apply reduced_eq; [apply ed_add_reduced|apply reduced_zero|].
  rewrite (ed_add_cong P P _ (- P.1, P.2)); [|by split|apply ed_neg_eq].
  assert (on_curve (- P.1, P.2)) as C' by (eapply on_curve_cong; [apply ed_neg_eq|by apply on_curve_neg]).
  destruct P as [x y]. cbn [fst snd] in *. apply ed_add_unique; [done..|by_ring|].
  cbn in C. apply (cong_lc1 (- 1) _ _ _ _ _ C). ring.
Qed.

(** Cancelling a summand. *)
Lemma ed_add_neg_cancel P Q : on_curve P → on_curve Q → ed_eq (ed_add (ed_neg P) (ed_add P Q)) Q.
Proof.
  intros C1 C2. rewrite <- ed_add_assoc by auto using on_curve_neg.
  rewrite (ed_add_comm (ed_neg P)), ed_add_neg_r, ed_add_comm by done. by apply ed_add_0_r.
Qed.

Lemma on_curve_mul_nat n P : on_curve P → on_curve (ed_mul_nat n P).
Proof.
  intros C. induction n as [|n IH]; [apply on_curve_zero|]. by apply on_curve_add.
Qed.

Lemma on_curve_mul n P : on_curve P → on_curve (ed_mul n P).
Proof.
  intros C. unfold Edwards.ed_mul. destruct (0 <=? n); apply on_curve_mul_nat; [done|].
  by apply on_curve_neg.
Qed.

Lemma ed_mul_reduced n P : reduced_point p (ed_mul n P).
Proof.
  unfold Edwards.ed_mul. destruct (0 <=? n);
    [destruct (Z.to_nat n)|destruct (Z.to_nat (- n))];
    first [apply reduced_zero|apply ed_add_reduced].
Qed.

Lemma ed_mul_succ n P : on_curve P → ed_mul (n + 1) P = ed_add P (ed_mul n P).
Proof.
  intros C. unfold Edwards.ed_mul. destruct (Z.leb_spec 0 n), (Z.leb_spec 0 (n + 1)); try lia.
  - rewrite Z.add_1_r, Z2Nat.inj_succ by lia. reflexivity.
  - replace n with (- 1) by lia. cbn -[Edwards.ed_add]. symmetry.
    rewrite (ed_add_cong P P _ (ed_neg P)); [by apply ed_add_neg_r|by split|].
    apply ed_add_0_r. by apply on_curve_neg.
  - replace (Z.to_nat (- n)) with (S (Z.to_nat (- (n + 1)))) by lia. cbn -[Edwards.ed_add].
    pose proof (on_curve_mul_nat (Z.to_nat (- (n + 1))) _ (on_curve_neg _ C)) as Cm.
    set (M := ed_mul_nat _ _) in *.
    rewrite <- ed_add_assoc, ed_add_neg_r, ed_add_comm by auto using on_curve_neg.
    apply reduced_eq; [|apply ed_add_reduced|].
    + subst M. destruct (Z.to_nat (- (n + 1))); [apply reduced_zero|apply ed_add_reduced].
    + destruct (ed_add_0_r M Cm). split; by symmetry.
Qed.

Lemma ed_mul_0 P : ed_mul 0 P = ed_zero.
Proof. reflexivity. Qed.

Lemma ed_mul_pred n P : on_curve P → ed_mul (n - 1) P = ed_add (ed_neg P) (ed_mul n P).
Proof.
  intros C. replace n with (n - 1 + 1) at 2 by lia. rewrite ed_mul_succ by done.
  apply reduced_eq; [apply ed_mul_reduced|apply ed_add_reduced|].
  destruct (ed_add_neg_cancel P (ed_mul (n - 1) P) C) as [H1 H2]; [by apply on_curve_mul|].
  split; by symmetry.
Qed.

Lemma ed_zero_add_mul n P : on_curve P → ed_add ed_zero (ed_mul n P) = ed_mul n P.
Proof.
  intros C. rewrite ed_add_comm. apply reduced_eq; [apply ed_add_reduced|apply ed_mul_reduced|].
  by apply ed_add_0_r, on_curve_mul.
Qed.

Lemma ed_mul_add a b P : on_curve P → ed_mul (a + b) P = ed_add (ed_mul a P) (ed_mul b P).
Proof.
  intros C. induction a as [|a IH|a IH] using Z.peano_ind.
  - rewrite ed_mul_0, ed_zero_add_mul by done. reflexivity.
  - rewrite Z.add_succ_l, <- !Z.add_1_r, !ed_mul_succ, IH by done.
    by rewrite ed_add_assoc by auto using on_curve_mul.
  - rewrite Z.add_pred_l, <- !Z.sub_1_r, !ed_mul_pred, IH by done.
    by rewrite ed_add_assoc by auto using on_curve_mul, on_curve_neg.
Qed.

Lemma ed_mul_1 P : on_curve P → ed_eq (ed_mul 1 P) P.
Proof. intros C. by apply ed_add_0_r. Qed.

Lemma ed_mul_opp n P : on_curve P → ed_mul (- n) P = ed_neg (ed_mul n P).
Proof.
  intros C. pose proof (on_curve_mul n P C) as C1.
  assert (reduced_point p (ed_neg (ed_mul n P))) as R.
  { pose proof (Z.prime_ge_2 p Hp). split; apply Z.mod_pos_bound; lia. }
  apply reduced_eq; [apply ed_mul_reduced|done|].
  rewrite <- (ed_add_neg_cancel (ed_mul n P) (ed_mul (- n) P)) by auto using on_curve_mul.
  rewrite <- ed_mul_add, Z.add_opp_diag_r, ed_mul_0 by done. by apply ed_add_0_r, on_curve_neg.
Qed.

Lemma ed_mul_mul a b P : on_curve P → ed_mul (a * b) P = ed_mul a (ed_mul b P).
Proof.
  intros C. pose proof (on_curve_mul b P C) as Cb. induction a as [|a IH|a IH] using Z.peano_ind.
  - reflexivity.
  - rewrite Z.mul_succ_l, Z.add_comm, ed_mul_add, IH, <- Z.add_1_r, ed_mul_succ by done. done.
  - rewrite Z.mul_pred_l, <- Z.add_opp_l, ed_mul_add, ed_mul_opp, IH, <- Z.sub_1_r, ed_mul_pred by done.
    done.
Qed.

Lemma ed_mul_cong n P Q : ed_eq P Q → ed_mul n P = ed_mul n Q.
Proof.
  intros E. assert (∀ k P Q, ed_eq P Q → ed_mul_nat k P = ed_mul_nat k Q) as F.
  { intros k P' Q' H. induction k as [|k IH]; [done|]. cbn -[Edwards.ed_add]. rewrite IH.
    by apply ed_add_cong. }
  unfold Edwards.ed_mul. destruct (0 <=? n); apply F; [done|].
  rewrite !ed_neg_eq. destruct E as [E1 E2]. split; cbn [fst snd]; [by rewrite E1|done].
Qed.

End Curve.
