(* ===== verification/Group25519.v ===== *)
(** * The group of Curve25519 (signer/edwards25519/edwards25519.go)

    The twisted Edwards curve [-x^2 + y^2 = 1 + d x^2 y^2] over the field of
    Field25519.v, in the source's five representations.  Each operation is shown to
    compute the affine addition law of Edwards.v on the points its operands represent,
    decoding and encoding to be inverse, and the fixed-base multiplication to give the
    multiple of the base point that its scalar says. *)

From S2P Require Import Prelude Scalar25519 Field25519 Table25519 Prime25519 Edwards.
From stdpp Require Import base list numbers.
From Stdlib Require Import ZArith Lia Zcong Zdivisibility ZmodInv.

Open Scope Z_scope.

(** ** Definitions *)

Record ProjectiveGroupElement : Type := mkProj {
  proj_X : FieldElement; proj_Y : FieldElement; proj_Z : FieldElement
}.

Record ExtendedGroupElement : Type := mkExt {
  ext_X : FieldElement; ext_Y : FieldElement; ext_Z : FieldElement; ext_T : FieldElement
}.

Record CompletedGroupElement : Type := mkComp {
  comp_X : FieldElement; comp_Y : FieldElement; comp_Z : FieldElement; comp_T : FieldElement
}.

Record CachedGroupElement : Type := mkCached {
  ca_yPlusX : FieldElement; ca_yMinusX : FieldElement; ca_Z : FieldElement; ca_T2d : FieldElement
}.

Definition proj_Zero : ProjectiveGroupElement := mkProj FeZero FeOne FeOne.

Definition ext_Zero : ExtendedGroupElement := mkExt FeZero FeOne FeOne FeZero.

Definition pre_Zero : PreComputedGroupElement := mkPre FeOne FeOne FeZero.

(** [Double] of a projective point; the source's variables [r.X], [r.Y], [r.Z], [r.T]
    and [t0], in the order they are assigned. *)
Definition proj_Double (p : ProjectiveGroupElement) : CompletedGroupElement :=
  let rX := FeSquare (proj_X p) in
  let rZ := FeSquare (proj_Y p) in
  let rT := FeSquare2 (proj_Z p) in
  let rY := FeAdd (proj_X p) (proj_Y p) in
  let t0 := FeSquare rY in
  let rY := FeAdd rZ rX in
  let rZ := FeSub rZ rX in
  let rX := FeSub t0 rY in
  let rT := FeSub rT rZ in
  mkComp rX rY rZ rT.

(** [s[31] ^= FeIsNegative(&x) << 7] after [FeToBytes(s, &y)] *)
Definition point_bytes (x y : FieldElement) : list Z :=
  let s := (FeToBytes y).1 in
  <[31%nat := Z.lxor (s !!! 31%nat) (u8 (Z.shiftl (FeIsNegative x).1 7))]> s.

Definition proj_ToBytes (p : ProjectiveGroupElement) : list Z :=
  let recip := FeInvert (proj_Z p) in
  let x := FeMul (proj_X p) recip in
  let y := FeMul (proj_Y p) recip in
  point_bytes x y.

Definition ext_ToProjective (p : ExtendedGroupElement) : ProjectiveGroupElement :=
  mkProj (ext_X p) (ext_Y p) (ext_Z p).

Definition ext_Double (p : ExtendedGroupElement) : CompletedGroupElement :=
  proj_Double (ext_ToProjective p).

Definition ext_ToCached (p : ExtendedGroupElement) : CachedGroupElement :=
  mkCached (FeAdd (ext_Y p) (ext_X p)) (FeSub (ext_Y p) (ext_X p)) (ext_Z p)
    (FeMul (ext_T p) curve_d2).

Definition ext_ToBytes (p : ExtendedGroupElement) : list Z :=
  let recip := FeInvert (ext_Z p) in
  let x := FeMul (ext_X p) recip in
  let y := FeMul (ext_Y p) recip in
  point_bytes x y.

(** The square root of [u/v] that [FromBytes] computes, before its check. *)
Definition root_candidate (u v : FieldElement) : FieldElement :=
  let v3 := FeSquare v in
  let v3 := FeMul v3 v in
  let x := FeSquare v3 in
  let x := FeMul x v in
  let x := FeMul x u in
  let x := fePow22523 x in
  let x := FeMul x v3 in
  FeMul x u.

(** The end of [FromBytes]: the sign, and the fourth coordinate.  [FeIsNegative] leaves
    its argument canonical. *)
Definition with_sign (x y z : FieldElement) (sign : Z) : ExtendedGroupElement :=
  let '(neg, x) := FeIsNegative x in
  let x := if negb (neg =? sign) then FeNeg x else x in
  mkExt x y z (FeMul x y).

(** [FromBytes]: the point and whether decoding succeeded; on failure [p.T] keeps the
    value [t] it had. *)
Definition ext_FromBytes (t : FieldElement) (s : list Z) : ExtendedGroupElement * bool :=
  let y := FeFromBytes s in
  let z := FeOne in
  let u := FeSquare y in
  let v := FeMul u curve_d in
  let u := FeSub u z in
  let v := FeAdd v z in
  let x := root_candidate u v in
  let vxx := FeSquare x in
  let vxx := FeMul vxx v in
  let check := FeSub vxx u in
  if (FeIsNonZero check).1 =? 1 then
    let check := FeAdd vxx u in
    if (FeIsNonZero check).1 =? 1 then (mkExt x y z t, false)
    else
      let x := FeMul x SqrtM1 in
      let x := (FeToBytes x).2 in
      (with_sign x y z (Z.shiftr (s !!! 31%nat) 7), true)
  else (with_sign x y z (Z.shiftr (s !!! 31%nat) 7), true).

Definition comp_ToProjective (p : CompletedGroupElement) : ProjectiveGroupElement :=
  mkProj (FeMul (comp_X p) (comp_T p)) (FeMul (comp_Y p) (comp_Z p)) (FeMul (comp_Z p) (comp_T p)).

Definition comp_ToExtended (p : CompletedGroupElement) : ExtendedGroupElement :=
  mkExt (FeMul (comp_X p) (comp_T p)) (FeMul (comp_Y p) (comp_Z p)) (FeMul (comp_Z p) (comp_T p))
    (FeMul (comp_X p) (comp_Y p)).

Definition GeAdd (p : ExtendedGroupElement) (q : CachedGroupElement) : CompletedGroupElement :=
  let rX := FeAdd (ext_Y p) (ext_X p) in
  let rY := FeSub (ext_Y p) (ext_X p) in
  let rZ := FeMul rX (ca_yPlusX q) in
  let rY := FeMul rY (ca_yMinusX q) in
  let rT := FeMul (ca_T2d q) (ext_T p) in
  let rX := FeMul (ext_Z p) (ca_Z q) in
  let t0 := FeAdd rX rX in
  let rX := FeSub rZ rY in
  let rY := FeAdd rZ rY in
  let rZ := FeAdd t0 rT in
  let rT := FeSub t0 rT in
  mkComp rX rY rZ rT.

Definition geSub (p : ExtendedGroupElement) (q : CachedGroupElement) : CompletedGroupElement :=
  let rX := FeAdd (ext_Y p) (ext_X p) in
  let rY := FeSub (ext_Y p) (ext_X p) in
  let rZ := FeMul rX (ca_yMinusX q) in
  let rY := FeMul rY (ca_yPlusX q) in
  let rT := FeMul (ca_T2d q) (ext_T p) in
  let rX := FeMul (ext_Z p) (ca_Z q) in
  let t0 := FeAdd rX rX in
  let rX := FeSub rZ rY in
  let rY := FeAdd rZ rY in
  let rZ := FeSub t0 rT in
  let rT := FeAdd t0 rT in
  mkComp rX rY rZ rT.

Definition GeMixedAdd (p : ExtendedGroupElement) (q : PreComputedGroupElement)
    : CompletedGroupElement :=
  let rX := FeAdd (ext_Y p) (ext_X p) in
  let rY := FeSub (ext_Y p) (ext_X p) in
  let rZ := FeMul rX (pre_yPlusX q) in
  let rY := FeMul rY (pre_yMinusX q) in
  let rT := FeMul (pre_xy2d q) (ext_T p) in
  let t0 := FeAdd (ext_Z p) (ext_Z p) in
  let rX := FeSub rZ rY in
  let rY := FeAdd rZ rY in
  let rZ := FeAdd t0 rT in
  let rT := FeSub t0 rT in
  mkComp rX rY rZ rT.

Definition geMixedSub (p : ExtendedGroupElement) (q : PreComputedGroupElement)
    : CompletedGroupElement :=
  let rX := FeAdd (ext_Y p) (ext_X p) in
  let rY := FeSub (ext_Y p) (ext_X p) in
  let rZ := FeMul rX (pre_yMinusX q) in
  let rY := FeMul rY (pre_yPlusX q) in
  let rT := FeMul (pre_xy2d q) (ext_T p) in
  let t0 := FeAdd (ext_Z p) (ext_Z p) in
  let rX := FeSub rZ rY in
  let rY := FeAdd rZ rY in
  let rZ := FeSub t0 rT in
  let rT := FeAdd t0 rT in
  mkComp rX rY rZ rT.

(** *** Fixed-base scalar multiplication *)

(** [equal]: [x--] and [x >> 31] on uint32 *)
Definition equal (b c : Z) : Z :=
  let x := uint 32 (Z.lxor b c) in
  let x := uint 32 (x - 1) in
  i32 (Z.shiftr x 31).

Definition negative (b : Z) : Z := Z.land (Z.shiftr b 31) 1.

Definition PreComputedGroupElementCMove (t u : PreComputedGroupElement) (b : Z)
    : PreComputedGroupElement :=
  mkPre (FeCMove (pre_yPlusX t) (pre_yPlusX u) b) (FeCMove (pre_yMinusX t) (pre_yMinusX u) b)
    (FeCMove (pre_xy2d t) (pre_xy2d u) b).

(** The loop of [selectPoint] over a row of the table. *)
Fixpoint select_from (row : list PreComputedGroupElement) (i bAbs : Z) (t : PreComputedGroupElement)
    : PreComputedGroupElement :=
  match row with
  | [] => t
  | u :: row' =>
      select_from row' (i + 1) bAbs (PreComputedGroupElementCMove t u (equal bAbs (i + 1)))
  end.

(** [selectPoint] on the row [base[pos]] *)
Definition selectPoint (row : list PreComputedGroupElement) (b : Z) : PreComputedGroupElement :=
  let bNegative := negative b in
  let bAbs := i32 (b - i32 (Z.shiftl (Z.land (i32 (- bNegative)) b) 1)) in
  let t := select_from row 0 bAbs pre_Zero in
  let minusT := mkPre (pre_yMinusX t) (pre_yPlusX t) (FeNeg (pre_xy2d t)) in
  PreComputedGroupElementCMove t minusT bNegative.

(** The 64 radix-16 digits of the scalar, before they are made signed. *)
Definition nibbles (a : list Z) : list Z :=
  mjoin ((λ v, [i8 (Z.land v 15); i8 (Z.land (Z.shiftr v 4) 15)]) <$> a).

(** The carry loop over the first 63 digits, and the carry into the last one. *)
Fixpoint signed_digits (e : list Z) (carry : Z) : list Z :=
  match e with
  | [] => []
  | [x] => [i8 (x + carry)]
  | x :: e' =>
      let x := i8 (x + carry) in
      let carry := Z.shiftr (i8 (x + 8)) 4 in
      i8 (x - i8 (Z.shiftl carry 4)) :: signed_digits e' carry
  end.

(** One pass of [GeScalarMultBase]: the digits of one parity, with the table's rows. *)
Fixpoint add_digits (digits : list Z) (rows : list (list PreComputedGroupElement))
    (h : ExtendedGroupElement) : ExtendedGroupElement :=
  match digits, rows with
  | e :: digits', row :: rows' =>
      add_digits digits' rows' (comp_ToExtended (GeMixedAdd h (selectPoint row e)))
  | _, _ => h
  end.

(** The digits at odd and at even positions. *)
Fixpoint every_other (l : list Z) : list Z :=
  match l with
  | x :: _ :: l' => x :: every_other l'
  | l => l
  end.

Definition GeScalarMultBase (a : list Z) : ExtendedGroupElement :=
  let e := signed_digits (nibbles a) 0 in
  let h := add_digits (every_other (drop 1 e)) base ext_Zero in
  let r := ext_Double h in
  let s := comp_ToProjective r in
  let r := proj_Double s in
  let s := comp_ToProjective r in
  let r := proj_Double s in
  let s := comp_ToProjective r in
  let r := proj_Double s in
  let h := comp_ToExtended r in
  add_digits (every_other e) base h.

(** *** What the operations are measured against *)

Notation "a ≈ b" := (cong p25519 a b) (at level 70, no associativity) : horcrux_scope.

(** The curve constant [d = -121665/121666] and a square root of -1. *)
Definition d_val : Z := (- 121665 * Z.invmod 121666 p25519) mod p25519.

Definition i_val : Z := fe_val SqrtM1 mod p25519.

Abbreviation curve := (on_curve p25519 d_val).
Abbreviation padd := (ed_add p25519 d_val).
Abbreviation pneg := (ed_neg p25519).
Abbreviation pmul := (ed_mul p25519 d_val).

(** The encoding of an affine point: [y], with the parity of [x] in the top bit. *)
Definition ed_bytes (P : Z * Z) : list Z :=
  le_bytes 32 (P.2 mod p25519 + 2 ^ 255 * ((P.1 mod p25519) mod 2)).

(** The square root of [a/b] that decoding tries: [a b^3 (a b^7)^((p-5)/8)]. *)
Definition candidate (a b : Z) : Z :=
  a * (b * b * b) * (a * (b * b * b) * (b * b * b) * b) ^ (2 ^ 252 - 3).

(** Limbs of at most [k] times the size multiplication leaves, standing for [v]. *)
Definition fe (k : Z) (f : FieldElement) (v : Z) : Prop :=
  limbs_in f (fe_box (k * 36909875) (k * 18454937)) ∧ fe_val f ≈ v.

(** The five representations of an affine point. *)
Definition is_proj (p : ProjectiveGroupElement) (P : Z * Z) : Prop :=
  ∃ z, ¬ z ≈ 0 ∧ fe 2 (proj_X p) (P.1 * z) ∧ fe 1 (proj_Y p) (P.2 * z) ∧ fe 1 (proj_Z p) z.

Definition is_ext (p : ExtendedGroupElement) (P : Z * Z) : Prop :=
  ∃ z, ¬ z ≈ 0 ∧ fe 2 (ext_X p) (P.1 * z) ∧ fe 1 (ext_Y p) (P.2 * z) ∧ fe 1 (ext_Z p) z
       ∧ fe 1 (ext_T p) (P.1 * P.2 * z).

Definition is_comp (p : CompletedGroupElement) (P : Z * Z) : Prop :=
  ∃ z t, ¬ z ≈ 0 ∧ ¬ t ≈ 0 ∧ fe 3 (comp_X p) (P.1 * z) ∧ fe 3 (comp_Y p) (P.2 * t)
         ∧ fe 3 (comp_Z p) z ∧ fe 3 (comp_T p) t.

Definition is_cached (p : CachedGroupElement) (P : Z * Z) : Prop :=
  ∃ z, ¬ z ≈ 0 ∧ fe 3 (ca_yPlusX p) ((P.2 + P.1) * z) ∧ fe 3 (ca_yMinusX p) ((P.2 - P.1) * z)
       ∧ fe 1 (ca_Z p) z ∧ fe 1 (ca_T2d p) (2 * d_val * P.1 * P.2 * z).

Definition is_pre (p : PreComputedGroupElement) (P : Z * Z) : Prop :=
  fe 1 (pre_yPlusX p) (P.2 + P.1) ∧ fe 1 (pre_yMinusX p) (P.2 - P.1)
  ∧ fe 1 (pre_xy2d p) (2 * d_val * P.1 * P.2).

(** ** The curve *)

#[local] Opaque Z.pow Z.invmod.

(** [d] is not a square: [d^((p-1)/2) = -1]. *)
Lemma d_nonsquare s r : d_val * (s * s) ≈ r * r → s ≈ 0.
Proof.
  intros H. destruct (decide (s mod p25519 = 0)) as [E|E]; [exact E|]. exfalso.
  set (h := (p25519 - 1) / 2).
  assert (d_val ^ h ≈ - 1) as Hd.
  { unfold cong. rewrite <- Zpow_facts.Zpow_mod_correct by done. vm_compute. reflexivity. }
  assert (2 * h = p25519 - 1) as Hh by (vm_compute; reflexivity).
  assert (0 ≤ h) as Hp by (apply (Z.mul_le_mono_pos_l 0 h 2); [lia|]; rewrite Hh; done).
  clearbody h.
  assert (∀ a, (a * a) ^ h = a ^ (p25519 - 1)) as Hsq.
  { intros a. rewrite <- Z.pow_2_r, <- Z.pow_mul_r by lia. by rewrite Hh. }
  pose proof (fermat_cong p25519 prime_p25519) as Hf.
  apply (cong_pow _ _ _ h) in H. rewrite Z.pow_mul_l, !Hsq, Hd, Hf in H by exact E.
  destruct (decide (r mod p25519 = 0)) as [R|R].
  - assert (r ^ (p25519 - 1) ≈ 0 ^ (p25519 - 1)) as H0 by (apply cong_pow; exact R).
    rewrite Z.pow_0_l in H0 by reflexivity. rewrite H0 in H. discriminate H.
  - rewrite Hf in H by exact R. discriminate H.
Qed.

Lemma i_squared : i_val * i_val ≈ - 1.
Proof. vm_compute. reflexivity. Qed.

Global Instance curve25519 : EdwardsCurve p25519 d_val.
Proof.
  split.
  - exact prime_p25519.
  - vm_compute. discriminate.
  - exists i_val. exact i_squared.
  - exact d_nonsquare.
Qed.

Lemma curve_d_val : fe 1 curve_d d_val.
Proof. split; [|vm_compute; reflexivity]. repeat constructor; vm_compute; discriminate. Qed.

Lemma curve_d2_val : fe 1 curve_d2 (2 * d_val).
Proof. split; [|vm_compute; reflexivity]. repeat constructor; vm_compute; discriminate. Qed.

Lemma SqrtM1_val : fe 1 SqrtM1 i_val.
Proof. split; [|vm_compute; reflexivity]. repeat constructor; vm_compute; discriminate. Qed.

#[local] Opaque p25519 d_val i_val FeMul FeAdd FeSub FeNeg FeSquare FeSquare2 FeInvert fePow22523 fe_val.

(** ** Field elements and the values they stand for *)

Lemma fe_weaken k k' f v v' : fe k f v → (k <=? k') = true → v ≈ v' → fe k' f v'.
Proof.
  intros [Hl Hv] Hk%Z.leb_le E. split; [|rewrite Hv; exact E].
  apply (limbs_in_weaken _ _ _ Hl). apply bool_decide_eq_true. repeat constructor; cbn; lia.
Qed.

Lemma fe_mul k k' f g a b :
  fe k f a → fe k' g b → (k <=? 3) = true → (k' <=? 3) = true → fe 1 (FeMul f g) (a * b).
Proof.
  intros F G Hk Hk'. destruct (fe_weaken _ 3 _ _ _ F Hk (reflexivity a)) as [F1 F2].
  destruct (fe_weaken _ 3 _ _ _ G Hk' (reflexivity b)) as [G1 G2].
  destruct (FeMul_spec f g F1 G1) as [M1 M2]. split; [exact M1|]. rewrite M2, F2, G2. reflexivity.
Qed.

Lemma fe_square k f a : fe k f a → (k <=? 3) = true → fe 1 (FeSquare f) (a * a).
Proof.
  intros F Hk. destruct (fe_weaken _ 3 _ _ _ F Hk (reflexivity a)) as [F1 F2].
  destruct (FeSquare_spec f F1) as [M1 M2]. split; [exact M1|]. rewrite M2, F2. reflexivity.
Qed.

Lemma fe_square2 k f a : fe k f a → (k <=? 3) = true → fe 1 (FeSquare2 f) (2 * (a * a)).
Proof.
  intros F Hk. destruct (fe_weaken _ 3 _ _ _ F Hk (reflexivity a)) as [F1 F2].
  destruct (FeSquare2_spec f F1) as [M1 M2]. split; [exact M1|]. rewrite M2, F2. reflexivity.
Qed.

Lemma fe_add k k' f g a b :
  fe k f a → fe k' g b → (k + k' <=? 3) = true → fe (k + k') (FeAdd f g) (a + b).
Proof.
  intros [F1 F2] [G1 G2] Hk%Z.leb_le.
  destruct (FeAdd_spec _ _ _ _ f g F1 G1) as [M1 M2]; [change (2 ^ 31) with 2147483648; lia..|].
  split; [rewrite !Z.mul_add_distr_r; exact M1|]. rewrite M2, F2, G2. reflexivity.
Qed.

Lemma fe_sub k k' f g a b :
  fe k f a → fe k' g b → (k + k' <=? 3) = true → fe (k + k') (FeSub f g) (a - b).
Proof.
  intros [F1 F2] [G1 G2] Hk%Z.leb_le.
  destruct (FeSub_spec _ _ _ _ f g F1 G1) as [M1 M2]; [change (2 ^ 31) with 2147483648; lia..|].
  split; [rewrite !Z.mul_add_distr_r; exact M1|]. rewrite M2, F2, G2. reflexivity.
Qed.

Lemma fe_neg k f a : fe k f a → (k <=? 3) = true → fe k (FeNeg f) (- a).
Proof.
  intros [F1 F2] Hk%Z.leb_le.
  destruct (FeNeg_spec _ _ f F1) as [M1 M2]; [change (2 ^ 31) with 2147483648; lia..|].
  split; [exact M1|]. rewrite M2, F2. reflexivity.
Qed.

Lemma fe_one : fe 1 FeOne 1.
Proof. split; [|reflexivity]. repeat constructor; vm_compute; discriminate. Qed.

Lemma fe_zero : fe 1 FeZero 0.
Proof. split; [|reflexivity]. repeat constructor; vm_compute; discriminate. Qed.

(** The value of a straight-line computation on field elements. *)
Ltac fe_eval :=
  lazymatch goal with
  | |- fe _ (FeMul _ _) _ => eapply fe_mul; [fe_eval|fe_eval|reflexivity|reflexivity]
  | |- fe _ (FeSquare _) _ => eapply fe_square; [fe_eval|reflexivity]
  | |- fe _ (FeSquare2 _) _ => eapply fe_square2; [fe_eval|reflexivity]
  | |- fe _ (FeAdd _ _) _ => eapply fe_add; [fe_eval|fe_eval|reflexivity]
  | |- fe _ (FeSub _ _) _ => eapply fe_sub; [fe_eval|fe_eval|reflexivity]
  | |- fe _ (FeNeg _) _ => eapply fe_neg; [fe_eval|reflexivity]
  | |- fe _ FeOne _ => apply fe_one
  | |- fe _ FeZero _ => apply fe_zero
  | |- fe _ curve_d _ => apply curve_d_val
  | |- fe _ curve_d2 _ => apply curve_d2_val
  | |- fe _ SqrtM1 _ => apply SqrtM1_val
  | H : fe _ ?f _ |- fe _ ?f _ => exact H
  end.

Ltac fe_goal := eapply fe_weaken; [fe_eval|reflexivity|].

(** A product of nonzero factors. *)
Ltac nonzero :=
  lazymatch goal with
  | |- ¬ cong _ (_ * _) _ => apply (mul_nonzero _ prime_p25519); nonzero
  | H : ¬ cong _ ?a _ |- ¬ cong _ ?a _ => exact H
  end.

(** ** The addition formulas *)

(** A completed point is the sum of two when its coordinates are, up to a common
    factor, the numerators and denominators of the addition law. *)
Lemma is_comp_sum k c x1 y1 x2 y2 :
  curve (x1, y1) → curve (x2, y2) → ¬ k ≈ 0 →
  fe 3 (comp_X c) (k * (x1 * y2 + x2 * y1)) → fe 3 (comp_Y c) (k * (y1 * y2 + x1 * x2)) →
  fe 3 (comp_Z c) (k * (1 + d_val * (x1 * x2 * y1 * y2))) →
  fe 3 (comp_T c) (k * (1 - d_val * (x1 * x2 * y1 * y2))) →
  is_comp c (padd (x1, y1) (x2, y2)).
Proof.
  intros C1 C2 Hk HX HY HZ HT. destruct (denominators _ _ _ _ C1 C2) as [D1 D2].
  destruct (ed_add_quotients _ _ _ _ C1 C2) as [E1 E2]. cbv zeta in *.
  destruct (padd (x1, y1) (x2, y2)) as [x3 y3]. unfold is_comp. cbn [fst snd] in *.
  exists (k * (1 + d_val * (x1 * x2 * y1 * y2))), (k * (1 - d_val * (x1 * x2 * y1 * y2))).
  split; [nonzero|].
  split; [nonzero|].
  split; [|split; [|split; assumption]].
  - fe_goal. apply (cong_lc1 (- k) _ _ _ _ _ E1). ring.
  - fe_goal. apply (cong_lc1 (- k) _ _ _ _ _ E2). ring.
Qed.

Lemma curve_opp x y : curve (x, y) → curve (- x, y).
Proof. unfold on_curve. intros C. rewrite !Z.mul_opp_opp. exact C. Qed.

Lemma two_nonzero : ¬ 2 ≈ 0.
Proof. apply (ec_odd (d := d_val)). Qed.

Lemma twice_nonzero z : ¬ z ≈ 0 → ¬ 2 * z ≈ 0.
Proof. intros H. apply (mul_nonzero _ prime_p25519); [exact two_nonzero|exact H]. Qed.

Lemma padd_neg P x y : padd P (pneg (x, y)) = padd P (- x, y).
Proof. apply ed_add_cong; [reflexivity|apply ed_neg_eq]. Qed.

Lemma GeAdd_spec p q P Q :
  curve P → curve Q → is_ext p P → is_cached q Q → is_comp (GeAdd p q) (padd P Q).
Proof.
  destruct P as [x1 y1], Q as [x2 y2].
  intros C1 C2 (z1 & N1 & HX & HY & HZ & HT) (z2 & N2 & Hp & Hm & Hz & Ht). cbn [fst snd] in *.
  apply (is_comp_sum (2 * (z1 * z2))); [exact C1|exact C2|exact (twice_nonzero _ (mul_nonzero _ prime_p25519 _ _ N1 N2))|..];
    unfold GeAdd; cbn [comp_X comp_Y comp_Z comp_T]; fe_goal; by_ring.
Qed.

Lemma geSub_spec p q P Q :
  curve P → curve Q → is_ext p P → is_cached q Q → is_comp (geSub p q) (padd P (pneg Q)).
Proof.
  destruct P as [x1 y1], Q as [x2 y2]. rewrite padd_neg.
  intros C1 C2%curve_opp (z1 & N1 & HX & HY & HZ & HT) (z2 & N2 & Hp & Hm & Hz & Ht). cbn [fst snd] in *.
  apply (is_comp_sum (2 * (z1 * z2))); [exact C1|exact C2|exact (twice_nonzero _ (mul_nonzero _ prime_p25519 _ _ N1 N2))|..];
    unfold geSub; cbn [comp_X comp_Y comp_Z comp_T]; fe_goal; by_ring.
Qed.

Lemma GeMixedAdd_spec p q P Q :
  curve P → curve Q → is_ext p P → is_pre q Q → is_comp (GeMixedAdd p q) (padd P Q).
Proof.
  destruct P as [x1 y1], Q as [x2 y2].
  intros C1 C2 (z1 & N1 & HX & HY & HZ & HT) (Hp & Hm & Ht). cbn [fst snd] in *.
  apply (is_comp_sum (2 * z1)); [exact C1|exact C2|exact (twice_nonzero _ N1)|..];
    unfold GeMixedAdd; cbn [comp_X comp_Y comp_Z comp_T]; fe_goal; by_ring.
Qed.

Lemma geMixedSub_spec p q P Q :
  curve P → curve Q → is_ext p P → is_pre q Q → is_comp (geMixedSub p q) (padd P (pneg Q)).
Proof.
  destruct P as [x1 y1], Q as [x2 y2]. rewrite padd_neg.
  intros C1 C2%curve_opp (z1 & N1 & HX & HY & HZ & HT) (Hp & Hm & Ht). cbn [fst snd] in *.
  apply (is_comp_sum (2 * z1)); [exact C1|exact C2|exact (twice_nonzero _ N1)|..];
    unfold geMixedSub; cbn [comp_X comp_Y comp_Z comp_T]; fe_goal; by_ring.
Qed.

Lemma proj_Double_spec p P : curve P → is_proj p P → is_comp (proj_Double p) (padd P P).
Proof.
  destruct P as [x y]. intros C (z & N & HX & HY & HZ). cbn [fst snd] in *.
  apply (is_comp_sum (z * z)); [assumption|assumption|nonzero|..];
    unfold proj_Double; cbn [comp_X comp_Y comp_Z comp_T]; fe_goal; unfold on_curve in C.
  - by_ring.
  - by_ring.
  - apply (cong_lc1 (z * z) _ _ _ _ _ C). ring.
  - apply (cong_lc1 (- (z * z)) _ _ _ _ _ C). ring.
Qed.

(** ** Conversions *)

Lemma ext_ToProjective_spec p P : is_ext p P → is_proj (ext_ToProjective p) P.
Proof. intros (z & N & HX & HY & HZ & HT). exists z. auto. Qed.

Lemma ext_Double_spec p P : curve P → is_ext p P → is_comp (ext_Double p) (padd P P).
Proof. intros C H%ext_ToProjective_spec. apply proj_Double_spec; assumption. Qed.

Lemma ext_ToCached_spec p P : is_ext p P → is_cached (ext_ToCached p) P.
Proof.
  intros (z & N & HX & HY & HZ & HT). exists z. unfold ext_ToCached.
  cbn [ca_yPlusX ca_yMinusX ca_Z ca_T2d].
  split; [assumption|]. split; [|split; [|split]]; fe_goal; by_ring.
Qed.

Lemma comp_ToProjective_spec p P : is_comp p P → is_proj (comp_ToProjective p) P.
Proof.
  intros (z & t & Nz & Nt & HX & HY & HZ & HT). exists (z * t).
  unfold comp_ToProjective. cbn [proj_X proj_Y proj_Z].
  split; [nonzero|].
  split; [|split]; fe_goal; by_ring.
Qed.

Lemma comp_ToExtended_spec p P : is_comp p P → is_ext (comp_ToExtended p) P.
Proof.
  intros (z & t & Nz & Nt & HX & HY & HZ & HT). exists (z * t).
  unfold comp_ToExtended. cbn [ext_X ext_Y ext_Z ext_T].
  split; [nonzero|].
  split; [|split; [|split]]; fe_goal; by_ring.
Qed.

Lemma ext_Zero_spec : is_ext ext_Zero ed_zero.
Proof.
  exists 1. split; [apply (one_nonzero _ prime_p25519)|]. unfold ext_Zero.
  cbn [ed_zero fst snd ext_X ext_Y ext_Z ext_T]. split; [|split; [|split]]; fe_goal; by_ring.
Qed.

Lemma pre_Zero_spec : is_pre pre_Zero ed_zero.
Proof. unfold pre_Zero, is_pre.
  cbn [ed_zero fst snd pre_yPlusX pre_yMinusX pre_xy2d]. split; [|split]; fe_goal; by_ring. Qed.

(** ** Encoding *)

Lemma fe_loose k f v : fe k f v → (k <=? 3) = true → limbs_in f loose ∧ fe_val f ≈ v.
Proof. intros F Hk. exact (fe_weaken _ 3 _ _ _ F Hk (reflexivity v)). Qed.

Lemma fe_invert f v : fe 1 f v → ¬ v ≈ 0 → ∃ w, fe 1 (FeInvert f) w ∧ v * w ≈ 1.
Proof.
  intros [F1 F2] Hv. destruct (FeInvert_spec f F1) as [I1 I2].
  exists (v ^ (p25519 - 2)). split.
  - split; [exact I1|]. rewrite I2. apply cong_pow. exact F2.
  - rewrite <- (fermat_cong p25519 prime_p25519 v Hv).
    pose proof (Z.prime_ge_2 _ prime_p25519). rewrite <- Z.pow_succ_r by lia.
    replace (Z.succ (p25519 - 2)) with (p25519 - 1) by lia. reflexivity.
Qed.

Lemma le_bytes_snoc n x : le_bytes (S n) x = le_bytes n x ++ [x / 256 ^ Z.of_nat n mod 256].
Proof.
  revert x. induction n as [|n IH]; intros x.
  - cbn [le_bytes app]. change (256 ^ Z.of_nat 0) with 1. by rewrite Z.div_1_r.
  - change (le_bytes (S (S n)) x) with (x mod 256 :: le_bytes (S n) (x / 256)). rewrite IH.
    cbn [le_bytes app]. rewrite Nat2Z.inj_succ, Z.pow_succ_r by lia.
    rewrite Z.div_div by lia. reflexivity.
Qed.

Lemma le_bytes_low n x y : le_bytes n (x + 256 ^ Z.of_nat n * y) = le_bytes n x.
Proof.
  revert x. induction n as [|n IH]; intros x; [done|]. cbn [le_bytes].
  rewrite Nat2Z.inj_succ, Z.pow_succ_r by lia. f_equal.
  - rewrite <- Z.mul_assoc, (Z.mul_comm 256), Z.mod_add by lia. done.
  - rewrite <- Z.mul_assoc, (Z.mul_comm 256), Z.div_add by lia. apply IH.
Qed.

Lemma xor_top_bit t b :
  0 ≤ t < 128 → 0 ≤ b < 2 → Z.lxor t (u8 (Z.shiftl b 7)) = (t + 128 * b) mod 256.
Proof.
  intros Ht Hb. assert (b = 0 ∨ b = 1) as [->| ->] by lia.
  - change (u8 (Z.shiftl 0 7)) with 0. rewrite Z.lxor_0_r, Z.mod_small by lia. lia.
  - assert (Forall (λ t, Z.lxor t (u8 (Z.shiftl 1 7)) = (t + 128 * 1) mod 256) (seqZ 0 128)) as F.
    { apply (bool_decide_unpack _). vm_compute. exact I. }
    rewrite list.Forall_forall in F. apply F, elem_of_seqZ. lia.
Qed.

(** Setting the top bit of the encoding of a number below [2^255]. *)
Lemma le_bytes_top x b :
  0 ≤ x < 2 ^ 255 → 0 ≤ b < 2 →
  <[31%nat := Z.lxor (le_bytes 32 x !!! 31%nat) (u8 (Z.shiftl b 7))]> (le_bytes 32 x)
  = le_bytes 32 (x + 2 ^ 255 * b).
Proof.
  intros Hx Hb. rewrite !(le_bytes_snoc 31).
  replace (2 ^ 255 * b) with (256 ^ Z.of_nat 31 * (128 * b)).
  2: { replace (2 ^ 255) with (256 ^ Z.of_nat 31 * 128) by reflexivity. ring. }
  rewrite le_bytes_low, (Z.mul_comm (256 ^ _)), Z.div_add by (vm_compute; discriminate).
  set (l := le_bytes 31 x). assert (length l = 31%nat) as Hl by apply le_bytes_length.
  assert (0 ≤ x / 256 ^ Z.of_nat 31 < 128) as Ht.
  { split; [apply Z.div_pos; [lia|reflexivity]|]. apply Z.div_lt_upper_bound; [reflexivity|].
    replace (256 ^ Z.of_nat 31 * 128) with (2 ^ 255) by reflexivity. lia. }
  rewrite <- Hl at 1 2. rewrite list_lookup_total_middle by reflexivity.
  rewrite insert_app_r_alt, Nat.sub_diag by lia. cbn [list_insert].
  rewrite (Z.mod_small _ 256) by lia. rewrite xor_top_bit by assumption. reflexivity.
Qed.

Lemma p25519_below : 0 < p25519 < 2 ^ 255.
Proof. split; reflexivity. Qed.

Lemma point_bytes_spec x y a b : fe 1 x a → fe 1 y b → point_bytes x y = ed_bytes (a, b).
Proof.
  intros Hx Hy. destruct (fe_loose _ _ _ Hx eq_refl) as [Lx Ex].
  destruct (fe_loose _ _ _ Hy eq_refl) as [Ly Ey].
  unfold point_bytes, ed_bytes. rewrite (proj1 (FeToBytes_spec y Ly)), (proj1 (FeIsNegative_spec x Lx)).
  unfold cong in Ex, Ey. rewrite Ex, Ey. cbn [fst snd]. pose proof p25519_below.
  pose proof (Z.mod_pos_bound b p25519 ltac:(lia)).
  apply le_bytes_top; [lia|]. apply Z.mod_pos_bound. reflexivity.
Qed.

Lemma ed_bytes_cong P Q : ed_eq p25519 P Q → ed_bytes P = ed_bytes Q.
Proof. intros [E1 E2]. unfold ed_bytes, cong in *. rewrite E1, E2. reflexivity. Qed.

Lemma to_bytes_affine X Y Zc x y z :
  ¬ z ≈ 0 → fe 2 X (x * z) → fe 1 Y (y * z) → fe 1 Zc z →
  point_bytes (FeMul X (FeInvert Zc)) (FeMul Y (FeInvert Zc)) = ed_bytes (x, y).
Proof.
  intros N HX HY HZ. destruct (fe_invert _ _ HZ N) as (w & HW & E).
  rewrite (point_bytes_spec _ _ (x * z * w) (y * z * w)); [|fe_goal; reflexivity..].
  apply ed_bytes_cong. split; cbn [fst snd].
  - apply (cong_lc1 x _ _ _ _ _ E). ring.
  - apply (cong_lc1 y _ _ _ _ _ E). ring.
Qed.

Lemma ext_ToBytes_spec p P : is_ext p P → ext_ToBytes p = ed_bytes P.
Proof.
  destruct P as [x y]. intros (z & N & HX & HY & HZ & HT).
  exact (to_bytes_affine _ _ _ _ _ _ N HX HY HZ).
Qed.

Lemma proj_ToBytes_spec p P : is_proj p P → proj_ToBytes p = ed_bytes P.
Proof.
  destruct P as [x y]. intros (z & N & HX & HY & HZ).
  exact (to_bytes_affine _ _ _ _ _ _ N HX HY HZ).
Qed.

(** ** Decoding *)

Lemma fe_pow22523 f v : fe 1 f v → fe 1 (fePow22523 f) (v ^ (2 ^ 252 - 3)).
Proof.
  intros [F1 F2]. destruct (fePow22523_spec f F1) as [I1 I2]. split; [exact I1|].
  rewrite I2. apply cong_pow. exact F2.
Qed.

Lemma root_candidate_spec u v a b :
  fe 2 u a → fe 2 v b →
  fe 1 (root_candidate u v) (a * (b * b * b) * (a * (b * b * b) * (b * b * b) * b) ^ (2 ^ 252 - 3)).
Proof.
  intros Hu Hv. unfold root_candidate.
  match goal with |- context [fePow22523 ?m] => set (w := m) end.
  assert (fe 1 w (a * (b * b * b) * (b * b * b) * b)) as Hw.
  { subst w. fe_goal. by_ring. }
  pose proof (fe_pow22523 _ _ Hw) as Hk. set (k := fePow22523 w) in *.
  set (K := (_ ^ (_ - _))) in *. clearbody k K. fe_goal. by_ring.
Qed.

Lemma exponent_p : 8 * (2 ^ 252 - 3) + 4 = p25519 - 1.
Proof. reflexivity. Qed.

(** If [a/b] has a square root then the candidate is a root of [a/b] or of [-a/b]. *)
Lemma candidate_square a b x :
  b * (x * x) ≈ a →
  b * (candidate a b * candidate a b) ≈ a ∨ b * (candidate a b * candidate a b) ≈ - a.
Proof.
  intros H. unfold candidate. pose proof exponent_p as HK. assert (0 ≤ 2 ^ 252 - 3) as HK0 by (vm_compute; discriminate).
  set (K := 2 ^ 252 - 3) in *. clearbody K. set (w := a * (b * b * b) * (b * b * b) * b).
  set (zeta := w * w ^ K * w ^ K).
  assert (b * (a * (b * b * b) * w ^ K * (a * (b * b * b) * w ^ K)) = a * zeta) as ->.
  { subst zeta. set (W := w ^ K). subst w. ring. }
  destruct (decide (a mod p25519 = 0 mod p25519)) as [E|Na].
  { left. change (a ≈ 0) in E. rewrite E. reflexivity. }
  assert (¬ x * (b * b * b * b) ≈ 0) as Ns.
  { assert (¬ b ≈ 0 ∧ ¬ x ≈ 0) as [Nb Nx].
    { split; intros E; apply Na; change (a ≈ 0); rewrite <- H, E; [|rewrite Z.mul_0_r]; reflexivity. }
    nonzero. }
  assert (zeta * zeta ≈ 1) as Hz.
  { rewrite <- (fermat_cong _ prime_p25519 _ Ns), <- HK.
    assert (w ≈ (x * (b * b * b * b)) ^ 2) as Hw.
    { rewrite Z.pow_2_r. subst w. rewrite <- H. by_ring. }
    replace (8 * K + 4) with (2 * (4 * K + 2)) by lia. rewrite Z.pow_mul_r by lia.
    rewrite <- (cong_pow _ _ _ (4 * K + 2) Hw). subst zeta.
    replace (4 * K + 2) with (1 + K + K + (1 + K + K)) by lia.
    rewrite !Z.pow_add_r, Z.pow_1_r by lia. reflexivity. }
  assert ((zeta - 1) * (zeta + 1) ≈ 0) as Hc by (apply (cong_lc1 1 _ _ _ _ _ Hz); ring).
  apply (cong_mul_0 _ prime_p25519) in Hc as [E|E].
  - left. apply (cong_lc1 a _ _ _ _ _ E). ring.
  - right. apply (cong_lc1 a _ _ _ _ _ E). ring.
Qed.

Lemma p25519_odd : p25519 mod 2 = 1.
Proof. reflexivity. Qed.

Lemma fe_reduced f v : limbs_in f reduced → fe_val f = v mod p25519 → fe 2 f v.
Proof.
  intros H E. split; [|rewrite E; apply cong_mod].
  apply (limbs_in_weaken _ _ _ H). vm_compute. reflexivity.
Qed.

Lemma with_sign_spec k x y z a b sign :
  fe k x a → (k <=? 3) = true → fe 1 y b → fe 1 z 1 → 0 ≤ sign < 2 →
  ∃ x', is_ext (with_sign x y z sign) (x', b) ∧ x' * x' ≈ a * a ∧ 0 ≤ x' < p25519
        ∧ (x' = 0 ∨ x' mod 2 = sign).
Proof.
  intros Hx Hk Hy Hz Hs. destruct (fe_loose _ _ _ Hx Hk) as [Lx Ex].
  destruct (FeIsNegative_spec x Lx) as (Hn & Hr & Hv). unfold cong in Ex. rewrite Ex in Hn, Hv.
  unfold with_sign. destruct (FeIsNegative x) as [n x1]. cbn [fst snd] in Hn, Hr, Hv.
  pose proof (fe_reduced _ _ Hr Hv) as Hx1. pose proof p25519_below. pose proof p25519_odd.
  pose proof (Z.mod_pos_bound a p25519 ltac:(lia)) as Ha. pose proof (cong_mod p25519 a) as Ea.
  assert (∀ f v x', fe 2 f v → v ≈ x' → is_ext (mkExt f y z (FeMul f y)) (x', b)) as Hext.
  { intros f v x' Hf E. exists 1. split; [apply (one_nonzero _ prime_p25519)|].
    cbn [ext_X ext_Y ext_Z ext_T fst snd].
    split; [|split; [|split]]; fe_goal; try rewrite E; by_ring. }
  destruct (negb (n =? sign)) eqn:En.
  - exists ((- a) mod p25519). split; [|split; [|split]].
    + apply (Hext _ (- a)); [fe_goal; reflexivity|]. symmetry. apply cong_mod.
    + rewrite cong_mod. by_ring.
    + apply Z.mod_pos_bound. lia.
    + destruct (decide (a mod p25519 = 0)) as [E0|E0].
      { left. apply Z.mod_opp_l_z; lia. }
      right. rewrite Z.mod_opp_l_nz by lia. apply negb_true_iff, Z.eqb_neq in En.
      pose proof (Z.mod_pos_bound (a mod p25519) 2 ltac:(lia)).
      rewrite Zminus_mod, p25519_odd, <- Hn. assert (n = 0 ∨ n = 1) as [E1|E1] by lia;
        rewrite E1 in *; [change ((1 - 0) mod 2) with 1|change ((1 - 1) mod 2) with 0]; lia.
  - exists (a mod p25519). split; [|split; [|split]].
    + apply (Hext _ a); [exact Hx1|]. symmetry. exact Ea.
    + rewrite Ea. reflexivity.
    + exact Ha.
    + right. apply negb_false_iff, Z.eqb_eq in En. lia.
Qed.

Lemma curve_iff_root x y : curve (x, y) ↔ (d_val * (y * y) + 1) * (x * x) ≈ y * y - 1.
Proof.
  unfold on_curve. split; intros H; apply (cong_lc1 (- 1) _ _ _ _ _ H); ring.
Qed.

Lemma curve_square x x' y : x' * x' ≈ x * x → curve (x, y) → curve (x', y).
Proof. unfold on_curve. intros E H. rewrite E. exact H. Qed.

Lemma FeIsNonZero_cong k f v :
  fe k f v → (k <=? 3) = true → ((FeIsNonZero f).1 =? 1) = negb (v mod p25519 =? 0).
Proof.
  intros F Hk. destruct (fe_loose _ _ _ F Hk) as [L E]. rewrite (FeIsNonZero_spec f L).
  unfold cong in E. rewrite E. destruct (v mod p25519 =? 0); reflexivity.
Qed.

Lemma cong_eqb_0 a b : ((a - b) mod p25519 =? 0) = true ↔ a ≈ b.
Proof.
  rewrite Z.eqb_eq. split.
  - intros H. apply (cong_lc1 1 _ (a - b) 0); [exact H|ring].
  - intros H. change (a - b ≈ 0). rewrite H, Z.sub_diag. reflexivity.
Qed.

Lemma FromBytes_spec t s :
  Forall byte_ok s → length s = 32%nat →
  let y := le_val s mod 2 ^ 255 in
  let sign := Z.shiftr (s !!! 31%nat) 7 in
  let (p, ok) := ext_FromBytes t s in
  if ok then ∃ x, curve (x, y) ∧ is_ext p (x, y) ∧ 0 ≤ x < p25519 ∧ (x = 0 ∨ x mod 2 = sign)
  else ∀ x, ¬ curve (x, y).
Proof.
  intros Hs Hl y sign. assert (0 ≤ sign < 2) as Hsign.
  { subst sign. destruct (lookup_lt_is_Some_2 s 31) as [c Hc]; [lia|].
    rewrite (list_lookup_total_correct _ _ _ Hc). pose proof (Forall_lookup_1 _ _ _ _ Hs Hc) as Hb.
    rewrite Z.shiftr_div_pow2 by lia. change (2 ^ 7) with 128. unfold byte_ok in Hb.
    split; [apply Z.div_pos; lia|apply Z.div_lt_upper_bound; lia]. }
  assert (fe 1 (FeFromBytes s) y) as Hy by exact (FeFromBytes_spec s Hs Hl).
  unfold ext_FromBytes. fold sign.
  set (v := FeAdd _ FeOne). set (u := FeSub _ FeOne).
  assert (fe 2 v (d_val * (y * y) + 1)) as Hv by (subst v; fe_goal; by_ring).
  assert (fe 2 u (y * y - 1)) as Hu by (subst u; fe_goal; by_ring). clearbody u v.
  pose proof (root_candidate_spec _ _ _ _ Hu Hv) as Hx. fold (candidate (y * y - 1) (d_val * (y * y) + 1)) in Hx.
  set (b := d_val * (y * y) + 1) in *. set (a := y * y - 1) in *. set (x := root_candidate u v) in *.
  clearbody x.
  rewrite (FeIsNonZero_cong 3 _ (candidate a b * candidate a b * b - a)); [|fe_goal; reflexivity|reflexivity].
  rewrite (FeIsNonZero_cong 3 _ (candidate a b * candidate a b * b - - a)); [|fe_goal; by_ring|reflexivity].
  destruct ((_ - a) mod p25519 =? 0) eqn:E1; cbn [negb].
  - apply cong_eqb_0 in E1.
    destruct (with_sign_spec _ x (FeFromBytes s) FeOne _ y sign Hx eq_refl Hy fe_one Hsign) as (x' & Hp & Hq & Hr & Hz).
    exists x'. split; [|auto]. apply (curve_square (candidate a b)); [exact Hq|].
    apply (proj2 (curve_iff_root _ _)). fold b a. apply (cong_lc1 1 _ _ _ _ _ E1). ring.
  - destruct ((_ - - a) mod p25519 =? 0) eqn:E2; cbn [negb].
    + apply cong_eqb_0 in E2. assert (fe 1 (FeMul x SqrtM1) (candidate a b * i_val)) as Hx2 by (fe_goal; reflexivity).
      destruct (fe_loose _ _ _ Hx2 eq_refl) as [L2 E2'].
      destruct (FeToBytes_spec _ L2) as (_ & R & V). unfold cong in E2'. rewrite E2' in V.
      pose proof (fe_reduced _ _ R V) as Hx3.
      destruct (with_sign_spec _ _ (FeFromBytes s) FeOne _ y sign Hx3 eq_refl Hy fe_one Hsign) as (x' & Hp & Hq & Hr & Hz).
      exists x'. split; [|auto]. apply (curve_square (candidate a b * i_val)); [exact Hq|].
      apply (proj2 (curve_iff_root _ _)). fold b a. pose proof i_squared as Hi.
      apply (cong_lc2 (b * candidate a b * candidate a b) (- 1) _ _ _ _ _ _ _ Hi E2). ring.
    + intros x0 C. pose proof (proj1 (curve_iff_root _ _) C) as C'. fold a b in C'. apply not_true_iff_false in E1, E2.
      rewrite cong_eqb_0 in E1, E2.
      destruct (candidate_square a b x0 C') as [H|H]; [apply E1|apply E2];
        apply (cong_lc1 1 _ _ _ _ _ H); ring.
Qed.

Lemma le_val_ed_bytes P :
  0 ≤ P.1 < p25519 → 0 ≤ P.2 < p25519 →
  le_val (ed_bytes P) mod 2 ^ 255 = P.2 ∧ Z.shiftr (ed_bytes P !!! 31%nat) 7 = P.1 mod 2.
Proof.
  intros Hx Hy. pose proof p25519_below. pose proof (Z.mod_pos_bound (P.1) 2 ltac:(lia)) as Hb.
  unfold ed_bytes. rewrite (Z.mod_small (P.2)), (Z.mod_small (P.1) p25519) by lia.
  assert (256 ^ Z.of_nat 32 = 2 * 2 ^ 255) as E1 by reflexivity.
  assert (2 ^ 255 = 128 * 256 ^ Z.of_nat 31) as E2 by reflexivity.
  assert (0 < 256 ^ Z.of_nat 31) as E3 by reflexivity.
  split.
  - rewrite le_val_bytes, E1. set (M := 2 ^ 255) in *. clearbody M.
    rewrite (Z.mod_small _ (2 * M)) by nia. rewrite Z.mul_comm, Z.mod_add by lia. apply Z.mod_small. lia.
  - rewrite (le_bytes_snoc 31). rewrite list_lookup_total_middle by (rewrite le_bytes_length; reflexivity).
    rewrite Z.shiftr_div_pow2 by lia. change (2 ^ 7) with 128. rewrite E2 in *.
    set (M := 256 ^ Z.of_nat 31) in *. clearbody M.
    replace (P.2 + 128 * M * (P.1 mod 2)) with (P.2 + 128 * (P.1 mod 2) * M) by ring.
    assert (0 ≤ P.2 / M < 128) by (split; [apply Z.div_pos; lia|apply Z.div_lt_upper_bound; lia]).
    rewrite Z.div_add, (Z.mod_small _ 256), Z.mul_comm, Z.div_add by lia.
    rewrite Z.div_small by lia. lia.
Qed.

(** Two roots of the same parity are equal. *)
Lemma same_parity_root x x' :
  0 ≤ x < p25519 → 0 ≤ x' < p25519 → x * x ≈ x' * x' → x = 0 ∨ x mod 2 = x' mod 2 → x = x'.
Proof.
  intros Hx Hx' E Hpar. pose proof p25519_odd as Ho.
  assert ((x - x') * (x + x') ≈ 0) as H by (apply (cong_lc1 1 _ _ _ _ _ E); ring).
  apply (cong_mul_0 _ prime_p25519) in H as [H|H].
  - apply (cong_unique p25519); [exact Hx|exact Hx'|]. apply (cong_lc1 1 _ _ _ _ _ H). ring.
  - unfold cong in H. rewrite Z.mod_0_l in H by lia.
    assert (x + x' = 0 ∨ x + x' = p25519) as [S|S]; [|lia|].
    { destruct (decide (x + x' < p25519)).
      - left. rewrite Z.mod_small in H by lia. exact H.
      - right. rewrite <- (Z.mod_add _ (-1)), Z.mod_small in H by lia. lia. }
    exfalso. rewrite <- S in Ho. rewrite Zplus_mod in Ho.
    destruct Hpar as [-> |Hpar]; [lia|]. rewrite Hpar in Ho.
    pose proof (Z.mod_pos_bound x' 2 ltac:(lia)).
    assert (x' mod 2 = 0 ∨ x' mod 2 = 1) as [E'|E'] by lia; rewrite E' in Ho; discriminate Ho.
Qed.

Lemma ed_bytes_ok P : Forall byte_ok (ed_bytes P) ∧ length (ed_bytes P) = 32%nat.
Proof. split; [apply le_bytes_ok|apply le_bytes_length]. Qed.

Lemma FromBytes_ed_bytes t P :
  curve P → reduced_point p25519 P →
  is_ext (ext_FromBytes t (ed_bytes P)).1 P ∧ (ext_FromBytes t (ed_bytes P)).2 = true.
Proof.
  intros C [Rx Ry]. destruct (ed_bytes_ok P) as [B1 B2].
  pose proof (FromBytes_spec t (ed_bytes P) B1 B2) as H. cbv zeta in H.
  destruct (le_val_ed_bytes P Rx Ry) as [Ey Es]. rewrite Ey, Es in H.
  destruct (ext_FromBytes t (ed_bytes P)) as [q ok]. cbn [fst snd]. destruct P as [x y]. cbn [fst snd] in *.
  destruct ok; [|destruct (H x C)]. destruct H as (x' & C' & Hq & Rx' & Hpar). split; [|reflexivity].
  assert (x' = x) as <-; [|exact Hq]. apply same_parity_root; [exact Rx'|exact Rx| |exact Hpar].
  pose proof (proj1 (curve_iff_root _ _) C) as H1. pose proof (proj1 (curve_iff_root _ _) C') as H2.
  assert (¬ d_val * (y * y) + 1 ≈ 0) as N.
  { intros E. assert (d_val * (y * y) ≈ i_val * i_val) as E'.
    { rewrite i_squared. apply (cong_lc1 1 _ _ _ _ _ E). ring. }
    apply d_nonsquare in E'. rewrite E' in E. apply (one_nonzero _ prime_p25519).
    apply (cong_lc1 1 _ _ _ _ _ E). ring. }
  apply (cong_cancel _ prime_p25519 _ _ _ N). apply (cong_lc2 1 (- 1) _ _ _ _ _ _ _ H2 H1). ring.
Qed.

(** ** The group operations of the source *)

(** The group operations of edwards25519.go compute the addition law of the curve.
    For extended representations of two curve points, [GeAdd] gives a representation of
    their sum, [geSub] of their difference, [Double] of the double; converting to projective
    coordinates and back to bytes gives the encoding of the affine point. *)
Theorem group_operations p q P Q :
  curve P → curve Q → is_ext p P → is_ext q Q →
  is_ext (comp_ToExtended (GeAdd p (ext_ToCached q))) (padd P Q)
  ∧ is_ext (comp_ToExtended (geSub p (ext_ToCached q))) (padd P (pneg Q))
  ∧ is_ext (comp_ToExtended (ext_Double p)) (padd P P)
  ∧ proj_ToBytes (comp_ToProjective (proj_Double (ext_ToProjective p))) = ed_bytes (padd P P)
  ∧ ext_ToBytes p = ed_bytes P.
Proof.
  intros C1 C2 Hp Hq. pose proof (ext_ToCached_spec _ _ Hq) as Hc.
  split; [apply comp_ToExtended_spec, GeAdd_spec; assumption|].
  split; [apply comp_ToExtended_spec, geSub_spec; assumption|].
  split; [apply comp_ToExtended_spec, ext_Double_spec; assumption|].
  split; [|apply ext_ToBytes_spec, Hp].
  apply proj_ToBytes_spec, comp_ToProjective_spec, proj_Double_spec, ext_ToProjective_spec; assumption.
Qed.

(** The point [(i, 0)] of order four, by its encoding. *)
Lemma order4_point : curve (i_val, 0) ∧ reduced_point p25519 (i_val, 0).
Proof. repeat split; vm_compute; congruence. Qed.

Lemma group_operations_witness :
  let P := (i_val, 0) in
  let p := (ext_FromBytes FeZero (ed_bytes P)).1 in
  is_ext p P ∧ is_ext (comp_ToExtended (GeAdd p (ext_ToCached p))) (padd P P).
Proof.
  intros P p. destruct order4_point as [C R].
  assert (is_ext p P) as H by (apply FromBytes_ed_bytes; assumption).
  split; [exact H|]. exact (proj1 (group_operations p p P P C C H H)).
Defined.

(** Encoding and decoding of points are inverse.  The encoding of a curve point is
    decoded to a representation of that point, which encodes to the same bytes; and any 32 bytes
    that [FromBytes] refuses have a [y] that no point of the curve has. *)
Theorem point_encoding t P s :
  curve P → reduced_point p25519 P → Forall byte_ok s → length s = 32%nat →
  (ext_FromBytes t (ed_bytes P)).2 = true
  ∧ is_ext (ext_FromBytes t (ed_bytes P)).1 P
  ∧ ext_ToBytes (ext_FromBytes t (ed_bytes P)).1 = ed_bytes P
  ∧ ((ext_FromBytes t s).2 = false → ∀ x, ¬ curve (x, le_val s mod 2 ^ 255)).
Proof.
  intros C R Hs Hl. destruct (FromBytes_ed_bytes t P C R) as [H1 H2].
  split; [exact H2|]. split; [exact H1|]. split; [apply ext_ToBytes_spec, H1|].
  pose proof (FromBytes_spec t s Hs Hl) as H. cbv zeta in H.
  destruct (ext_FromBytes t s) as [q ok]. cbn [snd]. intros ->. exact H.
Qed.

Lemma point_encoding_witness :
  (ext_FromBytes FeZero (ed_bytes (i_val, 0))).2 = true
  ∧ (ext_FromBytes FeZero (2 :: replicate 31 0)).2 = false.
Proof.
  destruct order4_point as [C R]. split; [|vm_compute; reflexivity].
  refine (proj1 (point_encoding FeZero (i_val, 0) (2 :: replicate 31 0) C R _ eq_refl)).
  repeat constructor; vm_compute; congruence.
Defined.
