(* ===== verification/Base25519.v ===== *)
(** * Multiples of the base point (signer/edwards25519)

    The table [base] of const.go is checked entry by entry against the addition law of
    the curve: entry [j] of row [i] is [(j + 1) 256^i] times the base point.  With it,
    [GeScalarMultBase] gives the multiple of the base point that its scalar says; and the
    order of the base point is the [orderL] that scalars are reduced by. *)

From S2P Require Import Prelude Scalar25519 Field25519 Table25519 Prime25519 Edwards Group25519.
From stdpp Require Import base list numbers.
From Stdlib Require Import ZArith Lia Zdivisibility.

Open Scope Z_scope.

(** ** Definitions *)

(** *** Arithmetic for the checks: [2^255] is folded onto 19. *)

Definition red (x : Z) : Z := Z.land x (Z.ones 255) + 19 * Z.shiftr x 255.

Definition mulm (a b : Z) : Z := red (red (a * b)).

Definition is0 (x : Z) : bool :=
  let r := red (red (red x)) in (r =? 0) || (r =? p25519).

(** *** The points of the table *)

Definition half : Z := 2 ^ 254 - 9.

Definition point_of (E : PreComputedGroupElement) : Z * Z :=
  let a := fe_val (pre_yPlusX E) in
  let b := fe_val (pre_yMinusX E) in
  (((a - b) * half) mod p25519, ((a + b) * half) mod p25519).

Definition base_entry (i j : nat) : PreComputedGroupElement :=
  nth j (nth i base []) pre_Zero.

Definition B_point : Z * Z := point_of (base_entry 0 0).

Global Instance within_dec x iv : Decision (within x iv).
Proof. unfold within. apply _. Defined.

Global Instance limbs_in_dec s ivs : Decision (limbs_in s ivs).
Proof. unfold limbs_in. apply _. Defined.

Definition limbs_ok (f : FieldElement) : bool := bool_decide (limbs_in f tight).

(** The third component of an entry is [2 d x y]. *)
Definition entry_ok (dv : Z) (E : PreComputedGroupElement) : bool :=
  let a := fe_val (pre_yPlusX E) in
  let b := fe_val (pre_yMinusX E) in
  limbs_ok (pre_yPlusX E) && limbs_ok (pre_yMinusX E) && limbs_ok (pre_xy2d E)
  && is0 (2 * fe_val (pre_xy2d E) - mulm dv (mulm (a - b) (a + b))).

(** [E3] is the sum of [E1] and [E2], by the addition law without its divisions. *)
Definition next_ok (E1 E2 E3 : PreComputedGroupElement) : bool :=
  let a1 := fe_val (pre_yPlusX E1) in
  let b1 := fe_val (pre_yMinusX E1) in
  let a2 := fe_val (pre_yPlusX E2) in
  let b2 := fe_val (pre_yMinusX E2) in
  let a3 := fe_val (pre_yPlusX E3) in
  let b3 := fe_val (pre_yMinusX E3) in
  let g := mulm (fe_val (pre_xy2d E1)) (mulm (a2 - b2) (a2 + b2)) in
  let s := mulm a1 a2 in
  let t := mulm b1 b2 in
  is0 (mulm (a3 - b3) (8 + g) - 8 * (s - t)) && is0 (mulm (a3 + b3) (8 - g) - 8 * (s + t)).

(** Doubling and adding in projective coordinates. *)
Definition dblm (t : Z * Z * Z) : Z * Z * Z :=
  let '(X, Y, W) := t in
  let X2 := mulm X X in
  let Y2 := mulm Y Y in
  let S := mulm (X + Y) (X + Y) in
  let c := Y2 - X2 in
  let t := 2 * mulm W W - c in
  (mulm (S - X2 - Y2) t, mulm (Y2 + X2) c, mulm c t).

Definition addm (dv : Z) (t u : Z * Z * Z) : Z * Z * Z :=
  let '(X1, Y1, W1) := t in
  let '(X2, Y2, W2) := u in
  let A := mulm W1 W2 in
  let A2 := mulm A A in
  let C := mulm X1 X2 in
  let D := mulm Y1 Y2 in
  let E := mulm dv (mulm C D) in
  let N := mulm (X1 + Y1) (X2 + Y2) - C - D in
  (mulm (mulm A N) (A2 - E), mulm (mulm A (C + D)) (A2 + E), mulm (A2 - E) (A2 + E)).

Definition coords (E : PreComputedGroupElement) : Z * Z * Z :=
  let a := fe_val (pre_yPlusX E) in
  let b := fe_val (pre_yMinusX E) in
  (a - b, a + b, 2).

(** The first entry of a row is 32 times the last one of the row before. *)
Definition step_ok (E E' : PreComputedGroupElement) : bool :=
  let '(X, Y, W) := dblm (dblm (dblm (dblm (dblm (coords E))))) in
  let '(X', Y', W') := coords E' in
  is0 (mulm X' W - 2 * X) && is0 (mulm Y' W - 2 * Y).

Fixpoint row_ok (dv : Z) (h prev : PreComputedGroupElement) (row : list PreComputedGroupElement)
    : bool :=
  match row with
  | [] => true
  | E :: row' => entry_ok dv E && next_ok prev h E && row_ok dv h E row'
  end.

Fixpoint rows_ok (dv : Z) (prev : PreComputedGroupElement)
    (rows : list (list PreComputedGroupElement)) : bool :=
  match rows with
  | [] => true
  | (h :: row) :: rows' =>
      (length row =? 7)%nat && entry_ok dv h && step_ok prev h && row_ok dv h h row
      && rows_ok dv (List.last row h) rows'
  | [] :: _ => false
  end.
Definition base_ok (dv : Z) (rows : list (list PreComputedGroupElement)) : bool :=
  match rows with
  | (h :: row) :: rows' =>
      (length row =? 7)%nat && entry_ok dv h && row_ok dv h h row && rows_ok dv (List.last row h) rows'
  | _ => false
  end.

(** The multiple of the base point with the given digits, from the table's rows. *)
Definition signed_coords (row : list PreComputedGroupElement) (e : Z) : Z * Z * Z :=
  let '(X, Y, W) := coords (nth (Z.to_nat (Z.abs e - 1)) row pre_Zero) in
  (if e <? 0 then - X else X, Y, W).

Fixpoint sum_digits (dv : Z) (digits : list Z) (rows : list (list PreComputedGroupElement))
    (acc : Z * Z * Z) : Z * Z * Z :=
  match digits, rows with
  | e :: digits', row :: rows' =>
      sum_digits dv digits' rows' (if e =? 0 then acc else addm dv acc (signed_coords row e))
  | _, _ => acc
  end.

(** The scalar's multiple of the base point is the neutral element. *)
Definition neutral_ok (dv : Z) (a : list Z) : bool :=
  let e := signed_digits (nibbles a) 0 in
  let h := sum_digits dv (every_other (drop 1 e)) base (0, 1, 1) in
  let '(X, Y, W) := sum_digits dv (every_other e) base (dblm (dblm (dblm (dblm h)))) in
  is0 X && is0 (Y - W).

(** The value of digits in a base, and their ranges. *)
Fixpoint digits_val (base : Z) (e : list Z) : Z :=
  match e with
  | [] => 0
  | x :: e' => x + base * digits_val base e'
  end.

Definition nibble (x : Z) : Prop := 0 ≤ x ≤ 15.
Definition digit (x : Z) : Prop := -8 ≤ x ≤ 8.

Definition pre_len (E : PreComputedGroupElement) : Prop :=
  length (pre_yPlusX E) = 10%nat ∧ length (pre_yMinusX E) = 10%nat ∧ length (pre_xy2d E) = 10%nat.

(** A projective triple represents a point. *)
Definition rep (t : Z * Z * Z) (P : Z * Z) : Prop :=
  let '(X, Y, W) := t in ¬ W ≈ 0 ∧ X ≈ P.1 * W ∧ Y ≈ P.2 * W.

(** A row of the table for the point [Q]: the multiples [Q], [2 Q], ..., [8 Q]. *)
Definition row_of (row : list PreComputedGroupElement) (Q : Z * Z) : Prop :=
  length row = 8%nat ∧ ∀ j E, row !! j = Some E → is_pre E (pmul (Z.of_nat j + 1) Q).

(** ** The checks' arithmetic *)

#[local] Opaque Z.pow Z.invmod.

Lemma red_cong x : red x ≈ x.
Proof.
  unfold red. rewrite Z.land_ones, Z.shiftr_div_pow2 by lia.
  rewrite (Z_div_mod_eq_full x (2 ^ 255)) at 3.
  assert (2 ^ 255 ≈ 19) as E by (vm_compute; reflexivity).
  set (q := x / 2 ^ 255). set (r := x mod 2 ^ 255). clearbody q r.
  set (M := 2 ^ 255) in *. clearbody M. apply (cong_lc1 (- q) _ _ _ _ _ E). ring.
Qed.

Lemma mulm_cong a b : mulm a b ≈ a * b.
Proof. unfold mulm. rewrite !red_cong. reflexivity. Qed.

Lemma is0_cong x : is0 x = true → x ≈ 0.
Proof.
  unfold is0. intros H. rewrite <- (red_cong x), <- (red_cong (red x)), <- (red_cong (red (red x))).
  apply orb_true_iff in H as [->%Z.eqb_eq| ->%Z.eqb_eq]; [reflexivity|].
  vm_compute. reflexivity.
Qed.

Lemma half_cong : 2 * half ≈ 1.
Proof. vm_compute. reflexivity. Qed.

Lemma curve_B : curve B_point.
Proof. vm_compute. reflexivity. Qed.

(** The base point is [(x, 4/5)] with [x] even. *)
Lemma B_point_affine : 5 * B_point.2 ≈ 4 ∧ B_point.1 mod 2 = 0.
Proof. split; vm_compute; reflexivity. Qed.

#[local] Opaque p25519 d_val half fe_val.

Lemma mulm_eval a b a' b' : a ≈ a' → b ≈ b' → mulm a b ≈ a' * b'.
Proof. intros Ha Hb. rewrite mulm_cong, Ha, Hb. reflexivity. Qed.

Lemma add_eval a b a' b' : a ≈ a' → b ≈ b' → a + b ≈ a' + b'.
Proof. intros Ha Hb. rewrite Ha, Hb. reflexivity. Qed.

Lemma sub_eval a b a' b' : a ≈ a' → b ≈ b' → a - b ≈ a' - b'.
Proof. intros Ha Hb. rewrite Ha, Hb. reflexivity. Qed.

Lemma mul_eval a b a' b' : a ≈ a' → b ≈ b' → a * b ≈ a' * b'.
Proof. intros Ha Hb. rewrite Ha, Hb. reflexivity. Qed.

(** The value of an expression of the checks, with the hypotheses on its variables. *)
Ltac ceval :=
  lazymatch goal with
  | |- cong _ (mulm _ _) _ => eapply mulm_eval; ceval
  | |- cong _ (_ + _) _ => eapply add_eval; ceval
  | |- cong _ (_ - _) _ => eapply sub_eval; ceval
  | |- cong _ (_ * _) _ => eapply mul_eval; ceval
  | H : cong _ ?x _ |- cong _ ?x _ => exact H
  | |- _ => reflexivity
  end.

Lemma rep_cong X Y W X' Y' W' P : X ≈ X' → Y ≈ Y' → W ≈ W' → rep (X', Y', W') P → rep (X, Y, W) P.
Proof. intros EX EY EW (N & HX & HY). unfold rep. rewrite EX, EY, EW. auto. Qed.

Lemma is0_eval x v : is0 x = true → x ≈ v → v ≈ 0.
Proof. intros H%is0_cong E. rewrite <- E. exact H. Qed.

Lemma point_of_eq E :
  ed_eq p25519 (point_of E)
    ((fe_val (pre_yPlusX E) - fe_val (pre_yMinusX E)) * half,
     (fe_val (pre_yPlusX E) + fe_val (pre_yMinusX E)) * half).
Proof. split; apply cong_mod. Qed.

Lemma point_of_reduced E : reduced_point p25519 (point_of E).
Proof. split; apply Z.mod_pos_bound, p25519_below. Qed.

Lemma entry_ok_spec E :
  entry_ok d_val E = true → is_pre E (point_of E)
  ∧ 2 * fe_val (pre_xy2d E)
    ≈ d_val * ((fe_val (pre_yPlusX E) - fe_val (pre_yMinusX E))
               * (fe_val (pre_yPlusX E) + fe_val (pre_yMinusX E))).
Proof.
  unfold entry_ok. intros [[[L1 L2]%andb_true_iff L3]%andb_true_iff H]%andb_true_iff.
  apply (bool_decide_eq_true_1 _) in L1, L2, L3. eapply is0_eval in H; [|ceval].
  set (a := fe_val (pre_yPlusX E)) in *. set (b := fe_val (pre_yMinusX E)) in *.
  set (c := fe_val (pre_xy2d E)) in *.
  assert (2 * c ≈ d_val * ((a - b) * (a + b))) as Hc by (apply (cong_lc1 1 _ _ _ _ _ H); ring).
  split; [|exact Hc]. destruct (point_of_eq E) as [E1 E2]. fold a b in E1, E2. cbn [fst snd] in E1, E2.
  pose proof half_cong as Hh. split; [|split]; (split; [first [exact L1|exact L2|exact L3]|rewrite E1, E2]).
  - apply (cong_lc1 (- a) _ _ _ _ _ Hh). fold a. ring.
  - apply (cong_lc1 (- b) _ _ _ _ _ Hh). fold b. ring.
  - fold c. apply (cong_lc2 (2 * half * half) (- c * (2 * half + 1)) _ _ _ _ _ _ _ Hc Hh). ring.
Qed.

Lemma next_ok_spec E1 E2 E3 :
  entry_ok d_val E1 = true → curve (point_of E1) → curve (point_of E2) → next_ok E1 E2 E3 = true →
  point_of E3 = padd (point_of E1) (point_of E2).
Proof.
  intros [_ Hc]%entry_ok_spec C1 C2 [H1 H2]%andb_true_iff.
  eapply is0_eval in H1, H2; [|ceval|ceval].
  apply (reduced_eq (p := p25519)); [apply point_of_reduced|apply ed_add_reduced|]. symmetry.
  rewrite (ed_add_cong _ _ _ _ (point_of_eq E1) (point_of_eq E2)).
  rewrite (point_of_eq E3). apply (on_curve_cong _ _ (point_of_eq E1)) in C1.
  apply (on_curve_cong _ _ (point_of_eq E2)) in C2.
  set (a1 := fe_val (pre_yPlusX E1)) in *. set (b1 := fe_val (pre_yMinusX E1)) in *.
  set (a2 := fe_val (pre_yPlusX E2)) in *. set (b2 := fe_val (pre_yMinusX E2)) in *.
  set (a3 := fe_val (pre_yPlusX E3)) in *. set (b3 := fe_val (pre_yMinusX E3)) in *.
  set (c := fe_val (pre_xy2d E1)) in *. pose proof half_cong as Hh.
  set (h := half) in *. set (g := (a2 - b2) * (a2 + b2)) in *.
  apply ed_add_unique; [exact C1|exact C2|..].
  - apply (cong_lc3 (h ^ 4) (- ((a3 - b3) * h ^ 5 * g))
             (- ((a3 - b3) * h * (4 * h ^ 2 + 2 * h + 1)) + (a3 - b3) * c * g * h ^ 4
              + 2 * h ^ 2 * (a1 * a2 - b1 * b2) * (2 * h + 1)) _ _ _ _ _ _ _ _ _ H1 Hc Hh).
    subst g. ring.
  - apply (cong_lc3 (h ^ 4) ((a3 + b3) * h ^ 5 * g)
             (- ((a3 + b3) * h * (4 * h ^ 2 + 2 * h + 1)) - (a3 + b3) * c * g * h ^ 4
              + 2 * h ^ 2 * (a1 * a2 + b1 * b2) * (2 * h + 1)) _ _ _ _ _ _ _ _ _ H2 Hc Hh).
    subst g. ring.
Qed.

(** ** Projective arithmetic *)

Lemma coords_rep E : rep (coords E) (point_of E).
Proof.
  destruct (point_of_eq E) as [E1 E2]. cbn [fst snd] in E1, E2. pose proof half_cong as Hh.
  unfold coords, rep. split; [exact two_nonzero|]. rewrite E1, E2.
  set (a := fe_val (pre_yPlusX E)) in *. set (b := fe_val (pre_yMinusX E)) in *.
  split; [apply (cong_lc1 (- (a - b)) _ _ _ _ _ Hh)|apply (cong_lc1 (- (a + b)) _ _ _ _ _ Hh)]; ring.
Qed.

Lemma dblm_spec t P : curve P → rep t P → rep (dblm t) (padd P P).
Proof.
  destruct P as [x y], t as [[X Y] W]. intros C (N & HX & HY).
  destruct (denominators _ _ _ _ C C) as [D1 D2].
  destruct (ed_add_quotients _ _ _ _ C C) as [E1 E2]. cbv zeta in *.
  destruct (padd (x, y) (x, y)) as [x3 y3]. unfold dblm. cbn [fst snd] in *.
  unfold on_curve in C. set (e := d_val * (x * x * y * y)) in *.
  assert (y * W * (y * W) - x * W * (x * W) ≈ W * W * (1 + e)) as Hc.
  { apply (cong_lc1 (W * W) _ _ _ _ _ C). subst e. ring. }
  eapply rep_cong; [ceval..|].
  apply (rep_cong _ _ _ (2 * (x * y) * (W * W) * (W * W * (1 - e)))
           ((y * y + x * x) * (W * W) * (W * W * (1 + e))) (W * W * (1 + e) * (W * W * (1 - e)))).
  - apply (cong_lc1 (- (2 * (x * y) * (W * W))) _ _ _ _ _ Hc). ring.
  - apply (cong_lc1 ((y * y + x * x) * (W * W)) _ _ _ _ _ Hc). ring.
  - set (c := y * W * (y * W) - x * W * (x * W)) in *.
    apply (cong_lc1 (2 * (W * W) - c - W * W * (1 + e)) _ _ _ _ _ Hc). ring.
  - split; [|split]; cbn [fst snd].
    + nonzero.
    + apply (cong_lc1 (- (W * W * (W * W) * (1 - e))) _ _ _ _ _ E1). ring.
    + apply (cong_lc1 (- (W * W * (W * W) * (1 + e))) _ _ _ _ _ E2). ring.
Qed.

Lemma addm_spec t u P Q : curve P → curve Q → rep t P → rep u Q → rep (addm d_val t u) (padd P Q).
Proof.
  destruct P as [x1 y1], Q as [x2 y2], t as [[X1 Y1] W1], u as [[X2 Y2] W2].
  intros C1 C2 (N1 & HX1 & HY1) (N2 & HX2 & HY2).
  destruct (denominators _ _ _ _ C1 C2) as [D1 D2].
  destruct (ed_add_quotients _ _ _ _ C1 C2) as [E1 E2]. cbv zeta in *.
  destruct (padd (x1, y1) (x2, y2)) as [x3 y3]. unfold addm. cbn [fst snd] in *.
  eapply rep_cong; [ceval..|]. set (e := d_val * (x1 * x2 * y1 * y2)) in *.
  assert (¬ W1 * W2 ≈ 0) as NA by nonzero. set (A := W1 * W2) in *.
  match goal with |- rep (_ * (_ - ?a), _, _) _ => replace a with (A * A * e) by (subst A e; ring) end.
  split; [|split]; cbn [fst snd].
  - replace (A * A - A * A * e) with (A * A * (1 - e)) by ring.
    replace (A * A + A * A * e) with (A * A * (1 + e)) by ring.
    nonzero.
  - apply (cong_lc1 (- (A * A * (1 - e) * (A * A))) _ _ _ _ _ E1). subst A. ring.
  - apply (cong_lc1 (- (A * A * (1 + e) * (A * A))) _ _ _ _ _ E2). subst A. ring.
Qed.

(** ** The table *)

Lemma rep_unique t P Q : rep t P → rep t Q → ed_eq p25519 P Q.
Proof.
  destruct t as [[X Y] W]. intros (N & HX & HY) (_ & HX' & HY').
  split; apply (cong_cancel _ prime_p25519 _ _ W N); [rewrite <- HX; exact HX'|rewrite <- HY; exact HY'].
Qed.

(** 32 times a point, by five doublings. *)
Lemma dblm5_spec t P :
  curve P → rep t P → rep (dblm (dblm (dblm (dblm (dblm t))))) (pmul 32 P).
Proof.
  intros C R. assert (∀ n u, rep u (pmul n P) → rep (dblm u) (pmul (n + n) P)) as D.
  { intros n u Hu. rewrite (ed_mul_add n n P C). apply dblm_spec; [apply on_curve_mul, C|exact Hu]. }
  assert (rep t (pmul 1 P)) as R1.
  { destruct t as [[X Y] W], R as (N & HX & HY). destruct (ed_mul_1 P C) as [E1 E2].
    split; [exact N|]. rewrite E1, E2. auto. }
  apply (D 16), (D 8), (D 4), (D 2), (D 1), R1.
Qed.

Lemma step_ok_rep E E' P :
  rep (dblm (dblm (dblm (dblm (dblm (coords E)))))) P → step_ok E E' = true →
  ed_eq p25519 (point_of E') P.
Proof.
  unfold step_ok. destruct (dblm _) as [[X Y] W]. intros (N & HX & HY) [H1 H2]%andb_true_iff.
  eapply is0_eval in H1, H2; [|ceval|ceval].
  rewrite (point_of_eq E'). set (a := fe_val (pre_yPlusX E')) in *. set (b := fe_val (pre_yMinusX E')) in *.
  pose proof half_cong as Hh. set (h := half) in *.
  split; cbn [fst snd]; apply (cong_cancel _ prime_p25519 _ _ W N).
  - apply (cong_lc2 h (W * P.1) _ _ _ _ _ _ _ H1 Hh). ring.
  - apply (cong_lc2 h (W * P.2) _ _ _ _ _ _ _ H2 Hh). ring.
Qed.

Lemma step_ok_spec E E' :
  curve (point_of E) → step_ok E E' = true → point_of E' = pmul 32 (point_of E).
Proof.
  intros C H. apply (reduced_eq (p := p25519)); [apply point_of_reduced|apply ed_mul_reduced|].
  exact (step_ok_rep E E' _ (dblm5_spec _ _ C (coords_rep E)) H).
Qed.

Lemma last_default {A} (x d : A) l : List.last (x :: l) d = List.last l x.
Proof.
  revert x d. induction l as [|y l IH]; intros x d; [done|].
  rewrite (IH y x). exact (IH y d).
Qed.

Lemma row_ok_spec h row prev k :
  entry_ok d_val h = true → curve (point_of h) → entry_ok d_val prev = true →
  point_of prev = pmul k (point_of h) → row_ok d_val h prev row = true →
  (∀ j E, row !! j = Some E → is_pre E (pmul (k + 1 + Z.of_nat j) (point_of h)))
  ∧ point_of (List.last row prev) = pmul (k + Z.of_nat (length row)) (point_of h).
Proof.
  intros Hh C. revert prev k. induction row as [|E row IH]; intros prev k Hprev Hp H.
  - split; [done|]. cbn [List.last length]. rewrite Z.add_0_r. exact Hp.
  - cbn [row_ok] in H. apply andb_true_iff in H as [[HE Hn]%andb_true_iff H].
    assert (point_of E = pmul (k + 1) (point_of h)) as PE.
    { rewrite (next_ok_spec prev h E Hprev); [|rewrite Hp; apply on_curve_mul, C|exact C|exact Hn].
      rewrite Hp, ed_add_comm, <- ed_mul_succ by exact C. reflexivity. }
    destruct (IH E (k + 1) HE PE H) as [IH1 IH2]. split.
    + intros [|j] E0; cbn [lookup].
      * intros [= <-]. rewrite Z.add_0_r, <- PE. apply entry_ok_spec, HE.
      * intros Hj. replace (k + 1 + Z.of_nat (S j)) with (k + 1 + 1 + Z.of_nat j) by lia. apply IH1, Hj.
    + replace (k + Z.of_nat (length (E :: row))) with (k + 1 + Z.of_nat (length row)) by (cbn [length]; lia).
      rewrite <- IH2, last_default. reflexivity.
Qed.

Lemma point_of_mul1 E : curve (point_of E) → point_of E = pmul 1 (point_of E).
Proof.
  intros C. apply (reduced_eq (p := p25519)); [apply point_of_reduced|apply ed_mul_reduced|].
  symmetry. apply ed_mul_1, C.
Qed.

(** A whole row, and its last entry. *)
Lemma full_row_spec h row :
  length row = 7%nat → entry_ok d_val h = true → curve (point_of h) → row_ok d_val h h row = true →
  row_of (h :: row) (point_of h) ∧ point_of (List.last row h) = pmul 8 (point_of h).
Proof.
  intros Hl Hh C H. destruct (row_ok_spec h row h 1 Hh C Hh (point_of_mul1 h C) H) as [H1 H2].
  rewrite Hl in H2. split; [|exact H2]. split; [cbn [length]; lia|].
  intros [|j] E; cbn [lookup].
  - intros [= <-]. change (Z.of_nat 0 + 1) with 1. rewrite <- (point_of_mul1 h C). apply entry_ok_spec, Hh.
  - intros Hj. replace (Z.of_nat (S j) + 1) with (1 + 1 + Z.of_nat j) by lia. apply H1, Hj.
Qed.

Lemma rows_ok_spec rows prev R :
  curve R → point_of prev = pmul 8 R → rows_ok d_val prev rows = true →
  ∀ i row, rows !! i = Some row → row_of row (pmul (256 ^ (Z.of_nat i + 1)) R).
Proof.
  revert prev R. induction rows as [|[|h row] rows IH]; intros prev R C Hp H; [done|discriminate H|].
  cbn [rows_ok] in H.
  apply andb_true_iff in H as [[[[Hl Hh]%andb_true_iff Hs]%andb_true_iff Hr]%andb_true_iff H].
  apply Nat.eqb_eq in Hl. assert (curve (point_of prev)) as Cp by (rewrite Hp; apply on_curve_mul, C).
  assert (point_of h = pmul 256 R) as PH.
  { rewrite (step_ok_spec prev h Cp Hs), Hp, <- ed_mul_mul by exact C. reflexivity. }
  assert (curve (point_of h)) as Ch by (rewrite PH; apply on_curve_mul, C).
  destruct (full_row_spec h row Hl Hh Ch Hr) as [R1 R2].
  intros [|i] row'; cbn [lookup].
  - intros [= <-]. change (256 ^ (Z.of_nat 0 + 1)) with 256. rewrite <- PH. exact R1.
  - intros Hi. pose proof (IH _ (point_of h) Ch R2 H i row' Hi) as HR. rewrite PH in HR.
    rewrite <- ed_mul_mul in HR by exact C.
    replace (256 ^ (Z.of_nat (S i) + 1)) with (256 ^ (Z.of_nat i + 1) * 256); [exact HR|].
    rewrite Nat2Z.inj_succ, Z.add_succ_l, (Z.pow_succ_r _ (Z.of_nat i + 1)) by lia. ring.
Qed.

Lemma base_ok_true : base_ok d_val base = true.
Proof. vm_compute. reflexivity. Qed.

Lemma base_rows i row : base !! i = Some row → row_of row (pmul (256 ^ Z.of_nat i) B_point).
Proof.
  pose proof base_ok_true as H. pose proof curve_B as C. unfold B_point, base_entry in *.
  destruct base as [|[|h row0] rows]; [discriminate H..|]. cbn [nth] in *.
  unfold base_ok in H. apply andb_true_iff in H as [[[Hl Hh]%andb_true_iff Hr]%andb_true_iff H].
  apply Nat.eqb_eq in Hl. destruct (full_row_spec h row0 Hl Hh C Hr) as [R1 R2].
  destruct i as [|i]; cbn [lookup].
  - intros [= <-]. change (256 ^ Z.of_nat 0) with 1. rewrite <- (point_of_mul1 h C). exact R1.
  - intros Hi. rewrite Nat2Z.inj_succ, <- Z.add_1_r. exact (rows_ok_spec rows _ _ C R2 H i row Hi).
Qed.

(** ** Selecting a multiple *)

Lemma is_pre_len E P : is_pre E P → pre_len E.
Proof.
  intros ([L1 _] & [L2 _] & [L3 _]). unfold pre_len.
  rewrite (limbs_in_length _ _ L1), (limbs_in_length _ _ L2), (limbs_in_length _ _ L3). done.
Qed.

Lemma CMove_spec t u b :
  pre_len t → pre_len u → b = 0 ∨ b = 1 →
  PreComputedGroupElementCMove t u b = if b =? 1 then u else t.
Proof.
  intros (T1 & T2 & T3) (U1 & U2 & U3) Hb. unfold PreComputedGroupElementCMove.
  rewrite (FeCMove_spec (pre_yPlusX t) (pre_yPlusX u)), (FeCMove_spec (pre_yMinusX t) (pre_yMinusX u)),
    (FeCMove_spec (pre_xy2d t) (pre_xy2d u)) by congruence.
  destruct Hb as [-> | ->]; cbn [Z.eqb Pos.eqb]; [destruct t|destruct u]; reflexivity.
Qed.

Lemma equal_small b c : 0 ≤ b ≤ 8 → 0 ≤ c ≤ 8 → equal b c = if b =? c then 1 else 0.
Proof.
  intros Hb Hc.
  assert (Forall (λ b, Forall (λ c, equal b c = if b =? c then 1 else 0) (seqZ 0 9)) (seqZ 0 9)) as F.
  { apply (bool_decide_unpack _). vm_compute. exact I. }
  rewrite list.Forall_forall in F. specialize (F b ltac:(apply elem_of_seqZ; lia)).
  rewrite list.Forall_forall in F. exact (F c ltac:(apply elem_of_seqZ; lia)).
Qed.

Lemma select_abs b :
  -8 ≤ b ≤ 8 → negative b = (if b <? 0 then 1 else 0)
  ∧ i32 (b - i32 (Z.shiftl (Z.land (i32 (- negative b)) b) 1)) = Z.abs b.
Proof.
  intros Hb.
  assert (Forall (λ b, negative b = (if b <? 0 then 1 else 0)
    ∧ i32 (b - i32 (Z.shiftl (Z.land (i32 (- negative b)) b) 1)) = Z.abs b) (seqZ (-8) 17)) as F.
  { apply (bool_decide_unpack _). vm_compute. exact I. }
  rewrite list.Forall_forall in F. apply F, elem_of_seqZ. lia.
Qed.

Lemma select_from_spec (G : PreComputedGroupElement → Prop) row i m t :
  Forall pre_len row → pre_len t → 0 ≤ i → i + Z.of_nat (length row) ≤ 8 → 0 ≤ m ≤ 8 →
  (∀ j E, row !! j = Some E → m = i + 1 + Z.of_nat j → G E) →
  i < m ≤ i + Z.of_nat (length row) ∨ G t → G (select_from row i m t) ∧ pre_len (select_from row i m t).
Proof.
  intros HL. revert i t. induction HL as [|u row Hu HL IH]; intros i t Ht Hi Hlen Hm HG Hd.
  - cbn [select_from]. split; [|done]. destruct Hd as [Hd|Hd]; [cbn in Hd; lia|done].
  - cbn [select_from length] in *. rewrite Nat2Z.inj_succ in *.
    rewrite equal_small, CMove_spec by (first [lia|done|destruct (m =? i + 1); auto]).
    assert (pre_len (if (if m =? i + 1 then 1 else 0) =? 1 then u else t)) as Hn
      by (by destruct (m =? i + 1)).
    apply IH; [exact Hn|lia|lia|lia|..].
    + intros j E Hj ->. apply (HG (S j) E Hj). lia.
    + destruct (Z.eqb_spec m (i + 1)) as [->|]; cbn.
      * right. apply (HG O u); [done|]. cbn. lia.
      * destruct Hd as [Hd|Hd]; [left; lia|by right].
Qed.

Lemma selectPoint_spec row Q b :
  row_of row Q → curve Q → -8 ≤ b ≤ 8 → is_pre (selectPoint row b) (pmul b Q).
Proof.
  intros [Hl HR] C Hb. destruct (select_abs b Hb) as [En Ea].
  destruct (select_from_spec (λ E, is_pre E (pmul (Z.abs b) Q)) row 0 (Z.abs b) pre_Zero) as [Ht Hlen];
    [..|unfold selectPoint; cbv zeta; rewrite Ea, En].
  - apply Forall_lookup. intros j E Hj. eapply is_pre_len, HR, Hj.
  - eapply is_pre_len, pre_Zero_spec.
  - lia.
  - rewrite Hl. lia.
  - lia.
  - intros j E Hj Hm. replace (Z.abs b) with (Z.of_nat j + 1) by lia. apply HR, Hj.
  - destruct (decide (b = 0)) as [->|]; [right; exact pre_Zero_spec|left; rewrite Hl; lia].
  - set (t := select_from row 0 (Z.abs b) pre_Zero) in *. clearbody t.
    set (minusT := mkPre (pre_yMinusX t) (pre_yPlusX t) (FeNeg (pre_xy2d t))).
    assert (is_pre minusT (pneg (pmul (Z.abs b) Q))) as Hm.
    { destruct Ht as (H1 & H2 & H3). destruct (ed_neg_eq (p := p25519) (pmul (Z.abs b) Q)) as [E1 E2].
      unfold is_pre, minusT. cbn [pre_yPlusX pre_yMinusX pre_xy2d fst snd] in *.
      split; [|split]; fe_goal; rewrite E1, E2; by_ring. }
    rewrite CMove_spec; [|exact Hlen|eapply is_pre_len, Hm|destruct (b <? 0); auto].
    destruct (Z.ltb_spec b 0); cbn [Z.eqb Pos.eqb].
    + rewrite <- ed_mul_opp in Hm by exact C. replace b with (- Z.abs b) by lia. exact Hm.
    + rewrite Z.abs_eq in Ht by lia. exact Ht.
Qed.

(** ** The digits of a scalar *)

Lemma i8_small x : -128 ≤ x < 128 → i8 x = x.
Proof. intros H. apply sint_small; [lia|]. unfold in_sint. change (2 ^ (8 - 1)) with 128. lia. Qed.

Lemma signed_digits_spec e c x :
  Forall nibble e → 0 ≤ x ≤ 7 → 0 ≤ c ≤ 1 →
  Forall digit (signed_digits (e ++ [x]) c)
  ∧ digits_val 16 (signed_digits (e ++ [x]) c) = digits_val 16 (e ++ [x]) + c
  ∧ length (signed_digits (e ++ [x]) c) = S (length e).
Proof.
  intros He Hx. revert c. induction He as [|y e Hy He IH]; intros c Hc.
  - cbn [app signed_digits digits_val length]. rewrite i8_small by lia.
    split; [constructor; [unfold digit; lia|constructor]|]. split; [lia|done].
  - assert (signed_digits ((y :: e) ++ [x]) c =
      let z := i8 (y + c) in let k := Z.shiftr (i8 (z + 8)) 4 in
      i8 (z - i8 (Z.shiftl k 4)) :: signed_digits (e ++ [x]) k) as -> by (destruct e; reflexivity).
    unfold nibble in Hy. cbv zeta. rewrite (i8_small (y + c)), (i8_small (y + c + 8)) by lia.
    rewrite Z.shiftr_div_pow2 by lia. change (2 ^ 4) with 16.
    set (k := (y + c + 8) / 16). assert (0 ≤ k ≤ 1 ∧ 16 * k ≤ y + c + 8 < 16 * k + 16) as (Hk & Hy1 & Hy2).
    { subst k. pose proof (Z.div_mod (y + c + 8) 16 ltac:(lia)).
      pose proof (Z.mod_pos_bound (y + c + 8) 16 ltac:(lia)).
      pose proof (Z.div_pos (y + c + 8) 16). pose proof (Z.div_lt_upper_bound (y + c + 8) 16 2). lia. }
    rewrite Z.shiftl_mul_pow2 by lia. change (2 ^ 4) with 16.
    rewrite (i8_small (k * 16)), (i8_small (y + c - k * 16)) by lia.
    destruct (IH k Hk) as (IH1 & IH2 & IH3). split; [|split].
    + constructor; [unfold digit; lia|exact IH1].
    + cbn [digits_val app]. rewrite IH2. lia.
    + cbn [length]. by rewrite IH3.
Qed.

Lemma nibbles_spec a :
  Forall byte_ok a → Forall nibble (nibbles a) ∧ digits_val 16 (nibbles a) = le_val a
  ∧ length (nibbles a) = (2 * length a)%nat.
Proof.
  induction 1 as [|v a Hv Ha (IH1 & IH2 & IH3)]; [by repeat split; constructor|].
  change (nibbles (v :: a)) with (i8 (Z.land v 15) :: i8 (Z.land (Z.shiftr v 4) 15) :: nibbles a).
  unfold byte_ok in Hv.
  assert (i8 (Z.land v 15) = v mod 16 ∧ i8 (Z.land (Z.shiftr v 4) 15) = v / 16) as [-> ->].
  { change 15 with (Z.ones 4). rewrite !Z.land_ones, Z.shiftr_div_pow2 by lia. change (2 ^ 4) with 16.
    pose proof (Z.mod_pos_bound v 16 ltac:(lia)). pose proof (Z.div_pos v 16).
    pose proof (Z.div_lt_upper_bound v 16 16). rewrite (Z.mod_small (v / 16)) by lia.
    rewrite !i8_small by lia. done. }
  pose proof (Z.mod_pos_bound v 16 ltac:(lia)). pose proof (Z.div_mod v 16 ltac:(lia)).
  pose proof (Z.div_pos v 16). pose proof (Z.div_lt_upper_bound v 16 16).
  split; [|split].
  - constructor; [unfold nibble; lia|]. constructor; [unfold nibble; lia|exact IH1].
  - cbn [digits_val app le_val]. rewrite IH2. lia.
  - cbn [length app]. rewrite IH3. lia.
Qed.

(** Even and odd positions. *)
Lemma every_other_spec n e :
  length e = (2 * n)%nat →
  length (every_other e) = n ∧ length (every_other (drop 1 e)) = n
  ∧ digits_val 16 e = digits_val 256 (every_other e) + 16 * digits_val 256 (every_other (drop 1 e))
  ∧ (Forall digit e → Forall digit (every_other e) ∧ Forall digit (every_other (drop 1 e))).
Proof.
  revert e. induction n as [|n IH]; intros [|x [|y e]] Hl; try (cbn in Hl; lia).
  - by repeat split.
  - assert (length e = (2 * n)%nat) as Hl' by (cbn in Hl; lia).
    destruct (IH e Hl') as (L1 & L2 & V & F).
    assert (every_other (drop 1 (x :: y :: e)) = y :: every_other (drop 1 e)) as ->.
    { cbn [drop]. destruct e as [|z e]; [reflexivity|]. cbn [drop]. destruct e; reflexivity. }
    cbn [every_other length digits_val]. rewrite L1, L2, V. split; [done|]. split; [done|]. split; [lia|].
    intros [Hx [Hy He]%list.Forall_cons]%list.Forall_cons. destruct (F He). by split; constructor.
Qed.

(** ** Fixed-base multiplication *)

Lemma add_digits_spec digits rows i n h :
  length digits = length rows → Forall digit digits →
  (∀ k row, rows !! k = Some row → row_of row (pmul (256 ^ (i + Z.of_nat k)) B_point)) → 0 ≤ i →
  is_ext h (pmul n B_point) →
  is_ext (add_digits digits rows h) (pmul (n + 256 ^ i * digits_val 256 digits) B_point).
Proof.
  intros Hl Hd. revert rows i n h Hl. induction Hd as [|e digits He Hd IH]; intros [|row rows] i n h Hl HR Hi Hh;
    try discriminate Hl.
  - cbn [add_digits digits_val]. rewrite Z.mul_0_r, Z.add_0_r. exact Hh.
  - cbn [add_digits digits_val]. injection Hl as Hl.
    replace (n + 256 ^ i * (e + 256 * digits_val 256 digits))
      with (n + e * 256 ^ i + 256 ^ (i + 1) * digits_val 256 digits)
      by (rewrite Z.add_1_r, Z.pow_succ_r by lia; ring).
    apply IH; [exact Hl| |lia|].
    + intros k row' Hk. replace (i + 1 + Z.of_nat k) with (i + Z.of_nat (S k)) by lia. apply (HR (S k)), Hk.
    + pose proof (HR O row eq_refl) as HQ. rewrite Z.add_0_r in HQ.
      pose proof curve_B as CB. rewrite ed_mul_add, ed_mul_mul by exact CB.
      apply comp_ToExtended_spec, GeMixedAdd_spec;
        [apply on_curve_mul, CB|apply on_curve_mul, on_curve_mul, CB|exact Hh|].
      apply selectPoint_spec; [exact HQ|apply on_curve_mul, CB|exact He].
Qed.

(** A scalar of 32 bytes below [2^255], by its digits. *)
Lemma scalar_digits a :
  Forall byte_ok a → length a = 32%nat → le_val a < 2 ^ 255 →
  let e := signed_digits (nibbles a) 0 in
  Forall digit (every_other e) ∧ Forall digit (every_other (drop 1 e))
  ∧ length (every_other e) = 32%nat ∧ length (every_other (drop 1 e)) = 32%nat
  ∧ le_val a = digits_val 256 (every_other e) + 16 * digits_val 256 (every_other (drop 1 e)).
Proof.
  intros Ha Hl Hv e. destruct (nibbles_spec a Ha) as (N1 & N2 & N3).
  destruct (exists_last (l := nibbles a)) as (f & x & Ef).
  { intros E. rewrite E in N3. cbn in N3. lia. }
  rewrite Ef in N1, N2, N3. apply Forall_app in N1 as [Nf [Nx _]%list.Forall_cons]. unfold nibble in Nx.
  assert (length f = 63%nat) as Lf by (rewrite length_app in N3; cbn [length] in N3; lia).
  assert (∀ g, Forall nibble g → 0 ≤ digits_val 16 g) as Hpos.
  { induction 1 as [|y g Hy _ IH]; cbn [digits_val]; unfold nibble in *; lia. }
  assert (∀ g y, digits_val 16 (g ++ [y]) = digits_val 16 g + 16 ^ Z.of_nat (length g) * y) as Hsnoc.
  { induction g as [|z g IH]; intros y; [cbn; change (16 ^ Z.of_nat 0) with 1; lia|].
    cbn [app digits_val length]. rewrite IH, Nat2Z.inj_succ, Z.pow_succ_r by lia. ring. }
  assert (x ≤ 7) as Hx.
  { rewrite Hsnoc, Lf in N2. pose proof (Hpos f Nf). change (2 ^ 255) with (8 * 16 ^ Z.of_nat 63) in Hv.
    assert (0 < 16 ^ Z.of_nat 63) as Hp by reflexivity.
    set (M := 16 ^ Z.of_nat 63) in *. clearbody M. nia. }
  destruct (signed_digits_spec f 0 x Nf ltac:(lia) ltac:(lia)) as (D1 & D2 & D3).
  rewrite <- Ef in D1, D2, D3. fold e in D1, D2, D3. rewrite Lf in D3.
  destruct (every_other_spec 32 e ltac:(lia)) as (L1 & L2 & V & F). destruct (F D1) as [F1 F2].
  split; [exact F1|]. split; [exact F2|]. split; [exact L1|]. split; [exact L2|].
  rewrite <- V, D2, Ef, N2. lia.
Qed.

Lemma ext_mul0 : is_ext ext_Zero (pmul 0 B_point).
Proof. rewrite ed_mul_0. exact ext_Zero_spec. Qed.

Lemma base_rows_from k row : base !! k = Some row → row_of row (pmul (256 ^ (0 + Z.of_nat k)) B_point).
Proof. rewrite Z.add_0_l. apply base_rows. Qed.

Lemma GeScalarMultBase_spec a :
  Forall byte_ok a → length a = 32%nat → le_val a < 2 ^ 255 →
  is_ext (GeScalarMultBase a) (pmul (le_val a) B_point).
Proof.
  intros Ha Hl Hv. destruct (scalar_digits a Ha Hl Hv) as (F1 & F2 & L1 & L2 & V).
  unfold GeScalarMultBase. cbv zeta.
  set (e := signed_digits (nibbles a) 0) in *. pose proof curve_B as CB.
  pose proof (add_digits_spec _ base 0 0 ext_Zero L2 F2 base_rows_from ltac:(lia) ext_mul0) as H1.
  set (h := add_digits (every_other (drop 1 e)) base ext_Zero) in *. clearbody h.
  set (o := digits_val 256 (every_other (drop 1 e))) in *.
  change (256 ^ 0) with 1 in H1. rewrite Z.add_0_l, Z.mul_1_l in H1.
  assert (∀ m s, is_comp s (pmul m B_point) →
            is_comp (proj_Double (comp_ToProjective s)) (pmul (m + m) B_point)) as D.
  { intros m s Hs. rewrite ed_mul_add by exact CB.
    apply proj_Double_spec; [apply on_curve_mul, CB|]. apply comp_ToProjective_spec, Hs. }
  assert (is_comp (ext_Double h) (pmul (o + o) B_point)) as H2.
  { rewrite ed_mul_add by exact CB. apply ext_Double_spec; [apply on_curve_mul, CB|exact H1]. }
  pose proof (comp_ToExtended_spec _ _ (D _ _ (D _ _ (D _ _ H2)))) as H3.
  pose proof (add_digits_spec _ base 0 _ _ L1 F1 base_rows_from ltac:(lia) H3) as H4.
  change (256 ^ 0) with 1 in H4. rewrite V. clear - H4. clearbody o.
  set (ev := digits_val 256 (every_other e)) in *.
  replace (o + o + (o + o) + (o + o + (o + o)) + (o + o + (o + o) + (o + o + (o + o))) + 1 * ev)
    with (ev + 16 * o) in H4 by ring. exact H4.
Qed.

(** ** The order of the base point *)

Lemma pre_rep E P : is_pre E P → rep (coords E) P.
Proof.
  intros ([_ H1] & [_ H2] & _). unfold coords, rep. split; [exact two_nonzero|].
  split; [apply (cong_lc2 1 (- 1) _ _ _ _ _ _ _ H1 H2)|apply (cong_lc2 1 1 _ _ _ _ _ _ _ H1 H2)]; ring.
Qed.

Lemma signed_coords_spec row Q e :
  row_of row Q → curve Q → digit e → e ≠ 0 → rep (signed_coords row e) (pmul e Q).
Proof.
  intros [Hl HR] C He Hz. unfold digit in He. unfold signed_coords.
  destruct (nth_lookup_or_length row (Z.to_nat (Z.abs e - 1)) pre_Zero) as [Hj|]; [|lia].
  pose proof (pre_rep _ _ (HR _ _ Hj)) as H.
  replace (Z.of_nat (Z.to_nat (Z.abs e - 1)) + 1) with (Z.abs e) in H by lia.
  destruct (coords _) as [[X Y] W]. destruct (Z.ltb_spec e 0).
  - destruct H as (N & HX & HY). replace e with (- Z.abs e) by lia. rewrite ed_mul_opp by exact C.
    destruct (ed_neg_eq (p := p25519) (pmul (Z.abs e) Q)) as [E1 E2]. cbn [fst snd] in E1, E2.
    split; [exact N|]. rewrite E1, E2. split; [rewrite HX; by_ring|exact HY].
  - rewrite Z.abs_eq in H by lia. exact H.
Qed.

Lemma sum_digits_spec digits rows i n h :
  length digits = length rows → Forall digit digits →
  (∀ k row, rows !! k = Some row → row_of row (pmul (256 ^ (i + Z.of_nat k)) B_point)) → 0 ≤ i →
  rep h (pmul n B_point) →
  rep (sum_digits d_val digits rows h) (pmul (n + 256 ^ i * digits_val 256 digits) B_point).
Proof.
  intros Hl Hd. revert rows i n h Hl. induction Hd as [|e digits He Hd IH]; intros [|row rows] i n h Hl HR Hi Hh;
    try discriminate Hl.
  - cbn [sum_digits digits_val]. rewrite Z.mul_0_r, Z.add_0_r. exact Hh.
  - cbn [sum_digits digits_val]. injection Hl as Hl.
    replace (n + 256 ^ i * (e + 256 * digits_val 256 digits))
      with (n + e * 256 ^ i + 256 ^ (i + 1) * digits_val 256 digits)
      by (rewrite Z.add_1_r, Z.pow_succ_r by lia; ring).
    apply IH; [exact Hl| |lia|].
    + intros k row' Hk. replace (i + 1 + Z.of_nat k) with (i + Z.of_nat (S k)) by lia. apply (HR (S k)), Hk.
    + destruct (Z.eqb_spec e 0) as [->|Hz]; [rewrite Z.mul_0_l, Z.add_0_r; exact Hh|].
      pose proof (HR O row eq_refl) as HQ. rewrite Z.add_0_r in HQ. pose proof curve_B as CB.
      rewrite ed_mul_add, ed_mul_mul by exact CB.
      apply addm_spec; [apply on_curve_mul, CB|apply on_curve_mul, on_curve_mul, CB|exact Hh|].
      apply signed_coords_spec; [exact HQ|apply on_curve_mul, CB|exact He|exact Hz].
Qed.

Lemma order_neutral : neutral_ok d_val (le_bytes 32 orderL) = true.
Proof. vm_compute. reflexivity. Qed.

Lemma rep_zero : rep (0, 1, 1) (pmul 0 B_point).
Proof.
  rewrite ed_mul_0. split; [apply (one_nonzero _ prime_p25519)|]. cbn [ed_zero fst snd].
  split; by_ring.
Qed.

Lemma rep_neutral X Y W P : rep (X, Y, W) P → is0 X && is0 (Y - W) = true → ed_eq p25519 P ed_zero.
Proof.
  intros (N & HX & HY) [H1%is0_cong H2%is0_cong]%andb_true_iff.
  split; apply (cong_cancel _ prime_p25519 _ _ W N); cbn [ed_zero fst snd].
  - rewrite <- HX, H1. by_ring.
  - rewrite <- HY. apply (cong_lc1 1 _ _ _ _ _ H2). ring.
Qed.

Lemma neutral_ok_spec a :
  Forall byte_ok a → length a = 32%nat → le_val a < 2 ^ 255 → neutral_ok d_val a = true →
  pmul (le_val a) B_point = ed_zero.
Proof.
  intros Ha Hl Hv. destruct (scalar_digits a Ha Hl Hv) as (F1 & F2 & L1 & L2 & V).
  unfold neutral_ok. cbv zeta. set (e := signed_digits _ 0) in *. pose proof curve_B as CB.
  pose proof (sum_digits_spec _ base 0 0 _ L2 F2 base_rows_from ltac:(lia) rep_zero) as H1.
  set (h := sum_digits d_val (every_other (drop 1 e)) base (0, 1, 1)) in *. clearbody h.
  set (o := digits_val 256 (every_other (drop 1 e))) in *.
  change (256 ^ 0) with 1 in H1. rewrite Z.add_0_l, Z.mul_1_l in H1.
  assert (∀ m s, rep s (pmul m B_point) → rep (dblm s) (pmul (m + m) B_point)) as D.
  { intros m s Hs. rewrite ed_mul_add by exact CB. apply dblm_spec; [apply on_curve_mul, CB|exact Hs]. }
  pose proof (sum_digits_spec _ base 0 _ _ L1 F1 base_rows_from ltac:(lia)
                (D _ _ (D _ _ (D _ _ (D _ _ H1))))) as H2.
  destruct (sum_digits _ _ _ _) as [[X Y] W]. intros H.
  apply (reduced_eq (p := p25519)); [apply ed_mul_reduced|apply reduced_zero|].
  rewrite V. change (256 ^ 0) with 1 in H2. set (ev := digits_val 256 (every_other e)) in *.
  clearbody o ev.
  replace (o + o + (o + o) + (o + o + (o + o)) + (o + o + (o + o) + (o + o + (o + o))) + 1 * ev)
    with (ev + 16 * o) in H2 by ring.
  exact (rep_neutral X Y W _ H2 H).
Qed.

Lemma le_val_order : le_val (le_bytes 32 orderL) = orderL.
Proof. vm_compute. reflexivity. Qed.

Lemma order_B : pmul orderL B_point = ed_zero.
Proof.
  rewrite <- le_val_order. apply neutral_ok_spec;
    [apply le_bytes_ok|apply le_bytes_length|rewrite le_val_order; reflexivity|exact order_neutral].
Qed.

(** Multiples of the base point by congruent scalars are equal. *)
Lemma pmul_mod_order n : pmul (n mod orderL) B_point = pmul n B_point.
Proof.
  pose proof curve_B as CB. rewrite (Z_div_mod_eq_full n orderL) at 2.
  rewrite ed_mul_add, (Z.mul_comm orderL), ed_mul_mul, order_B by exact CB.
  assert (pmul (n / orderL) ed_zero = ed_zero) as ->.
  { rewrite <- (ed_mul_0 (p := p25519) (d := d_val) B_point) at 1. rewrite <- ed_mul_mul, Z.mul_0_r by exact CB.
    apply ed_mul_0. }
  symmetry. apply ed_zero_add_mul, CB.
Qed.

(** ** Properties *)

(** The precomputed table is right: entry [j] of row [i] holds [(j + 1) 256^i] times
    the base point, whose coordinates are [(x, 4/5)] with [x] even. *)
Theorem base_table i j row E :
  base !! i = Some row → row !! j = Some E →
  is_pre E (pmul ((Z.of_nat j + 1) * 256 ^ Z.of_nat i) B_point)
  ∧ length row = 8%nat ∧ curve B_point ∧ 5 * B_point.2 ≈ 4 ∧ B_point.1 mod 2 = 0.
Proof.
  intros Hi Hj. destruct (base_rows i row Hi) as [Hl HR].
  rewrite ed_mul_mul by exact curve_B. split; [exact (HR j E Hj)|]. split; [exact Hl|].
  split; [exact curve_B|]. exact B_point_affine.
Qed.

Lemma base_table_witness :
  is_pre (nth 7 base_31 pre_Zero) (pmul ((Z.of_nat 7 + 1) * 256 ^ Z.of_nat 31) B_point).
Proof. exact (proj1 (base_table 31 7 base_31 (nth 7 base_31 pre_Zero) eq_refl eq_refl)). Defined.

(** C36: [GeScalarMultBase] computes the multiple of the base point that its scalar says:
    for 32 bytes whose last is at most 127, the result represents, and is encoded as,
    the little-endian value of the bytes times the base point; the multiple depends on the
    scalar modulo [orderL] only. *)
Theorem base_multiplication a n :
  Forall byte_ok a → length a = 32%nat → le_val a < 2 ^ 255 →
  is_ext (GeScalarMultBase a) (pmul (le_val a) B_point)
  ∧ ext_ToBytes (GeScalarMultBase a) = ed_bytes (pmul (le_val a) B_point)
  ∧ pmul (n mod orderL) B_point = pmul n B_point.
Proof.
  intros Ha Hl Hv. pose proof (GeScalarMultBase_spec a Ha Hl Hv) as H.
  split; [exact H|]. split; [apply ext_ToBytes_spec, H|apply pmul_mod_order].
Qed.

Lemma base_multiplication_witness :
  ext_ToBytes (GeScalarMultBase (7 :: replicate 31 0)) = ed_bytes (pmul 7 B_point).
Proof.
  refine (proj1 (proj2 (base_multiplication (7 :: replicate 31 0) 0 _ eq_refl eq_refl))).
  repeat constructor; vm_compute; congruence.
Defined.
