(* ===== verification/Vartime25519.v ===== *)
(** * Multiplication by two scalars (signer/edwards25519)

    [GeDoubleScalarMultVartime] computes [a A + b B] for a point [A] and the base point [B], as the
    verification of a signature does: both scalars are recoded by [slide] into digits that are zero
    or odd and at most 15 in size, and one chain of doublings adds the odd multiples of both
    points that the digits say. *)

From S2P Require Import Prelude Scalar25519 Field25519 Table25519 Prime25519 Edwards Group25519 Base25519.
From stdpp Require Import base list numbers.
From Stdlib Require Import ZArith Lia.

Open Scope Z_scope.

(** ** Definitions *)

(** *** Recoding *)

(** The bits of the scalar, the first loop of [slide]. *)
Definition byte_bits (v : Z) : list Z := (λ j, i8 (Z.land 1 (Z.shiftr v j))) <$> [0; 1; 2; 3; 4; 5; 6; 7].

Definition bits (a : list Z) : list Z := mjoin (byte_bits <$> a).

(** The loop over [k]: the carry goes to the first zero, the digits it passes become zero. *)
Fixpoint carry_into (r : list Z) : list Z :=
  match r with
  | [] => []
  | x :: r' => if x =? 0 then 1 :: r' else 0 :: carry_into r'
  end.

(** The loop over [b] with [n] rounds left: [x] is the digit at [i], [r] the digits from [i + b] on. *)
Fixpoint slide_window (n : nat) (b x : Z) (r : list Z) : Z * list Z :=
  match n, r with
  | S n', y :: r' =>
      if negb (y =? 0) then
        let s := i8 (Z.shiftl y b) in
        if i8 (x + s) <=? 15 then
          let w := slide_window n' (b + 1) (i8 (x + s)) r' in (w.1, 0 :: w.2)
        else if -15 <=? i8 (x - s) then
          let w := slide_window n' (b + 1) (i8 (x - s)) (drop 1 (carry_into r)) in
          (w.1, take 1 (carry_into r) ++ w.2)
        else (x, r)
      else
        let w := slide_window n' (b + 1) x r' in (w.1, y :: w.2)
  | _, _ => (x, r)
  end.

(** The second loop of [slide], over the digits from [i] on. *)
Fixpoint slide_from (n : nat) (r : list Z) : list Z :=
  match n, r with
  | S n', x :: r' =>
      let w := if negb (x =? 0) then slide_window 6 1 x r' else (x, r') in
      w.1 :: slide_from n' w.2
  | _, _ => r
  end.

Definition slide (a : list Z) : list Z := slide_from 256 (bits a).

(** *** Multiplication *)

(** [A, 3A, 5A, ...]: the [n] multiples after [c], each [A2] more than the one before. *)
Fixpoint odd_multiples (n : nat) (A2 : ExtendedGroupElement) (c : CachedGroupElement) : list CachedGroupElement :=
  match n with
  | O => [c]
  | S n' => c :: odd_multiples n' A2 (ext_ToCached (comp_ToExtended (GeAdd A2 c)))
  end.

(** One digit of a scalar: nothing, or the multiple in the table added or subtracted.  An index out of the
    table's range, a panic, is [None]. *)
Definition add_multiple {C} (add sub : ExtendedGroupElement → C → CompletedGroupElement) (table : list C) (x : Z)
    (t : CompletedGroupElement) : option CompletedGroupElement :=
  if 0 <? x then add (comp_ToExtended t) <$> table !! Z.to_nat (Z.quot x 2)
  else if x <? 0 then sub (comp_ToExtended t) <$> table !! Z.to_nat (Z.quot (i8 (- x)) 2)
  else Some t.

(** The main loop, over the digits of both scalars from the highest down. *)
Fixpoint double_and_add (Ai : list CachedGroupElement) (digits : list (Z * Z)) (r : ProjectiveGroupElement)
    : option ProjectiveGroupElement :=
  match digits with
  | [] => Some r
  | (x, y) :: ds =>
      t ← add_multiple GeAdd geSub Ai x (proj_Double r);
      t ← add_multiple GeMixedAdd geMixedSub bi y t;
      double_and_add Ai ds (comp_ToProjective t)
  end.

(** The loop that looks for the highest digit that is not zero. *)
Fixpoint skip_zeros (digits : list (Z * Z)) : list (Z * Z) :=
  match digits with
  | [] => []
  | (x, y) :: ds => if negb (x =? 0) || negb (y =? 0) then digits else skip_zeros ds
  end.

Definition GeDoubleScalarMultVartime (a : list Z) (A : ExtendedGroupElement) (b : list Z) : option ProjectiveGroupElement :=
  let aSlide := slide a in
  let bSlide := slide b in
  let Ai := odd_multiples 7 (comp_ToExtended (ext_Double A)) (ext_ToCached A) in
  double_and_add Ai (skip_zeros (reverse (zip aSlide bSlide))) proj_Zero.

(** *** Specifications *)

Definition bit (x : Z) : Prop := x = 0 ∨ x = 1.

#[global] Instance bit_dec x : Decision (bit x).
Proof. unfold bit. apply _. Defined.

(** Zero, or odd and at most 15 in size *)
Definition odd_digit (x : Z) : Prop := x = 0 ∨ (x mod 2 = 1 ∧ -15 ≤ x ≤ 15).

(** [m P + n B] *)
Definition combination (P : Z * Z) (m n : Z) : Z * Z := padd (pmul m P) (pmul n B_point).

(** The value of digits from the highest down, after a value [m]. *)
Definition horner (m : Z) (ds : list Z) : Z := fold_left (λ m d, 2 * m + d) ds m.

(** Entry [j] of a table stands for [2 j + 1] times a point. *)
Definition odd_table {C} (stands : C → Z * Z → Prop) (table : list C) (P : Z * Z) : Prop :=
  ∀ j c, table !! j = Some c → stands c (pmul (2 * Z.of_nat j + 1) P).

#[global] Instance pre_eq_dec : EqDecision PreComputedGroupElement.
Proof. solve_decision. Defined.

(** The table of odd multiples of the base point, checked by the addition law: each entry is the one before plus [2 B]. *)
Fixpoint odd_row_ok (dv : Z) (two prev : PreComputedGroupElement) (row : list PreComputedGroupElement) : bool :=
  match row with
  | [] => true
  | E :: row' => entry_ok dv E && next_ok prev two E && odd_row_ok dv two E row'
  end.

Definition bi_ok (dv : Z) (table : list PreComputedGroupElement) : bool :=
  match table with
  | h :: row => entry_ok dv h && bool_decide (h = base_entry 0 0) && odd_row_ok dv (base_entry 0 1) h row
  | [] => false
  end.

(** ** Recoding *)

#[local] Opaque Z.pow.

Lemma pow2_succ b : 0 ≤ b → 2 ^ (b + 1) = 2 * 2 ^ b.
Proof. intros. rewrite Z.add_1_r, Z.pow_succ_r by lia. done. Qed.

Lemma bits_val_range r : Forall bit r → 0 ≤ digits_val 2 r < 2 ^ Z.of_nat (length r).
Proof.
  induction 1 as [|x r Hx _ IH]; cbn [digits_val length]; [done|].
  rewrite Nat2Z.inj_succ, Z.pow_succ_r by lia. unfold bit in Hx. lia.
Qed.

(** A carry adds one, unless it runs off the end. *)
Lemma carry_into_spec r :
  Forall bit r → digits_val 2 r + 1 < 2 ^ Z.of_nat (length r) →
  Forall bit (carry_into r) ∧ length (carry_into r) = length r ∧ digits_val 2 (carry_into r) = digits_val 2 r + 1.
Proof.
  induction 1 as [|x r Hx Hr IH]; cbn [carry_into digits_val length]; [change (2 ^ Z.of_nat 0) with 1; lia|].
  rewrite Nat2Z.inj_succ, Z.pow_succ_r by lia. intros Hlt. destruct Hx as [->| ->]; cbn [Z.eqb].
  - split; [constructor; [by right|done]|]. cbn [length digits_val]. split; [done|lia].
  - destruct IH as (IH1 & IH2 & IH3); [lia|]. split; [constructor; [by left|done]|].
    cbn [length digits_val]. rewrite IH2, IH3. split; [done|lia].
Qed.

Lemma odd_plus x y : x mod 2 = 1 → (x + 2 * y) mod 2 = 1.
Proof. intros H. rewrite (Z.mul_comm 2), Z_mod_plus_full. exact H. Qed.

Lemma i8_shift b : 1 ≤ b ≤ 6 → i8 (Z.shiftl 1 b) = 2 ^ b ∧ 2 ≤ 2 ^ b ≤ 64.
Proof.
  intros Hb. rewrite Z.shiftl_mul_pow2, Z.mul_1_l by lia.
  assert (b = 1 ∨ b = 2 ∨ b = 3 ∨ b = 4 ∨ b = 5 ∨ b = 6) as [->|[->|[->|[->|[->| ->]]]]] by lia; by vm_compute.
Qed.

(** What is above a digit that is smaller than its place fits with a carry. *)
Lemma above_fits b x v l :
  0 ≤ b → - 2 ^ b < x → (l = O → v = 0) → 2 * (x + 2 ^ b * v) ≤ 2 ^ (b + Z.of_nat l) → 2 * v ≤ 2 ^ Z.of_nat l.
Proof.
  intros Hb Hx Hv H. destruct l as [|l]; [rewrite (Hv eq_refl); vm_compute; discriminate|].
  rewrite Z.pow_add_r, Nat2Z.inj_succ, Z.pow_succ_r in H by lia. rewrite Nat2Z.inj_succ, Z.pow_succ_r by lia.
  pose proof (Z.pow_pos_nonneg 2 b ltac:(lia) Hb) as Hp. set (M := 2 ^ b) in *. set (K := 2 ^ Z.of_nat l) in *.
  destruct (Z.le_gt_cases v K) as [|Hgt]; [lia|]. pose proof (Z.mul_le_mono_nonneg_l (K + 1) v M ltac:(lia) ltac:(lia)). lia.
Qed.

(** A window keeps the value: the digit it leaves is odd and small, and what is left above it still fits with a carry. *)
Lemma slide_window_spec n b x r :
  1 ≤ b → b + Z.of_nat n ≤ 7 → Forall bit r → x mod 2 = 1 → -15 ≤ x ≤ 15 → - 2 ^ b < x < 2 ^ b →
  2 * (x + 2 ^ b * digits_val 2 r) ≤ 2 ^ (b + Z.of_nat (length r)) →
  let w := slide_window n b x r in
  odd_digit w.1 ∧ Forall bit w.2 ∧ length w.2 = length r ∧ w.1 + 2 ^ b * digits_val 2 w.2 = x + 2 ^ b * digits_val 2 r
  ∧ 2 * digits_val 2 w.2 ≤ 2 ^ Z.of_nat (length r).
Proof.
  revert b x r. induction n as [|n IH]; intros b x r Hb Hn Hr Hodd Hx Hsmall Htot.
  all: assert (2 * digits_val 2 r ≤ 2 ^ Z.of_nat (length r)) as Hfit
    by (eapply above_fits; [|apply Hsmall| |exact Htot]; [lia|by destruct r]).
  { split; [by right|]. done. }
  destruct r as [|y r]; [split; [by right|]; done|].
  apply list.Forall_cons in Hr as [Hy Hr]. destruct (i8_shift b ltac:(lia)) as [Es Hs].
  cbn [length] in *. rewrite Nat2Z.inj_succ, <- Z.add_1_r in *. rewrite (Z.add_comm _ 1), Z.add_assoc in Htot.
  cbn [slide_window digits_val] in *. pose proof (pow2_succ b ltac:(lia)) as E2.
  assert (2 ^ b = 2 * 2 ^ (b - 1)) as Eb by (rewrite <- pow2_succ by lia; f_equal; lia).
  (* each round continues with a digit and bits of the same total, and leaves a zero *)
  assert (∀ x1 r1, Forall bit r1 → length r1 = length r → x1 mod 2 = 1 → -15 ≤ x1 ≤ 15 → - 2 ^ (b + 1) < x1 < 2 ^ (b + 1) →
    x1 + 2 ^ (b + 1) * digits_val 2 r1 = x + 2 ^ b * (y + 2 * digits_val 2 r) →
    let w := slide_window n (b + 1) x1 r1 in
    odd_digit w.1 ∧ Forall bit (0 :: w.2) ∧ length (0 :: w.2) = S (length r)
    ∧ w.1 + 2 ^ b * digits_val 2 (0 :: w.2) = x + 2 ^ b * (y + 2 * digits_val 2 r)
    ∧ 2 * digits_val 2 (0 :: w.2) ≤ 2 ^ (Z.of_nat (length r) + 1)) as Hround.
  { intros x1 r1 Hr1 Hl Ho Hx1 Hs1 E1. destruct (IH (b + 1) x1 r1) as (I1 & I2 & I3 & I4 & I5); [lia|lia|done..|rewrite E1, Hl; exact Htot|].
    split; [done|]. split; [constructor; [by left|done]|]. cbn [length digits_val]. rewrite I3, Hl. split; [done|].
    rewrite Hl in I5. rewrite (pow2_succ (Z.of_nat (length r))) by lia. split; [|lia]. rewrite <- E1, <- I4, E2. ring. }
  destruct Hy as [->| ->]; cbn [Z.eqb negb].
  { apply Hround; [done..|lia|]. rewrite E2. ring. }
  rewrite Es, !i8_small by lia. destruct (Z.leb_spec (x + 2 ^ b) 15).
  { apply Hround; [done..| |lia|lia|]; [rewrite Eb; by apply odd_plus|]. rewrite E2. ring. }
  destruct (Z.leb_spec (-15) (x - 2 ^ b)); [|split; [by right|]; split; [constructor; [by right|done]|]; done].
  cbn [carry_into Z.eqb drop take app]. destruct (carry_into_spec r Hr) as (C1 & C2 & C3).
  { pose proof (bits_val_range r Hr). rewrite Z.pow_add_r, E2 in Htot by lia. nia. }
  apply Hround; [done..| |lia|lia|].
  - replace (x - 2 ^ b) with (x + 2 * - 2 ^ (b - 1)) by lia. by apply odd_plus.
  - rewrite drop_0, C3, E2. ring.
Qed.

Lemma slide_from_spec n r :
  (length r ≤ n)%nat → Forall bit r → 2 * digits_val 2 r ≤ 2 ^ Z.of_nat (length r) →
  Forall odd_digit (slide_from n r) ∧ length (slide_from n r) = length r ∧ digits_val 2 (slide_from n r) = digits_val 2 r.
Proof.
  revert r. induction n as [|n IH]; intros [|x r] Hn Hr Hv; cbn [slide_from]; [by repeat split..|cbn in Hn; lia| |]; [by repeat split|].
  apply list.Forall_cons in Hr as [Hx Hr]. cbn [length digits_val] in *. rewrite Nat2Z.inj_succ, Z.pow_succ_r in Hv by lia.
  assert (∀ w : Z * list Z, odd_digit w.1 → Forall bit w.2 → length w.2 = length r → w.1 + 2 * digits_val 2 w.2 = x + 2 * digits_val 2 r →
    2 * digits_val 2 w.2 ≤ 2 ^ Z.of_nat (length r) →
    Forall odd_digit (w.1 :: slide_from n w.2) ∧ S (length (slide_from n w.2)) = S (length r)
    ∧ w.1 + 2 * digits_val 2 (slide_from n w.2) = x + 2 * digits_val 2 r) as Hstep.
  { intros w W1 W2 W3 W4 W5. destruct (IH w.2) as (I1 & I2 & I3); [lia|done|by rewrite W3|].
    rewrite I2, I3, W3. split; [by constructor|]. split; [done|lia]. }
  destruct Hx as [->| ->]; cbn [Z.eqb negb].
  - apply Hstep; [by left|done|done|done|]. cbn [snd]. lia.
  - change (2 * digits_val 2 r) with (2 ^ 1 * digits_val 2 r) in Hstep.
    destruct (slide_window_spec 6 1 1 r) as (W1 & W2 & W3 & W4 & W5); [lia|lia|done|done|lia|vm_compute; done| |by apply Hstep].
    rewrite Z.pow_add_r by lia. change (2 ^ 1) with 2 in *. lia.
Qed.

Lemma byte_bits_spec v : byte_ok v → Forall bit (byte_bits v) ∧ digits_val 2 (byte_bits v) = v.
Proof.
  intros Hv. unfold byte_ok in Hv.
  assert (Forall (λ x, Forall bit (byte_bits x) ∧ digits_val 2 (byte_bits x) = x) (Z.of_nat <$> seq 0 256)) as Hall.
  { apply (bool_decide_eq_true_1 _). vm_compute. reflexivity. }
  rewrite list.Forall_forall in Hall. apply Hall. rewrite <- (Z2Nat.id v) by lia. apply list_elem_of_fmap_2, elem_of_seq. lia.
Qed.

Lemma bits_spec a :
  Forall byte_ok a → Forall bit (bits a) ∧ digits_val 2 (bits a) = le_val a ∧ length (bits a) = (8 * length a)%nat.
Proof.
  induction 1 as [|v a Hv Ha (IH1 & IH2 & IH3)]; [by repeat split; constructor|].
  destruct (byte_bits_spec v Hv) as [B1 B2]. change (bits (v :: a)) with (byte_bits v ++ bits a).
  split; [by apply Forall_app|]. rewrite length_app, IH3. split; [|cbn; lia].
  assert (length (byte_bits v) = 8%nat) as Hl by done. cbn [le_val]. rewrite <- B2 at 2. rewrite <- IH2.
  clear - Hl. generalize dependent (byte_bits v). intros l Hl.
  do 9 (destruct l as [|? l]; try discriminate Hl). cbn [app digits_val]. lia.
Qed.

(** Scalars below [2^255] are recoded with their value. *)
Lemma slide_spec a :
  Forall byte_ok a → length a = 32%nat → le_val a < 2 ^ 255 →
  Forall odd_digit (slide a) ∧ length (slide a) = 256%nat ∧ digits_val 2 (slide a) = le_val a.
Proof.
  intros Ha Hl Hv. destruct (bits_spec a Ha) as (B1 & B2 & B3). rewrite Hl in B3.
  destruct (slide_from_spec 256 (bits a)) as (S1 & S2 & S3); [rewrite B3; lia|done| |].
  - rewrite B2, B3. change (2 ^ Z.of_nat (8 * 32)) with (2 * 2 ^ 255). lia.
  - unfold slide. rewrite S2, S3, B3. done.
Qed.

(** ** The tables *)

#[local] Opaque p25519 d_val fe_val.

Lemma odd_multiples_spec n A2 c P k :
  curve P → is_ext A2 (pmul 2 P) → is_cached c (pmul k P) →
  ∀ j c', odd_multiples n A2 c !! j = Some c' → is_cached c' (pmul (k + 2 * Z.of_nat j) P).
Proof.
  intros C H2. revert c k. induction n as [|n IH]; intros c k Hc [|j] c'; cbn [odd_multiples lookup list_lookup].
  1, 3: intros [= <-]; rewrite Z.mul_0_r, Z.add_0_r; exact Hc.
  - done.
  - intros Hj. replace (k + 2 * Z.of_nat (S j)) with (2 + k + 2 * Z.of_nat j) by lia. eapply IH; [|exact Hj].
    rewrite ed_mul_add by exact C.
    apply ext_ToCached_spec, comp_ToExtended_spec, GeAdd_spec; [apply on_curve_mul, C..|exact H2|exact Hc].
Qed.

Lemma length_odd_multiples n A2 c : length (odd_multiples n A2 c) = S n.
Proof. revert c. induction n as [|n IH]; intros c; [done|]. cbn. by rewrite IH. Qed.

Lemma odd_row_spec two row prev k :
  point_of two = pmul 2 B_point → entry_ok d_val prev = true → point_of prev = pmul k B_point →
  odd_row_ok d_val two prev row = true →
  ∀ j E, row !! j = Some E → is_pre E (pmul (k + 2 + 2 * Z.of_nat j) B_point).
Proof.
  intros H2. revert prev k. induction row as [|E row IH]; intros prev k Hprev Hp H [|j] E'; [done..| |];
    cbn [odd_row_ok] in H; apply andb_true_iff in H as [[HE Hn]%andb_true_iff H]; cbn [lookup list_lookup];
    pose proof curve_B as CB;
    (assert (point_of E = pmul (k + 2) B_point) as PE;
      [rewrite (next_ok_spec prev two E Hprev); [by rewrite Hp, H2, <- ed_mul_add|rewrite Hp; by apply on_curve_mul|
         rewrite H2; by apply on_curve_mul|exact Hn]|]).
  - intros [= <-]. rewrite Z.add_0_r, <- PE. by apply entry_ok_spec.
  - intros Hj. replace (k + 2 + 2 * Z.of_nat (S j)) with (k + 2 + 2 + 2 * Z.of_nat j) by lia. by eapply IH.
Qed.

Lemma bi_ok_true : bi_ok d_val bi = true.
Proof. vm_compute. reflexivity. Qed.

Lemma base_second : point_of (base_entry 0 1) = pmul 2 B_point.
Proof.
  pose proof base_ok_true as H. pose proof curve_B as CB. unfold B_point, base_entry in *.
  destruct base as [|[|h [|E row]] rows]; [discriminate H..|]. cbn [nth] in *.
  unfold base_ok in H. cbn [row_ok] in H.
  apply andb_true_iff in H as [[[_ Hh]%andb_true_iff [[_ Hn]%andb_true_iff _]%andb_true_iff]%andb_true_iff _].
  rewrite (next_ok_spec h h E Hh CB CB Hn). change 2 with (1 + 1). by rewrite ed_mul_add, <- point_of_mul1.
Qed.

Lemma bi_spec : odd_table is_pre bi B_point.
Proof.
  pose proof bi_ok_true as H. pose proof base_second as H2. pose proof curve_B as CB. pose proof (point_of_mul1 _ CB) as H1. intros j E.
  destruct bi as [|h row]; [done|]. unfold bi_ok in H.
  apply andb_true_iff in H as [[Hh Heq%(bool_decide_eq_true_1 _)]%andb_true_iff Hr].
  fold B_point in H1. destruct j as [|j]; cbn [lookup list_lookup].
  - intros [= <-]. change (2 * Z.of_nat 0 + 1) with 1. rewrite <- H1. unfold B_point. rewrite <- Heq. by apply entry_ok_spec.
  - intros Hj. replace (2 * Z.of_nat (S j) + 1) with (1 + 2 + 2 * Z.of_nat j) by lia. eapply odd_row_spec; [exact H2|exact Hh| |exact Hr|exact Hj].
    rewrite Heq. exact H1.
Qed.

(** ** Combinations *)

Section combination.
Context (P : Z * Z) (C : curve P).

Lemma curve_combination m n : curve (combination P m n).
Proof. apply on_curve_add; apply on_curve_mul; [exact C|exact curve_B]. Qed.

Lemma combination_add m n m' n' : padd (combination P m n) (combination P m' n') = combination P (m + m') (n + n').
Proof.
  unfold combination. pose proof curve_B as CB.
  rewrite !ed_mul_add by done. assert (∀ k, curve (pmul k P) ∧ curve (pmul k B_point)) as Hc by (intros; split; by apply on_curve_mul).
  pose proof (Hc m) as [Cm _]. pose proof (Hc m') as [Cm' _]. pose proof (Hc n) as [_ Cn]. pose proof (Hc n') as [_ Cn'].
  assert (∀ X Y, curve X → curve Y → curve (padd X Y)) as Ca by (intros; by apply on_curve_add).
  rewrite (ed_add_assoc (pmul m P)), <- (ed_add_assoc (pmul n B_point)), (ed_add_comm (pmul n B_point)),
    (ed_add_assoc (pmul m' P)), <- (ed_add_assoc (pmul m P)) by auto. done.
Qed.

(** A digit of the first scalar, and one of the second *)
Lemma combination_l x : pmul x P = combination P x 0.
Proof.
  unfold combination. rewrite ed_mul_0. apply (reduced_eq (p := p25519)); [apply ed_mul_reduced|apply ed_add_reduced|].
  symmetry. apply ed_add_0_r, on_curve_mul, C.
Qed.

Lemma combination_r y : pmul y B_point = combination P 0 y.
Proof. unfold combination. rewrite ed_mul_0. symmetry. apply ed_zero_add_mul, curve_B. Qed.

(** Adding the multiple that a digit says *)
Lemma add_multiple_spec {E} (add sub : ExtendedGroupElement → E → CompletedGroupElement) (stands : E → Z * Z → Prop) table Q x t R :
  (∀ p q X Y, curve X → curve Y → is_ext p X → stands q Y → is_comp (add p q) (padd X Y)) →
  (∀ p q X Y, curve X → curve Y → is_ext p X → stands q Y → is_comp (sub p q) (padd X (pneg Y))) →
  length table = 8%nat → odd_table stands table Q → curve Q → curve R → odd_digit x → is_comp t R →
  ∃ t', add_multiple add sub table x t = Some t' ∧ is_comp t' (if x =? 0 then R else padd R (pmul x Q)).
Proof.
  intros Hadd Hsub Hl Htab CQ CR Hx Ht. unfold add_multiple. destruct Hx as [->|[Hodd Hx]]; [by exists t|].
  assert (∀ y, 0 < y ≤ 15 → y mod 2 = 1 → ∃ c, table !! Z.to_nat (Z.quot y 2) = Some c ∧ stands c (pmul y Q)) as Hfind.
  { intros y Hy Hm. pose proof (Z.div_mod y 2 ltac:(lia)) as Ed. rewrite Z.quot_div_nonneg by lia.
    destruct (lookup_lt_is_Some_2 table (Z.to_nat (y / 2))) as [c Hc]; [lia|]. exists c. split; [done|].
    apply Htab in Hc. by replace (2 * Z.of_nat (Z.to_nat (y / 2)) + 1) with y in Hc by lia. }
  destruct (Z.eqb_spec x 0) as [->|]; [done|]. destruct (Z.ltb_spec 0 x).
  - destruct (Hfind x) as (c & -> & Hc); [lia|done|]. cbn. eexists; split; [done|].
    apply Hadd; [done|by apply on_curve_mul|by apply comp_ToExtended_spec|done].
  - destruct (Z.ltb_spec x 0); [|lia]. rewrite i8_small by lia.
    destruct (Hfind (- x)) as (c & -> & Hc); [lia| |].
    { replace (- x) with (x + 2 * - x) by lia. by apply odd_plus. }
    cbn. eexists; split; [done|]. replace (pmul x Q) with (pneg (pmul (- x) Q)) by (rewrite <- ed_mul_opp by done; f_equal; lia).
    apply Hsub; [done|by apply on_curve_mul|by apply comp_ToExtended_spec|done].
Qed.

(** The main loop: each round doubles the combination and adds the digits. *)
Lemma double_and_add_spec Ai ds r m n :
  length Ai = 8%nat → odd_table is_cached Ai P → Forall (λ d, odd_digit d.1 ∧ odd_digit d.2) ds → is_proj r (combination P m n) →
  ∃ r', double_and_add Ai ds r = Some r' ∧ is_proj r' (combination P (horner m ds.*1) (horner n ds.*2)).
Proof.
  intros Hl HA Hds. revert r m n. induction Hds as [|[x y] ds [Hx Hy] _ IH]; intros r m n Hr; cbn [double_and_add]; [by exists r|].
  pose proof curve_B as CB. pose proof curve_combination as CC.
  pose proof (proj_Double_spec r _ (CC m n) Hr) as H0. rewrite combination_add in H0.
  destruct (add_multiple_spec GeAdd geSub is_cached Ai P x _ _ GeAdd_spec geSub_spec Hl HA C (CC _ _) Hx H0) as (t & -> & H1).
  assert (is_comp t (combination P (2 * m + x) (2 * n))) as H1'.
  { destruct (Z.eqb_spec x 0) as [->|]; [|rewrite combination_l, combination_add in H1];
      [replace (2 * m + 0) with (m + m) by lia|replace (2 * m + x) with (m + m + x) by lia];
      replace (2 * n) with (n + n) by lia; rewrite ?Z.add_0_r in H1; exact H1. }
  cbn [mbind option_bind].
  destruct (add_multiple_spec GeMixedAdd geMixedSub is_pre bi B_point y _ _ GeMixedAdd_spec geMixedSub_spec eq_refl bi_spec CB (CC _ _) Hy H1')
    as (t' & -> & H2).
  cbn [mbind option_bind]. apply IH, comp_ToProjective_spec.
  destruct (Z.eqb_spec y 0) as [->|]; [|rewrite combination_r, combination_add in H2]; rewrite ?Z.add_0_r in *; exact H2.
Qed.
End combination.

Lemma horner_reverse l : horner 0 (reverse l) = digits_val 2 l.
Proof.
  unfold horner. induction l as [|x l IH]; [done|]. rewrite reverse_cons, fold_left_app, IH. cbn. lia.
Qed.

(** The zeros that are skipped do not count. *)
Lemma skip_zeros_spec ds :
  horner 0 (skip_zeros ds).*1 = horner 0 ds.*1 ∧ horner 0 (skip_zeros ds).*2 = horner 0 ds.*2
  ∧ ∀ Q, Forall Q ds → Forall Q (skip_zeros ds).
Proof.
  induction ds as [|[x y] ds IH]; [done|]. cbn [skip_zeros].
  destruct (Z.eqb_spec x 0) as [->|]; [|done]. destruct (Z.eqb_spec y 0) as [->|]; [|done]. cbn [negb orb].
  destruct IH as (I1 & I2 & I3). split; [exact I1|]. split; [exact I2|]. intros Q [_ H]%list.Forall_cons. by apply I3.
Qed.

Lemma proj_Zero_spec P : is_proj proj_Zero (combination P 0 0).
Proof.
  unfold combination. rewrite !ed_mul_0. replace (padd ed_zero ed_zero) with ed_zero.
  - exists 1. split; [apply (one_nonzero _ prime_p25519)|]. unfold proj_Zero.
    cbn [ed_zero fst snd proj_X proj_Y proj_Z]. split; [|split]; fe_goal; by_ring.
  - rewrite <- (ed_mul_0 (p := p25519) (d := d_val) B_point) at 2 3. symmetry. apply ed_zero_add_mul, curve_B.
Qed.

Lemma zip_digits (xs ys : list Z) :
  length xs = length ys → Forall odd_digit xs → Forall odd_digit ys → Forall (λ d, odd_digit d.1 ∧ odd_digit d.2) (zip xs ys).
Proof. intros Hl. revert ys Hl. induction xs as [|x xs IH]; intros [|y ys] Hl Hx Hy; try done. inversion Hx; inversion Hy; subst. constructor; [done|]. apply IH; [by injection Hl|done..]. Qed.

(** ** Properties *)

(** C37: [GeDoubleScalarMultVartime] computes [a A + b B]: for scalars of 32 bytes below [2^255] and a point [A] on the
    curve, no index is out of range, the result represents the sum of the multiples of [A] and of the base point by
    the little-endian values of the scalars, and it is encoded as that point. *)
Theorem double_multiplication a A b P :
  Forall byte_ok a → length a = 32%nat → le_val a < 2 ^ 255 →
  Forall byte_ok b → length b = 32%nat → le_val b < 2 ^ 255 →
  curve P → is_ext A P →
  ∃ r, GeDoubleScalarMultVartime a A b = Some r
    ∧ is_proj r (padd (pmul (le_val a) P) (pmul (le_val b) B_point))
    ∧ proj_ToBytes r = ed_bytes (padd (pmul (le_val a) P) (pmul (le_val b) B_point)).
Proof.
  intros Ha La Va Hb Lb Vb C HA.
  destruct (slide_spec a Ha La Va) as (A1 & A2 & A3). destruct (slide_spec b Hb Lb Vb) as (B1 & B2 & B3).
  destruct (skip_zeros_spec (reverse (zip (slide a) (slide b)))) as (S1 & S2 & S3).
  rewrite fmap_reverse, fst_zip, horner_reverse in S1 by lia. rewrite fmap_reverse, snd_zip, horner_reverse in S2 by lia.
  destruct (double_and_add_spec P C (odd_multiples 7 (comp_ToExtended (ext_Double A)) (ext_ToCached A))
    (skip_zeros (reverse (zip (slide a) (slide b)))) proj_Zero 0 0) as (r & Er & Hr).
  - apply length_odd_multiples.
  - intros j c Hc. rewrite Z.add_comm. eapply odd_multiples_spec; [exact C| | |exact Hc].
    + change 2 with (1 + 1). rewrite ed_mul_add by exact C. rewrite (ed_add_cong _ _ _ _ (ed_mul_1 P C) (ed_mul_1 P C)).
      by apply comp_ToExtended_spec, ext_Double_spec.
    + apply ext_ToCached_spec. destruct HA as (z & Hz). destruct (ed_mul_1 P C) as [E1 E2]. exists z.
      unfold fe in *. rewrite E1, E2. exact Hz.
  - apply S3, Forall_reverse, zip_digits; [lia|done..].
  - apply proj_Zero_spec.
  - rewrite S1, S2, A3, B3 in Hr. exists r. split; [exact Er|]. split; [exact Hr|]. apply proj_ToBytes_spec, Hr.
Qed.

Lemma double_multiplication_witness :
  ∃ r, GeDoubleScalarMultVartime (3 :: replicate 31 0) (GeScalarMultBase (5 :: replicate 31 0)) (2 :: replicate 31 0) = Some r
    ∧ proj_ToBytes r = ed_bytes (padd (pmul 3 (pmul 5 B_point)) (pmul 2 B_point)).
Proof.
  assert (∀ n, 0 ≤ n < 256 → Forall byte_ok (n :: replicate 31 0)) as Hb.
  { intros n Hn. constructor; [exact Hn|]. apply Forall_replicate. unfold byte_ok. lia. }
  destruct (double_multiplication (3 :: replicate 31 0) (GeScalarMultBase (5 :: replicate 31 0)) (2 :: replicate 31 0) (pmul 5 B_point))
    as (r & Er & _ & Eb); [apply Hb; lia|reflexivity|reflexivity|apply Hb; lia|reflexivity|reflexivity| | |].
  - apply on_curve_mul, curve_B.
  - apply (GeScalarMultBase_spec (5 :: replicate 31 0)); [apply Hb; lia|reflexivity|reflexivity].
  - exists r. split; [exact Er|exact Eb].
Defined.

(** From [2^255] on a carry may run off the end of the digits: the scalar [2^256 - 1] is recoded as [-1]. *)
Theorem slide_large_scalar :
  le_val (replicate 32 255) = 2 ^ 256 - 1 ∧ slide (replicate 32 255) = -1 :: replicate 255 0.
Proof. vm_compute. done. Qed.
