(* ===== verification/Tsed25519.v ===== *)
(** * Threshold Ed25519 (signer/tsed25519)

    Shamir's sharing over the group order: dealing, combining with Lagrange coefficients
    computed on int64, adding scalars and group elements, and signing with a share.
    [math/big] integers are [Z]; [crypto/rand] is an argument. *)

From S2P Require Import Prelude Lagrange Sha512 Scalar25519 Field25519 Table25519 Edwards Group25519 Base25519.
From stdpp Require Import base list strings numbers.
From Stdlib Require Import ZArith Lia Zcong.

Open Scope Z_scope.

(** ** Definitions *)

(** *** signer/tsed25519/internal/util *)

(** The swaps of [Reverse] for the indices below [i], from the highest down. *)
Fixpoint reverse_from (i : nat) (dst : list Z) : list Z :=
  match i with
  | O => dst
  | S i' =>
      let opp := (length dst - 1 - i')%nat in
      reverse_from i' (<[opp := dst !!! i']> (<[i' := dst !!! opp]> dst))
  end.

Definition Reverse (src : list Z) : list Z := reverse_from (length src / 2) src.

(** [big.Int.SetBytes] reads and [big.Int.Bytes] writes big-endian. *)
Definition big_SetBytes (b : list Z) : Z := le_val (reverse b).

Definition byte_length (x : Z) : nat := if x =? 0 then 0%nat else Z.to_nat (Z.log2 x / 8 + 1).

Definition big_Bytes (x : Z) : list Z := reverse (le_bytes (byte_length x) x).

Definition BytesToBig (b : list Z) : Z := big_SetBytes (Reverse b).

(** [copy] into a fresh slice of [n] bytes. *)
Definition copy_into (n : nat) (src : list Z) : list Z :=
  take n src ++ replicate (n - length src) 0.

(** [out := make(Scalar, 32); copy(out, util.Reverse(x.Bytes()))] *)
Definition scalar_out (x : Z) : list Z := copy_into 32 (Reverse (big_Bytes x)).

(** *** signer/tsed25519/ed25519.go *)

Definition ScalarMultiplyBase (scalar : list Z) : list Z :=
  let orig := copy_into 64 scalar in
  let reduced := ScReduce orig in
  let A := GeScalarMultBase reduced in
  copy_into 32 (ext_ToBytes A).

(** The loop of [AddElements]; whether decoding succeeded is not looked at. *)
Fixpoint add_elements (out : CompletedGroupElement) (elements : list (list Z)) : CompletedGroupElement :=
  match elements with
  | [] => out
  | element :: elements' =>
      if (length element =? 0)%nat then add_elements out elements'
      else
        let ge := (ext_FromBytes FeZero (copy_into 32 element)).1 in
        let tempE := comp_ToExtended out in
        let tempC := ext_ToCached tempE in
        add_elements (GeAdd ge tempC) elements'
  end.

Definition AddElements (elements : list (list Z)) : list Z :=
  let out := add_elements (GeMixedAdd ext_Zero pre_Zero) elements in
  copy_into 32 (ext_ToBytes (comp_ToExtended out)).

Definition AddScalars (scalars : list (list Z)) : list Z :=
  scalar_out (fold_left (λ result scalar, result + BytesToBig scalar) scalars 0 mod orderL).

(** The coefficients [1 .. threshold-1]; [rnd i] is what [rand.Int] returns, [None] an
    error, on which [DealShares] panics. *)
Fixpoint random_coeffs {E} (rnd : nat → option Z) (from n : nat) : result (list Z) E :=
  match n with
  | O => Ok []
  | S n' =>
      match rnd from with
      | None => Panics "rand"
      | Some r => try rest <- random_coeffs rnd (S from) n'; Ok (r :: rest)
      end
  end.

(** The inner loop of [DealShares], for [j] from the given index down to 0. *)
Fixpoint share_loop (coeffs : list Z) (x : Z) (j : nat) (shareCoeff : Z) : Z :=
  match j with
  | O => shareCoeff
  | S j' => share_loop coeffs x j' ((shareCoeff * x + coeffs !!! j') mod orderL)
  end.

Definition share_of (coeffs : list Z) (i : Z) : list Z :=
  scalar_out (share_loop coeffs (u8 (i + 1)) (length coeffs - 1) (coeffs !!! (length coeffs - 1)%nat)).

Definition DealShares {E} (rnd : nat → option Z) (secret : list Z) (threshold total : Z)
    : result (list (list Z)) E :=
  if threshold =? 0 then Panics index_out_of_range
  else
    try random <- random_coeffs rnd 1 (Z.to_nat threshold - 1);
    Ok (share_of (BytesToBig secret :: random) <$> seqZ 0 total).

(** [calcOmega]: all of it on int64, the division truncating. *)
Definition calcOmega (cosignerID : Z) (cosigners : list Z) (delta : Z) : Z :=
  let result := i64 delta in
  let result := fold_left (λ result cosigner,
    if negb (cosigner =? cosignerID) then i64 (result * cosigner) else result) cosigners result in
  fold_left (λ result cosigner,
    if negb (cosigner =? cosignerID)
    then i64 (Z.quot result (i64 (cosigner - cosignerID))) else result) cosigners result.

(** [z.ModInverse(z, n)] leaves [z] as it is when there is no inverse. *)
Definition ModInverse (g n : Z) : Z := if Z.gcd g n =? 1 then Z.invmod g n else g.

(** The loop of [CombineShares]. *)
Fixpoint combine_loop {E} (delta : Z) (all ids : list Z) (shares : list (list Z)) (secret : Z)
    : result Z E :=
  match ids with
  | [] => Ok secret
  | cosignerID :: ids' =>
      match shares with
      | [] => Panics index_out_of_range
      | share :: shares' =>
          combine_loop delta all ids' shares'
            (secret + (BytesToBig share * calcOmega cosignerID all delta) mod orderL)
      end
  end.

Definition CombineShares {E} (total : Z) (cosignerIds : list Z) (shares : list (list Z))
    : result (list Z) E :=
  let delta := zfact (Z.to_nat total) in
  try secret <- combine_loop delta cosignerIds cosignerIds shares 0;
  Ok (scalar_out ((secret * ModInverse delta orderL) mod orderL)).

(** [SignWithShare] slices the two shares to 32 bytes. *)
Definition SignWithShare {E} (message share ephemeralShare publicKey ephemeralPublic : list Z)
    : result (list Z) E :=
  let digest := sha512 (ephemeralPublic ++ publicKey ++ message) in
  let digestReduced := ScReduce digest in
  if (length share <? 32)%nat || (length ephemeralShare <? 32)%nat
  then Panics "runtime error: slice bounds out of range"
  else Ok (ScMulAdd digestReduced (take 32 share) (take 32 ephemeralShare)).

Definition ExpandSecret (secret : list Z) : list Z :=
  let digest := sha512 secret in
  let digest := <[0%nat := Z.land (digest !!! 0%nat) 248]> digest in
  let digest := <[31%nat := Z.land (digest !!! 31%nat) 127]> digest in
  let digest := <[31%nat := Z.lor (digest !!! 31%nat) 64]> digest in
  take 32 digest.

(** *** What the routines are measured against *)

(** A scalar of the group: 32 bytes. *)
Definition scalar (b : list Z) : Prop := Forall byte_ok b ∧ length b = 32%nat.

(** The cosigners a combination may use: distinct shard IDs of a cluster. *)
Definition shard_set (total : Z) (ids : list Z) : Prop :=
  NoDup ids ∧ Forall (λ i, 1 ≤ i ≤ total) ids.

(** The shares of the chosen cosigners. *)
Definition pick (shares : list (list Z)) (ids : list Z) : list (list Z) :=
  (λ i, shares !!! Z.to_nat (i - 1)) <$> ids.

(** The challenge of a signature. *)
Definition challenge (R pub message : list Z) : Z := le_val (sha512 (R ++ pub ++ message)) mod orderL.

(** The sum of points, added one after the other as [AddElements] does. *)
Definition ed_sum (Ps : list (Z * Z)) (acc : Z * Z) : Z * Z := fold_left (λ acc P, padd P acc) Ps acc.

(** The largest cluster whose Lagrange coefficients always fit in an int64. *)
Definition max_total : Z := 12.

(** All shards of a cluster of 13; the coefficients with which they are combined, what the constant coefficient of the
    polynomial is multiplied by, and what the other coefficients add *)
Definition all_13 : list Z := seqZ 1 13.

Definition omega_13 (i : Z) : Z := calcOmega i all_13 (zfact 13).

Definition factor_13 : Z := zsum omega_13 all_13 * ModInverse (zfact 13) orderL.

Definition rest_13 (random : list Z) : Z := zsum (λ i, omega_13 i * (i * eval random i)) all_13 * ModInverse (zfact 13) orderL.

(** ** Byte strings and big integers *)

Lemma reverse_from_length i dst : length (reverse_from i dst) = length dst.
Proof.
  revert dst. induction i as [|i IH]; intros dst; [done|]. cbn [reverse_from].
  by rewrite IH, !length_insert.
Qed.

Lemma reverse_from_lookup i dst k :
  (2 * i ≤ length dst)%nat → (k < length dst)%nat →
  reverse_from i dst !! k =
  if decide (k < i ∨ length dst - i ≤ k)%nat then dst !! (length dst - 1 - k)%nat else dst !! k.
Proof.
  revert dst. induction i as [|i IH]; intros dst Hi Hk.
  { cbn [reverse_from]. rewrite decide_False by lia. done. }
  cbn [reverse_from]. rewrite IH by (rewrite !length_insert; lia). rewrite !length_insert.
  assert (∀ j, (j < length dst)%nat → dst !! j = Some (dst !!! j)) as Hd.
  { intros j Hj. by apply list_lookup_lookup_total_lt. }
  destruct (decide (k < i ∨ length dst - i ≤ k)%nat) as [H1|H1].
  - rewrite decide_True by lia. rewrite !list_lookup_insert_ne by lia. done.
  - destruct (decide (k = i)) as [->|H2].
    { rewrite decide_True by lia. rewrite list_lookup_insert_ne by lia.
      rewrite list_lookup_insert_eq by lia. rewrite (Hd (length dst - 1 - i)%nat) by lia. done. }
    destruct (decide (k = length dst - 1 - i)%nat) as [->|H3].
    { rewrite decide_True by lia. rewrite list_lookup_insert_eq by (rewrite length_insert; lia).
      replace (length dst - 1 - (length dst - 1 - i))%nat with i by lia. by rewrite Hd by lia. }
    rewrite decide_False by lia. rewrite !list_lookup_insert_ne by lia. done.
Qed.

Lemma Reverse_reverse src : Reverse src = reverse src.
Proof.
  unfold Reverse. apply list_eq_same_length with (length src);
    [by rewrite length_reverse|by rewrite reverse_from_length|].
  intros k x y Hk Hx Hy. pose proof (Nat.div_mod_eq (length src) 2) as Hm.
  pose proof (Nat.mod_upper_bound (length src) 2 ltac:(lia)) as Hb.
  rewrite reverse_from_lookup in Hx by lia. rewrite reverse_lookup in Hy by lia.
  replace (length src - 1 - k)%nat with (length src - S k)%nat in Hx by lia.
  destruct (decide _) as [H|H] in Hx; [congruence|].
  replace (length src - S k)%nat with k in Hy by lia. congruence.
Qed.

Lemma BytesToBig_val b : BytesToBig b = le_val b.
Proof. unfold BytesToBig, big_SetBytes. by rewrite Reverse_reverse, reverse_involutive. Qed.

Lemma byte_length_bound x : 0 ≤ x → x < 256 ^ Z.of_nat (byte_length x).
Proof.
  intros Hx. unfold byte_length. destruct (Z.eqb_spec x 0) as [->|Hne]; [done|].
  pose proof (Z.log2_spec x ltac:(lia)) as [_ Hl].
  assert (0 ≤ Z.log2 x) by apply Z.log2_nonneg.
  pose proof (Z.div_mod (Z.log2 x) 8 ltac:(lia)). pose proof (Z.mod_pos_bound (Z.log2 x) 8).
  rewrite Z2Nat.id by (pose proof (Z.div_pos (Z.log2 x) 8); lia).
  eapply Z.lt_le_trans; [exact Hl|]. change 256 with (2 ^ 8).
  rewrite <- Z.pow_mul_r by (pose proof (Z.div_pos (Z.log2 x) 8); lia).
  apply Z.pow_le_mono_r; lia.
Qed.

Lemma byte_length_32 x : 0 ≤ x < 2 ^ 256 → (byte_length x ≤ 32)%nat.
Proof.
  intros [Hx Hb]. unfold byte_length. destruct (Z.eqb_spec x 0) as [->|Hne]; [lia|].
  assert (Z.log2 x < 256) by (apply Z.log2_lt_pow2; lia).
  assert (Z.log2 x / 8 < 32) by (apply Z.div_lt_upper_bound; lia).
  pose proof (Z.div_pos (Z.log2 x) 8 (Z.log2_nonneg x)). lia.
Qed.

Lemma scalar_out_bytes x : 0 ≤ x < 2 ^ 256 → scalar_out x = le_bytes 32 x.
Proof.
  intros Hx. pose proof (byte_length_32 x Hx) as Hl.
  unfold scalar_out, copy_into, big_Bytes. rewrite Reverse_reverse, reverse_involutive.
  rewrite le_bytes_length, take_ge by (rewrite le_bytes_length; lia).
  apply le_val_inj.
  - apply Forall_app. split; [apply le_bytes_ok|]. apply list.Forall_replicate. unfold byte_ok. lia.
  - apply le_bytes_ok.
  - rewrite length_app, !le_bytes_length, length_replicate. lia.
  - rewrite le_val_app, le_val_zeros, !le_val_bytes, Z.mul_0_r, Z.add_0_r.
    rewrite (Z.mod_small x (256 ^ Z.of_nat 32)) by lia. apply Z.mod_small.
    split; [lia|]. apply byte_length_bound. lia.
Qed.

Lemma orderL_small : 0 < orderL < 2 ^ 256.
Proof. done. Qed.

Lemma scalar_out_mod x : scalar_out (x mod orderL) = le_bytes 32 (x mod orderL).
Proof.
  apply scalar_out_bytes. pose proof (Z.mod_pos_bound x orderL ltac:(done)).
  pose proof orderL_small. lia.
Qed.

Lemma scalar_le_bytes x : scalar (le_bytes 32 x).
Proof. split; [apply le_bytes_ok|apply le_bytes_length]. Qed.

Lemma le_val_scalar_mod x : le_val (le_bytes 32 (x mod orderL)) = x mod orderL.
Proof. by destruct (le_bytes_mod_order x) as (_ & _ & ? & _). Qed.

(** ** Dealing *)

Lemma random_coeffs_length {E} rnd from n l :
  random_coeffs (E:=E) rnd from n = Ok l → length l = n.
Proof.
  revert from l. induction n as [|n IH]; intros from l; cbn [random_coeffs]; [by intros [= <-]|].
  destruct (rnd from); [|done]. destruct (random_coeffs rnd (S from) n) eqn:Er; [|done|done].
  intros [= <-]. cbn. f_equal. by eapply IH.
Qed.

Lemma share_loop_eval coeffs x j acc :
  (j ≤ length coeffs)%nat →
  share_loop coeffs x j acc ≡⟨ orderL ⟩ eval (take j coeffs) x + x ^ Z.of_nat j * acc.
Proof.
  revert acc. induction j as [|j IH]; intros acc Hj; cbn [share_loop].
  { rewrite take_0. cbn [eval]. rewrite Z.pow_0_r, Z.mul_1_l, Z.add_0_l. done. }
  rewrite IH by lia. rewrite cong_mod.
  destruct (lookup_lt_is_Some_2 coeffs j ltac:(lia)) as [c Hc].
  rewrite (list_lookup_total_correct _ _ _ Hc), (take_S_r _ _ _ Hc), eval_app. cbn [eval].
  rewrite length_take, Nat.min_l, Nat2Z.inj_succ, Z.pow_succ_r by lia.
  by match goal with |- cong _ ?a ?b => replace a with b by lia end.
Qed.

Lemma share_loop_range coeffs x j acc :
  0 ≤ acc < 2 ^ 256 ∨ j ≠ 0%nat → 0 ≤ share_loop coeffs x j acc < 2 ^ 256.
Proof.
  revert acc. induction j as [|j IH]; intros acc H; cbn [share_loop]; [by destruct H|].
  apply IH. left. pose proof orderL_small.
  pose proof (Z.mod_pos_bound (acc * x + coeffs !!! j) orderL ltac:(lia)). lia.
Qed.

(** A share is the polynomial's value at the shard ID. *)
Lemma share_of_spec secret random i :
  0 ≤ secret < 2 ^ 256 → 0 ≤ i < 255 →
  scalar (share_of (secret :: random) i) ∧
  le_val (share_of (secret :: random) i) ≡⟨ orderL ⟩ eval (secret :: random) (i + 1).
Proof.
  intros Hs Hi. unfold share_of. set (coeffs := secret :: random).
  assert (u8 (i + 1) = i + 1) as -> by (unfold uint; rewrite Z.mod_small; lia).
  set (k := (length coeffs - 1)%nat).
  assert (0 ≤ share_loop coeffs (i + 1) k (coeffs !!! k) < 2 ^ 256) as Hr.
  { apply share_loop_range. destruct random; [left; exact Hs|right; subst k coeffs; cbn; lia]. }
  rewrite scalar_out_bytes by done. split; [apply scalar_le_bytes|].
  rewrite le_val_bytes, Z.mod_small by done. rewrite share_loop_eval by lia.
  destruct (lookup_lt_is_Some_2 coeffs k ltac:(subst k coeffs; cbn; lia)) as [c Hc].
  rewrite (list_lookup_total_correct _ _ _ Hc).
  rewrite <- (take_drop_middle coeffs k c Hc) at 2.
  rewrite eval_app, length_take, Nat.min_l by lia. cbn [eval].
  rewrite (drop_ge coeffs (S k)) by (subst k coeffs; cbn; lia). cbn [eval].
  by rewrite Z.mul_0_r, Z.add_0_r.
Qed.

Lemma DealShares_Ok {E} rnd secret threshold total shares :
  DealShares (E:=E) rnd secret threshold total = Ok shares → 0 ≤ threshold →
  ∃ random, length random = (Z.to_nat threshold - 1)%nat ∧ 1 ≤ threshold ∧
    shares = share_of (le_val secret :: random) <$> seqZ 0 total.
Proof.
  unfold DealShares. destruct (Z.eqb_spec threshold 0) as [->|Hne]; [done|].
  destruct (random_coeffs rnd 1 _) as [random| |] eqn:Er; [|done|done]. cbn [result_bind].
  intros [= <-] Ht. exists random. rewrite BytesToBig_val. split; [by eapply random_coeffs_length|].
  split; [lia|done].
Qed.

(** Dealt shares are scalars, and the values of one polynomial of [threshold]
    coefficients whose value at 0 is the secret. *)
Lemma DealShares_polynomial {E} rnd secret threshold total shares :
  DealShares (E:=E) rnd secret threshold total = Ok shares → 0 ≤ threshold → 0 ≤ total < 256 →
  scalar secret →
  ∃ p, polynomial (Z.to_nat threshold) p ∧ p 0 = le_val secret ∧ length shares = Z.to_nat total ∧
    ∀ i, 1 ≤ i ≤ total → ∃ share, shares !! Z.to_nat (i - 1) = Some share ∧
      scalar share ∧ le_val share ≡⟨ orderL ⟩ p i.
Proof.
  intros H Ht Hn [Hs1 Hs2]. destruct (DealShares_Ok _ _ _ _ _ H Ht) as (random & Hl & Ht' & ->).
  pose proof (le_val_range secret Hs1) as Hv. rewrite Hs2 in Hv.
  exists (eval (le_val secret :: random)). split; [|split; [|split]].
  - exists (le_val secret :: random). split; [cbn; lia|done].
  - cbn [eval]. lia.
  - rewrite length_fmap, length_seqZ. done.
  - intros i Hi. exists (share_of (le_val secret :: random) (i - 1)).
    destruct (share_of_spec (le_val secret) random (i - 1)) as [H1 H2]; [exact Hv|lia|].
    split; [|split; [done|]].
    + rewrite list_lookup_fmap, lookup_seqZ_lt by lia. by rewrite Z2Nat.id, Z.add_0_l by lia.
    + by rewrite Z.sub_add in H2.
Qed.

(** ** Lagrange coefficients on int64 *)

Lemma fold_skip {A} (f : A → Z → A) x l a :
  fold_left (λ r c, if negb (c =? x) then f r c else r) l a = fold_left f (others x l) a.
Proof.
  revert a. induction l as [|c l IH]; intros a; [done|]. cbn [fold_left]. unfold others.
  destruct (Z.eqb_spec c x) as [->|Hne]; cbn [negb].
  - rewrite filter_cons_False by (intros H; by apply H). apply IH.
  - rewrite filter_cons_True by done. apply IH.
Qed.

Lemma zprod_id_pos l : Forall (λ c, 1 ≤ c) l → 1 ≤ zprod id l.
Proof. induction 1 as [|c l Hc _ IH]; cbn; [lia|]. unfold id in *. nia. Qed.

(** The multiplications do not wrap when the full product fits. *)
Lemma omega_products l a :
  0 ≤ a → Forall (λ c, 1 ≤ c) l → a * zprod id l < 2 ^ 63 →
  fold_left (λ r c, i64 (r * c)) l a = a * zprod id l.
Proof.
  intros Ha Hl. revert a Ha. induction Hl as [|c l Hc Hl IH]; intros a Ha Hb;
    cbn [fold_left zprod] in *; [lia|]. change (id c) with c in *. pose proof (zprod_id_pos l Hl).
  assert (0 ≤ a * c) by (apply Z.mul_nonneg_nonneg; lia).
  assert (a * c * 1 ≤ a * c * zprod id l) by (apply Z.mul_le_mono_nonneg_l; lia).
  rewrite sint_small by (unfold in_sint; lia). rewrite IH; lia.
Qed.

(** The divisions are exact when the product of the divisors divides the value. *)
Lemma omega_quotients l x a :
  - 2 ^ 63 < a < 2 ^ 63 → Forall (λ c, 1 ≤ c < 256) l → 1 ≤ x < 256 → x ∉ l →
  (zprod (λ c, c - x) l | a) →
  fold_left (λ r c, i64 (Z.quot r (i64 (c - x)))) l a * zprod (λ c, c - x) l = a.
Proof.
  intros Ha Hl Hx. revert a Ha. induction Hl as [|c l Hc Hl IH]; intros a Ha Hxl [q Hq]; cbn; [lia|].
  apply not_elem_of_cons in Hxl as [Hne Hxl]. cbn in Hq.
  rewrite (sint_small 64 (c - x)) by (unfold in_sint; lia).
  assert (Z.quot a (c - x) = q * zprod (λ c, c - x) l) as E.
  { rewrite Hq. replace (q * ((c - x) * zprod (λ c, c - x) l)) with
      (q * zprod (λ c, c - x) l * (c - x)) by lia. apply Z.quot_mul. lia. }
  assert (Z.abs (Z.quot a (c - x)) ≤ Z.abs a).
  { rewrite E, Hq, !Z.abs_mul. pose proof (Z.abs_nonneg q).
    pose proof (Z.abs_nonneg (zprod (λ c, c - x) l)). nia. }
  rewrite (sint_small 64 (Z.quot _ _)) by (unfold in_sint; lia).
  rewrite (Z.mul_comm (c - x)), Z.mul_assoc, IH; [rewrite E, Hq; lia|lia|done|].
  rewrite E. by exists q.
Qed.

Lemma shard_set_others total ids id :
  shard_set total ids → shard_set total (others id ids).
Proof.
  intros [Hn Hr]. split; [by apply list.NoDup_filter|].
  rewrite list.Forall_forall in Hr |- *. intros x [_ Hx]%elem_of_others. auto.
Qed.

(** Up to [max_total] cosigners [calcOmega] is the Lagrange coefficient with its
    denominator cleared by [total!]. *)
Lemma calcOmega_spec total ids id :
  total ≤ max_total → shard_set total ids → id ∈ ids →
  calcOmega id ids (zfact (Z.to_nat total)) * basis ids id id
  = zfact (Z.to_nat total) * basis ids id 0.
Proof.
  intros Ht Hs Hin. destruct (shard_set_others total ids id Hs) as [Hn Hr].
  assert (1 ≤ id ≤ total) as Hid by (destruct Hs as [_ Hs]; rewrite list.Forall_forall in Hs; auto).
  unfold max_total in Ht. set (d := zfact (Z.to_nat total)).
  assert (1 ≤ d ≤ 479001600) as Hd.
  { split; [pose proof (zfact_pos (Z.to_nat total)); subst d; lia|].
    change 479001600 with (zfact 12). apply Z.divide_pos_le; [apply zfact_pos|].
    apply zfact_divide. lia. }
  assert (zprod Datatypes.id (others id ids) ≤ 479001600) as Hp.
  { change 479001600 with (zfact 12). apply Z.divide_pos_le; [apply zfact_pos|].
    apply distinct_product; [done|]. eapply list.Forall_impl; [exact Hr|]. cbn. lia. }
  assert (Forall (λ c, 1 ≤ c) (others id ids)) as H1.
  { eapply list.Forall_impl; [exact Hr|]. cbn. lia. }
  pose proof (zprod_id_pos _ H1).
  assert (1 * 1 ≤ d * zprod Datatypes.id (others id ids) ≤ 479001600 * 479001600) as Hdp
    by (split; apply Z.mul_le_mono_nonneg; lia).
  unfold calcOmega. rewrite !fold_skip, (sint_small 64 d) by (unfold in_sint; lia).
  rewrite omega_products by (done || lia).
  unfold basis. rewrite (zprod_ext (λ y, y - 0) Datatypes.id) by (intros; unfold Datatypes.id; lia).
  apply omega_quotients; [lia| |lia| |].
  - eapply list.Forall_impl; [exact Hr|]. cbn. lia.
  - intros [? _]%elem_of_others. done.
  - apply Z.divide_mul_l, differences_product; [done| | |lia].
    + eapply list.Forall_impl; [exact Hr|]. cbn. lia.
    + intros [? _]%elem_of_others. done.
Qed.

(** ** Combining *)

Lemma combine_loop_spec {E} delta all ids shares (p : Z → Z) acc :
  Forall2 (λ i share, le_val share ≡⟨ orderL ⟩ p i) ids shares →
  ∃ r, combine_loop (E:=E) delta all ids shares acc = Ok r ∧
    r ≡⟨ orderL ⟩ acc + zsum (λ i, calcOmega i all delta * p i) ids.
Proof.
  intros H. revert acc. induction H as [|i share ids shares Hi _ IH]; intros acc.
  { exists acc. split; [done|]. cbn [zsum]. by rewrite Z.add_0_r. }
  cbn [combine_loop zsum]. destruct (IH (acc + (BytesToBig share * calcOmega i all delta) mod orderL))
    as (r & -> & Hr). exists r. split; [done|]. rewrite Hr, cong_mod, BytesToBig_val, Hi.
  rewrite (Z.mul_comm (p i)), Z.add_assoc. done.
Qed.

Lemma ModInverse_zfact n : 0 ≤ n ≤ max_total →
  zfact (Z.to_nat n) * ModInverse (zfact (Z.to_nat n)) orderL ≡⟨ orderL ⟩ 1.
Proof.
  unfold max_total. intros Hn. set (d := zfact (Z.to_nat n)).
  assert (Z.gcd d orderL = 1) as Hg.
  { apply Z.divide_1_r_nonneg; [apply Z.gcd_nonneg|].
    change 1 with (Z.gcd (zfact 12) orderL). apply Z.gcd_greatest; [|apply Z.gcd_divide_r].
    transitivity d; [apply Z.gcd_divide_l|]. apply zfact_divide. lia. }
  unfold ModInverse. rewrite Hg, Z.eqb_refl, Z.mul_comm. unfold cong.
  by apply Z.invmod_coprime.
Qed.

(** Combining the values of a polynomial with at most as many coefficients as there
    are shares gives its value at 0. *)
Lemma CombineShares_spec {E} total ids shares p :
  0 ≤ total ≤ max_total → shard_set total ids → polynomial (length ids) p →
  Forall2 (λ i share, le_val share ≡⟨ orderL ⟩ p i) ids shares →
  CombineShares (E:=E) total ids shares = Ok (le_bytes 32 (p 0 mod orderL)).
Proof.
  intros Ht Hs (f & Hf & Hp) Hsh. unfold CombineShares. set (d := zfact (Z.to_nat total)).
  destruct (combine_loop_spec (E:=E) d ids ids shares p 0 Hsh) as (r & -> & Hr).
  cbn [result_bind]. rewrite scalar_out_mod. do 2 f_equal. rewrite Z.add_0_l in Hr.
  change (r * ModInverse d orderL ≡⟨ orderL ⟩ p 0). rewrite Hr.
  rewrite (zsum_ext _ (λ i, calcOmega i ids d * eval f i)) by (intros; by rewrite Hp).
  rewrite (interpolate_at_0 ids (proj1 Hs) f d);
    [|done|intros x Hx; apply (calcOmega_spec total); [lia|done..]].
  pose proof (ModInverse_zfact total Ht) as Hi. fold d in Hi.
  rewrite Hp, (Z.mul_comm d), <- Z.mul_assoc, Hi. by rewrite Z.mul_1_r.
Qed.

Lemma pick_Forall2 total (shares : list (list Z)) ids (P : Z → list Z → Prop) :
  Forall (λ i, 1 ≤ i ≤ total) ids →
  (∀ i, 1 ≤ i ≤ total → ∃ share, shares !! Z.to_nat (i - 1) = Some share ∧ P i share) →
  Forall2 P ids (pick shares ids).
Proof.
  intros Hr H. unfold pick. induction Hr as [|i ids Hi _ IH]; [constructor|].
  constructor; [|done]. destruct (H i Hi) as (share & Hl & Hp).
  by rewrite (list_lookup_total_correct _ _ _ Hl).
Qed.

Lemma random_coeffs_total {E} rnd from n :
  (∀ i, is_Some (rnd i)) → ∃ l, random_coeffs (E:=E) rnd from n = Ok l.
Proof.
  intros H. revert from. induction n as [|n IH]; intros from; cbn [random_coeffs]; [by eexists|].
  destruct (H from) as [r ->]. destruct (IH (S from)) as [l ->]. by eexists.
Qed.

Lemma DealShares_total {E} rnd secret threshold total :
  (∀ i, is_Some (rnd i)) → threshold ≠ 0 →
  ∃ shares, DealShares (E:=E) rnd secret threshold total = Ok shares.
Proof.
  intros H Ht. unfold DealShares. destruct (Z.eqb_spec threshold 0); [done|].
  destruct (random_coeffs_total (E:=E) rnd 1 (Z.to_nat threshold - 1) H) as [l ->]. by eexists.
Qed.

(** ** Adding and signing *)

Lemma AddScalars_spec scalars :
  AddScalars scalars = le_bytes 32 (zsum le_val scalars mod orderL).
Proof.
  unfold AddScalars. rewrite scalar_out_mod. do 2 f_equal.
  rewrite <- (Z.add_0_l (zsum _ _)). generalize 0.
  induction scalars as [|b l IH]; intros a; cbn [fold_left zsum]; [lia|].
  rewrite IH, BytesToBig_val. lia.
Qed.

Lemma SignWithShare_spec {E} message share eph pub R :
  scalar share → scalar eph →
  SignWithShare (E:=E) message share eph pub R
  = Ok (le_bytes 32 ((challenge R pub message * le_val share + le_val eph) mod orderL)).
Proof.
  intros [Hs Ls] [He Le]. unfold SignWithShare. rewrite Ls, Le. cbn [Nat.ltb Nat.leb orb].
  rewrite !take_ge by lia.
  rewrite ScReduce_spec by (apply sha512_bytes || apply sha512_length).
  destruct (le_bytes_mod_order (le_val (sha512 (R ++ pub ++ message)))) as (H1 & H2 & H3 & _).
  rewrite ScMulAdd_spec by done. by rewrite H3.
Qed.

(** ** Group elements *)

#[local] Opaque Z.pow p25519 d_val GeScalarMultBase ext_FromBytes ext_ToBytes GeAdd ext_ToCached comp_ToExtended ScReduce orderL ed_mul ed_add.

Lemma copy_into_exact n s : length s = n → copy_into n s = s.
Proof. intros H. unfold copy_into. rewrite take_ge, H, Nat.sub_diag by lia. cbn. apply app_nil_r. Qed.

Lemma copy_into_64 s :
  Forall byte_ok s → length s = 32%nat →
  Forall byte_ok (copy_into 64 s) ∧ length (copy_into 64 s) = 64%nat ∧ le_val (copy_into 64 s) = le_val s.
Proof.
  intros Hs Hl. unfold copy_into. rewrite take_ge, Hl by lia. split; [|split].
  - apply Forall_app_2; [exact Hs|]. apply Forall_replicate. unfold byte_ok. lia.
  - rewrite length_app, length_replicate, Hl. reflexivity.
  - rewrite le_val_app, le_val_zeros. lia.
Qed.

Lemma ScalarMultiplyBase_spec s :
  scalar s → ScalarMultiplyBase s = ed_bytes (pmul (le_val s) B_point).
Proof.
  intros [Hs Hl]. unfold ScalarMultiplyBase. destruct (copy_into_64 s Hs Hl) as (C1 & C2 & C3).
  cbv zeta. rewrite ScReduce_spec, C3 by assumption.
  destruct (le_bytes_mod_order (le_val s)) as (H1 & H2 & H3 & _).
  assert (le_val (le_bytes 32 (le_val s mod orderL)) < 2 ^ 255) as Hlt.
  { rewrite H3. pose proof (Z.mod_pos_bound (le_val s) orderL ltac:(reflexivity)).
    assert (orderL < 2 ^ 255) by reflexivity. lia. }
  pose proof (GeScalarMultBase_spec _ H1 H2 Hlt) as HG. rewrite H3, pmul_mod_order in HG.
  rewrite (ext_ToBytes_spec _ _ HG). apply copy_into_exact, ed_bytes_ok.
Qed.

Lemma add_elements_spec elements Ps out P0 :
  Forall2 (λ e P, e = ed_bytes P ∧ curve P ∧ reduced_point p25519 P) elements Ps →
  curve P0 → is_comp out P0 →
  is_comp (add_elements out elements) (ed_sum Ps P0) ∧ curve (ed_sum Ps P0).
Proof.
  intros H. revert out P0. induction H as [|e P elements Ps (-> & C & R) _ IH]; intros out P0 C0 H0; [by split|].
  cbn [add_elements ed_sum fold_left]. destruct (ed_bytes_ok P) as [_ Hl]. rewrite Hl. cbn [Nat.eqb].
  rewrite copy_into_exact by exact Hl. destruct (FromBytes_ed_bytes FeZero P C R) as [Hp _].
  apply IH; [apply on_curve_add; assumption|].
  apply GeAdd_spec; [exact C|exact C0|exact Hp|]. apply ext_ToCached_spec, comp_ToExtended_spec, H0.
Qed.

Lemma AddElements_spec elements Ps :
  Forall2 (λ e P, e = ed_bytes P ∧ curve P ∧ reduced_point p25519 P) elements Ps →
  AddElements elements = ed_bytes (ed_sum Ps ed_zero).
Proof.
  intros H. unfold AddElements. cbv zeta.
  assert (is_comp (GeMixedAdd ext_Zero pre_Zero) ed_zero) as H0.
  { assert (padd ed_zero ed_zero = ed_zero) as E.
    { apply (reduced_eq (p := p25519)); [apply ed_add_reduced|apply reduced_zero|].
      apply ed_add_0_r, on_curve_zero. }
    rewrite <- E. apply GeMixedAdd_spec;
      [apply on_curve_zero|apply on_curve_zero|apply ext_Zero_spec|apply pre_Zero_spec]. }
  destruct (add_elements_spec _ _ _ _ H on_curve_zero H0) as [HC _].
  rewrite (ext_ToBytes_spec _ _ (comp_ToExtended_spec _ _ HC)). apply copy_into_exact, ed_bytes_ok.
Qed.

Lemma ed_sum_multiples ns m :
  ed_sum ((λ n, pmul n B_point) <$> ns) (pmul m B_point) = pmul (zsum id ns + m) B_point.
Proof.
  revert m. induction ns as [|n ns IH]; intros m; [done|]. cbn [fmap list_fmap ed_sum fold_left zsum].
  unfold ed_sum in IH. rewrite <- ed_mul_add by exact curve_B. rewrite IH. f_equal. unfold id. lia.
Qed.

Lemma scalar_elements scalars :
  Forall scalar scalars →
  Forall2 (λ e P, e = ed_bytes P ∧ curve P ∧ reduced_point p25519 P)
    (ScalarMultiplyBase <$> scalars) ((λ n, pmul n B_point) <$> (le_val <$> scalars)).
Proof.
  induction 1 as [|s l Hs _ IH]; cbn [fmap list_fmap]; constructor; [|exact IH].
  split; [apply ScalarMultiplyBase_spec, Hs|]. split; [apply on_curve_mul, curve_B|apply ed_mul_reduced].
Qed.

Lemma zsum_le_val scalars : zsum id (le_val <$> scalars) = zsum le_val scalars.
Proof. induction scalars as [|s l IH]; [done|]. cbn [fmap list_fmap zsum]. by rewrite IH. Qed.

Lemma AddElements_multiples scalars :
  Forall scalar scalars →
  AddElements (ScalarMultiplyBase <$> scalars) = ed_bytes (pmul (zsum le_val scalars) B_point).
Proof.
  intros H. rewrite (AddElements_spec _ _ (scalar_elements scalars H)).
  rewrite <- (ed_mul_0 (p := p25519) (d := d_val) B_point), ed_sum_multiples, zsum_le_val, Z.add_0_r.
  reflexivity.
Qed.

(** ** Properties *)

(** C13: Shamir's scheme: whatever random coefficients are drawn, the shares that
    [DealShares] deals can be combined by any set of distinct shards as large as the
    threshold, and [CombineShares] returns the secret modulo the group order.  This holds
    for up to 12 shards, where the int64 arithmetic of the Lagrange coefficients is exact. *)
Theorem shamir_roundtrip {E} rnd secret threshold total ids :
  (∀ i, is_Some (rnd i)) → scalar secret → 1 ≤ threshold ≤ total → total ≤ max_total →
  shard_set total ids → threshold ≤ Z.of_nat (length ids) →
  ∃ shares, DealShares (E:=E) rnd secret threshold total = Ok shares
    ∧ length shares = Z.to_nat total ∧ Forall scalar shares
    ∧ CombineShares (E:=E) total ids (pick shares ids) = Ok (le_bytes 32 (le_val secret mod orderL)).
Proof.
  intros Hr Hs Ht Hm Hids Hlen. destruct (DealShares_total (E:=E) rnd secret threshold total Hr) as [shares HD]; [lia|].
  unfold max_total in Hm.
  destruct (DealShares_polynomial rnd secret threshold total shares HD ltac:(lia) ltac:(lia) Hs)
    as (p & Hp & Hp0 & Hl & Hsh).
  exists shares. split; [exact HD|]. split; [exact Hl|]. split.
  - apply Forall_lookup. intros i sh Hi. pose proof (lookup_lt_Some _ _ _ Hi).
    destruct (Hsh (Z.of_nat i + 1) ltac:(lia)) as (sh' & Hi' & Hsc & _).
    replace (Z.to_nat (Z.of_nat i + 1 - 1)) with i in Hi' by lia. congruence.
  - rewrite (CombineShares_spec total ids _ p); [by rewrite Hp0|unfold max_total; lia|exact Hids| |].
    + destruct Hp as (f & Hf & Hx). exists f. split; [lia|exact Hx].
    + apply (pick_Forall2 total); [apply Hids|]. intros i Hi.
      destruct (Hsh i Hi) as (sh & H1 & _ & H2). exists sh. split; assumption.
Qed.

Lemma shamir_roundtrip_witness :
  ∃ shares, DealShares (E:=unit) (λ _, Some 5) (9 :: replicate 31 0) 2 3 = Ok shares
    ∧ CombineShares (E:=unit) 3 [3; 1] (pick shares [3; 1]) = Ok (9 :: replicate 31 0).
Proof.
  destruct (shamir_roundtrip (E:=unit) (λ _, Some 5) (9 :: replicate 31 0) 2 3 [3; 1])
    as (shares & H1 & _ & _ & H2).
  - by eexists.
  - split; [repeat constructor; vm_compute; congruence|reflexivity].
  - lia.
  - vm_compute. congruence.
  - split; [|repeat constructor; lia]. apply (bool_decide_unpack _). vm_compute. exact I.
  - reflexivity.
  - exists shares. split; [exact H1|]. rewrite H2. reflexivity.
Defined.

(** *** From 13 shards on *)

(** The factor by which combining all 13 shards multiplies the constant coefficient *)
Lemma combine_13 {E} rnd secret threshold shares :
  DealShares (E:=E) rnd secret threshold 13 = Ok shares → 1 ≤ threshold → scalar secret →
  ∃ random, random_coeffs (E:=E) rnd 1 (Z.to_nat threshold - 1) = Ok random ∧
    ∀ out, CombineShares (E:=E) 13 all_13 shares = Ok out →
      le_val out ≡⟨ orderL ⟩ le_val secret * factor_13 + rest_13 random.
Proof.
  intros HD Ht Hs. unfold DealShares in HD. destruct (Z.eqb_spec threshold 0); [lia|].
  destruct (random_coeffs rnd 1 _) as [random| |] eqn:Er; [|done..]. cbn [result_bind] in HD.
  assert (shares = share_of (BytesToBig secret :: random) <$> seqZ 0 13) as -> by congruence.
  exists random. split; [done|]. intros out Hc.
  destruct Hs as [Hs1 Hs2]. pose proof (le_val_range secret Hs1) as Hv. rewrite Hs2 in Hv. rewrite BytesToBig_val in Hc.
  destruct (combine_loop_spec (E:=E) (zfact 13) all_13 all_13 (share_of (le_val secret :: random) <$> seqZ 0 13) (eval (le_val secret :: random)) 0)
    as (r & Hr1 & Hr2).
  { apply Forall2_same_length_lookup_2; [done|]. intros i x y Hx Hy.
    apply lookup_seqZ in Hx as [-> Hx]. apply list_lookup_fmap_Some in Hy as (z & -> & [-> Hy]%lookup_seqZ).
    destruct (share_of_spec (le_val secret) random (0 + Z.of_nat i)) as [_ H]; [exact Hv|lia|].
    by replace (1 + Z.of_nat i) with (0 + Z.of_nat i + 1) by lia. }
  unfold CombineShares in Hc. cbv zeta in Hc. change (zfact (Z.to_nat 13)) with (zfact 13) in Hc. rewrite Hr1 in Hc. cbn [result_bind] in Hc.
  injection Hc as <-. rewrite scalar_out_mod, le_val_scalar_mod, cong_mod, Hr2.
  unfold factor_13, rest_13. rewrite (zsum_ext _ (λ i, le_val secret * omega_13 i + omega_13 i * (i * eval random i))).
  2: { intros i _. unfold omega_13. cbn [eval]. lia. }
  rewrite zsum_plus, zsum_scale. match goal with |- cong _ ?a ?b => replace a with b by lia end. done.
Qed.

(** C40: a cluster of 13 shards cannot be trusted to sign.  The int64 product of [calcOmega] for all 13 shards overflows for the
    shards 1 to 4, and for exactly these its result is not the Lagrange coefficient.  So all 13 shares combine to a wrong
    scalar: whatever the threshold and the random coefficients, at most one secret modulo the group order is what its shares combine
    to. *)
Theorem lagrange_overflow {E} :
  (∀ id, 1 ≤ id ≤ 13 →
     (2 ^ 63 ≤ zfact 13 * zprod Datatypes.id (others id all_13) ↔ id ≤ 4)
     ∧ (calcOmega id all_13 (zfact 13) * basis all_13 id id = zfact 13 * basis all_13 id 0 ↔ 4 < id))
  ∧ ∀ rnd threshold secret1 secret2 shares1 shares2,
      1 ≤ threshold ≤ 13 → scalar secret1 → scalar secret2 →
      DealShares (E:=E) rnd secret1 threshold 13 = Ok shares1 → DealShares (E:=E) rnd secret2 threshold 13 = Ok shares2 →
      CombineShares (E:=E) 13 all_13 shares1 = Ok (le_bytes 32 (le_val secret1 mod orderL)) →
      CombineShares (E:=E) 13 all_13 shares2 = Ok (le_bytes 32 (le_val secret2 mod orderL)) →
      le_val secret1 ≡⟨ orderL ⟩ le_val secret2.
Proof.
  split.
  - intros id Hid. assert (id ∈ all_13) as Hin by (apply elem_of_seqZ; lia). revert id Hin Hid.
    refine (proj1 (list.Forall_forall _ _) _). repeat (constructor; [intros _; split; vm_compute; intuition congruence|]). constructor.
  - intros rnd threshold secret1 secret2 shares1 shares2 Ht S1 S2 D1 D2 C1 C2.
    destruct (combine_13 _ _ _ _ D1 ltac:(lia) S1) as (random & R1 & H1). pose proof (H1 _ C1) as E1.
    destruct (combine_13 _ _ _ _ D2 ltac:(lia) S2) as (random2 & R2 & H2). pose proof (H2 _ C2) as E2.
    rewrite R1 in R2. injection R2 as <-. rewrite le_val_scalar_mod, cong_mod in E1, E2.
    apply cong_divide; [done|]. apply (Z.gauss _ (factor_13 - 1)); [|vm_compute; reflexivity].
    assert (le_val secret1 - le_val secret2 ≡⟨ orderL ⟩ (le_val secret1 - le_val secret2) * factor_13) as H.
    { rewrite E1, E2 at 1. match goal with |- cong _ ?a ?b => replace a with b by lia end. done. }
    apply cong_divide in H; [|done]. destruct H as [q Hq]. exists (- q). lia.
Qed.

Lemma lagrange_overflow_witness :
  ∃ shares out, DealShares (E:=unit) (λ _, Some 1) (1 :: replicate 31 0) 13 13 = Ok shares
    ∧ CombineShares (E:=unit) 13 all_13 shares = Ok out ∧ out ≠ 1 :: replicate 31 0
    ∧ calcOmega 1 all_13 (zfact 13) * basis all_13 1 1 ≠ zfact 13 * basis all_13 1 0.
Proof.
  eexists _, _. split; [vm_compute; reflexivity|]. split; [vm_compute; reflexivity|]. split; [vm_compute; discriminate|].
  intros H. pose proof (proj1 (proj2 (proj1 (lagrange_overflow (E:=unit)) 1 ltac:(lia))) H). lia.
Defined.

(** Multiplying by the base point turns the addition of scalars into the addition of
    elements: adding the elements of any scalars is the element of their sum. *)
Theorem element_homomorphism scalars :
  Forall scalar scalars →
  AddElements (ScalarMultiplyBase <$> scalars) = ScalarMultiplyBase (AddScalars scalars)
  ∧ AddScalars scalars = le_bytes 32 (zsum le_val scalars mod orderL)
  ∧ ScalarMultiplyBase (AddScalars scalars) = ed_bytes (pmul (zsum le_val scalars) B_point).
Proof.
  intros H. assert (ScalarMultiplyBase (AddScalars scalars) = ed_bytes (pmul (zsum le_val scalars) B_point)) as E.
  { rewrite AddScalars_spec, ScalarMultiplyBase_spec by apply scalar_le_bytes.
    rewrite le_val_scalar_mod, pmul_mod_order. reflexivity. }
  split; [|split; [apply AddScalars_spec|exact E]]. rewrite E. apply AddElements_multiples, H.
Qed.

Lemma element_homomorphism_witness :
  let a := 9 :: replicate 31 0 in
  AddElements [ScalarMultiplyBase a; ScalarMultiplyBase a] = ScalarMultiplyBase (AddScalars [a; a]).
Proof.
  intros a. refine (proj1 (element_homomorphism [a; a] _)).
  repeat constructor; vm_compute; congruence.
Defined.

Lemma clamp_shape (digest : list Z) :
  length digest = 64%nat →
  ∃ d0 m d31 rest, digest = d0 :: m ++ d31 :: rest ∧ length m = 30%nat.
Proof.
  destruct digest as [|d0 l]; intros Hl; [done|]. injection Hl as Hl.
  destruct (lookup_lt_is_Some_2 l 30) as [d31 Hd]; [lia|].
  exists d0, (take 30 l), d31, (drop 31 l). rewrite take_drop_middle by exact Hd.
  split; [reflexivity|]. rewrite length_take. lia.
Qed.

Lemma clamp_at d0 m d31 (rest : list Z) f g h :
  length m = 30%nat →
  let l := d0 :: m ++ d31 :: rest in
  let l := <[0%nat := f (l !!! 0%nat)]> l in
  let l := <[31%nat := g (l !!! 31%nat)]> l in
  let l := <[31%nat := h (l !!! 31%nat)]> l in
  take 32 l = f d0 :: m ++ [h (g d31)].
Proof.
  intros Hm. cbv zeta. change (<[0%nat := f ((d0 :: m ++ d31 :: rest) !!! 0%nat)]> (d0 :: m ++ d31 :: rest))
    with (f d0 :: m ++ d31 :: rest).
  assert (∀ x y z, (x :: m ++ y :: rest) !!! 31%nat = y
                   ∧ <[31%nat := z]> (x :: m ++ y :: rest) = x :: m ++ z :: rest) as H.
  { intros x y z. change 31%nat with (S 30). rewrite <- Hm. split.
    - change ((m ++ y :: rest) !!! length m = y). by rewrite list_lookup_total_middle.
    - change (x :: <[length m := z]> (m ++ y :: rest) = x :: m ++ z :: rest).
      by rewrite insert_app_r_alt, Nat.sub_diag by lia. }
  rewrite (proj1 (H _ _ 0)), (proj2 (H _ _ _)), (proj1 (H _ _ 0)), (proj2 (H _ _ _)).
  cbn [take]. rewrite take_app_ge, Hm by lia. reflexivity.
Qed.

(** The two bytes the clamp changes. *)
Lemma clamp_bytes :
  Forall (λ b, Z.land b 248 mod 8 = 0 ∧ byte_ok (Z.land b 248)
               ∧ 64 ≤ Z.lor (Z.land b 127) 64 < 128) (seqZ 0 256).
Proof. apply (bool_decide_unpack _). vm_compute. exact I. Qed.

Lemma clamp_byte b : byte_ok b →
  Z.land b 248 mod 8 = 0 ∧ byte_ok (Z.land b 248) ∧ 64 ≤ Z.lor (Z.land b 127) 64 < 128.
Proof.
  intros Hb. pose proof clamp_bytes as F. rewrite list.Forall_forall in F. apply F, elem_of_seqZ.
  unfold byte_ok in Hb. lia.
Qed.

Lemma ExpandSecret_spec secret :
  scalar (ExpandSecret secret) ∧ (8 | le_val (ExpandSecret secret))
  ∧ 2 ^ 254 ≤ le_val (ExpandSecret secret) < 2 ^ 255.
Proof.
  pose proof (sha512_bytes secret) as Hb. unfold ExpandSecret.
  destruct (clamp_shape _ (sha512_length secret)) as (d0 & m & d31 & rest & E & Hm). rewrite E in *.
  apply list.Forall_cons in Hb as [B0 [Bm [B31 _]%list.Forall_cons]%Forall_app].
  destruct (clamp_byte d0 B0) as (H8 & Hd0 & _). destruct (clamp_byte d31 B31) as (_ & _ & Hd31).
  cbv zeta. rewrite (clamp_at d0 m d31 rest (λ b, Z.land b 248) (λ b, Z.land b 127) (λ b, Z.lor b 64)) by exact Hm. set (c := Z.lor (Z.land d31 127) 64) in *.
  pose proof (le_val_range m Bm) as Rm. rewrite Hm in Rm.
  assert (le_val (Z.land d0 248 :: m ++ [c]) = Z.land d0 248 + 256 * le_val m + 256 * 256 ^ 30 * c) as Ev.
  { cbn [le_val]. rewrite le_val_app, Hm. cbn [le_val]. change (Z.of_nat 30) with 30. ring. }
  change (Z.of_nat 30) with 30 in Rm. split; [split|split].
  - constructor; [exact Hd0|]. apply Forall_app_2; [exact Bm|]. constructor; [|constructor]. unfold byte_ok. lia.
  - cbn [length]. rewrite length_app, Hm. reflexivity.
  - rewrite Ev. apply Z.mod_divide; [lia|].
    rewrite (Z_div_mod_eq_full (Z.land d0 248) 8), H8.
    replace (_ + _) with ((Z.land d0 248 / 8 + 32 * le_val m + 32 * 256 ^ 30 * c) * 8) by ring.
    apply Z.mod_mul. lia.
  - rewrite Ev. unfold byte_ok in Hd0.
    assert (2 ^ 254 = 64 * (256 * 256 ^ 30)) as -> by reflexivity.
    assert (2 ^ 255 = 128 * (256 * 256 ^ 30)) as -> by reflexivity.
    set (M := 256 ^ 30) in *. clearbody M c. nia.
Qed.

Lemma ExpandSecret_scalar secret : scalar (ExpandSecret secret).
Proof. apply ExpandSecret_spec. Qed.

(** [ExpandSecret] clamps: the expanded secret is 32 bytes whose value is a multiple of 8
    between [2^254] and [2^255]. *)
Theorem ExpandSecret_clamped secret :
  scalar (ExpandSecret secret) ∧ (8 | le_val (ExpandSecret secret))
  ∧ 2 ^ 254 ≤ le_val (ExpandSecret secret) < 2 ^ 255.
Proof. exact (ExpandSecret_spec secret). Qed.
