(* ===== verification/Hrs.v ===== *)
(** * Height, round and step

    Models src/signer/hrs.go: the key [HRSKey] every watermark and cache is
    indexed by, its ordering, and the key with a timestamp that crosses the
    cosigner RPC.  The theorems show that [GreaterThan] is the lexicographic
    strict total order and that a key survives its protobuf form. *)

From S2P Require Import Prelude.
From stdpp Require Import base gmap countable numbers.
From Stdlib Require Import ZArith Lia.

Open Scope Z_scope.

(** ** Definitions *)

Record HRSKey := mkHRSKey {
  hrs_Height : Z;
  hrs_Round : Z;
  hrs_Step : Z
}.

Global Instance HRSKey_eq_dec : EqDecision HRSKey.
Proof. solve_decision. Defined.

Global Instance HRSKey_countable : Countable HRSKey.
Proof.
  refine (inj_countable' (λ k, (hrs_Height k, hrs_Round k, hrs_Step k))
            (λ p, mkHRSKey p.1.1 p.1.2 p.2) _).
  by intros [].
Defined.

(** [hrs.GreaterThan(other)] *)
Definition GreaterThan (hrs other : HRSKey) : bool :=
  if hrs_Height other <? hrs_Height hrs then true
  else if hrs_Height hrs <? hrs_Height other then false
  else if hrs_Round other <? hrs_Round hrs then true
  else if hrs_Round hrs <? hrs_Round other then false
  else hrs_Step other <? hrs_Step hrs.

(** [hrs.LessThan(other)] *)
Definition LessThan (hrs other : HRSKey) : bool :=
  negb (bool_decide (hrs = other)) && negb (GreaterThan hrs other).

Record HRSTKey := mkHRSTKey {
  hrst_Height : Z;
  hrst_Round : Z;
  hrst_Step : Z;
  hrst_Timestamp : Z
}.

(** [hrst.HRSKey()] *)
Definition hrst_HRSKey (hrst : HRSTKey) : HRSKey :=
  mkHRSKey (hrst_Height hrst) (hrst_Round hrst) (hrst_Step hrst).

(** The generated message [proto.HRST]; [Step] is an int32 there. *)
Record protoHRST := mkProtoHRST {
  pHRST_Height : Z;
  pHRST_Round : Z;
  pHRST_Step : Z;
  pHRST_Timestamp : Z
}.

(** The getters of a nil [*proto.HRST] return zero values. *)
Definition HRSTKeyFromProto (hrs : option protoHRST) : HRSTKey :=
  match hrs with
  | None => mkHRSTKey 0 0 (i8 0) 0
  | Some h => mkHRSTKey (pHRST_Height h) (pHRST_Round h) (i8 (pHRST_Step h)) (pHRST_Timestamp h)
  end.

Definition hrst_toProto (hrst : HRSTKey) : protoHRST :=
  mkProtoHRST (hrst_Height hrst) (hrst_Round hrst) (i32 (hrst_Step hrst)) (hrst_Timestamp hrst).

(** The lexicographic order the code means. *)
Definition hrs_lt (a b : HRSKey) : Prop :=
  hrs_Height a < hrs_Height b ∨
  (hrs_Height a = hrs_Height b ∧
   (hrs_Round a < hrs_Round b ∨ (hrs_Round a = hrs_Round b ∧ hrs_Step a < hrs_Step b))).

Definition hrs_le (a b : HRSKey) : Prop := hrs_lt a b ∨ a = b.

(** ** Lemmas *)

Lemma hrs_eq a b :
  hrs_Height a = hrs_Height b → hrs_Round a = hrs_Round b → hrs_Step a = hrs_Step b → a = b.
Proof. destruct a, b. cbn. congruence. Qed.

Lemma GreaterThan_lt a b : GreaterThan a b = true ↔ hrs_lt b a.
Proof.
  unfold GreaterThan, hrs_lt.
  repeat case_match; rewrite ?Z.ltb_lt, ?Z.ltb_ge in *; split; intros; try done; lia.
Qed.

Lemma GreaterThan_false a b : GreaterThan a b = false ↔ hrs_le a b.
Proof.
  unfold GreaterThan, hrs_le, hrs_lt.
  split.
  - intros H. repeat case_match; rewrite ?Z.ltb_lt, ?Z.ltb_ge in *; try done; try (left; lia).
    destruct (Z.eq_dec (hrs_Step a) (hrs_Step b)); [right; apply hrs_eq; lia|left; lia].
  - intros [H | ->]; repeat case_match; rewrite ?Z.ltb_lt, ?Z.ltb_ge in *; try done; lia.
Qed.

Global Instance hrs_lt_strict : StrictOrder hrs_lt.
Proof.
  split.
  - intros a. unfold complement, hrs_lt. lia.
  - intros a b c. unfold hrs_lt. lia.
Qed.

Global Instance hrs_le_preorder : PreOrder hrs_le.
Proof.
  split; red; unfold hrs_le; intros.
  - by right.
  - destruct H as [H | ->]; [|done]. destruct H0 as [H0 | <-]; [|by left].
    left. by etransitivity.
Qed.

Lemma hrs_le_lt_trans a b c : hrs_le a b → hrs_lt b c → hrs_lt a c.
Proof. intros [H | ->] H'; [by etransitivity|done]. Qed.

Lemma hrs_lt_le_trans a b c : hrs_lt a b → hrs_le b c → hrs_lt a c.
Proof. intros H [H' | <-]; [by etransitivity|done]. Qed.

Lemma hrs_lt_irrefl a : ¬ hrs_lt a a.
Proof. apply (irreflexivity hrs_lt). Qed.

Lemma hrs_lt_not_le a b : hrs_lt a b → ¬ hrs_le b a.
Proof. intros H H'. apply (hrs_lt_irrefl a). by eapply hrs_lt_le_trans. Qed.

Lemma hrs_lt_Height a b : hrs_lt a b → hrs_Height a ≤ hrs_Height b.
Proof. unfold hrs_lt. lia. Qed.

#[export] Hint Resolve hrs_lt_irrefl hrs_lt_not_le : horcrux.

(** ** Properties *)

(** [GreaterThan] decides the lexicographic order on height, round
    and step, that order is a strict order in which any two different keys are
    comparable, and [LessThan] is its converse. *)
Theorem GreaterThan_strict_total a b c :
  (GreaterThan a b = true ↔ hrs_lt b a) ∧
  GreaterThan a a = false ∧
  (GreaterThan a b = true → GreaterThan b c = true → GreaterThan a c = true) ∧
  (a = b ∨ GreaterThan a b = true ∨ GreaterThan b a = true) ∧
  LessThan a b = GreaterThan b a.
Proof.
  split; [apply GreaterThan_lt|]. split; [apply GreaterThan_false; by right|].
  split; [rewrite !GreaterThan_lt; intros; by etransitivity|].
  assert (a = b ∨ GreaterThan a b = true ∨ GreaterThan b a = true) as Ht.
  { destruct (GreaterThan a b) eqn:E; [by auto|]. apply GreaterThan_false in E as [E | ->];
      [|by left]. right; right. by apply GreaterThan_lt. }
  split; [done|]. unfold LessThan. case_bool_decide as E.
  - subst. symmetry. apply GreaterThan_false. by right.
  - destruct (GreaterThan a b) eqn:E'; cbn.
    + symmetry. apply GreaterThan_false. left. by apply GreaterThan_lt.
    + destruct Ht as [|[|]]; congruence.
Qed.

(** A key whose step fits int8, as every step the signer builds
    does, survives [toProto] and [HRSTKeyFromProto]. *)
Theorem HRST_proto_roundtrip hrst :
  in_sint 8 (hrst_Step hrst) → HRSTKeyFromProto (Some (hrst_toProto hrst)) = hrst.
Proof.
  destruct hrst as [h r s t]. unfold in_sint, HRSTKeyFromProto, hrst_toProto. cbn. intros Hs.
  rewrite (sint_small 32), (sint_small 8) by (unfold in_sint; lia). done.
Qed.

Lemma HRST_proto_roundtrip_witness :
  HRSTKeyFromProto (Some (hrst_toProto (mkHRSTKey 7 0 3 9))) = mkHRSTKey 7 0 3 9.
Proof. apply HRST_proto_roundtrip. unfold in_sint. cbn. lia. Defined.
