(* ===== verification/Errors.v ===== *)
(** * Error values

    The error types of src/signer/sign_state.go and src/signer/threshold_validator.go
    with the text their [Error()] methods build, and the standard library's ways of
    building, wrapping and inspecting errors that the signer uses ([errors.New],
    [fmt.Errorf], [errors.Join], [errors.As]).  An error keeps its type inside one
    process; across the cluster RPC only its text survives, which is why the texts
    are modelled and not only the constructors. *)

From S2P Require Import Prelude Hrs.
From stdpp Require Import base strings numbers pretty.
From Stdlib Require Import ZArith Lia.

Open Scope Z_scope.
Open Scope string_scope.

(** ** Definitions *)

Inductive goerror : Type :=
| ErrorString (msg : string)
| WrapError (prefix : string) (err : goerror)
| WrapSuffixError (err : goerror) (suffix : string)
| JoinError (err1 err2 : goerror)
| HeightRegressionError (regressed last : Z)
| RoundRegressionError (height regressed last : Z)
| StepRegressionError (height round regressed last : Z)
| ConflictingDataError (msg : string)
| SameHRSError (msg : string)
| UnmarshalError (name signType : string) (err : goerror)
| AlreadySignedVoteError (nonFirst : bool)
| DiffBlockIDsError (first second : gobytes)
| BeyondBlockError (msg : string)
| StillWaitingForBlockError (msg : string)
| SameBlockError (msg : string)
| RPCError (code : Z) (message data : string)
| StatusError (code : Z) (desc : string)
| ContextError (deadline : bool).

Global Instance goerror_eq_dec : EqDecision goerror.
Proof. solve_decision. Defined.

(** The constructors of sign_state.go. *)
Definition newHeightRegressionError (regressed last : Z) : goerror :=
  HeightRegressionError regressed last.

Definition newRoundRegressionError (height regressed last : Z) : goerror :=
  RoundRegressionError height regressed last.

Definition newStepRegressionError (height round regressed last : Z) : goerror :=
  StepRegressionError height round regressed last.

Definition newConflictingDataError (existingSignBytes newSignBytes : gobytes) : goerror :=
  ConflictingDataError ("conflicting data. existing: "
    +:+ hex_EncodeToString (slice existingSignBytes)
    +:+ " - new: " +:+ hex_EncodeToString (slice newSignBytes)).

Definition newSameHRSError (hrs : HRSKey) : goerror :=
  SameHRSError ("HRS is the same as current: " +:+ fmt_d (hrs_Height hrs) +:+ ":"
    +:+ fmt_d (hrs_Round hrs) +:+ ":" +:+ fmt_d (hrs_Step hrs)).

Definition newUnmarshalError (name signType : string) (err : goerror) : goerror :=
  UnmarshalError name signType err.

Definition newAlreadySignedVoteError (nonFirst : bool) : goerror := AlreadySignedVoteError nonFirst.

Definition newDiffBlockIDsError (first second : gobytes) : goerror := DiffBlockIDsError first second.

Definition ErrEmptySignBytes : goerror := ErrorString "no SignBytes found".

(** The text of the error [newBeyondBlockError] builds from the initiated
    watermark [lss] and the requested key. *)
Definition beyondBlockMsg (chainID : string) (lss hrs : HRSKey) : string :=
  "[" +:+ chainID +:+ "] Progress already started on block "
    +:+ fmt_d (hrs_Height lss) +:+ "." +:+ fmt_d (hrs_Round lss) +:+ "." +:+ fmt_d (hrs_Step lss)
    +:+ ", skipping "
    +:+ fmt_d (hrs_Height hrs) +:+ "." +:+ fmt_d (hrs_Round hrs) +:+ "." +:+ fmt_d (hrs_Step hrs).

Definition newStillWaitingForBlockError (chainID : string) (hrs : HRSKey) : goerror :=
  StillWaitingForBlockError ("[" +:+ chainID +:+ "] Still waiting for block "
    +:+ fmt_d (hrs_Height hrs) +:+ "." +:+ fmt_d (hrs_Round hrs) +:+ "." +:+ fmt_d (hrs_Step hrs)).

Definition newSameBlockError (chainID : string) (hrs : HRSKey) : goerror :=
  SameBlockError ("[" +:+ chainID +:+ "] Same block: "
    +:+ fmt_d (hrs_Height hrs) +:+ "." +:+ fmt_d (hrs_Round hrs) +:+ "." +:+ fmt_d (hrs_Step hrs)).

(** The name a status code of gRPC prints as *)
Definition code_String (code : Z) : string :=
  match code with
  | 0 => "OK" | 1 => "Canceled" | 2 => "Unknown" | 3 => "InvalidArgument" | 4 => "DeadlineExceeded"
  | 5 => "NotFound" | 6 => "AlreadyExists" | 7 => "PermissionDenied" | 8 => "ResourceExhausted"
  | 9 => "FailedPrecondition" | 10 => "Aborted" | 11 => "OutOfRange" | 12 => "Unimplemented"
  | 13 => "Internal" | 14 => "Unavailable" | 15 => "DataLoss" | 16 => "Unauthenticated"
  | _ => "Code(" +:+ fmt_d code +:+ ")"
  end.

(** The newline [errors.Join] puts between its texts. *)
Definition newline : string := String (Ascii.ascii_of_N 10) EmptyString.

(** [err.Error()] *)
Fixpoint Error (e : goerror) : string :=
  match e with
  | ErrorString msg => msg
  | WrapError prefix err => prefix +:+ Error err
  | WrapSuffixError err suffix => Error err +:+ suffix
  | JoinError e1 e2 => Error e1 +:+ newline +:+ Error e2
  | HeightRegressionError regressed last =>
      "height regression. Got " +:+ fmt_d regressed +:+ ", last height " +:+ fmt_d last
  | RoundRegressionError height regressed last =>
      "round regression at height " +:+ fmt_d height +:+ ". Got " +:+ fmt_d regressed
        +:+ ", last round " +:+ fmt_d last
  | StepRegressionError height round regressed last =>
      "step regression at height " +:+ fmt_d height +:+ ", round " +:+ fmt_d round
        +:+ ". Got " +:+ fmt_d regressed +:+ ", last step " +:+ fmt_d last
  | ConflictingDataError msg => msg
  | SameHRSError msg => msg
  | UnmarshalError name signType err =>
      name +:+ " cannot be unmarshalled into " +:+ signType +:+ ": " +:+ Error err
  | AlreadySignedVoteError nonFirst =>
      if nonFirst
      then "already signed vote with non-nil BlockID. refusing to sign vote on nil BlockID"
      else "already signed vote with nil BlockID. refusing to sign vote on non-nil BlockID"
  | DiffBlockIDsError first second =>
      "differing block IDs - last Vote: " +:+ bytes_string (slice first)
        +:+ ", new Vote: " +:+ bytes_string (slice second)
  | BeyondBlockError msg => msg
  | StillWaitingForBlockError msg => msg
  | SameBlockError msg => msg
  | RPCError code message data =>
      "RPC error " +:+ fmt_d code +:+ " - " +:+ message +:+ ": " +:+ data
  | StatusError code desc => "rpc error: code = " +:+ code_String code +:+ " desc = " +:+ desc
  | ContextError deadline =>
      if deadline then "context deadline exceeded" else "context canceled"
  end.

(** [errors.As] with a target type described by a test on constructors: the
    error itself, then what it wraps.  Only [fmt.Errorf("%w")] and [errors.Join]
    values unwrap; [UnmarshalError] has no [Unwrap] method. *)
Fixpoint errors_As (is_type : goerror → bool) (e : goerror) : bool :=
  is_type e ||
  match e with
  | WrapError _ err | WrapSuffixError err _ => errors_As is_type err
  | JoinError e1 e2 => errors_As is_type e1 || errors_As is_type e2
  | _ => false
  end.

(** The type assertions and [errors.As] targets of the package. *)
Definition is_SameHRSError (e : goerror) : bool :=
  match e with SameHRSError _ => true | _ => false end.
Definition is_StillWaitingForBlockError (e : goerror) : bool :=
  match e with StillWaitingForBlockError _ => true | _ => false end.
Definition is_SameBlockError (e : goerror) : bool :=
  match e with SameBlockError _ => true | _ => false end.

(** [strings.HasPrefix] and [strings.Contains] *)
Fixpoint HasPrefix (s prefix : string) : bool :=
  match prefix, s with
  | EmptyString, _ => true
  | String c p, String d s' => Ascii.eqb c d && HasPrefix s' p
  | String _ _, EmptyString => false
  end.

Fixpoint strings_Contains (s substr : string) : bool :=
  HasPrefix s substr ||
  match s with
  | EmptyString => false
  | String _ s' => strings_Contains s' substr
  end.

(** ** Lemmas *)

Lemma string_app_cons c p t : String c p +:+ t = String c (p +:+ t).
Proof. reflexivity. Qed.

Lemma string_app_nil t : EmptyString +:+ t = t.
Proof. reflexivity. Qed.

Lemma HasPrefix_app p t : HasPrefix (p +:+ t) p = true.
Proof.
  induction p as [|c p IH]; [by destruct t|]. rewrite string_app_cons. cbn [HasPrefix].
  by rewrite Ascii.eqb_refl, IH.
Qed.

Lemma strings_Contains_here s sub : HasPrefix s sub = true → strings_Contains s sub = true.
Proof. intros H. destruct s; cbn [strings_Contains]; by rewrite H. Qed.

Lemma strings_Contains_prefix p t : strings_Contains (p +:+ t) p = true.
Proof. apply strings_Contains_here, HasPrefix_app. Qed.

Lemma strings_Contains_app a s sub :
  strings_Contains s sub = true → strings_Contains (a +:+ s) sub = true.
Proof.
  intros H. induction a as [|c a IH]; [done|]. rewrite string_app_cons.
  cbn [strings_Contains]. rewrite IH. apply orb_true_r.
Qed.

Lemma HasPrefix_extend s p t : HasPrefix s p = true → HasPrefix (s +:+ t) p = true.
Proof.
  revert s. induction p as [|c p IH]; intros s; [by destruct (s +:+ t)|].
  destruct s as [|d s]; [done|]. rewrite string_app_cons. cbn [HasPrefix].
  rewrite !andb_true_iff. intros [-> H]. split; [done|]. by apply IH.
Qed.

Lemma strings_Contains_app_r s t sub :
  strings_Contains s sub = true → strings_Contains (s +:+ t) sub = true.
Proof.
  induction s as [|c s IH]; cbn [strings_Contains]; rewrite orb_true_iff; intros [H|H].
  - by apply strings_Contains_here, HasPrefix_extend.
  - done.
  - by apply strings_Contains_here, HasPrefix_extend.
  - rewrite string_app_cons. cbn [strings_Contains]. rewrite (IH H). apply orb_true_r.
Qed.

Lemma errors_As_here is_type e : is_type e = true → errors_As is_type e = true.
Proof. intros H. destruct e; cbn [errors_As]; by rewrite H. Qed.

#[export] Hint Resolve strings_Contains_prefix strings_Contains_app strings_Contains_app_r
  errors_As_here : horcrux.
