(* ===== verification/Wire.v ===== *)
(** * The protobuf wire format

    The pieces that the generated code of signer/proto/cosigner.pb.go repeats in every
    message: writing a field from the end of a buffer to its front, the size of a field,
    and the loop that reads tags and dispatches on the field number.  CosignerProto.v puts
    the messages together from them.

    A reader has the index [iNdEx] and what is left of the data from there on; [l] is the
    length of the data.  A writer has the buffer and the index [i] before which it writes.
    Sizes and lengths of slices fit an int. *)

From S2P Require Import Prelude Errors.
From stdpp Require Import base list strings numbers.
From Stdlib Require Import ZArith Lia.

Open Scope string_scope.
Open Scope list_scope.
Open Scope Z_scope.

(** ** Definitions *)

Definition ErrInvalidLengthCosigner : goerror := ErrorString "proto: negative length found during unmarshaling".
Definition ErrIntOverflowCosigner : goerror := ErrorString "proto: integer overflow".
Definition ErrUnexpectedEndOfGroupCosigner : goerror := ErrorString "proto: unexpected end of group".
Definition ErrUnexpectedEOF : goerror := ErrorString "unexpected EOF".

(** *** Writing *)

(** [(math_bits.Len64(x|1) + 6) / 7] *)
Definition sovCosigner (x : Z) : Z := (Z.log2 (Z.lor x 1) + 1 + 6) / 7.

Definition writer : Type := list Z * Z → result (list Z * Z) goerror.

Definition skip_write : writer := Ok.

Definition seq_write (w1 w2 : writer) : writer := λ s, try s' <- w1 s; w2 s'.

Declare Scope wire_scope.
Delimit Scope wire_scope with wire.
Notation "w1 ;; w2" := (seq_write w1 w2) (at level 100, w2 at level 200, right associativity) : wire_scope.
Open Scope wire_scope.

(** [dAtA[offset] = b] *)
Definition store_byte (offset b : Z) (dAtA : list Z) : result (list Z) goerror :=
  if (0 <=? offset) && (offset <? Z.of_nat (length dAtA))
  then Ok (<[Z.to_nat offset := b]> dAtA) else Panics index_out_of_range.

(** The loop of [encodeVarintCosigner]; a uint64 has at most ten groups of seven bits. *)
Fixpoint varint_loop (n : nat) (offset v : Z) (dAtA : list Z) : result (list Z) goerror :=
  match n with
  | O => store_byte offset (u8 v) dAtA
  | S n' =>
      if 2 ^ 7 <=? v then
        try d <- store_byte offset (u8 (Z.lor (Z.land v 127) 128)) dAtA;
        varint_loop n' (offset + 1) (Z.shiftr v 7) d
      else store_byte offset (u8 v) dAtA
  end.

(** [i = encodeVarintCosigner(dAtA, i, v)] *)
Definition encodeVarintCosigner (v : Z) : writer := λ '(dAtA, i),
  let base := i - sovCosigner v in
  try d <- varint_loop 9 base v dAtA;
  Ok (d, base).

(** [i--; dAtA[i] = tag] *)
Definition put_tag (tag : Z) : writer := λ '(dAtA, i),
  try d <- store_byte (i - 1) tag dAtA;
  Ok (d, i - 1).

(** [i -= len(bs); copy(dAtA[i:], bs)] *)
Definition put_copy (bs : list Z) : writer := λ '(dAtA, i),
  let i' := i - Z.of_nat (length bs) in
  if i' <? 0 then Panics "runtime error: slice bounds out of range"
  else Ok (take (Z.to_nat i') dAtA ++ bs ++ drop (Z.to_nat i) dAtA, i').

(** A field of an integer type *)
Definition put_int (tag v : Z) : writer :=
  if negb (v =? 0) then (encodeVarintCosigner (uint 64 v) ;; put_tag tag) else skip_write.

(** Bytes with their length and tag, whatever they are. *)
Definition put_slice (tag : Z) (bs : list Z) : writer :=
  put_copy bs ;; encodeVarintCosigner (uint 64 (Z.of_nat (length bs))) ;; put_tag tag.

(** [[]byte(s)] *)
Fixpoint string_bytes (s : string) : list Z :=
  match s with
  | EmptyString => []
  | String c s' => Z.of_N (Ascii.N_of_ascii c) :: string_bytes s'
  end.

(** A field of type bytes or string *)
Definition put_bytes (tag : Z) (bs : list Z) : writer :=
  if (0 <? Z.of_nat (length bs)) then put_slice tag bs else skip_write.

(** A message that is a field: it writes itself, and its size is how far it moved. *)
Definition put_message (tag : Z) (w : writer) : writer := λ '(dAtA, i),
  try r <- w (dAtA, i);
  let size := i - r.2 in
  (encodeVarintCosigner (uint 64 size) ;; put_tag tag) r.

(** A repeated field, written from its last element to its first. *)
Fixpoint put_repeated {A} (put : A → writer) (l : list A) : writer :=
  match l with
  | [] => skip_write
  | x :: l' => put_repeated put l' ;; put x
  end.

(** [Marshal], from [Size] and [MarshalToSizedBuffer] *)
Definition marshal (size : Z) (w : writer) : result (list Z) goerror :=
  try r <- w (replicate (Z.to_nat size) 0, size);
  let n := size - r.2 in
  Ok (take (Z.to_nat n) r.1).

(** *** Sizes *)

Definition size_int (v : Z) : Z := if negb (v =? 0) then 1 + sovCosigner (uint 64 v) else 0.

Definition size_slice (l : Z) : Z := 1 + l + sovCosigner (uint 64 l).

Definition size_bytes (bs : list Z) : Z :=
  let l := Z.of_nat (length bs) in
  if 0 <? l then size_slice l else 0.

Fixpoint size_repeated {A} (size : A → Z) (l : list A) : Z :=
  match l with
  | [] => 0
  | x :: l' => size_slice (size x) + size_repeated size l'
  end.

(** *** Reading *)

(** What is read, and where the reader is after. *)
Definition reader (A : Type) : Type := Z → list Z → result (A * (Z * list Z)) goerror.

(** The loop over the bytes of an integer, which is of the type [wrap] wraps to. *)
Fixpoint read_varint (wrap : Z → Z) (shift acc : Z) (iNdEx : Z) (rest : list Z) : result (Z * (Z * list Z)) goerror :=
  if 64 <=? shift then Err ErrIntOverflowCosigner
  else match rest with
       | [] => Err ErrUnexpectedEOF
       | b :: rest' =>
           let acc := Z.lor acc (wrap (Z.shiftl (Z.land b 127) shift)) in
           if b <? 128 then Ok (acc, (iNdEx + 1, rest'))
           else read_varint wrap (shift + 7) acc (iNdEx + 1) rest'
       end.

Definition varint (wrap : Z → Z) : reader Z := read_varint wrap 0 0.

(** A length and the slice it delimits. *)
Definition read_slice (l : Z) (wrap : Z → Z) : reader (list Z) := λ iNdEx rest,
  try v <- varint wrap iNdEx rest;
  let '(v, (iNdEx, rest)) := v in
  let byteLen := i64 v in
  if byteLen <? 0 then Err ErrInvalidLengthCosigner
  else
    let postIndex := i64 (iNdEx + byteLen) in
    if postIndex <? 0 then Err ErrInvalidLengthCosigner
    else if l <? postIndex then Err ErrUnexpectedEOF
    else if postIndex <? iNdEx then Panics "runtime error: slice bounds out of range"
    else Ok (take (Z.to_nat (postIndex - iNdEx)) rest, (postIndex, drop (Z.to_nat (postIndex - iNdEx)) rest)).

Definition wrong_wireType (wireType : Z) (name : string) : goerror :=
  ErrorString ("proto: wrong wireType = " +:+ fmt_d wireType +:+ " for field " +:+ name).

(** The cases of the switch: an integer, bytes, a string, a message. *)
Definition get_int {M} (wrap : Z → Z) (name : string) (wireType : Z) (set : Z → M) : reader M := λ iNdEx rest,
  if negb (wireType =? 0) then Err (wrong_wireType wireType name)
  else try v <- varint wrap iNdEx rest; Ok (set v.1, v.2).

Definition get_bytes {M} (l : Z) (name : string) (wireType : Z) (set : list Z → M) : reader M := λ iNdEx rest,
  if negb (wireType =? 2) then Err (wrong_wireType wireType name)
  else try v <- read_slice l i64 iNdEx rest; Ok (set v.1, v.2).

Definition get_string {M} (l : Z) (name : string) (wireType : Z) (set : string → M) : reader M := λ iNdEx rest,
  if negb (wireType =? 2) then Err (wrong_wireType wireType name)
  else try v <- read_slice l (uint 64) iNdEx rest; Ok (set (bytes_string v.1), v.2).

Definition get_message {M} (l : Z) (name : string) (wireType : Z) (Unmarshal : list Z → result M goerror) : reader M :=
  λ iNdEx rest,
  if negb (wireType =? 2) then Err (wrong_wireType wireType name)
  else try v <- read_slice l i64 iNdEx rest; try m <- Unmarshal v.1; Ok (m, v.2).

(** The inner loop of [skipCosigner] over an integer that is not kept. *)
Fixpoint skip_varint (shift : Z) (iNdEx : Z) (rest : list Z) : result (Z * list Z) goerror :=
  if 64 <=? shift then Err ErrIntOverflowCosigner
  else match rest with
       | [] => Err ErrUnexpectedEOF
       | b :: rest' => if b <? 128 then Ok (iNdEx + 1, rest') else skip_varint (shift + 7) (iNdEx + 1) rest'
       end.

(** [iNdEx += n] *)
Definition advance (l n iNdEx : Z) (rest : list Z) : Z * list Z :=
  let iNdEx' := i64 (iNdEx + n) in
  (iNdEx', if l <=? iNdEx' then [] else drop (Z.to_nat n) rest).

(** The switch of [skipCosigner]: the depth of groups, and the position after. *)
Definition skip_field (l wireType depth : Z) (iNdEx : Z) (rest : list Z) : result (Z * (Z * list Z)) goerror :=
  if wireType =? 0 then try s <- skip_varint 0 iNdEx rest; Ok (depth, s)
  else if wireType =? 1 then Ok (depth, advance l 8 iNdEx rest)
  else if wireType =? 2 then
    try v <- varint i64 iNdEx rest;
    if v.1 <? 0 then Err ErrInvalidLengthCosigner else Ok (depth, advance l v.1 v.2.1 v.2.2)
  else if wireType =? 3 then Ok (depth + 1, (iNdEx, rest))
  else if wireType =? 4 then
    if depth =? 0 then Err ErrUnexpectedEndOfGroupCosigner else Ok (depth - 1, (iNdEx, rest))
  else if wireType =? 5 then Ok (depth, advance l 4 iNdEx rest)
  else Err (ErrorString ("proto: illegal wireType " +:+ fmt_d wireType)).

(** A loop that goes on past the bound of its model; the lemmas below show that none does. *)
Definition out_of_fuel : string := "out of fuel".

(** The loop of [skipCosigner]; every iteration reads at least the byte of a tag. *)
Fixpoint skip_loop (n : nat) (l depth iNdEx : Z) (rest : list Z) : result Z goerror :=
  if l <=? iNdEx then Err ErrUnexpectedEOF
  else match n with
       | O => Panics out_of_fuel
       | S n' =>
           try w <- varint (uint 64) iNdEx rest;
           try f <- skip_field l (Z.land w.1 7) depth w.2.1 w.2.2;
           let '(depth, (iNdEx, rest)) := f in
           if iNdEx <? 0 then Err ErrInvalidLengthCosigner
           else if depth =? 0 then Ok iNdEx
           else skip_loop n' l depth iNdEx rest
       end.

Definition skipCosigner (dAtA : list Z) : result Z goerror :=
  skip_loop (length dAtA) (Z.of_nat (length dAtA)) 0 0 dAtA.

(** The loop of [Unmarshal]: [field] is the switch without its default, which skips the
    field from its tag on. *)
Fixpoint unmarshal_loop {M} (name : string) (field : Z → Z → Z → M → option (reader M)) (n : nat)
    (l : Z) (m : M) (iNdEx : Z) (rest : list Z) : result M goerror :=
  if l <=? iNdEx then if l <? iNdEx then Err ErrUnexpectedEOF else Ok m
  else match n with
       | O => Panics out_of_fuel
       | S n' =>
           try w <- varint (uint 64) iNdEx rest;
           let '(wire, (i, rest')) := w in
           let fieldNum := i32 (Z.shiftr wire 3) in
           let wireType := Z.land wire 7 in
           if wireType =? 4 then
             Err (ErrorString ("proto: " +:+ name +:+ ": wiretype end group for non-group"))
           else if fieldNum <=? 0 then
             Err (ErrorString ("proto: " +:+ name +:+ ": illegal tag " +:+ fmt_d fieldNum
                    +:+ " (wire type " +:+ fmt_d wire +:+ ")"))
           else
             match field l fieldNum wireType m with
             | Some read =>
                 try r <- read i rest';
                 unmarshal_loop name field n' l r.1 r.2.1 r.2.2
             | None =>
                 try skippy <- skipCosigner rest;
                 if (skippy <? 0) || (i64 (iNdEx + skippy) <? 0) then Err ErrInvalidLengthCosigner
                 else if l <? i64 (iNdEx + skippy) then Err ErrUnexpectedEOF
                 else unmarshal_loop name field n' l m (i64 (iNdEx + skippy)) (drop (Z.to_nat skippy) rest)
             end
       end.

(** [Unmarshal] into the message [m]; every iteration reads at least one byte. *)
Definition unmarshal {M} (name : string) (field : Z → Z → Z → M → option (reader M)) (m : M) (dAtA : list Z)
    : result M goerror :=
  unmarshal_loop name field (length dAtA) (Z.of_nat (length dAtA)) m 0 dAtA.

(** *** Specifications *)

(** The bytes of a varint: groups of seven bits, the last without the high bit. *)
Fixpoint varint_bytes (n : nat) (v : Z) : list Z :=
  match n with
  | O => [v]
  | S n' => if 2 ^ 7 <=? v then Z.lor (Z.land v 127) 128 :: varint_bytes n' (Z.shiftr v 7) else [v]
  end.

Definition enc_varint (v : Z) : list Z := varint_bytes 9 v.

Definition enc_int (tag v : Z) : list Z := if v =? 0 then [] else tag :: enc_varint (uint 64 v).

Definition enc_slice (tag : Z) (bs : list Z) : list Z := tag :: enc_varint (Z.of_nat (length bs)) ++ bs.

Definition enc_bytes (tag : Z) (bs : list Z) : list Z := if (length bs =? 0)%nat then [] else enc_slice tag bs.

Definition enc_repeated {A} (tag : Z) (enc : A → list Z) (l : list A) : list Z := concat ((λ x, enc_slice tag (enc x)) <$> l).

(** A writer puts these bytes before [i]. *)
Definition writes (w : writer) (bs : list Z) : Prop :=
  ∀ dAtA i, Z.of_nat (length bs) ≤ i ≤ Z.of_nat (length dAtA) →
    w (dAtA, i) = Ok (take (Z.to_nat (i - Z.of_nat (length bs))) dAtA ++ bs ++ drop (Z.to_nat i) dAtA,
                      i - Z.of_nat (length bs)).

(** What comes of a byte slice that is sent as a field: nothing is sent of an empty one. *)
Definition received (b : gobytes) : gobytes :=
  match slice b with
  | [] => None
  | bs => Some bs
  end.

(** The loop of [Unmarshal] reads these bytes and turns [m] into [m']. *)
Definition decodes {M} (name : string) (field : Z → Z → Z → M → option (reader M)) (l : Z) (m : M) (bs : list Z) (m' : M)
    : Prop :=
  ∀ n i rest, (length (bs ++ rest) ≤ n)%nat → 0 ≤ i → i + Z.of_nat (length (bs ++ rest)) = l →
    ∃ n', (length rest ≤ n')%nat ∧
      unmarshal_loop name field n l m i (bs ++ rest)
      = unmarshal_loop name field n' l m' (i + Z.of_nat (length bs)) rest.

(** Types whose conversion acts bit by bit. *)
Definition bitwise (wrap : Z → Z) : Prop := ∀ a b, wrap (Z.lor a b) = Z.lor (wrap a) (wrap b).

(** A reader consumes what it reads. *)
Definition consumes {A} (l : Z) (read : reader A) : Prop :=
  ∀ i rest, 0 ≤ i → i + Z.of_nat (length rest) = l → l < 2 ^ 63 →
    match read i rest with
    | Ok (_, (i', rest')) => i ≤ i' ∧ i' + Z.of_nat (length rest') = l ∧ (length rest' ≤ length rest)%nat
    | Err _ => True
    | Panics _ => False
    end.

(** A decoder that returns a message or an error. *)
Definition no_panic {M} (Unmarshal : list Z → result M goerror) : Prop :=
  ∀ dAtA msg, Z.of_nat (length dAtA) < 2 ^ 63 → Unmarshal dAtA ≠ Panics msg.

(** Where the skipping stands: in the data with what is left of it, or at or past its end,
    or at an index that overflowed. *)
Definition skipping (l i : Z) (rest : list Z) : Prop :=
  - 2 ^ 63 ≤ i < 2 ^ 63 ∧ (0 ≤ i < l → i + Z.of_nat (length rest) = l).

(** ** Lemmas *)

(** *** Bits *)

Lemma bitwise_uint w : 0 ≤ w → bitwise (uint w).
Proof.
  intros Hw a b. unfold uint. apply Z.bits_inj'. intros n Hn. rewrite Z.lor_spec.
  destruct (Z.lt_ge_cases n w).
  - by rewrite !Z.mod_pow2_bits_low, Z.lor_spec by lia.
  - by rewrite !Z.mod_pow2_bits_high by lia.
Qed.

Lemma sint_testbit w x n : 1 < w → 0 ≤ n → Z.testbit (sint w x) n = Z.testbit x (Z.min n (w - 1)).
Proof.
  intros Hw Hn. pose proof (sint_range w x ltac:(lia)) as Hr. unfold in_sint in Hr.
  assert (∀ k, 0 ≤ k < w → Z.testbit (sint w x) k = Z.testbit x k) as Hlow.
  { intros k Hk. rewrite <- (Z.mod_pow2_bits_low x w k), <- (Z.mod_pow2_bits_low (sint w x) w k) by lia. f_equal.
    exact (sint_cong w x ltac:(lia)). }
  destruct (Z.lt_ge_cases n (w - 1)) as [H|H]; [rewrite Z.min_l by lia; apply Hlow; lia|].
  rewrite Z.min_r by lia. rewrite <- (Hlow (w - 1)) by lia.
  assert (∀ k, w - 1 ≤ k → Z.testbit (sint w x) k = (sint w x <? 0)) as Hhigh.
  { intros k Hk. destruct (Z.ltb_spec (sint w x) 0) as [Hs|Hs].
    - apply Z.bits_above_log2_neg; [done|].
      assert (2 ^ (w - 1) ≤ 2 ^ k) by (apply Z.pow_le_mono_r; lia).
      destruct (Z.eq_dec (Z.pred (- sint w x)) 0) as [-> |Hz]; [cbn; lia|]. apply Z.log2_lt_pow2; lia.
    - destruct (Z.eq_dec (sint w x) 0) as [-> |Hz]; [apply Z.bits_0|]. apply Z.bits_above_log2; [lia|].
      apply Z.log2_lt_pow2; [lia|]. assert (2 ^ (w - 1) ≤ 2 ^ k) by (apply Z.pow_le_mono_r; lia). lia. }
  rewrite !Hhigh by lia. done.
Qed.

Lemma bitwise_sint w : 1 < w → bitwise (sint w).
Proof.
  intros Hw a b. apply Z.bits_inj'. intros n Hn. rewrite Z.lor_spec, !sint_testbit, Z.lor_spec by lia. done.
Qed.

Lemma land_127 v : Z.land v 127 = v mod 128.
Proof. change 127 with (Z.ones 7). by rewrite Z.land_ones by lia. Qed.

Lemma lor_low a b k : 0 ≤ b < 2 ^ k → 0 ≤ k → Z.lor (Z.shiftl a k) b = Z.shiftl a k + b.
Proof.
  intros Hb Hk. assert (Z.land (Z.shiftl a k) b = 0) as H.
  { apply Z.bits_inj'. intros n Hn. rewrite Z.land_spec, Z.bits_0. destruct (Z.lt_ge_cases n k).
    - by rewrite Z.shiftl_spec_low by lia.
    - rewrite <- (Z.mod_small b (2 ^ k)), Z.mod_pow2_bits_high by lia. apply andb_false_r. }
  rewrite <- Z.lxor_lor by done. symmetry. by apply Z.add_nocarry_lxor.
Qed.

(** The high bit of a group. *)
Lemma group_bits v : 0 ≤ v →
  128 ≤ Z.lor (Z.land v 127) 128 < 256 ∧ Z.land (Z.lor (Z.land v 127) 128) 127 = Z.land v 127.
Proof.
  intros Hv. assert (0 ≤ Z.land v 127 < 128) as Hl by (rewrite land_127; apply Z.mod_pos_bound; lia).
  assert (Z.lor (Z.land v 127) 128 = Z.land v 127 + 128) as E.
  { rewrite Z.lor_comm, Z.add_comm. apply (lor_low 1 _ 7); lia. }
  split; [lia|]. rewrite E, (land_127 (_ + 128)). replace (Z.land v 127 + 128) with (Z.land v 127 + 1 * 128) by lia.
  rewrite Z_mod_plus_full. apply Z.mod_small. lia.
Qed.

Lemma lor_shift v s : 0 ≤ v → 0 ≤ s →
  Z.lor (Z.shiftl (Z.land v 127) s) (Z.shiftl (Z.shiftr v 7) (s + 7)) = Z.shiftl v s.
Proof.
  intros Hv Hs. apply Z.bits_inj'. intros n Hn. rewrite Z.lor_spec, !Z.shiftl_spec by lia.
  destruct (Z.lt_ge_cases n s) as [H|H]; [by rewrite !(Z.testbit_neg_r _ (n - _)) by lia|].
  rewrite Z.land_spec. change 127 with (Z.ones 7).
  destruct (Z.lt_ge_cases (n - s) 7) as [H7|H7].
  - rewrite Z.ones_spec_low by lia. rewrite andb_true_r, (Z.testbit_neg_r _ (n - (s + 7))) by lia. by rewrite orb_false_r.
  - rewrite Z.ones_spec_high by lia. rewrite andb_false_r, Z.shiftr_spec by lia. cbn. f_equal. lia.
Qed.

Lemma bytes_string_bytes s : bytes_string (string_bytes s) = s.
Proof.
  induction s as [|c s IH]; [done|]. cbn. rewrite IH. unfold byte_char. by rewrite N2Z.id, Ascii.ascii_N_embedding.
Qed.

(** *** Writing *)

Lemma shiftr_7_lt v n : 0 ≤ v < 2 ^ (n + 7) → 0 ≤ n → 0 ≤ Z.shiftr v 7 < 2 ^ n.
Proof.
  intros [H1 H2] Hn. rewrite Z.shiftr_div_pow2 by lia. split; [apply Z.div_pos; lia|].
  apply Z.div_lt_upper_bound; [lia|]. rewrite <- Z.pow_add_r by lia. by rewrite Z.add_comm.
Qed.

Lemma sov_small v : 0 ≤ v < 128 → sovCosigner v = 1.
Proof.
  intros Hv. unfold sovCosigner. assert (0 ≤ Z.log2 (Z.lor v 1) < 7) as H.
  { split; [apply Z.log2_nonneg|]. rewrite Z.log2_lor by lia. apply Z.max_lub_lt; [|cbn; lia].
    destruct (Z.eq_dec v 0) as [-> |]; [cbn; lia|]. apply Z.log2_lt_pow2; lia. }
  symmetry. apply (Z.div_unique _ 7 1 (Z.log2 (Z.lor v 1))); lia.
Qed.

Lemma sov_large v : 128 ≤ v → sovCosigner v = 1 + sovCosigner (Z.shiftr v 7).
Proof.
  intros Hv. unfold sovCosigner.
  assert (1 ≤ Z.shiftr v 7) as H1 by (rewrite Z.shiftr_div_pow2 by lia; apply Z.div_le_lower_bound; lia).
  assert (Z.log2 (Z.lor v 1) = Z.log2 (Z.lor (Z.shiftr v 7) 1) + 7) as ->.
  { rewrite !Z.log2_lor by lia. rewrite Z.log2_shiftr by lia. cbn.
    assert (7 ≤ Z.log2 v) by (apply Z.log2_le_pow2; lia). lia. }
  rewrite <- (Z.div_add_l 1 7) by lia. f_equal. lia.
Qed.

Lemma varint_bytes_length n v : 0 ≤ v < 2 ^ (7 * Z.of_nat n + 7) → Z.of_nat (length (varint_bytes n v)) = sovCosigner v.
Proof.
  revert v. induction n as [|n IH]; intros v Hv; cbn [varint_bytes length].
  - symmetry. apply sov_small. cbn in Hv. lia.
  - change (2 ^ 7) with 128. destruct (Z.leb_spec 128 v) as [H|H].
    + cbn [length]. rewrite Nat2Z.inj_succ, IH, (sov_large v H); [lia|]. apply shiftr_7_lt; [|lia].
      replace (7 * Z.of_nat n + 7 + 7) with (7 * Z.of_nat (S n) + 7) by lia. lia.
    + symmetry. apply sov_small. lia.
Qed.

Lemma enc_varint_length v : 0 ≤ v < 2 ^ 64 → Z.of_nat (length (enc_varint v)) = sovCosigner v.
Proof. intros Hv. apply varint_bytes_length. cbn in *. lia. Qed.

Lemma store_byte_ok offset b dAtA :
  0 ≤ offset < Z.of_nat (length dAtA) →
  store_byte offset b dAtA = Ok (take (Z.to_nat offset) dAtA ++ b :: drop (S (Z.to_nat offset)) dAtA).
Proof.
  intros H. unfold store_byte. rewrite (proj2 (Z.leb_le _ _)), (proj2 (Z.ltb_lt _ _)) by lia. cbn. f_equal.
  apply insert_take_drop. lia.
Qed.

Lemma varint_loop_ok n offset v dAtA :
  0 ≤ v < 2 ^ (7 * Z.of_nat n + 7) → 0 ≤ offset →
  offset + Z.of_nat (length (varint_bytes n v)) ≤ Z.of_nat (length dAtA) →
  varint_loop n offset v dAtA
  = Ok (take (Z.to_nat offset) dAtA ++ varint_bytes n v ++ drop (Z.to_nat offset + length (varint_bytes n v)) dAtA).
Proof.
  revert offset v dAtA. induction n as [|n IH]; intros offset v dAtA Hv Ho Hl; cbn [varint_loop varint_bytes] in *.
  - rewrite store_byte_ok by (cbn in Hl; lia). cbn in Hv. unfold u8, uint. rewrite Z.mod_small by lia.
    cbn [length app]. by rewrite Nat.add_1_r.
  - change (2 ^ 7) with 128 in *. destruct (Z.leb_spec 128 v) as [H|H].
    + destruct (group_bits v) as [Hg _]; [lia|]. unfold u8, uint. rewrite (Z.mod_small (Z.lor _ _)) by lia.
      cbn [length] in Hl. rewrite store_byte_ok by lia. cbn [result_bind].
      assert (length (take (Z.to_nat offset) dAtA) = Z.to_nat offset) as Lt by (rewrite length_take; lia).
      rewrite IH; [| |lia|rewrite length_app; cbn [length]; rewrite length_drop, Lt; lia].
      2: { apply shiftr_7_lt; [|lia]. replace (7 * Z.of_nat n + 7 + 7) with (7 * Z.of_nat (S n) + 7) by lia. lia. }
      f_equal. replace (Z.to_nat (offset + 1)) with (S (Z.to_nat offset)) by lia.
      rewrite take_app_ge, drop_app_ge by (rewrite Lt; lia). rewrite Lt.
      replace (S (Z.to_nat offset) - Z.to_nat offset)%nat with 1%nat by lia. cbn [take app length].
      rewrite <- app_assoc. cbn [app]. rewrite take_0. cbn [app]. do 3 f_equal.
      replace (S (Z.to_nat offset) + length (varint_bytes n (Z.shiftr v 7)) - Z.to_nat offset)%nat
        with (S (length (varint_bytes n (Z.shiftr v 7)))) by lia.
      cbn [drop]. rewrite drop_drop. f_equal. lia.
    + rewrite store_byte_ok by (cbn [length] in Hl; lia). unfold u8, uint. rewrite Z.mod_small by lia.
      cbn [length app]. by rewrite Nat.add_1_r.
Qed.

Lemma writes_skip : writes skip_write [].
Proof.
  intros dAtA i Hi. unfold skip_write. cbn. rewrite Z.sub_0_r. by rewrite take_drop.
Qed.

Lemma writes_seq w1 w2 b1 b2 : writes w1 b1 → writes w2 b2 → writes (w1 ;; w2) (b2 ++ b1).
Proof.
  intros H1 H2 dAtA i Hi. rewrite length_app in *. unfold seq_write. rewrite H1 by lia. cbn [result_bind].
  set (j := i - Z.of_nat (length b1)).
  assert (length (take (Z.to_nat j) dAtA) = Z.to_nat j) as Lt by (rewrite length_take; lia).
  rewrite H2 by (rewrite !length_app, Lt, length_drop; lia).
  rewrite take_app_le by (rewrite Lt; lia). rewrite take_take, Nat.min_l by lia.
  rewrite drop_app_ge by (rewrite Lt; lia). rewrite Lt, Nat.sub_diag, drop_0, <- app_assoc.
  replace (j - Z.of_nat (length b2)) with (i - Z.of_nat (length b2 + length b1)) by lia. done.
Qed.

Lemma writes_varint v : 0 ≤ v < 2 ^ 64 → writes (encodeVarintCosigner v) (enc_varint v).
Proof.
  intros Hv dAtA i Hi. unfold encodeVarintCosigner. rewrite <- (enc_varint_length v Hv).
  rewrite varint_loop_ok; [|cbn in *; lia|lia|unfold enc_varint in *; lia]. cbn [result_bind]. do 3 f_equal.
  unfold enc_varint in *. do 2 f_equal. lia.
Qed.

Lemma writes_tag tag : writes (put_tag tag) [tag].
Proof.
  intros dAtA i Hi. unfold put_tag. cbn [length] in *. rewrite store_byte_ok by lia. cbn [result_bind app].
  do 4 f_equal. f_equal. lia.
Qed.

Lemma writes_copy bs : writes (put_copy bs) bs.
Proof. intros dAtA i Hi. unfold put_copy. rewrite (proj2 (Z.ltb_ge _ _)) by lia. done. Qed.

Lemma uint_64_range v : 0 ≤ uint 64 v < 2 ^ 64.
Proof. apply Z.mod_pos_bound. lia. Qed.

Lemma uint_64_length {A} (l : list A) : Z.of_nat (length l) < 2 ^ 63 → uint 64 (Z.of_nat (length l)) = Z.of_nat (length l).
Proof. intros H. apply Z.mod_small. lia. Qed.

Lemma writes_int tag v : writes (put_int tag v) (enc_int tag v).
Proof.
  unfold put_int, enc_int. destruct (v =? 0); cbn [negb]; [apply writes_skip|].
  apply (writes_seq _ _ _ [tag]); [apply writes_varint, uint_64_range|apply writes_tag].
Qed.

Lemma writes_length_tag tag (bs : list Z) :
  Z.of_nat (length bs) < 2 ^ 63 →
  writes (encodeVarintCosigner (uint 64 (Z.of_nat (length bs))) ;; put_tag tag) (tag :: enc_varint (Z.of_nat (length bs))).
Proof.
  intros H. apply (writes_seq _ _ _ [tag]); [|apply writes_tag]. rewrite uint_64_length by done. apply writes_varint. lia.
Qed.

Lemma writes_slice tag bs : Z.of_nat (length bs) < 2 ^ 63 → writes (put_slice tag bs) (enc_slice tag bs).
Proof.
  intros H. apply (writes_seq _ _ bs (tag :: enc_varint (Z.of_nat (length bs)))); [apply writes_copy|].
  by apply writes_length_tag.
Qed.

Lemma writes_bytes tag bs : Z.of_nat (length bs) < 2 ^ 63 → writes (put_bytes tag bs) (enc_bytes tag bs).
Proof.
  intros H. unfold put_bytes, enc_bytes. destruct bs as [|b bs]; [apply writes_skip|]. cbn [length Nat.eqb].
  rewrite (proj2 (Z.ltb_lt _ _)) by lia. by apply writes_slice.
Qed.

Lemma writes_message tag w bs :
  Z.of_nat (length bs) < 2 ^ 63 → writes w bs → writes (put_message tag w) (enc_slice tag bs).
Proof.
  intros Hl Hw dAtA i Hi.
  pose proof (writes_seq _ _ _ _ Hw (writes_length_tag tag bs Hl) dAtA i Hi) as H. unfold seq_write at 1 in H.
  assert (Z.of_nat (length bs) ≤ i) as Hb.
  { unfold enc_slice in Hi. cbn [length] in Hi. rewrite length_app in Hi. lia. }
  unfold put_message. rewrite Hw in H |- * by lia. cbn [result_bind snd] in *.
  replace (i - (i - Z.of_nat (length bs))) with (Z.of_nat (length bs)) by lia. exact H.
Qed.

Lemma writes_repeated {A} tag (put : A → writer) (enc : A → list Z) l :
  Forall (λ x, writes (put x) (enc_slice tag (enc x))) l → writes (put_repeated put l) (enc_repeated tag enc l).
Proof.
  induction 1 as [|x l Hx _ IH]; [apply writes_skip|]. cbn [put_repeated]. unfold enc_repeated. cbn [fmap list_fmap concat].
  by apply writes_seq.
Qed.

(** What [Marshal] returns when [Size] is right. *)
Lemma marshal_ok size w bs : writes w bs → size = Z.of_nat (length bs) → marshal size w = Ok bs.
Proof.
  intros Hw ->. unfold marshal. rewrite Hw by (rewrite length_replicate; lia). cbn [result_bind fst snd].
  rewrite Z.sub_diag. cbn [Z.to_nat take app]. rewrite drop_ge by (rewrite length_replicate; lia).
  rewrite app_nil_r, Z.sub_0_r, Nat2Z.id. by rewrite firstn_all.
Qed.

(** *** Sizes *)

Lemma size_int_ok tag v : size_int v = Z.of_nat (length (enc_int tag v)).
Proof.
  unfold size_int, enc_int. destruct (v =? 0); [done|]. cbn [negb length].
  rewrite Nat2Z.inj_succ, enc_varint_length by apply uint_64_range. lia.
Qed.

Lemma size_slice_ok tag bs :
  Z.of_nat (length bs) < 2 ^ 63 → size_slice (Z.of_nat (length bs)) = Z.of_nat (length (enc_slice tag bs)).
Proof.
  intros H. unfold size_slice, enc_slice. cbn [length]. rewrite Nat2Z.inj_succ, length_app, Nat2Z.inj_add.
  rewrite enc_varint_length by lia. rewrite uint_64_length by done. lia.
Qed.

Lemma size_bytes_ok tag bs : Z.of_nat (length bs) < 2 ^ 63 → size_bytes bs = Z.of_nat (length (enc_bytes tag bs)).
Proof.
  intros H. unfold size_bytes, enc_bytes. destruct bs as [|b bs]; [done|]. cbn [length Nat.eqb].
  rewrite (proj2 (Z.ltb_lt _ _)) by lia. by rewrite <- size_slice_ok.
Qed.

Lemma size_repeated_ok {A} tag (size : A → Z) (enc : A → list Z) l :
  Forall (λ x, size x = Z.of_nat (length (enc x)) ∧ Z.of_nat (length (enc x)) < 2 ^ 63) l →
  size_repeated size l = Z.of_nat (length (enc_repeated tag enc l)).
Proof.
  induction 1 as [|x l [Hx Hl] _ IH]; [done|]. unfold enc_repeated in *. cbn [size_repeated fmap list_fmap concat].
  rewrite length_app, Nat2Z.inj_add, IH, Hx. by rewrite (size_slice_ok tag).
Qed.

(** *** Reading *)

Lemma read_varint_ok wrap n k v acc i rest :
  bitwise wrap → (k + n = 9)%nat → 0 ≤ v < 2 ^ (64 - 7 * Z.of_nat k) →
  read_varint wrap (7 * Z.of_nat k) acc i (varint_bytes n v ++ rest)
  = Ok (Z.lor acc (wrap (Z.shiftl v (7 * Z.of_nat k))), (i + Z.of_nat (length (varint_bytes n v)), rest)).
Proof.
  intros Hw. revert k v acc i. induction n as [|n IH]; intros k v acc i Hk Hv; cbn [varint_bytes].
  - assert (k = 9)%nat as -> by lia. change (64 - 7 * Z.of_nat 9) with 1 in Hv. cbn [app read_varint length].
    rewrite (proj2 (Z.leb_gt _ _)) by lia. rewrite (proj2 (Z.ltb_lt v 128)) by lia.
    rewrite land_127, Z.mod_small by lia. done.
  - change (2 ^ 7) with 128. destruct (Z.leb_spec 128 v) as [H|H]; cbn [app read_varint length];
      rewrite (proj2 (Z.leb_gt _ _)) by lia.
    + destruct (group_bits v) as [[Hg _] Hl]; [lia|]. rewrite (proj2 (Z.ltb_ge _ _)) by lia. rewrite Hl.
      replace (7 * Z.of_nat k + 7) with (7 * Z.of_nat (S k)) by lia. rewrite IH; [|lia|].
      2: { apply shiftr_7_lt; [|lia]. replace (64 - 7 * Z.of_nat (S k) + 7) with (64 - 7 * Z.of_nat k) by lia. lia. }
      rewrite <- Z.lor_assoc, <- Hw. replace (7 * Z.of_nat (S k)) with (7 * Z.of_nat k + 7) by lia.
      rewrite lor_shift by lia. do 3 f_equal. lia.
    + rewrite (proj2 (Z.ltb_lt v 128)) by lia. rewrite land_127, Z.mod_small by lia. done.
Qed.

Lemma varint_ok wrap v i rest :
  bitwise wrap → 0 ≤ v < 2 ^ 64 →
  varint wrap i (enc_varint v ++ rest) = Ok (wrap v, (i + Z.of_nat (length (enc_varint v)), rest)).
Proof.
  intros Hw Hv. unfold varint. pose proof (read_varint_ok wrap 9 0 v 0 i rest Hw eq_refl Hv) as H.
  change (7 * Z.of_nat 0) with 0 in H. rewrite Z.lor_0_l, Z.shiftl_0_r in H. exact H.
Qed.

Lemma i64_length {A} (l : list A) : Z.of_nat (length l) < 2 ^ 63 → i64 (Z.of_nat (length l)) = Z.of_nat (length l).
Proof. intros H. apply sint_small; [lia|]. unfold in_sint. lia. Qed.

Lemma read_slice_ok l wrap bs i rest :
  wrap = i64 ∨ wrap = uint 64 → 0 ≤ i →
  i + Z.of_nat (length (enc_varint (Z.of_nat (length bs)) ++ bs ++ rest)) = l → l < 2 ^ 63 →
  read_slice l wrap i (enc_varint (Z.of_nat (length bs)) ++ bs ++ rest)
  = Ok (bs, (i + Z.of_nat (length (enc_varint (Z.of_nat (length bs)) ++ bs)), rest)).
Proof.
  intros Hw Hi Hl Hb. rewrite !length_app in *. unfold read_slice.
  assert (bitwise wrap) as Hbw.
  { destruct Hw as [-> | ->]; [apply bitwise_sint|apply bitwise_uint]; lia. }
  rewrite varint_ok by (done || lia). cbn [result_bind].
  assert (i64 (wrap (Z.of_nat (length bs))) = Z.of_nat (length bs)) as ->.
  { destruct Hw as [-> | ->]; [rewrite i64_length by lia|rewrite uint_64_length by lia]; apply i64_length; lia. }
  rewrite (proj2 (Z.ltb_ge _ _)) by lia.
  rewrite (sint_small 64) by (unfold in_sint; lia).
  rewrite !(proj2 (Z.ltb_ge _ _)) by lia.
  replace (Z.to_nat (i + Z.of_nat (length (enc_varint (Z.of_nat (length bs)))) + Z.of_nat (length bs)
    - (i + Z.of_nat (length (enc_varint (Z.of_nat (length bs))))))) with (length bs) by lia.
  rewrite take_app_length, drop_app_length. do 3 f_equal. lia.
Qed.

(** *** Decoding a message field by field *)

Section decode.
Context {M : Type} (name : string) (field : Z → Z → Z → M → option (reader M)) (l : Z).
Context (Hl : l < 2 ^ 63).
Local Abbreviation decodes := (decodes name field l).

Lemma decodes_nil m : decodes m [] m.
Proof. intros n i rest Hn Hi Hl'. exists n. split; [done|]. cbn. by rewrite Z.add_0_r. Qed.

Lemma decodes_app m m1 m2 b1 b2 : decodes m b1 m1 → decodes m1 b2 m2 → decodes m (b1 ++ b2) m2.
Proof.
  intros H1 H2 n i rest Hn Hi Hl'. rewrite <- app_assoc in *.
  destruct (H1 n i (b2 ++ rest) Hn Hi Hl') as (n1 & Hn1 & ->). rewrite (length_app b1) in Hl'.
  destruct (H2 n1 (i + Z.of_nat (length b1)) rest Hn1 ltac:(lia) ltac:(lia)) as (n2 & Hn2 & ->).
  exists n2. split; [done|]. rewrite length_app. f_equal. lia.
Qed.

(** A tag of one byte, and the reader of its field. *)
Lemma decodes_field m m' tag bs fieldNum wireType read :
  0 < fieldNum < 16 → 0 ≤ wireType < 8 → wireType ≠ 4 → tag = Z.lor (Z.shiftl fieldNum 3) wireType →
  field l fieldNum wireType m = Some read →
  (∀ i rest, 0 ≤ i → i + Z.of_nat (length (bs ++ rest)) = l →
     read i (bs ++ rest) = Ok (m', (i + Z.of_nat (length bs), rest))) →
  decodes m (tag :: bs) m'.
Proof.
  intros Hf Hw Hw4 -> Hread Hr n i rest Hn Hi Hl'. cbn [app length] in *. destruct n as [|n]; [lia|].
  exists n. split; [rewrite length_app in Hn; lia|]. cbn [unmarshal_loop].
  rewrite (proj2 (Z.leb_gt _ _)) by lia.
  assert (Z.lor (Z.shiftl fieldNum 3) wireType = fieldNum * 8 + wireType) as ->.
  { rewrite lor_low by lia. rewrite Z.shiftl_mul_pow2 by lia. lia. }
  set (t := fieldNum * 8 + wireType).
  assert (varint (uint 64) i (t :: bs ++ rest) = Ok (t, (i + 1, bs ++ rest))) as ->.
  { unfold varint. cbn [read_varint]. rewrite (proj2 (Z.ltb_lt t 128)) by lia.
    rewrite Z.lor_0_l, Z.shiftl_0_r, land_127, (Z.mod_small t) by lia. do 2 f_equal. apply Z.mod_small. lia. }
  cbn [result_bind].
  assert (Z.shiftr t 3 = fieldNum) as -> by (rewrite Z.shiftr_div_pow2 by lia; symmetry; apply (Z.div_unique _ _ _ wireType); lia).
  assert (Z.land t 7 = wireType) as ->.
  { change 7 with (Z.ones 3). rewrite Z.land_ones by lia. symmetry. apply (Z.mod_unique _ _ fieldNum); lia. }
  rewrite (sint_small 32) by (unfold in_sint; lia). rewrite (proj2 (Z.eqb_neq _ _) Hw4), (proj2 (Z.leb_gt _ _)) by lia.
  rewrite Hread, Hr by lia. cbn [result_bind fst snd]. f_equal. lia.
Qed.

(** The kinds of fields, each with the zero value of the field before and with its value
    after. *)
Lemma decodes_int fieldNum (set : Z → M) wrap fname v :
  0 < fieldNum < 16 → field l fieldNum 0 (set 0) = Some (get_int wrap fname 0 set) → bitwise wrap → wrap (uint 64 v) = v →
  decodes (set 0) (enc_int (Z.lor (Z.shiftl fieldNum 3) 0) v) (set v).
Proof.
  intros Hf Hr Hw Hv. unfold enc_int. destruct (Z.eqb_spec v 0) as [-> |Hn]; [apply decodes_nil|].
  eapply (decodes_field _ _ _ _ fieldNum 0); [done|lia|lia|done|done|]. intros i rest _ _. unfold get_int. cbn [negb Z.eqb].
  rewrite varint_ok by (done || apply uint_64_range). cbn [result_bind fst snd]. by rewrite Hv.
Qed.

Lemma decodes_slice m fname fieldNum set bs :
  0 < fieldNum < 16 → field l fieldNum 2 m = Some (get_bytes l fname 2 set) →
  decodes m (enc_slice (Z.lor (Z.shiftl fieldNum 3) 2) bs) (set bs).
Proof.
  intros Hf Hr. eapply (decodes_field _ _ _ _ fieldNum 2); [done|lia|lia|done|done|]. intros i rest Hi Hl'. unfold get_bytes. cbn [negb Z.eqb].
  rewrite <- app_assoc in *. by rewrite read_slice_ok by (done || auto).
Qed.

Lemma decodes_bytes fieldNum (set : gobytes → M) fname b :
  0 < fieldNum < 16 → field l fieldNum 2 (set None) = Some (get_bytes l fname 2 (λ v, set (Some v))) →
  decodes (set None) (enc_bytes (Z.lor (Z.shiftl fieldNum 3) 2) (slice b)) (set (received b)).
Proof.
  intros Hf Hr. unfold enc_bytes, received. destruct (slice b) as [|x bs]; [apply decodes_nil|].
  by apply (decodes_slice _ fname fieldNum (λ v, set (Some v))).
Qed.

Lemma decodes_string fieldNum (set : string → M) fname s :
  0 < fieldNum < 16 → field l fieldNum 2 (set EmptyString) = Some (get_string l fname 2 set) →
  decodes (set EmptyString) (enc_bytes (Z.lor (Z.shiftl fieldNum 3) 2) (string_bytes s)) (set s).
Proof.
  intros Hf Hr. unfold enc_bytes. destruct (Nat.eqb_spec (length (string_bytes s)) 0) as [E|_].
  { destruct s; [apply decodes_nil|done]. }
  rewrite <- (bytes_string_bytes s) at 2. eapply (decodes_field _ _ _ _ fieldNum 2); [done|lia|lia|done|done|].
  intros i rest Hi Hl'. unfold get_string. cbn [negb Z.eqb]. rewrite <- app_assoc in *. by rewrite read_slice_ok by (done || auto).
Qed.

Lemma decodes_message m m' fname fieldNum Unmarshal bs :
  0 < fieldNum < 16 → field l fieldNum 2 m = Some (get_message l fname 2 Unmarshal) → Unmarshal bs = Ok m' →
  decodes m (enc_slice (Z.lor (Z.shiftl fieldNum 3) 2) bs) m'.
Proof.
  intros Hf Hr Hu. eapply (decodes_field _ _ _ _ fieldNum 2); [done|lia|lia|done|done|]. intros i rest Hi Hl'. unfold get_message. cbn [negb Z.eqb].
  rewrite <- app_assoc in *. rewrite read_slice_ok by (done || auto). cbn [result_bind fst snd]. by rewrite Hu.
Qed.

(** A repeated field is appended to, element by element. *)
Lemma decodes_repeated {A} (m : list A → M) tag (enc : A → list Z) (norm : A → A) xs :
  (∀ done x, x ∈ xs → decodes (m done) (enc_slice tag (enc x)) (m (done ++ [norm x]))) →
  decodes (m []) (enc_repeated tag enc xs) (m (norm <$> xs)).
Proof.
  intros H. change (norm <$> xs) with ([] ++ (norm <$> xs)). generalize (@nil A) as done.
  induction xs as [|x xs IH]; intros done; [rewrite app_nil_r; apply decodes_nil|].
  unfold enc_repeated. cbn [fmap list_fmap concat]. eapply decodes_app; [apply H; by left|].
  replace (done ++ norm x :: (norm <$> xs)) with ((done ++ [norm x]) ++ (norm <$> xs)) by (by rewrite <- app_assoc).
  apply IH. intros d y Hy. apply H. by right.
Qed.

End decode.

(** The whole message. *)
Lemma unmarshal_ok {M} name field (m m' : M) bs :
  decodes name field (Z.of_nat (length bs)) m bs m' → unmarshal name field m bs = Ok m'.
Proof.
  intros H. unfold unmarshal.
  destruct (H (length bs) 0 []) as (n & _ & E); [rewrite app_nil_r; lia|lia|rewrite app_nil_r; lia|].
  rewrite app_nil_r in E. rewrite E. destruct n; cbn [unmarshal_loop]; rewrite Z.add_0_l, Z.leb_refl, Z.ltb_irrefl; done.
Qed.

(** *** Any input

    Whatever the bytes, a reader moves forward within the data and does not panic, and the
    fuel of the loops, one per byte, is enough. *)

Lemma read_varint_consumes wrap shift acc i rest :
  match read_varint wrap shift acc i rest with
  | Ok (_, (i', rest')) => i < i' ∧ i' + Z.of_nat (length rest') = i + Z.of_nat (length rest)
  | Err _ => True
  | Panics _ => False
  end.
Proof.
  revert shift acc i. induction rest as [|b rest IH]; intros shift acc i; cbn [read_varint];
    (destruct (64 <=? shift); [done|]); [done|]. cbv zeta. destruct (b <? 128); [cbn [length]; lia|].
  specialize (IH (shift + 7) (Z.lor acc (wrap (Z.shiftl (Z.land b 127) shift))) (i + 1)).
  destruct (read_varint _ _ _ _ _) as [[v [i' r']]| |]; [|done|done]. cbn [length]. lia.
Qed.

Lemma varint_consumes l wrap : consumes l (varint wrap).
Proof.
  intros i rest Hi Hl Hb. unfold varint. pose proof (read_varint_consumes wrap 0 0 i rest) as H.
  destruct (read_varint _ _ _ _ _) as [[v [i' r']]| |]; [|done|done]. lia.
Qed.

Lemma i64_add a b : 0 ≤ a < 2 ^ 63 → 0 ≤ b < 2 ^ 63 → i64 (a + b) = a + b ∨ i64 (a + b) < 0.
Proof.
  intros Ha Hb. destruct (Z.lt_ge_cases (a + b) (2 ^ 63)) as [H|H].
  - left. apply sint_small; [lia|]. unfold in_sint. lia.
  - right. rewrite (sint_mod 64 (a + b) (a + b - 2 ^ 64)).
    + rewrite sint_small; [lia|lia|]. unfold in_sint. lia.
    + unfold cong. replace (a + b - 2 ^ 64) with (a + b + (-1) * 2 ^ 64) by lia. by rewrite Z_mod_plus_full.
Qed.

Lemma read_slice_consumes l wrap : consumes l (read_slice l wrap).
Proof.
  intros i rest Hi Hl Hb. unfold read_slice. pose proof (varint_consumes l wrap i rest Hi Hl Hb) as H.
  destruct (varint wrap i rest) as [[v [i' r']]| |]; cbn [result_bind]; [|done|done].
  destruct H as (H1 & H2 & H3). destruct (Z.ltb_spec (i64 v) 0); [done|].
  pose proof (sint_range 64 v ltac:(lia)) as Hv. unfold in_sint in Hv. change (sint 64 v) with (i64 v) in Hv.
  destruct (i64_add i' (i64 v)) as [E|E]; [lia|lia| |].
  - rewrite E. destruct (Z.ltb_spec (i' + i64 v) 0); [done|]. destruct (Z.ltb_spec l (i' + i64 v)); [done|].
    rewrite (proj2 (Z.ltb_ge _ _)) by lia. rewrite length_drop. lia.
  - rewrite (proj2 (Z.ltb_lt _ _) E). done.
Qed.

Lemma get_int_consumes {M} l wrap fname wireType (set : Z → M) : consumes l (get_int wrap fname wireType set).
Proof.
  intros i rest Hi Hl Hb. unfold get_int. destruct (negb _); [done|]. pose proof (varint_consumes l wrap i rest Hi Hl Hb) as H'.
  by destruct (varint wrap i rest) as [[v [i' r']]| |].
Qed.

Lemma get_bytes_consumes {M} l fname wireType (set : list Z → M) : consumes l (get_bytes l fname wireType set).
Proof.
  intros i rest Hi Hl Hb. unfold get_bytes. destruct (negb _); [done|]. pose proof (read_slice_consumes l i64 i rest Hi Hl Hb) as H'.
  by destruct (read_slice l i64 i rest) as [[v [i' r']]| |].
Qed.

Lemma get_string_consumes {M} l fname wireType (set : string → M) : consumes l (get_string l fname wireType set).
Proof.
  intros i rest Hi Hl Hb. unfold get_string. destruct (negb _); [done|].
  pose proof (read_slice_consumes l (uint 64) i rest Hi Hl Hb) as H'.
  by destruct (read_slice l (uint 64) i rest) as [[v [i' r']]| |].
Qed.

Lemma get_message_consumes {M} l fname wireType (Unmarshal : list Z → result M goerror) :
  no_panic Unmarshal → consumes l (get_message l fname wireType Unmarshal).
Proof.
  intros Hn i rest Hi Hl Hb. unfold get_message. destruct (negb _); [done|].
  pose proof (read_slice_consumes l i64 i rest Hi Hl Hb) as H'.
  assert (∀ v i' r', read_slice l i64 i rest = Ok (v, (i', r')) → Z.of_nat (length v) < 2 ^ 63) as Hlen.
  { clear H'. intros v i' r'. unfold read_slice. pose proof (varint_consumes l i64 i rest Hi Hl Hb) as H'.
    destruct (varint i64 i rest) as [[w [j q]]| |]; cbn [result_bind]; [|done|done]. repeat (case_match; [done|]).
    intros [= <- _ _]. rewrite length_take. lia. }
  destruct (read_slice l i64 i rest) as [[v [i' r']]| |]; cbn [result_bind fst snd]; [|done|done].
  specialize (Hlen v i' r' eq_refl). pose proof (λ msg, Hn v msg Hlen) as Hm. destruct (Unmarshal v) as [m|e|msg]; [exact H'|done|].
  by apply (Hm msg).
Qed.

Lemma skip_varint_consumes shift i rest :
  match skip_varint shift i rest with
  | Ok (i', rest') => i < i' ∧ i' + Z.of_nat (length rest') = i + Z.of_nat (length rest)
  | Err _ => True
  | Panics _ => False
  end.
Proof.
  revert shift i. induction rest as [|b rest IH]; intros shift i; cbn [skip_varint];
    (destruct (64 <=? shift); [done|]); [done|]. destruct (b <? 128); [cbn [length]; lia|].
  specialize (IH (shift + 7) (i + 1)). destruct (skip_varint _ _ _) as [[i' r']| |]; [|done|done]. cbn [length]. lia.
Qed.

Lemma advance_skipping l n i rest :
  0 ≤ n < 2 ^ 63 → 0 ≤ i < 2 ^ 63 → skipping l i rest →
  let '(i', rest') := advance l n i rest in
  skipping l i' rest' ∧ (0 ≤ i' < l → i ≤ i').
Proof.
  intros Hn Hi [Hr Hs]. unfold advance. cbv zeta.
  pose proof (sint_range 64 (i + n) ltac:(lia)) as Hv. unfold in_sint in Hv. change (sint 64 (i + n)) with (i64 (i + n)) in Hv.
  destruct (i64_add i n Hi Hn) as [E|E]; split; try lia; (split; [lia|]); intros Hin; [|lia].
  rewrite (proj2 (Z.leb_gt _ _)) by lia. rewrite length_drop. lia.
Qed.

Lemma lor_in_sint w a b : 1 < w → in_sint w a → in_sint w b → in_sint w (Z.lor a b).
Proof.
  intros Hw Ha Hb. rewrite <- (sint_small w a), <- (sint_small w b), <- bitwise_sint by (done || lia). apply sint_range. lia.
Qed.

Lemma read_varint_range shift acc i rest v s :
  in_sint 64 acc → read_varint i64 shift acc i rest = Ok (v, s) → v < 2 ^ 63.
Proof.
  revert shift acc i. induction rest as [|b rest IH]; intros shift acc i Ha; cbn [read_varint];
    (destruct (64 <=? shift); [done|]); [done|]. cbv zeta.
  assert (in_sint 64 (Z.lor acc (i64 (Z.shiftl (Z.land b 127) shift)))) as Hl.
  { apply lor_in_sint; [lia|done|]. apply sint_range. lia. }
  destruct (b <? 128); [|by apply IH]. intros [= <- _]. unfold in_sint in Hl. cbn in Hl |- *. lia.
Qed.

Lemma skip_field_skipping l wireType depth i rest :
  0 ≤ i → i + Z.of_nat (length rest) = l → l < 2 ^ 63 →
  match skip_field l wireType depth i rest with
  | Ok (_, (i', rest')) => skipping l i' rest' ∧ (0 ≤ i' < l → i ≤ i')
  | Err _ => True
  | Panics _ => False
  end.
Proof.
  intros Hi Hl Hb. assert (skipping l i rest) as Hs by (split; [lia|done]). unfold skip_field.
  destruct (wireType =? 0).
  { pose proof (skip_varint_consumes 0 i rest) as H. destruct (skip_varint 0 i rest) as [[i' r']| |]; cbn; [|done|done].
    split; [split; lia|lia]. }
  destruct (wireType =? 1); [by apply (advance_skipping l 8); [lia|lia|]|].
  destruct (wireType =? 2).
  { pose proof (varint_consumes l i64 i rest Hi Hl Hb) as H.
    assert (∀ v s, varint i64 i rest = Ok (v, s) → v < 2 ^ 63) as Hv.
    { intros v s E. eapply read_varint_range; [|exact E]. unfold in_sint. lia. }
    destruct (varint i64 i rest) as [[v [i' r']]| |]; cbn [result_bind fst snd]; [|done|done].
    specialize (Hv v (i', r') eq_refl). destruct (Z.ltb_spec v 0); [done|]. destruct H as (H1 & H2 & H3).
    pose proof (advance_skipping l v i' r' ltac:(lia) ltac:(lia) ltac:(split; [lia|done])) as Ha.
    destruct (advance l v i' r') as [i2 r2]. destruct Ha. split; [done|lia]. }
  destruct (wireType =? 3); [split; [done|lia]|].
  destruct (wireType =? 4); [destruct (depth =? 0); [done|split; [done|lia]]|].
  destruct (wireType =? 5); [by apply (advance_skipping l 4); [lia|lia|]|done].
Qed.

Lemma skip_loop_total n l depth i rest :
  0 ≤ i → skipping l i rest → l < 2 ^ 63 → l ≤ i ∨ (length rest ≤ n)%nat →
  match skip_loop n l depth i rest with
  | Ok k => i < k < 2 ^ 63
  | Err _ => True
  | Panics _ => False
  end.
Proof.
  revert depth i rest. induction n as [|n IH]; intros depth i rest Hi Hs Hl Hn; cbn [skip_loop];
    (destruct (Z.leb_spec l i) as [Hli|Hli]; [done|]); destruct Hs as [Hr Hs]; specialize (Hs ltac:(lia)); [lia|].
  pose proof (read_varint_consumes (uint 64) 0 0 i rest) as Hv. unfold varint.
  destruct (read_varint _ _ _ _ _) as [[w [i1 r1]]| |]; cbn [result_bind fst snd]; [|done|done].
  pose proof (skip_field_skipping l (Z.land w 7) depth i1 r1 ltac:(lia) ltac:(lia) Hl) as Hf.
  destruct (skip_field _ _ _ _ _) as [[d [i2 r2]]| |]; cbn [result_bind]; [|done|done]. destruct Hf as [Hs2 Hm].
  destruct (Z.ltb_spec i2 0); [done|].
  assert (i < i2 < 2 ^ 63 ∧ (l ≤ i2 ∨ (length r2 ≤ n)%nat)) as [Hi2 Hn2].
  { destruct Hs2 as [Hr2 Hs2]. destruct (Z.lt_ge_cases i2 l) as [H'|H']; [specialize (Hs2 ltac:(lia))|]; lia. }
  destruct (d =? 0); [done|]. specialize (IH d i2 r2 ltac:(lia) Hs2 Hl Hn2).
  destruct (skip_loop n l d i2 r2); [lia|done|done].
Qed.

Section total.
Context {M : Type} (name : string) (field : Z → Z → Z → M → option (reader M)).
Hypothesis Hfield : ∀ l fieldNum wireType m read, field l fieldNum wireType m = Some read → consumes l read.

(** One iteration: the loop goes on further in the data, or it ends without a panic. *)
Lemma unmarshal_loop_step n l m i rest :
  0 ≤ i → i + Z.of_nat (length rest) = l → l < 2 ^ 63 →
  (∀ m' i' rest', i < i' → i' + Z.of_nat (length rest') = l → (length rest' < length rest)%nat →
     ∀ msg, unmarshal_loop name field n l m' i' rest' ≠ Panics msg) →
  ∀ msg, unmarshal_loop name field (S n) l m i rest ≠ Panics msg.
Proof using Hfield.
  intros Hi Hl Hb IH. cbn [unmarshal_loop]. destruct (Z.leb_spec l i); [destruct (l <? i); done|].
  pose proof (read_varint_consumes (uint 64) 0 0 i rest) as Hv. unfold varint.
  destruct (read_varint _ _ _ _ _) as [[w [i1 r1]]| |]; cbn [result_bind]; [|done|done].
  destruct (_ =? 4); [done|]. destruct (_ <=? 0); [done|].
  destruct (field l _ _ m) as [read|] eqn:Ef.
  - pose proof (Hfield _ _ _ _ _ Ef i1 r1 ltac:(lia) ltac:(lia) Hb) as Hr.
    destruct (read i1 r1) as [[m' [i2 r2]]| |]; cbn [result_bind fst snd]; [|done|done].
    destruct Hr as (? & ? & ?). apply IH; lia.
  - assert (skipping (Z.of_nat (length rest)) 0 rest) as Hs by (split; lia).
    pose proof (skip_loop_total (length rest) (Z.of_nat (length rest)) 0 0 rest ltac:(lia) Hs ltac:(lia) ltac:(lia)) as Hk.
    unfold skipCosigner. destruct (skip_loop _ _ _ _ _) as [k|e|p]; cbn [result_bind]; [|done|done].
    destruct (Z.ltb_spec k 0); [lia|]. cbn [orb]. destruct (Z.ltb_spec (i64 (i + k)) 0); [done|].
    destruct (Z.ltb_spec l (i64 (i + k))); [done|].
    assert (i64 (i + k) = i + k) as E by (destruct (i64_add i k ltac:(lia) ltac:(lia)); lia).
    rewrite E in *. apply IH; rewrite ?length_drop; lia.
Qed.

Lemma unmarshal_loop_total n l m i rest :
  0 ≤ i → i + Z.of_nat (length rest) = l → l < 2 ^ 63 → (length rest ≤ n)%nat →
  ∀ msg, unmarshal_loop name field n l m i rest ≠ Panics msg.
Proof using Hfield.
  revert m i rest. induction n as [|n IH]; intros m i rest Hi Hl Hb Hn.
  - assert (l = i) as -> by (destruct rest; cbn in *; lia). cbn [unmarshal_loop]. by rewrite Z.leb_refl, Z.ltb_irrefl.
  - apply unmarshal_loop_step; [done..|]. intros m' i' rest' H1 H2 H3. apply IH; lia.
Qed.

Lemma unmarshal_total m : no_panic (unmarshal name field m).
Proof using Hfield. intros dAtA msg Hl. by apply unmarshal_loop_total; [lia..|]. Qed.

End total.
