(* ===== verification/Comet.v ===== *)
(** * What the signer relies on from CometBFT

    The message types of CometBFT's protobuf package that the signer reads, and
    the functions of CometBFT and of the protobuf library it calls on them, as an
    interface: [Codec] has the operations and [CodecLaws] what their documentation
    promises.  Nothing else is known about them here.  [toy_codec] is one concrete
    implementation, used to show that the laws can hold and to run the model.

    A Go [time.Time] is its number of nanoseconds since the Unix epoch. *)

From S2P Require Import Prelude Hrs Errors.
From stdpp Require Import base list strings numbers.
From Stdlib Require Import ZArith Lia.

Open Scope Z_scope.

(** ** Definitions *)

(** The zero [time.Time]: January 1, year 1, 00:00 UTC. *)
Definition zero_time : Z := -62135596800000000000.

Definition IsZero (t : Z) : bool := t =? zero_time.

(** [t.UnixNano()] wraps outside the years 1678 to 2262. *)
Definition UnixNano (t : Z) : Z := i64 t.

Definition UnknownType : Z := 0.
Definition PrevoteType : Z := 1.
Definition PrecommitType : Z := 2.
Definition ProposalType : Z := 32.

Record CanonicalBlockID := mkCanonicalBlockID {
  cbid_Hash : gobytes;
  cbid_PartSetTotal : Z;
  cbid_PartSetHash : gobytes
}.

(** [blockID.GetHash()] on a possibly nil pointer *)
Definition GetHash (b : option CanonicalBlockID) : gobytes :=
  match b with
  | None => None
  | Some b => cbid_Hash b
  end.

Record CanonicalVote := mkCanonicalVote {
  cv_Type : Z;
  cv_Height : Z;
  cv_Round : Z;
  cv_BlockID : option CanonicalBlockID;
  cv_Timestamp : Z;
  cv_ChainID : string
}.

Record CanonicalProposal := mkCanonicalProposal {
  cp_Type : Z;
  cp_Height : Z;
  cp_Round : Z;
  cp_POLRound : Z;
  cp_BlockID : option CanonicalBlockID;
  cp_Timestamp : Z;
  cp_ChainID : string
}.

Record CanonicalVoteExtension := mkCanonicalVoteExtension {
  cve_Extension : gobytes;
  cve_Height : Z;
  cve_Round : Z;
  cve_ChainId : string
}.

Record BlockID := mkBlockID {
  bid_Hash : gobytes;
  bid_PartSetTotal : Z;
  bid_PartSetHash : gobytes
}.

(** The privval request messages; [Round] is an int32 there. *)
Record Vote := mkVote {
  v_Type : Z;
  v_Height : Z;
  v_Round : Z;
  v_BlockID : BlockID;
  v_Timestamp : Z;
  v_ValidatorAddress : gobytes;
  v_ValidatorIndex : Z;
  v_Signature : gobytes;
  v_Extension : gobytes;
  v_ExtensionSignature : gobytes
}.

Record Proposal := mkProposal {
  p_Type : Z;
  p_Height : Z;
  p_Round : Z;
  p_PolRound : Z;
  p_BlockID : BlockID;
  p_Timestamp : Z;
  p_Signature : gobytes
}.

Global Instance CanonicalBlockID_eq_dec : EqDecision CanonicalBlockID.
Proof. solve_decision. Defined.
Global Instance CanonicalVote_eq_dec : EqDecision CanonicalVote.
Proof. solve_decision. Defined.
Global Instance CanonicalProposal_eq_dec : EqDecision CanonicalProposal.
Proof. solve_decision. Defined.

(** [vote.Timestamp = t] *)
Definition vote_set_Timestamp (t : Z) (v : CanonicalVote) : CanonicalVote :=
  mkCanonicalVote (cv_Type v) (cv_Height v) (cv_Round v) (cv_BlockID v) t (cv_ChainID v).

Definition proposal_set_Timestamp (t : Z) (p : CanonicalProposal) : CanonicalProposal :=
  mkCanonicalProposal (cp_Type p) (cp_Height p) (cp_Round p) (cp_POLRound p) (cp_BlockID p) t
    (cp_ChainID p).

(** The operations: [protoio.UnmarshalDelimited] and [protoio.MarshalDelimited] at
    the three canonical types, [proto.Equal] at two of them, and CometBFT's sign
    bytes of a request. *)
Class Codec := {
  unmarshalVote : list Z → result CanonicalVote goerror;
  unmarshalProposal : list Z → result CanonicalProposal goerror;
  unmarshalVoteExtension : list Z → result CanonicalVoteExtension goerror;
  marshalVote : CanonicalVote → result (list Z) goerror;
  voteEqual : CanonicalVote → CanonicalVote → bool;
  proposalEqual : CanonicalProposal → CanonicalProposal → bool;
  VoteSignBytes : string → Vote → list Z;
  VoteExtensionSignBytes : string → Vote → list Z;
  ProposalSignBytes : string → Proposal → list Z
}.

(** [proto.Equal] is an equality of messages. *)
Class CodecLaws (C : Codec) := {
  voteEqual_refl v : voteEqual v v = true;
  voteEqual_sym v w : voteEqual v w = true → voteEqual w v = true;
  voteEqual_trans u v w : voteEqual u v = true → voteEqual v w = true → voteEqual u w = true;
  proposalEqual_refl p : proposalEqual p p = true;
  proposalEqual_sym p q : proposalEqual p q = true → proposalEqual q p = true;
  proposalEqual_trans p q r :
    proposalEqual p q = true → proposalEqual q r = true → proposalEqual p r = true
}.

(** ** A concrete codec

    A message is a kind byte followed by small numbers: [1] a vote (type, height,
    round, timestamp, block hash byte or nothing), [2] a proposal, [3] an
    extension. *)
Definition toy_block (bs : list Z) : option CanonicalBlockID :=
  match bs with
  | [] => None
  | _ => Some (mkCanonicalBlockID (Some bs) 1 (Some []))
  end.

Definition toy_unmarshalVote (bs : list Z) : result CanonicalVote goerror :=
  match bs with
  | 1 :: t :: h :: r :: ts :: blk => Ok (mkCanonicalVote t h r (toy_block blk) ts "chain")
  | _ => Err (ErrorString "not a vote")
  end.

Definition toy_unmarshalProposal (bs : list Z) : result CanonicalProposal goerror :=
  match bs with
  | 2 :: h :: r :: ts :: blk =>
      Ok (mkCanonicalProposal ProposalType h r (-1) (toy_block blk) ts "chain")
  | _ => Err (ErrorString "not a proposal")
  end.

Definition toy_unmarshalVoteExtension (bs : list Z) : result CanonicalVoteExtension goerror :=
  match bs with
  | 3 :: h :: r :: ext => Ok (mkCanonicalVoteExtension (Some ext) h r "chain")
  | _ => Err (ErrorString "not a vote extension")
  end.

Definition toy_marshalVote (v : CanonicalVote) : result (list Z) goerror :=
  Ok ([1; cv_Type v; cv_Height v; cv_Round v; cv_Timestamp v] ++ slice (GetHash (cv_BlockID v))).

Definition toy_codec : Codec := {|
  unmarshalVote := toy_unmarshalVote;
  unmarshalProposal := toy_unmarshalProposal;
  unmarshalVoteExtension := toy_unmarshalVoteExtension;
  marshalVote := toy_marshalVote;
  voteEqual v w := bool_decide (v = w);
  proposalEqual p q := bool_decide (p = q);
  VoteSignBytes _ v :=
    [1; v_Type v; v_Height v; v_Round v; v_Timestamp v] ++ slice (bid_Hash (v_BlockID v));
  VoteExtensionSignBytes _ v := [3; v_Height v; v_Round v] ++ slice (v_Extension v);
  ProposalSignBytes _ p := [2; p_Height p; p_Round p; p_Timestamp p] ++ slice (bid_Hash (p_BlockID p))
|}.

Lemma toy_codec_laws : CodecLaws toy_codec.
Proof.
  split; intros; cbn in *; repeat match goal with
  | H : bool_decide _ = true |- _ => apply bool_decide_eq_true in H
  end; apply bool_decide_eq_true; congruence.
Qed.
