(* ===== verification/SignState.v ===== *)
(** * The signing watermark

    Models src/signer/sign_state.go: [SignState], the high watermark of height,
    round and step with the payload and signature last produced at it, its cache
    of recent signatures, the double-sign check [blockDoubleSign] behind [Save],
    the regression check [CheckHRS], the comparison of two payloads up to their
    timestamp, and persistence to a state file.  Also the conversions of requests
    into [Block] (sign_state.go, threshold_validator.go).

    Each function that the code runs inside one critical section of [signState.mu]
    is one definition here; how sections of different goroutines interleave is
    modelled by the files that call them.  The condition variable is not state:
    waking a waiter makes it run its next section. *)

From S2P Require Import Prelude Hrs Errors Comet.
From stdpp Require Import base gmap list strings numbers pretty.
From Stdlib Require Import ZArith Lia Sorted.

Open Scope Z_scope.

(** ** Definitions *)

Definition stepPropose : Z := 1.
Definition stepPrevote : Z := 2.
Definition stepPrecommit : Z := 3.
Definition blocksToCache : Z := 3.

Definition signType (step : Z) : string :=
  if step =? stepPropose then "proposal"
  else if step =? stepPrevote then "prevote"
  else if step =? stepPrecommit then "precommit"
  else "unknown".

Definition CanonicalVoteToStep (vote : CanonicalVote) : result Z goerror :=
  if cv_Type vote =? PrevoteType then Ok stepPrevote
  else if cv_Type vote =? PrecommitType then Ok stepPrecommit
  else Panics "Unknown vote type".

Definition VoteToStep (vote : Vote) : result Z goerror :=
  if v_Type vote =? PrevoteType then Ok stepPrevote
  else if v_Type vote =? PrecommitType then Ok stepPrecommit
  else Panics "Unknown vote type".

Definition ProposalToStep (_ : Proposal) : Z := stepPropose.

Definition StepToType (step : Z) : result Z goerror :=
  if step =? stepPropose then Ok ProposalType
  else if step =? stepPrevote then Ok PrevoteType
  else if step =? stepPrecommit then Ok PrecommitType
  else Panics "Unknown step".

Record Block := mkBlock {
  b_Height : Z;
  b_Round : Z;
  b_Step : Z;
  b_SignBytes : gobytes;
  b_VoteExtensionSignBytes : gobytes;
  b_Timestamp : Z
}.

(** [block.HRSKey()] and [block.HRSTKey()] *)
Definition block_HRSKey (b : Block) : HRSKey := mkHRSKey (b_Height b) (b_Round b) (b_Step b).

Definition block_HRSTKey (b : Block) : HRSTKey :=
  mkHRSTKey (b_Height b) (b_Round b) (b_Step b) (UnixNano (b_Timestamp b)).

Definition VoteToBlock `{Codec} (chainID : string) (vote : Vote) : result Block goerror :=
  try step <- VoteToStep vote;
  Ok (mkBlock (v_Height vote) (v_Round vote) step
        (Some (VoteSignBytes chainID vote)) (Some (VoteExtensionSignBytes chainID vote))
        (v_Timestamp vote)).

Definition ProposalToBlock `{Codec} (chainID : string) (proposal : Proposal) : Block :=
  mkBlock (p_Height proposal) (p_Round proposal) (ProposalToStep proposal)
    (Some (ProposalSignBytes chainID proposal)) None (p_Timestamp proposal).

Record SignStateConsensus := mkSSC {
  ssc_Height : Z;
  ssc_Round : Z;
  ssc_Step : Z;
  ssc_Signature : gobytes;
  ssc_VoteExtensionSignature : gobytes;
  ssc_SignBytes : gobytes
}.

(** [signState.HRSKey()] of a [SignStateConsensus] *)
Definition ssc_HRSKey (s : SignStateConsensus) : HRSKey :=
  mkHRSKey (ssc_Height s) (ssc_Round s) (ssc_Step s).

Record ChainSignStateConsensus := mkChainSSC {
  cssc_ChainID : string;
  cssc_SignStateConsensus : SignStateConsensus
}.

Definition NewSignStateConsensus (height round step : Z) : SignStateConsensus :=
  mkSSC height round step None None None.

Record SignState := mkSignState {
  ss_Height : Z;
  ss_Round : Z;
  ss_Step : Z;
  ss_NoncePublic : gobytes;
  ss_Signature : gobytes;
  ss_SignBytes : gobytes;
  ss_VoteExtensionSignature : gobytes;
  ss_filePath : string;
  ss_cache : gmap HRSKey SignStateConsensus
}.

(** [signState.lockedHrsKey()], also [LatestHRS] *)
Definition lockedHrsKey (s : SignState) : HRSKey := mkHRSKey (ss_Height s) (ss_Round s) (ss_Step s).

Definition LatestHRS (s : SignState) : HRSKey := lockedHrsKey s.

(** [GetFromCache]: the watermark, and the cached entry for [hrs] if any. *)
Definition GetFromCache (s : SignState) (hrs : HRSKey) : HRSKey * option SignStateConsensus :=
  (lockedHrsKey s, ss_cache s !! hrs).

Definition lockedGetErrorIfLessOrEqual (s : SignState) (height round step : Z) : option goerror :=
  let hrs := mkHRSKey height round step in
  let signStateHRS := lockedHrsKey s in
  if GreaterThan signStateHRS hrs then Some (ErrorString "regression not allowed")
  else if bool_decide (hrs = signStateHRS) then Some (newSameHRSError (mkHRSKey height round step))
  else None.

(** The deletion loop of [blockDoubleSign]; [height-blocksToCache] is int64 arithmetic. *)
Definition prune_cache (height : Z) (cache : gmap HRSKey SignStateConsensus)
    : gmap HRSKey SignStateConsensus :=
  filter (λ kv, (hrs_Height kv.1 <? i64 (height - blocksToCache)) = false) cache.

(** [lockedCopy]: a deep copy without the cache. *)
Definition lockedCopy (s : SignState) : SignState :=
  mkSignState (ss_Height s) (ss_Round s) (ss_Step s)
    (bytes_copy (ss_NoncePublic s)) (bytes_copy (ss_Signature s)) (bytes_copy (ss_SignBytes s))
    (bytes_copy (ss_VoteExtensionSignature s)) (ss_filePath s) ∅.

(** The critical section of [Save]: the new state and the copy to persist. *)
Definition blockDoubleSign (s : SignState) (ssc : SignStateConsensus)
    : result (SignState * SignState) goerror :=
  match lockedGetErrorIfLessOrEqual s (ssc_Height ssc) (ssc_Round ssc) (ssc_Step ssc) with
  | Some err => Err err
  | None =>
      let cache := prune_cache (ssc_Height ssc) (<[ssc_HRSKey ssc := ssc]> (ss_cache s)) in
      let s' := mkSignState (ssc_Height ssc) (ssc_Round ssc) (ssc_Step ssc) (ss_NoncePublic s)
                  (ssc_Signature ssc) (ssc_SignBytes ssc) (ssc_VoteExtensionSignature ssc)
                  (ss_filePath s) cache in
      Ok (s', lockedCopy s')
  end.

(** [CheckHRS] *)
Definition CheckHRS (s : SignState) (hrst : HRSTKey) : result bool goerror :=
  if hrst_Height hrst <? ss_Height s then
    Err (newHeightRegressionError (hrst_Height hrst) (ss_Height s))
  else if ss_Height s =? hrst_Height hrst then
    if hrst_Round hrst <? ss_Round s then
      Err (newRoundRegressionError (hrst_Height hrst) (hrst_Round hrst) (ss_Round s))
    else if ss_Round s =? hrst_Round hrst then
      if hrst_Step hrst <? ss_Step s then
        Err (newStepRegressionError (hrst_Height hrst) (hrst_Round hrst) (hrst_Step hrst) (ss_Step s))
      else if ss_Step s =? hrst_Step hrst then
        match ss_SignBytes s with
        | Some _ =>
            match ss_Signature s with
            | None => Panics "pv: Signature is nil but SignBytes is not!"
            | Some _ => Ok true
            end
        | None => Err ErrEmptySignBytes
        end
      else Ok false
    else Ok false
  else Ok false.

(** [checkVoteOnlyDifferByTimestamp] and [checkProposalOnlyDifferByTimestamp] *)
Definition checkVoteOnlyDifferByTimestamp `{Codec} (lastSignBytes newSignBytes : gobytes)
    : result unit goerror :=
  try lastVote <- map_err (newUnmarshalError "lastSignBytes" "vote") (unmarshalVote (slice lastSignBytes));
  try newVote <- map_err (newUnmarshalError "newSignBytes" "vote") (unmarshalVote (slice newSignBytes));
  let newVote := vote_set_Timestamp (cv_Timestamp lastVote) newVote in
  if voteEqual newVote lastVote then Ok ()
  else
    match cv_BlockID lastVote, cv_BlockID newVote with
    | Some _, None => Err (newAlreadySignedVoteError true)
    | None, Some _ => Err (newAlreadySignedVoteError false)
    | lastVoteBlockID, newVoteBlockID =>
        if negb (bytes_Equal (GetHash lastVoteBlockID) (GetHash newVoteBlockID))
        then Err (newDiffBlockIDsError (GetHash lastVoteBlockID) (GetHash newVoteBlockID))
        else Err (newConflictingDataError lastSignBytes newSignBytes)
    end.

Definition checkProposalOnlyDifferByTimestamp `{Codec} (lastSignBytes newSignBytes : gobytes)
    : result unit goerror :=
  try lastProposal <- map_err (newUnmarshalError "lastSignBytes" "proposal")
                        (unmarshalProposal (slice lastSignBytes));
  try newProposal <- map_err (newUnmarshalError "newSignBytes" "proposal")
                       (unmarshalProposal (slice newSignBytes));
  let newProposal := proposal_set_Timestamp (cp_Timestamp lastProposal) newProposal in
  if negb (proposalEqual newProposal lastProposal)
  then Err (newConflictingDataError lastSignBytes newSignBytes)
  else Ok ().

Definition onlyDifferByTimestamp `{Codec} (step : Z) (signStateSignBytes signBytes : gobytes)
    : result unit goerror :=
  if step =? stepPropose then checkProposalOnlyDifferByTimestamp signStateSignBytes signBytes
  else if (step =? stepPrevote) || (step =? stepPrecommit)
  then checkVoteOnlyDifferByTimestamp signStateSignBytes signBytes
  else Panics ("unexpected sign step: " +:+ fmt_d step).

(** The two [OnlyDifferByTimestamp] methods *)
Definition ss_OnlyDifferByTimestamp `{Codec} (s : SignState) (signBytes : gobytes)
    : result unit goerror :=
  onlyDifferByTimestamp (ss_Step s) (ss_SignBytes s) signBytes.

Definition ssc_OnlyDifferByTimestamp `{Codec} (s : SignStateConsensus) (signBytes : gobytes)
    : result unit goerror :=
  onlyDifferByTimestamp (ssc_Step s) (ssc_SignBytes s) signBytes.

(** [errorIfConflictOrRegression] *)
Definition errorIfConflictOrRegression `{Codec} (s : SignState) (hrst : HRSTKey)
    (signBytes : gobytes) : result unit goerror :=
  try sameHRS <- CheckHRS s hrst;
  if negb sameHRS then Ok ()
  else if bytes_Equal signBytes (ss_SignBytes s) then Ok ()
  else ss_OnlyDifferByTimestamp s signBytes.

(** [FreshCache] *)
Definition FreshCache (s : SignState) : SignState :=
  mkSignState (ss_Height s) (ss_Round s) (ss_Step s) (ss_NoncePublic s) (ss_Signature s)
    (ss_SignBytes s) (ss_VoteExtensionSignature s) (ss_filePath s)
    {[ lockedHrsKey s :=
         mkSSC (ss_Height s) (ss_Round s) (ss_Step s) (ss_Signature s)
           (ss_VoteExtensionSignature s) (ss_SignBytes s) ]}.

(** *** Persistence *)

(** The exported fields, which are what the JSON file holds. *)
Record SignStateJSON := mkSignStateJSON {
  j_Height : Z;
  j_Round : Z;
  j_Step : Z;
  j_NoncePublic : gobytes;
  j_Signature : gobytes;
  j_SignBytes : gobytes;
  j_VoteExtensionSignature : gobytes
}.

Definition json_fields (s : SignState) : SignStateJSON :=
  mkSignStateJSON (ss_Height s) (ss_Round s) (ss_Step s) (ss_NoncePublic s) (ss_Signature s)
    (ss_SignBytes s) (ss_VoteExtensionSignature s).

(** A field tagged [omitempty] is left out when empty and decodes to nil. *)
Definition omitempty (b : gobytes) : gobytes := if blen b =? 0 then None else b.

Definition json_decoded (j : SignStateJSON) : SignStateJSON :=
  mkSignStateJSON (j_Height j) (j_Round j) (j_Step j) (j_NoncePublic j) (omitempty (j_Signature j))
    (omitempty (j_SignBytes j)) (omitempty (j_VoteExtensionSignature j)).

(** [cometjson.MarshalIndent] and [cometjson.Unmarshal] at this type. *)
Class Json := {
  marshalJSON : SignStateJSON → result (list Z) goerror;
  unmarshalJSON : list Z → result SignStateJSON goerror
}.

(** What was encoded decodes to the same fields, but for the omitted ones. *)
Class JsonLaws (J : Json) := {
  json_roundtrip j bs : marshalJSON j = Ok bs → unmarshalJSON bs = Ok (json_decoded j)
}.

(** A path of the file system: a readable file, or an error of [os.Stat] other
    than not-exist, or of [os.ReadFile]. *)
Inductive fs_entry : Type :=
| Content (bs : list Z)
| StatFails (e : goerror)
| ReadFails (e : goerror).

Record FileSystem := mkFS {
  fs_files : gmap string fs_entry;
  fs_write_error : string → option goerror
}.

Definition DevNull : string := "/dev/null".

(** [tempfile.WriteFileAtomic] *)
Definition WriteFileAtomic (fs : FileSystem) (path : string) (bs : list Z)
    : result FileSystem goerror :=
  match fs_write_error fs path with
  | Some e => Err e
  | None => Ok (mkFS (<[path := Content bs]> (fs_files fs)) (fs_write_error fs))
  end.

(** [os.ReadFile] *)
Definition ReadFile (fs : FileSystem) (path : string) : result (list Z) goerror :=
  match fs_files fs !! path with
  | Some (Content bs) => Ok bs
  | Some (StatFails e) | Some (ReadFails e) => Err e
  | None => Err (ErrorString "file does not exist")
  end.

Definition saveSignState `{Json} (s : SignState) (fs : FileSystem) : result FileSystem goerror :=
  match marshalJSON (json_fields s) with
  | Err e => Panics (Error e)
  | Panics m => Panics m
  | Ok jsonBytes =>
      if String.eqb (ss_filePath s) DevNull then Ok fs
      else if String.eqb (ss_filePath s) "" then Panics "cannot save SignState: filePath not set"
      else match WriteFileAtomic fs (ss_filePath s) jsonBytes with
           | Err e => Panics (Error e)
           | r => r
           end
  end.

(** The file system and the state copies whose writes are still queued in
    goroutines: the [pendingDiskWG] group. *)
Record Disk := mkDisk {
  d_fs : FileSystem;
  d_pending : list SignState
}.

(** [Save]: with a wait group the write is queued, else it is done at once. *)
Definition Save `{Json} (s : SignState) (ssc : SignStateConsensus) (pendingDiskWG : bool) (d : Disk)
    : result (SignState * Disk) goerror :=
  try p <- blockDoubleSign s ssc;
  if pendingDiskWG then Ok (p.1, mkDisk (d_fs d) (d_pending d ++ [p.2]))
  else try fs <- saveSignState p.2 (d_fs d); Ok (p.1, mkDisk fs (d_pending d)).

(** A queued goroutine runs: the scheduler picks which. *)
Definition flush_write `{Json} (i : nat) (d : Disk) : result Disk goerror :=
  match d_pending d !! i with
  | None => Ok d
  | Some s =>
      try fs <- saveSignState s (d_fs d);
      Ok (mkDisk fs (delete i (d_pending d)))
  end.

Definition state_of_json (j : SignStateJSON) (path : string) : SignState :=
  mkSignState (j_Height j) (j_Round j) (j_Step j) (j_NoncePublic j) (j_Signature j) (j_SignBytes j)
    (j_VoteExtensionSignature j) path ∅.

Definition LoadSignState `{Json} (filepath : string) (fs : FileSystem) : result SignState goerror :=
  try stateJSONBytes <- ReadFile fs filepath;
  try j <- unmarshalJSON stateJSONBytes;
  Ok (FreshCache (state_of_json j filepath)).

Definition LoadOrCreateSignState `{Json} (filepath : string) (fs : FileSystem)
    : result (SignState * FileSystem) goerror :=
  match fs_files fs !! filepath with
  | Some (StatFails err) =>
      Err (WrapError ("unexpected error checking file existence (" +:+ filepath +:+ "): ") err)
  | None =>
      let state := mkSignState 0 0 0 None None None None filepath ∅ in
      try fs' <- saveSignState state fs;
      Ok (state, fs')
  | Some _ => try s <- LoadSignState filepath fs; Ok (s, fs)
  end.

(** *** A concrete state file format, to run the model *)

Definition toy_put (b : gobytes) : list Z :=
  match b with
  | None => [-1]
  | Some l => Z.of_nat (length l) :: l
  end.

Definition toy_get (bs : list Z) : gobytes * list Z :=
  match bs with
  | [] => (None, [])
  | z :: rest => if z <? 0 then (None, rest) else (Some (take (Z.to_nat z) rest), drop (Z.to_nat z) rest)
  end.

Definition toy_marshalJSON (j : SignStateJSON) : result (list Z) goerror :=
  Ok ([j_Height j; j_Round j; j_Step j] ++ toy_put (j_NoncePublic j)
      ++ toy_put (omitempty (j_Signature j)) ++ toy_put (omitempty (j_SignBytes j))
      ++ toy_put (omitempty (j_VoteExtensionSignature j))).

Definition toy_unmarshalJSON (bs : list Z) : result SignStateJSON goerror :=
  match bs with
  | h :: r :: st :: bs =>
      let '(n, bs) := toy_get bs in
      let '(sg, bs) := toy_get bs in
      let '(sb, bs) := toy_get bs in
      let '(ve, bs) := toy_get bs in
      Ok (mkSignStateJSON h r st n sg sb ve)
  | _ => Err (ErrorString "unexpected end of JSON input")
  end.

Definition toy_json : Json := {|
  marshalJSON := toy_marshalJSON;
  unmarshalJSON := toy_unmarshalJSON
|}.

(** A file system on which every write succeeds. *)
Definition empty_fs : FileSystem := mkFS ∅ (λ _, None).

(** *** Specifications *)

(** Two payloads at one step are the same up to their timestamp. *)
Definition same_payload `{Codec} (step : Z) (a b : list Z) : Prop :=
  a = b ∨
  if step =? stepPropose then
    ∃ p q t, unmarshalProposal a = Ok p ∧ unmarshalProposal b = Ok q ∧
      proposalEqual (proposal_set_Timestamp t p) (proposal_set_Timestamp t q) = true
  else
    ∃ v w t, unmarshalVote a = Ok v ∧ unmarshalVote b = Ok w ∧
      voteEqual (vote_set_Timestamp t v) (vote_set_Timestamp t w) = true.

(** A new payload is acceptable at the step of a stored one: identical, or
    different only by its timestamp. *)
Definition acceptable `{Codec} (step : Z) (stored new : gobytes) : bool :=
  bytes_Equal new stored || is_ok (onlyDifferByTimestamp step stored new).

(** Every cache entry sits under its own key, at or below the watermark. *)
Definition cache_ok (s : SignState) : Prop :=
  map_Forall (λ k ssc, ssc_HRSKey ssc = k ∧ hrs_le k (lockedHrsKey s)) (ss_cache s).

(** The newest cache entry is the watermark's own payload and signature. *)
Definition top_cached (s : SignState) : Prop :=
  ∃ ssc, ss_cache s !! lockedHrsKey s = Some ssc ∧
    ssc_SignBytes ssc = ss_SignBytes s ∧ ssc_Signature ssc = ss_Signature s ∧
    ssc_VoteExtensionSignature ssc = ss_VoteExtensionSignature s.

(** The state a successful save leaves. *)
Definition saved_state (s : SignState) (ssc : SignStateConsensus) : SignState :=
  mkSignState (ssc_Height ssc) (ssc_Round ssc) (ssc_Step ssc) (ss_NoncePublic s)
    (ssc_Signature ssc) (ssc_SignBytes ssc) (ssc_VoteExtensionSignature ssc) (ss_filePath s)
    (prune_cache (ssc_Height ssc) (<[ssc_HRSKey ssc := ssc]> (ss_cache s))).

(** The state a restart recovers from the copy a save wrote. *)
Definition recovered (s : SignState) : SignState :=
  FreshCache (state_of_json (json_decoded (json_fields (lockedCopy s))) (ss_filePath s)).

(** A sequence of saves against one state: the final state and the payloads that
    were accepted, in order. *)
Fixpoint run_saves (s : SignState) (l : list SignStateConsensus)
    : SignState * list SignStateConsensus :=
  match l with
  | [] => (s, [])
  | ssc :: l' =>
      match blockDoubleSign s ssc with
      | Ok (s', _) => let '(s'', acc) := run_saves s' l' in (s'', ssc :: acc)
      | _ => run_saves s l'
      end
  end.

(** ** Lemmas *)

Lemma lockedGetError_None s h r st :
  lockedGetErrorIfLessOrEqual s h r st = None ↔ hrs_lt (lockedHrsKey s) (mkHRSKey h r st).
Proof.
  unfold lockedGetErrorIfLessOrEqual. cbv zeta.
  destruct (GreaterThan (lockedHrsKey s) (mkHRSKey h r st)) eqn:G.
  - apply GreaterThan_lt in G. split; [done|]. intros H. exfalso.
    apply (hrs_lt_irrefl (lockedHrsKey s)). by etransitivity.
  - apply GreaterThan_false in G. case_bool_decide as E.
    + rewrite E. split; [done|]. intros H. by apply hrs_lt_irrefl in H.
    + split; [|done]. intros _. destruct G as [G|G]; [done|congruence].
Qed.

(** [blockDoubleSign] succeeds exactly above the watermark. *)
Lemma blockDoubleSign_Ok s ssc s' copy :
  blockDoubleSign s ssc = Ok (s', copy) ↔
  hrs_lt (lockedHrsKey s) (ssc_HRSKey ssc) ∧ s' = saved_state s ssc ∧ copy = lockedCopy s'.
Proof.
  unfold blockDoubleSign.
  destruct (lockedGetErrorIfLessOrEqual s _ _ _) eqn:E.
  - split; [done|]. intros (H & _). unfold ssc_HRSKey in H.
    apply lockedGetError_None in H. congruence.
  - apply lockedGetError_None in E. cbv zeta. split.
    + intros [= <- <-]. done.
    + intros (_ & -> & ->). done.
Qed.

Lemma saved_state_key s ssc : lockedHrsKey (saved_state s ssc) = ssc_HRSKey ssc.
Proof. done. Qed.

Lemma blockDoubleSign_no_panic s ssc m : blockDoubleSign s ssc ≠ Panics m.
Proof. unfold blockDoubleSign. by destruct (lockedGetErrorIfLessOrEqual s _ _ _). Qed.

Lemma prune_cache_lookup h cache k ssc :
  prune_cache h cache !! k = Some ssc ↔
  cache !! k = Some ssc ∧ i64 (h - blocksToCache) ≤ hrs_Height k.
Proof.
  unfold prune_cache. rewrite map_lookup_filter_Some. cbn. by rewrite Z.ltb_ge.
Qed.

(** An entry of a saved state is the new one or an old one. *)
Lemma saved_state_cache s ssc k e :
  ss_cache (saved_state s ssc) !! k = Some e →
  (k = ssc_HRSKey ssc ∧ e = ssc) ∨ ss_cache s !! k = Some e.
Proof.
  cbn. rewrite prune_cache_lookup. intros [H _].
  destruct (decide (ssc_HRSKey ssc = k)) as [<-|Hk].
  - rewrite lookup_insert_eq in H. left. split; congruence.
  - rewrite lookup_insert_ne in H by done. by right.
Qed.

Lemma saved_state_top s ssc :
  in_sint 64 (ssc_Height ssc - blocksToCache) →
  ss_cache (saved_state s ssc) !! ssc_HRSKey ssc = Some ssc.
Proof.
  intros Hh. cbn. rewrite prune_cache_lookup, lookup_insert_eq. split; [done|].
  rewrite sint_small by (done || lia). unfold ssc_HRSKey, blocksToCache. cbn. lia.
Qed.

Lemma saved_state_cache_ok s ssc :
  hrs_lt (lockedHrsKey s) (ssc_HRSKey ssc) → cache_ok s → cache_ok (saved_state s ssc).
Proof.
  intros Hlt Hok k e He. rewrite saved_state_key.
  apply saved_state_cache in He as [[-> ->]|He].
  - split; [done|]. by right.
  - destruct (Hok k e He) as [Hk Hle]. split; [done|]. left. by eapply hrs_le_lt_trans.
Qed.

Lemma FreshCache_ok s : cache_ok (FreshCache s) ∧ top_cached (FreshCache s).
Proof.
  split.
  - intros k e He. cbn in He. apply lookup_singleton_Some in He as [<- <-]. split; [done|]. by right.
  - eexists. split; [apply lookup_singleton_eq|]. done.
Qed.

(** The accepted saves climb from the watermark. *)
Lemma run_saves_sorted s l s' acc :
  run_saves s l = (s', acc) →
  StronglySorted hrs_lt (ssc_HRSKey <$> acc) ∧
  Forall (λ k, hrs_lt (lockedHrsKey s) k) (ssc_HRSKey <$> acc) ∧
  hrs_le (lockedHrsKey s) (lockedHrsKey s').
Proof.
  revert s s' acc. induction l as [|ssc l IH]; intros s s' acc; cbn [run_saves].
  - intros [= <- <-]. split; [constructor|]. split; [constructor|]. by right.
  - destruct (blockDoubleSign s ssc) as [[s1 copy]| |] eqn:E; [|by apply IH|by apply IH].
    apply blockDoubleSign_Ok in E as (Hlt & -> & _).
    destruct (run_saves (saved_state s ssc) l) as [s2 acc2] eqn:R. intros [= <- <-].
    destruct (IH _ _ _ R) as (Hs & Hf & Hle). rewrite saved_state_key in Hf, Hle.
    rewrite fmap_cons. split; [by constructor|]. split.
    + constructor; [done|]. eapply Forall_impl; [exact Hf|]. intros k Hk. by etransitivity.
    + left. by eapply hrs_lt_le_trans.
Qed.

(** [CheckHRS], by the position of the request against the watermark. *)
Lemma CheckHRS_cases s hrst :
  match CheckHRS s hrst with
  | Ok false => hrs_lt (lockedHrsKey s) (hrst_HRSKey hrst)
  | Ok true => hrst_HRSKey hrst = lockedHrsKey s ∧ ss_SignBytes s ≠ None ∧ ss_Signature s ≠ None
  | Err e =>
      hrs_lt (hrst_HRSKey hrst) (lockedHrsKey s) ∨
      (hrst_HRSKey hrst = lockedHrsKey s ∧ ss_SignBytes s = None ∧ e = ErrEmptySignBytes)
  | Panics _ => hrst_HRSKey hrst = lockedHrsKey s ∧ ss_SignBytes s ≠ None ∧ ss_Signature s = None
  end.
Proof.
  unfold CheckHRS, hrst_HRSKey, lockedHrsKey.
  repeat case_match; rewrite ?Z.ltb_lt, ?Z.ltb_ge, ?Z.eqb_eq, ?Z.eqb_neq in *;
    unfold hrs_lt; cbn; simplify_eq;
    first [ by left; lia | lia | (split; [f_equal; lia|done]) | (right; split; [f_equal; lia|done]) ].
Qed.

Lemma onlyDifferByTimestamp_vote `{Codec} step stored new :
  step ≠ stepPropose → onlyDifferByTimestamp step stored new = Ok () →
  ∃ v w, unmarshalVote (slice stored) = Ok v ∧ unmarshalVote (slice new) = Ok w ∧
    voteEqual (vote_set_Timestamp (cv_Timestamp v) w) v = true.
Proof.
  intros Hs. unfold onlyDifferByTimestamp. rewrite (proj2 (Z.eqb_neq _ _) Hs).
  case_match; [|done]. unfold checkVoteOnlyDifferByTimestamp.
  destruct (unmarshalVote (slice stored)) as [v| |]; try done.
  destruct (unmarshalVote (slice new)) as [w| |]; try done. cbn.
  destruct (voteEqual _ _) eqn:E; [|by repeat case_match]. intros _. by exists v, w.
Qed.

Lemma onlyDifferByTimestamp_proposal `{Codec} stored new :
  onlyDifferByTimestamp stepPropose stored new = Ok () →
  ∃ p q, unmarshalProposal (slice stored) = Ok p ∧ unmarshalProposal (slice new) = Ok q ∧
    proposalEqual (proposal_set_Timestamp (cp_Timestamp p) q) p = true.
Proof.
  unfold onlyDifferByTimestamp. rewrite Z.eqb_refl. unfold checkProposalOnlyDifferByTimestamp.
  destruct (unmarshalProposal (slice stored)) as [v| |]; try done.
  destruct (unmarshalProposal (slice new)) as [w| |]; try done. cbn.
  destruct (proposalEqual _ _) eqn:E; [|done]. intros _. by exists v, w.
Qed.

Lemma vote_set_own_Timestamp v : vote_set_Timestamp (cv_Timestamp v) v = v.
Proof. by destruct v. Qed.

Lemma proposal_set_own_Timestamp p : proposal_set_Timestamp (cp_Timestamp p) p = p.
Proof. by destruct p. Qed.

Lemma acceptable_Ok `{Codec} step stored new :
  acceptable step stored new = true →
  slice new = slice stored ∨ onlyDifferByTimestamp step stored new = Ok ().
Proof.
  unfold acceptable, bytes_Equal. rewrite orb_true_iff, bool_decide_eq_true.
  intros [?|H1]; [by left|right].
  by destruct (onlyDifferByTimestamp _ _ _) as [[]| |].
Qed.

Section payloads.
Context `{C : Codec, !CodecLaws C}.

(** Two payloads accepted against one stored payload are the same payload. *)
Lemma acceptable_same_payload step stored a b :
  acceptable step stored a = true → acceptable step stored b = true →
  same_payload step (slice a) (slice b).
Proof.
  intros [Ha|Ha]%acceptable_Ok [Hb|Hb]%acceptable_Ok; unfold same_payload.
  - left. congruence.
  - right. destruct (step =? stepPropose) eqn:E.
    + apply Z.eqb_eq in E as ->.
      apply onlyDifferByTimestamp_proposal in Hb as (p & q & Hp & Hq & He).
      exists p, q, (cp_Timestamp p). rewrite Ha, proposal_set_own_Timestamp.
      auto using proposalEqual_sym.
    + apply Z.eqb_neq in E. apply onlyDifferByTimestamp_vote in Hb as (v & w & Hv & Hw & He); [|done].
      exists v, w, (cv_Timestamp v). rewrite Ha, vote_set_own_Timestamp. auto using voteEqual_sym.
  - right. destruct (step =? stepPropose) eqn:E.
    + apply Z.eqb_eq in E as ->.
      apply onlyDifferByTimestamp_proposal in Ha as (p & q & Hp & Hq & He).
      exists q, p, (cp_Timestamp p). rewrite Hb, proposal_set_own_Timestamp. auto.
    + apply Z.eqb_neq in E. apply onlyDifferByTimestamp_vote in Ha as (v & w & Hv & Hw & He); [|done].
      exists w, v, (cv_Timestamp v). rewrite Hb, vote_set_own_Timestamp. auto.
  - right. destruct (step =? stepPropose) eqn:E.
    + apply Z.eqb_eq in E as ->.
      apply onlyDifferByTimestamp_proposal in Ha as (p & q & Hp & Hq & He).
      apply onlyDifferByTimestamp_proposal in Hb as (p' & q' & Hp' & Hq' & He').
      assert (p' = p) as -> by congruence.
      exists q, q', (cp_Timestamp p). eauto using proposalEqual_trans, proposalEqual_sym.
    + apply Z.eqb_neq in E.
      apply onlyDifferByTimestamp_vote in Ha as (v & w & Hv & Hw & He); [|done].
      apply onlyDifferByTimestamp_vote in Hb as (v' & w' & Hv' & Hw' & He'); [|done].
      assert (v' = v) as -> by congruence.
      exists w, w', (cv_Timestamp v). eauto using voteEqual_trans, voteEqual_sym.
Qed.

Lemma same_payload_sym step a b : same_payload step a b → same_payload step b a.
Proof.
  unfold same_payload. intros [H|H]; [by left|right]. case_match.
  - destruct H as (p & q & t & ? & ? & ?). exists q, p, t. auto using proposalEqual_sym.
  - destruct H as (p & q & t & ? & ? & ?). exists q, p, t. auto using voteEqual_sym.
Qed.
End payloads.

Lemma acceptable_refl `{Codec} step stored : acceptable step stored stored = true.
Proof. unfold acceptable, bytes_Equal. by rewrite bool_decide_eq_true_2. Qed.

(** The gate of a share signature passes exactly above the watermark, or at it
    with an acceptable payload. *)
Lemma errorIfConflictOrRegression_Ok `{Codec} s hrst signBytes :
  errorIfConflictOrRegression s hrst signBytes = Ok () ↔
  hrs_lt (lockedHrsKey s) (hrst_HRSKey hrst) ∨
  (hrst_HRSKey hrst = lockedHrsKey s ∧ ss_SignBytes s ≠ None ∧ ss_Signature s ≠ None ∧
   acceptable (ss_Step s) (ss_SignBytes s) signBytes = true).
Proof.
  unfold errorIfConflictOrRegression, acceptable, ss_OnlyDifferByTimestamp.
  pose proof (CheckHRS_cases s hrst) as Hc.
  destruct (CheckHRS s hrst) as [[]|e|m]; cbn.
  - destruct Hc as (E & Hb & Hsig). destruct (bytes_Equal _ _).
    + split; [|done]. intros _. right. done.
    + cbn. split.
      * intros Hd. right. rewrite Hd. done.
      * intros [Hlt|(_ & _ & _ & Hd)].
        -- rewrite E in Hlt. by apply hrs_lt_irrefl in Hlt.
        -- by destruct (onlyDifferByTimestamp _ _ _) as [[]| |].
  - split; [by left|done].
  - split; [done|]. intros [Hlt|(E & Hb & _)].
    + destruct Hc as [Hc|(E & _)]; [|rewrite E in Hlt; by apply hrs_lt_irrefl in Hlt].
      exfalso. apply (hrs_lt_irrefl (lockedHrsKey s)). by etransitivity.
    + destruct Hc as [Hc|(_ & Hn & _)]; [|done]. rewrite E in Hc. by apply hrs_lt_irrefl in Hc.
  - destruct Hc as (E & Hb & Hsig). split; [done|]. intros [Hlt|(_ & _ & ? & _)]; [|done].
    rewrite E in Hlt. by apply hrs_lt_irrefl in Hlt.
Qed.

(** *** Persistence *)

Lemma toy_get_put b bs : toy_get (toy_put b ++ bs) = (b, bs).
Proof.
  destruct b as [l|]; [|done]. cbn [toy_put toy_get app].
  rewrite (proj2 (Z.ltb_ge _ _)) by lia. rewrite Nat2Z.id.
  by rewrite take_app_length, drop_app_length.
Qed.

Lemma toy_json_laws : JsonLaws toy_json.
Proof.
  split. intros j bs [= <-]. cbn [unmarshalJSON toy_json]. unfold toy_unmarshalJSON.
  cbn [app]. rewrite !toy_get_put. rewrite <- (app_nil_r (toy_put (omitempty (j_VoteExtensionSignature j)))).
  by rewrite toy_get_put.
Qed.

Lemma omitempty_slice b : slice (omitempty b) = slice b.
Proof.
  unfold omitempty, blen. destruct (Z.of_nat _ =? 0) eqn:E; [|done].
  apply Z.eqb_eq in E. destruct (slice b); [done|cbn in E; lia].
Qed.

Lemma omitempty_not_nil b : omitempty b ≠ None → b ≠ None.
Proof. unfold omitempty. destruct b; [done|]. by case_match. Qed.

(** The gate looks at the stored payload only through its bytes. *)
Lemma onlyDifferByTimestamp_slice `{Codec} step stored stored' new :
  slice stored = slice stored' →
  onlyDifferByTimestamp step stored new = Ok () → onlyDifferByTimestamp step stored' new = Ok ().
Proof.
  intros E. unfold onlyDifferByTimestamp, checkProposalOnlyDifferByTimestamp,
    checkVoteOnlyDifferByTimestamp. rewrite E.
  case_match; [|case_match; [|done]].
  - destruct (unmarshalProposal (slice stored')); [|done|done]. cbn.
    destruct (unmarshalProposal (slice new)); [|done|done]. cbn. by case_match.
  - destruct (unmarshalVote (slice stored')); [|done|done]. cbn.
    destruct (unmarshalVote (slice new)); [|done|done]. cbn. repeat case_match; done.
Qed.

Lemma acceptable_slice `{Codec} step stored stored' new :
  slice stored = slice stored' → acceptable step stored new = true → acceptable step stored' new = true.
Proof.
  intros E [H1|H1]%acceptable_Ok; unfold acceptable, bytes_Equal.
  - by rewrite bool_decide_eq_true_2 by congruence.
  - rewrite (onlyDifferByTimestamp_slice _ _ _ _ E H1). apply orb_true_r.
Qed.

Lemma saveSignState_content `{Json} s fs fs' :
  ss_filePath s ≠ DevNull → saveSignState s fs = Ok fs' →
  ∃ bs, marshalJSON (json_fields s) = Ok bs ∧ fs_files fs' !! ss_filePath s = Some (Content bs).
Proof.
  intros Hp. unfold saveSignState.
  destruct (marshalJSON _) as [bs| |]; [|done|done].
  rewrite (proj2 (String.eqb_neq _ _) Hp). case_match; [done|]. unfold WriteFileAtomic.
  case_match; [|done|done]. intros [= <-].
  destruct (fs_write_error fs (ss_filePath s)); [done|]. simplify_eq.
  exists bs. split; [done|]. cbn. by rewrite lookup_insert_eq.
Qed.

Lemma LoadOrCreate_saved `{J : Json, !JsonLaws J} s fs fs' :
  ss_filePath s ≠ DevNull → saveSignState (lockedCopy s) fs = Ok fs' →
  LoadOrCreateSignState (ss_filePath s) fs' = Ok (recovered s, fs').
Proof.
  intros Hp Hs. apply (saveSignState_content (lockedCopy s)) in Hs as (bs & Hm & Hf); [|done].
  cbn [lockedCopy ss_filePath] in Hf. unfold LoadOrCreateSignState, LoadSignState, ReadFile.
  rewrite Hf. cbn. by rewrite (json_roundtrip _ _ Hm).
Qed.

Lemma LoadOrCreate_cache `{Json} path fs ss fs' :
  LoadOrCreateSignState path fs = Ok (ss, fs') → ss_cache ss = ∅ ∨ top_cached ss.
Proof.
  unfold LoadOrCreateSignState. destruct (fs_files fs !! path) as [[bs|e|e]|]; [|done| |].
  1-2: unfold LoadSignState; destruct (ReadFile fs path); [|done..]; cbn; destruct (unmarshalJSON _) as [j| |]; [|done..];
    cbn; intros [= <- <-]; right; by destruct (FreshCache_ok (state_of_json j path)).
  destruct (saveSignState _ _) as [fs''| |]; [|done..]. cbn. intros [= <- <-]. by left.
Qed.

Lemma LoadOrCreate_ok `{Json} path fs ss fs' :
  LoadOrCreateSignState path fs = Ok (ss, fs') → cache_ok ss ∧ (ss_SignBytes ss ≠ None → top_cached ss).
Proof.
  unfold LoadOrCreateSignState. destruct (fs_files fs !! path) as [[bs|e|e]|].
  - unfold LoadSignState. destruct (ReadFile fs path); [|done|done]. cbn.
    destruct (unmarshalJSON _) as [j| |]; [|done|done]. cbn. intros [= <- <-].
    destruct (FreshCache_ok (state_of_json j path)). by split.
  - done.
  - unfold LoadSignState. destruct (ReadFile fs path); [|done|done]. cbn.
    destruct (unmarshalJSON _) as [j| |]; [|done|done]. cbn. intros [= <- <-].
    destruct (FreshCache_ok (state_of_json j path)). by split.
  - destruct (saveSignState _ _); [|done|done]. cbn. intros [= <- <-].
    split; [|done]. intros k e He. cbn in He. by rewrite lookup_empty in He.
Qed.

(** A save whose write is queued. *)
Lemma Save_async_Ok `{Json} (ss : SignState) ssc d ss' d' :
  Save ss ssc true d = Ok (ss', d') →
  hrs_lt (lockedHrsKey ss) (ssc_HRSKey ssc) ∧ ss' = saved_state ss ssc.
Proof.
  unfold Save. destruct (blockDoubleSign ss ssc) as [[s1 c]| |] eqn:E; [|done|done].
  apply blockDoubleSign_Ok in E as (Hlt & -> & _). cbn. by intros [= <- _].
Qed.

Lemma Save_SameHRS `{Json} (ss : SignState) ssc d e :
  Save ss ssc true d = Err e → is_SameHRSError e = true → ssc_HRSKey ssc = lockedHrsKey ss.
Proof.
  unfold Save, blockDoubleSign, lockedGetErrorIfLessOrEqual. cbv zeta. fold (ssc_HRSKey ssc).
  destruct (GreaterThan _ _); [by intros [= <-]|]. case_bool_decide; [done|]. done.
Qed.

(** An entry of the cache after a save is the saved one or was there before. *)
Lemma saved_state_lookup s ssc k e :
  ss_cache (saved_state s ssc) !! k = Some e →
  (k = ssc_HRSKey ssc ∧ e = ssc) ∨ ss_cache s !! k = Some e.
Proof.
  cbn. intros [H _]%prune_cache_lookup. apply lookup_insert_Some in H as [[<- <-]|[_ H]]; auto.
Qed.

Lemma omitempty_copied b : omitempty (bytes_copy b) ≠ None ↔ slice b ≠ [].
Proof. unfold omitempty, blen. destruct b as [[|x l]|]; cbn; naive_solver. Qed.

(** The gate of a recovered state is that of the state that was saved, with empty bytes as nil. *)
Lemma recovered_gate_exact `{Codec} s hrst b :
  errorIfConflictOrRegression (recovered s) hrst b = Ok () ↔
  hrs_lt (lockedHrsKey s) (hrst_HRSKey hrst) ∨
  (hrst_HRSKey hrst = lockedHrsKey s ∧ slice (ss_SignBytes s) ≠ [] ∧ slice (ss_Signature s) ≠ [] ∧
   acceptable (ss_Step s) (ss_SignBytes s) b = true).
Proof.
  rewrite errorIfConflictOrRegression_Ok. change (lockedHrsKey (recovered s)) with (lockedHrsKey s).
  change (ss_SignBytes (recovered s)) with (omitempty (bytes_copy (ss_SignBytes s))).
  change (ss_Signature (recovered s)) with (omitempty (bytes_copy (ss_Signature s))). change (ss_Step (recovered s)) with (ss_Step s).
  rewrite !omitempty_copied.
  assert (acceptable (ss_Step s) (omitempty (bytes_copy (ss_SignBytes s))) b = true ↔ acceptable (ss_Step s) (ss_SignBytes s) b = true) as ->.
  { split; apply acceptable_slice; by rewrite omitempty_slice. }
  done.
Qed.

Lemma recovered_gate `{Codec} s hrst b :
  errorIfConflictOrRegression (recovered s) hrst b = Ok () →
  errorIfConflictOrRegression s hrst b = Ok ().
Proof.
  rewrite recovered_gate_exact, errorIfConflictOrRegression_Ok. intros [H1|(E & Hb & Hs & Ha)]; [by left|]. right.
  split; [done|]. split; [by intros Hn; rewrite Hn in Hb|]. split; [by intros Hn; rewrite Hn in Hs|done].
Qed.

Lemma gate_below `{Codec} s hrst b :
  hrs_lt (hrst_HRSKey hrst) (lockedHrsKey s) → ∃ e, errorIfConflictOrRegression s hrst b = Err e.
Proof.
  intros Hlt. unfold errorIfConflictOrRegression. pose proof (CheckHRS_cases s hrst) as Hc.
  destruct (CheckHRS s hrst) as [[]|e|m]; [| |by exists e|].
  - destruct Hc as [E _]. rewrite E in Hlt. by apply hrs_lt_irrefl in Hlt.
  - destruct (hrs_lt_irrefl (lockedHrsKey s)). by etransitivity.
  - destruct Hc as [E _]. rewrite E in Hlt. by apply hrs_lt_irrefl in Hlt.
Qed.

(** What a save leaves on the disk once its write is done, at once or when the goroutine it was queued in has run *)
Lemma Save_written `{Json} s ssc queued d s' d1 d2 :
  Save s ssc queued d = Ok (s', d1) → (if queued then flush_write (length (d_pending d)) d1 else Ok d1) = Ok d2 →
  s' = saved_state s ssc ∧ ∃ fs, saveSignState (lockedCopy (saved_state s ssc)) fs = Ok (d_fs d2).
Proof.
  unfold Save. destruct (blockDoubleSign s ssc) as [[s1 copy]| |] eqn:E; [|done..]. cbn.
  apply blockDoubleSign_Ok in E as (_ & -> & ->). destruct queued; cbn.
  - intros [= <- <-]. unfold flush_write. cbn. rewrite lookup_app_r, Nat.sub_diag by lia. cbn.
    destruct (saveSignState _ _) as [fs'| |] eqn:Ef; [|done..]. cbn. intros [= <-]. split; [done|]. by exists (d_fs d).
  - destruct (saveSignState _ _) as [fs'| |] eqn:Ef; [|done..]. cbn. intros [= <- <-] [= <-]. split; [done|]. by exists (d_fs d).
Qed.

(** ** Properties *)

(** The double-sign gate [blockDoubleSign] is exact: it accepts a
    payload precisely when its height, round and step are above the watermark,
    moving the watermark to it, and otherwise changes nothing and returns
    [SameHRSError] at the watermark or the regression error below it. *)
Theorem blockDoubleSign_exact s ssc :
  (hrs_lt (lockedHrsKey s) (ssc_HRSKey ssc) ∧
     blockDoubleSign s ssc = Ok (saved_state s ssc, lockedCopy (saved_state s ssc)) ∧
     lockedHrsKey (saved_state s ssc) = ssc_HRSKey ssc) ∨
  (ssc_HRSKey ssc = lockedHrsKey s ∧
     blockDoubleSign s ssc = Err (newSameHRSError (ssc_HRSKey ssc))) ∨
  (hrs_lt (ssc_HRSKey ssc) (lockedHrsKey s) ∧
     blockDoubleSign s ssc = Err (ErrorString "regression not allowed")).
Proof.
  destruct (GreaterThan (lockedHrsKey s) (ssc_HRSKey ssc)) eqn:G.
  - right; right. split; [by apply GreaterThan_lt|].
    unfold blockDoubleSign, lockedGetErrorIfLessOrEqual. fold (ssc_HRSKey ssc). by rewrite G.
  - pose proof G as G'. apply GreaterThan_false in G' as [Hlt|E].
    + left. split; [done|]. split; [by apply blockDoubleSign_Ok|]. apply saved_state_key.
    + right; left. split; [done|]. unfold blockDoubleSign, lockedGetErrorIfLessOrEqual.
      fold (ssc_HRSKey ssc). rewrite G. cbv zeta. by rewrite bool_decide_eq_true_2.
Qed.

(** However many saves are attempted and in whatever order, the
    accepted ones climb strictly from the initial watermark: no height, round and
    step is ever accepted twice, and the watermark never moves back. *)
Theorem saves_strictly_increase s l :
  let '(s', acc) := run_saves s l in
  StronglySorted hrs_lt (ssc_HRSKey <$> acc) ∧ NoDup (ssc_HRSKey <$> acc) ∧
  Forall (λ k, hrs_lt (lockedHrsKey s) k) (ssc_HRSKey <$> acc) ∧
  hrs_le (lockedHrsKey s) (lockedHrsKey s').
Proof.
  destruct (run_saves s l) as [s' acc] eqn:E.
  destruct (run_saves_sorted _ _ _ _ E) as (Hs & Hf & Hle).
  split; [done|]. split; [|done]. clear -Hs.
  induction Hs as [|k ks Hs IH Hall]; constructor; [|done].
  intros Hin. rewrite list.Forall_forall in Hall. by apply (hrs_lt_irrefl k), Hall.
Qed.

(** C31: the share-signing gate [errorIfConflictOrRegression] passes
    exactly when the request is above the watermark, or at the watermark with a
    payload identical to the stored one or different only by its timestamp, and two
    payloads it passes at one stored payload are the same up to their timestamps. *)
Theorem sign_gate_exact `{C : Codec, !CodecLaws C} s hrst a b :
  (errorIfConflictOrRegression s hrst a = Ok () ↔
     hrs_lt (lockedHrsKey s) (hrst_HRSKey hrst) ∨
     (hrst_HRSKey hrst = lockedHrsKey s ∧ ss_SignBytes s ≠ None ∧ ss_Signature s ≠ None ∧
      acceptable (ss_Step s) (ss_SignBytes s) a = true)) ∧
  (hrst_HRSKey hrst = lockedHrsKey s →
   errorIfConflictOrRegression s hrst a = Ok () → errorIfConflictOrRegression s hrst b = Ok () →
   same_payload (ss_Step s) (slice a) (slice b)).
Proof.
  split; [apply errorIfConflictOrRegression_Ok|]. intros E.
  rewrite !errorIfConflictOrRegression_Ok, E.
  intros [H|(_ & _ & _ & Ha)] [H'|(_ & _ & _ & Hb)];
    try (by apply hrs_lt_irrefl in H); try (by apply hrs_lt_irrefl in H').
  by eapply acceptable_same_payload.
Qed.

Lemma sign_gate_exact_witness :
  let s := mkSignState 5 0 3 None (Some [7]) (Some [1; 2; 5; 0; 100; 42]) None "f" ∅ in
  @same_payload toy_codec 3 [1; 2; 5; 0; 101; 42] [1; 2; 5; 0; 102; 42] ∧
  @errorIfConflictOrRegression toy_codec s (mkHRSTKey 5 0 3 0) (Some [1; 2; 5; 0; 101; 43])
  = Err (newDiffBlockIDsError (Some [42]) (Some [43])).
Proof.
  cbv zeta. split; [|reflexivity].
  apply (proj2 (@sign_gate_exact toy_codec toy_codec_laws
    (mkSignState 5 0 3 None (Some [7]) (Some [1; 2; 5; 0; 100; 42]) None "f" ∅)
    (mkHRSTKey 5 0 3 0) (Some [1; 2; 5; 0; 101; 42]) (Some [1; 2; 5; 0; 102; 42])));
    reflexivity.
Defined.

(** The cache keeps every entry under its own key at or below the
    watermark; a save keeps the new entry and exactly the older entries whose height
    is within [blocksToCache] of it. *)
Theorem cache_window s ssc s' copy k e :
  cache_ok s → blockDoubleSign s ssc = Ok (s', copy) →
  in_sint 64 (ssc_Height ssc - blocksToCache) →
  cache_ok s' ∧ top_cached s' ∧
  (k ≠ ssc_HRSKey ssc →
   ss_cache s' !! k = Some e ↔
   ss_cache s !! k = Some e ∧ ssc_Height ssc - blocksToCache ≤ hrs_Height k).
Proof.
  intros Hok (Hlt & -> & _)%blockDoubleSign_Ok Hh. split; [by apply saved_state_cache_ok|].
  split; [exists ssc; rewrite saved_state_key, saved_state_top by done; done|].
  intros Hk. cbn. rewrite prune_cache_lookup, lookup_insert_ne by done.
  by rewrite sint_small by (done || lia).
Qed.

Lemma cache_window_witness :
  let s := mkSignState 1 0 3 None None None None "f" {[ mkHRSKey 1 0 3 := mkSSC 1 0 3 None None None ]} in
  ∃ s' copy, blockDoubleSign s (mkSSC 5 0 1 (Some [9]) None (Some [8])) = Ok (s', copy) ∧
    cache_ok s' ∧ ss_cache s' !! mkHRSKey 1 0 3 = None.
Proof.
  cbv zeta. eexists _, _. split; [reflexivity|]. split; [|reflexivity].
  refine (proj1 (cache_window
    (mkSignState 1 0 3 None None None None "f" {[ mkHRSKey 1 0 3 := mkSSC 1 0 3 None None None ]})
    (mkSSC 5 0 1 (Some [9]) None (Some [8])) _ _ (mkHRSKey 1 0 3) (mkSSC 1 0 3 None None None) _ _ _)).
  - intros k e He. cbn [ss_cache] in He. apply lookup_singleton_Some in He as [<- <-]. split; [done|]. by right.
  - reflexivity.
  - unfold in_sint. vm_compute. split; congruence.
Defined.

(** C32: a restart does not weaken the gate.  When the write of a save is done, whether the save waited for it or queued it, a process
    that loads the file recovers the height, round, step, payload and signature, and its gate is exact: it refuses every key
    below the saved one with an error; at the saved key it lets through the saved payload up to its timestamp, if that and its
    signature are not empty, and no other; above it, it lets everything through.  So what it lets through the saved state does
    too. *)
Theorem restart_keeps_gate `{Codec} `{J : Json, !JsonLaws J} s ssc queued d s' d1 d2 :
  ss_filePath s ≠ DevNull → Save s ssc queued d = Ok (s', d1) →
  (if queued then flush_write (length (d_pending d)) d1 else Ok d1) = Ok d2 →
  ∃ r, LoadOrCreateSignState (ss_filePath s) (d_fs d2) = Ok (r, d_fs d2) ∧
    lockedHrsKey r = ssc_HRSKey ssc ∧ cache_ok r ∧ top_cached r ∧
    slice (ss_SignBytes r) = slice (ssc_SignBytes ssc) ∧
    slice (ss_Signature r) = slice (ssc_Signature ssc) ∧
    ∀ hrst b,
      (hrs_lt (hrst_HRSKey hrst) (ssc_HRSKey ssc) → ∃ e, errorIfConflictOrRegression r hrst b = Err e) ∧
      (errorIfConflictOrRegression r hrst b = Ok () ↔
         hrs_lt (ssc_HRSKey ssc) (hrst_HRSKey hrst) ∨
         (hrst_HRSKey hrst = ssc_HRSKey ssc ∧ slice (ssc_SignBytes ssc) ≠ [] ∧ slice (ssc_Signature ssc) ≠ [] ∧
          acceptable (ssc_Step ssc) (ssc_SignBytes ssc) b = true)) ∧
      (errorIfConflictOrRegression r hrst b = Ok () → errorIfConflictOrRegression s' hrst b = Ok ()).
Proof.
  intros Hp Hs Hw. destruct (Save_written s ssc queued d s' d1 d2 Hs Hw) as (-> & fs & Hf).
  exists (recovered (saved_state s ssc)).
  split; [by eapply (LoadOrCreate_saved (saved_state s ssc))|]. split; [done|].
  destruct (FreshCache_ok (state_of_json (json_decoded (json_fields (lockedCopy (saved_state s ssc))))
    (ss_filePath s))) as [Hc Ht].
  split; [done|]. split; [done|]. split; [by cbn; rewrite omitempty_slice|]. split; [by cbn; rewrite omitempty_slice|].
  intros hrst b. split; [exact (gate_below (recovered (saved_state s ssc)) hrst b)|].
  split; [exact (recovered_gate_exact (saved_state s ssc) hrst b)|exact (recovered_gate (saved_state s ssc) hrst b)].
Qed.

Lemma restart_keeps_gate_witness :
  ∃ r fs, @LoadOrCreateSignState toy_json "f" fs = Ok (r, fs) ∧ lockedHrsKey r = mkHRSKey 5 0 1.
Proof.
  destruct (@restart_keeps_gate toy_codec toy_json toy_json_laws
    (mkSignState 1 0 3 None None None None "f" ∅) (mkSSC 5 0 1 (Some [9]) None (Some [8])) true
    (mkDisk empty_fs []) _ _ _ ltac:(discriminate) eq_refl eq_refl) as (r & Hl & Hk & _).
  by exists r, (d_fs (mkDisk (mkFS {[ "f" := Content [5; 0; 1; 0; 1; 9; 1; 8; -1] ]} (λ _, None)) [])).
Defined.

(** Asynchronous writes are not ordered.  Two accepted saves queue
    two writes of one file; if the later one runs first, the file is left with the
    older watermark after both are done, although the state in memory has moved on. *)
Theorem queued_writes_reorder :
  ∃ s a b s1 d1 s2 d2 d3 d4 r,
    @Save toy_json s a true (mkDisk empty_fs []) = Ok (s1, d1) ∧
    @Save toy_json s1 b true d1 = Ok (s2, d2) ∧
    @flush_write toy_json 1 d2 = Ok d3 ∧ @flush_write toy_json 0 d3 = Ok d4 ∧
    d_pending d4 = [] ∧ @LoadSignState toy_json "f" (d_fs d4) = Ok r ∧
    hrs_lt (lockedHrsKey r) (lockedHrsKey s2).
Proof.
  exists (mkSignState 0 0 0 None None None None "f" ∅),
    (mkSSC 5 0 1 (Some [9]) None (Some [8])), (mkSSC 5 0 2 (Some [9]) None (Some [8])).
  repeat eexists; try reflexivity. unfold hrs_lt. cbn. lia.
Qed.
