(* ===== verification/Config.v ===== *)
(** * Configuration

    Models src/signer/config.go, the address helpers of src/client/address.go and
    the key decoding of src/signer/conn_key.go: the chain ID check that guards
    every file name, the paths built from a chain ID, and the validation of a
    threshold cluster.  The theorems show that a validated chain ID cannot leave its
    directory or collide with another chain's files, and that a validated cluster
    has distinct shard IDs [1..n] and a strict majority threshold.

    [url.Parse], [net.SplitHostPort] and [time.ParseDuration] are an interface
    ([NetParse]): only their results matter here. *)

From S2P Require Import Prelude Hrs Errors SignState.
From stdpp Require Import base gmap list strings numbers pretty sorting.
From Stdlib Require Import ZArith Lia Ascii.

Open Scope string_scope.
Open Scope list_scope.
Open Scope Z_scope.

(** ** Definitions *)

(** *** Regular expressions

    The fragment of Go's [regexp] the chain ID pattern uses, matched on the whole
    text ([^...$]) with derivatives. *)
Inductive regex : Type :=
| REmpty
| REps
| RClass (p : Ascii.ascii → bool)
| RAlt (r1 r2 : regex)
| RCat (r1 r2 : regex)
| RStar (r : regex).

Definition RPlus (r : regex) : regex := RCat r (RStar r).

Fixpoint nullable (r : regex) : bool :=
  match r with
  | REmpty => false
  | REps => true
  | RClass _ => false
  | RAlt r1 r2 => nullable r1 || nullable r2
  | RCat r1 r2 => nullable r1 && nullable r2
  | RStar _ => true
  end.

Fixpoint deriv (c : Ascii.ascii) (r : regex) : regex :=
  match r with
  | REmpty => REmpty
  | REps => REmpty
  | RClass p => if p c then REps else REmpty
  | RAlt r1 r2 => RAlt (deriv c r1) (deriv c r2)
  | RCat r1 r2 =>
      if nullable r1 then RAlt (RCat (deriv c r1) r2) (deriv c r2) else RCat (deriv c r1) r2
  | RStar r => RCat (deriv c r) (RStar r)
  end.

Fixpoint MatchString (r : regex) (s : string) : bool :=
  match s with
  | EmptyString => nullable r
  | String c s' => MatchString (deriv c r) s'
  end.

Definition char_between (lo hi : Z) (c : Ascii.ascii) : bool :=
  let n := Z.of_N (Ascii.N_of_ascii c) in (lo <=? n) && (n <=? hi).

(** The class [[a-zA-Z0-9_-]] *)
Definition chainID_char (c : Ascii.ascii) : bool :=
  char_between 97 122 c || char_between 65 90 c || char_between 48 57 c
  || Ascii.eqb c "_"%char || Ascii.eqb c "-"%char.

Definition chainIDPattern : regex :=
  RCat (RPlus (RClass chainID_char))
       (RStar (RCat (RClass (λ c, Ascii.eqb c "."%char)) (RPlus (RClass chainID_char)))).

Definition maxChainIDLen : Z := 50.

(** [%q]: quotes, with the escapes of [strconv.Quote] on ASCII; bytes above 127 are
    kept as they are. *)
Definition quote_char (c : Ascii.ascii) : string :=
  let n := Z.of_N (Ascii.N_of_ascii c) in
  let esc x := String "\"%char (String x EmptyString) in
  if n =? 34 then esc c
  else if n =? 92 then esc c
  else if n =? 7 then esc "a"%char
  else if n =? 8 then esc "b"%char
  else if n =? 12 then esc "f"%char
  else if n =? 10 then esc "n"%char
  else if n =? 13 then esc "r"%char
  else if n =? 9 then esc "t"%char
  else if n =? 11 then esc "v"%char
  else if (n <? 32) || (n =? 127) then "\x" +:+ hex_EncodeToString [n]
  else String c EmptyString.

Fixpoint quote_chars (s : string) : string :=
  match s with
  | EmptyString => EmptyString
  | String c s' => quote_char c +:+ quote_chars s'
  end.

Definition fmt_q (s : string) : string :=
  let q := String (Ascii.ascii_of_N 34) EmptyString in q +:+ quote_chars s +:+ q.

Definition ValidateChainID (chainID : string) : result unit goerror :=
  let n := Z.of_nat (String.length chainID) in
  if String.eqb chainID "" then Err (ErrorString "chain id cannot be empty")
  else if maxChainIDLen <? n then
    Err (ErrorString ("chain id too long: " +:+ fmt_d n +:+ " > " +:+ fmt_d maxChainIDLen))
  else if negb (MatchString chainIDPattern chainID) then
    Err (ErrorString ("chain id " +:+ fmt_q chainID +:+ " contains invalid characters"))
  else Ok ().

(** *** Paths

    [filepath.Join] on Unix: the non-empty elements joined by slashes, then
    [filepath.Clean].  A path is its rooted flag and its components. *)
Fixpoint split_slash (s : string) : list string :=
  match s with
  | EmptyString => [EmptyString]
  | String c s' =>
      if Ascii.eqb c "/"%char then EmptyString :: split_slash s'
      else match split_slash s' with
           | [] => [String c EmptyString]
           | w :: ws => String c w :: ws
           end
  end.

(** One component of [filepath.Clean], with the output so far as a stack. *)
Definition clean_step (rooted : bool) (stack : list string) (w : string) : list string :=
  if String.eqb w "" || String.eqb w "." then stack
  else if String.eqb w ".." then
    match stack with
    | [] => if rooted then [] else [w]
    | top :: rest => if String.eqb top ".." then w :: stack else rest
    end
  else w :: stack.

Record path := mkPath { path_rooted : bool; path_components : list string }.

Definition IsAbs (s : string) : bool := HasPrefix s "/".

Definition Clean (s : string) : path :=
  let rooted := IsAbs s in
  mkPath rooted (reverse (fold_left (clean_step rooted) (split_slash s) [])).

Fixpoint join_with (sep : string) (ws : list string) : string :=
  match ws with
  | [] => EmptyString
  | [w] => w
  | w :: ws' => w +:+ sep +:+ join_with sep ws'
  end.

Definition path_string (p : path) : string :=
  match path_components p with
  | [] => if path_rooted p then "/" else "."
  | ws => (if path_rooted p then "/" else "") +:+ join_with "/" ws
  end.

(** [filepath.Join(dir, name)] as a path *)
Definition Join_path (dir name : string) : path :=
  if String.eqb dir "" then Clean name
  else if String.eqb name "" then Clean dir
  else Clean (dir +:+ "/" +:+ name).

Definition filepath_Join (dir name : string) : string :=
  if String.eqb dir "" && String.eqb name "" then "" else path_string (Join_path dir name).

(** *** Configuration records *)

Record CosignerConfig := mkCosignerConfig {
  cc_ShardID : Z;
  cc_P2PAddr : string;
  cc_TLSPubKey : string
}.

Record ThresholdModeConfig := mkThresholdModeConfig {
  tm_Threshold : Z;
  tm_Cosigners : list CosignerConfig;
  tm_ClusterKeyFile : string;
  tm_GRPCTimeout : string;
  tm_RaftTimeout : string;
  tm_LeaderOnlyChainNodeConnections : bool
}.

Record ChainNode := mkChainNode {
  cn_PrivValAddr : string;
  cn_ConnPubKeyHex : string
}.

Record Config := mkConfig {
  cfg_PrivValKeyDir : option string;
  cfg_ConnKeyFile : string;
  cfg_SignMode : string;
  cfg_ThresholdModeConfig : option ThresholdModeConfig;
  cfg_ChainNodes : list ChainNode;
  cfg_DebugAddr : string;
  cfg_GRPCAddr : string;
  cfg_MaxReadSize : Z
}.

Record RuntimeConfig := mkRuntimeConfig {
  rc_HomeDir : string;
  rc_ConfigFile : string;
  rc_StateDir : string;
  rc_PidFile : string;
  rc_Config : Config
}.

Definition KeyDirectory (c : RuntimeConfig) : string :=
  match cfg_PrivValKeyDir (rc_Config c) with
  | Some d => if negb (String.eqb d "") then d else rc_HomeDir c
  | None => rc_HomeDir c
  end.

Definition KeyFilePathSingleSigner (c : RuntimeConfig) (chainID : string) : string :=
  filepath_Join (KeyDirectory c) (chainID +:+ "_priv_validator_key.json").

Definition KeyFilePathCosigner (c : RuntimeConfig) (chainID : string) : string :=
  filepath_Join (KeyDirectory c) (chainID +:+ "_shard.json").

Definition KeyFilePathCosignerRSA (c : RuntimeConfig) : string :=
  filepath_Join (KeyDirectory c) "rsa_keys.json".

Definition KeyFilePathCosignerECIES (c : RuntimeConfig) : string :=
  filepath_Join (KeyDirectory c) "ecies_keys.json".

Definition ConnKeyFilePath (c : RuntimeConfig) : string :=
  let f := cfg_ConnKeyFile (rc_Config c) in
  if String.eqb f "" then ""
  else if IsAbs f then f
  else filepath_Join (KeyDirectory c) f.

Definition ClusterKeyFilePath (c : RuntimeConfig) : string :=
  match cfg_ThresholdModeConfig (rc_Config c) with
  | None => ""
  | Some tm =>
      let f := tm_ClusterKeyFile tm in
      if String.eqb f "" then ""
      else if IsAbs f then f
      else filepath_Join (KeyDirectory c) f
  end.

Definition PrivValStateFile (c : RuntimeConfig) (chainID : string) : string :=
  filepath_Join (rc_StateDir c) (chainID +:+ "_priv_validator_state.json").

Definition CosignerStateFile (c : RuntimeConfig) (chainID : string) : string :=
  filepath_Join (rc_StateDir c) (chainID +:+ "_share_sign_state.json").

(** [fileExists]: [dirs] are the paths that are directories. *)
Definition fileExists (dirs : list string) (fs : FileSystem) (file : string) : result unit goerror :=
  if bool_decide (file ∈ dirs) then Err (ErrorString ("path is not a file (" +:+ file +:+ ")"))
  else match fs_files fs !! file with
       | Some (Content _) | Some (ReadFails _) => Ok ()
       | Some (StatFails err) =>
           Err (WrapError ("unexpected error checking file existence (" +:+ file +:+ "): ") err)
       | None =>
           Err (WrapError ("file doesn't exist at path (" +:+ file +:+ "): ")
                  (ErrorString ("stat " +:+ file +:+ ": no such file or directory")))
       end.

Definition KeyFileExistsCosigner (dirs : list string) (fs : FileSystem) (c : RuntimeConfig)
    (chainID : string) : result string goerror :=
  let keyFile := KeyFilePathCosigner c chainID in
  try _ <- fileExists dirs fs keyFile; Ok keyFile.

Definition KeyFileExistsSingleSigner (dirs : list string) (fs : FileSystem) (c : RuntimeConfig)
    (chainID : string) : result string goerror :=
  let keyFile := KeyFilePathSingleSigner c chainID in
  try _ <- fileExists dirs fs keyFile; Ok keyFile.

Definition KeyFileExistsCosignerRSA (dirs : list string) (fs : FileSystem) (c : RuntimeConfig)
    : result string goerror :=
  let keyFile := KeyFilePathCosignerRSA c in
  try _ <- fileExists dirs fs keyFile; Ok keyFile.

Definition KeyFileExistsCosignerECIES (dirs : list string) (fs : FileSystem) (c : RuntimeConfig)
    : result string goerror :=
  let keyFile := KeyFilePathCosignerECIES c in
  try _ <- fileExists dirs fs keyFile; Ok keyFile.

(** *** Decoding of keys and addresses *)

(** [hex.DecodeString] *)
Definition hex_value (c : Ascii.ascii) : option Z :=
  let n := Z.of_N (Ascii.N_of_ascii c) in
  if (48 <=? n) && (n <=? 57) then Some (n - 48)
  else if (97 <=? n) && (n <=? 102) then Some (n - 87)
  else if (65 <=? n) && (n <=? 70) then Some (n - 55)
  else None.

(** [hex.InvalidByteError], whose text shows the byte as [%#U]. *)
Definition hex_upper (n : Z) : Ascii.ascii :=
  Ascii.ascii_of_N (Z.to_N (if n <? 10 then 48 + n else 55 + n)).

Definition InvalidByteError (c : Ascii.ascii) : goerror :=
  let n := Z.of_N (Ascii.N_of_ascii c) in
  ErrorString ("encoding/hex: invalid byte: U+00"
    +:+ String (hex_upper (n / 16)) (String (hex_upper (n mod 16)) EmptyString)
    +:+ if (32 <=? n) && (n <=? 126) then " '" +:+ String c "'" else "").

Fixpoint hex_DecodeString (s : string) : result (list Z) goerror :=
  match s with
  | EmptyString => Ok []
  | String a EmptyString =>
      match hex_value a with
      | None => Err (InvalidByteError a)
      | Some _ => Err (ErrorString "encoding/hex: odd length hex string")
      end
  | String a (String b s') =>
      match hex_value a, hex_value b with
      | Some x, Some y => try rest <- hex_DecodeString s'; Ok (x * 16 + y :: rest)
      | None, _ => Err (InvalidByteError a)
      | _, None => Err (InvalidByteError b)
      end
  end.

Definition PubKeySize : Z := 32.

Definition connPubKeyFromHex (pubKey : string) : result (list Z) goerror :=
  try bz <- map_err (WrapError "failed to decode hex connection public key: ")
              (hex_DecodeString pubKey);
  if Z.of_nat (length bz) =? PubKeySize then Ok bz
  else Err (ErrorString ("connection public key must be " +:+ fmt_d PubKeySize +:+ " bytes, got "
                         +:+ fmt_d (Z.of_nat (length bz)))).

(** The parsers of the standard library, by their results: the host of a URL, the
    host and port of an address, and a duration in nanoseconds. *)
Class NetParse := {
  url_Parse : string → result string goerror;
  SplitHostPort : string → result (string * string) goerror;
  ParseDuration : string → result Z goerror
}.

(** client.SanitizeAddress, client.MultiAddress *)
Definition SanitizeAddress `{NetParse} (address : string) : result string goerror :=
  map_err (WrapError "error parsing URL: ") (url_Parse address).

Fixpoint sanitize_all `{NetParse} (addresses : list string) : result (list string) goerror :=
  match addresses with
  | [] => Ok []
  | a :: l => try p <- SanitizeAddress a; try ps <- sanitize_all l; Ok (p :: ps)
  end.

Definition MultiAddress `{NetParse} (addresses : list string) : result string goerror :=
  try grpcAddresses <- sanitize_all addresses;
  Ok ("multi:///" +:+ join_with "," grpcAddresses).

Definition LeaderElectMultiAddress `{NetParse} (cfg : ThresholdModeConfig) : result string goerror :=
  MultiAddress (cc_P2PAddr <$> tm_Cosigners cfg).

(** *** Validation *)

(** [duplicateCosigners]: the addresses of each shard ID that has other than one. *)
Definition idAddrs (cosigners : list CosignerConfig) : gmap Z (list string) :=
  fold_left (λ m c, <[cc_ShardID c := default [] (m !! cc_ShardID c) ++ [cc_P2PAddr c]]> m)
    cosigners ∅.

Definition duplicateCosigners (cosigners : list CosignerConfig) : gmap Z (list string) :=
  filter (λ kv, length kv.2 ≠ 1%nat) (idAddrs cosigners).

(** [%v] of such a map: keys in increasing order. *)
Definition key_le (a b : Z * list string) : Prop := a.1 ≤ b.1.

Global Instance key_le_dec : RelDecision key_le.
Proof. intros a b. unfold key_le. apply _. Defined.

Definition fmt_v_map (m : gmap Z (list string)) : string :=
  let entries := merge_sort key_le (map_to_list m) in
  "map[" +:+ join_with " " ((λ kv, fmt_d kv.1 +:+ ":[" +:+ join_with " " kv.2 +:+ "]") <$> entries)
    +:+ "]".

(** The loop of [CosignersConfig.Validate]. *)
Fixpoint validate_cosigners `{NetParse} (shards : Z) (cosigners : list CosignerConfig)
    : result unit goerror :=
  match cosigners with
  | [] => Ok ()
  | c :: l =>
      let id := fmt_d (cc_ShardID c) in
      if (cc_ShardID c <? 1) || (shards <? cc_ShardID c) then
        Err (ErrorString ("cosigner shard ID " +:+ id +:+
          " in args is out of range, must be between 1 and " +:+ fmt_d shards +:+ ", inclusive"))
      else
        try urlHost <- map_err (WrapError ("failed to parse cosigner (shard ID: " +:+ id
                                           +:+ ") p2p address: ")) (url_Parse (cc_P2PAddr c));
        try hp <- map_err (WrapError ("failed to parse cosigner (shard ID: " +:+ id
                                      +:+ ") host port: ")) (SplitHostPort urlHost);
        if String.eqb hp.1 "0.0.0.0" then
          Err (ErrorString "host cannot be 0.0.0.0, must be reachable from other cosigners")
        else validate_cosigners shards l
  end.

Definition CosignersConfig_Validate `{NetParse} (cosigners : list CosignerConfig)
    : result unit goerror :=
  let dupl := duplicateCosigners cosigners in
  if negb (bool_decide (dupl = ∅)) then
    Err (ErrorString ("found duplicate cosigner shard ID(s) in args: " +:+ fmt_v_map dupl))
  else
    let shards := Z.of_nat (length cosigners) in
    try _ <- validate_cosigners shards cosigners;
    if negb (Z.of_nat (length cosigners) =? shards) then
      Err (ErrorString ("incorrect number of cosigners. expected (" +:+ fmt_d shards
                        +:+ " shards = " +:+ fmt_d shards +:+ " cosigners)"))
    else Ok ().

Definition ClusterTLSEnabled (cfg : ThresholdModeConfig) : bool :=
  negb (String.eqb (tm_ClusterKeyFile cfg) "").

Fixpoint cluster_keys (cosigners : list CosignerConfig) : result (list (list Z)) goerror :=
  match cosigners with
  | [] => Ok []
  | c :: l =>
      try pub <- map_err (WrapError ("cosigner shard " +:+ fmt_d (cc_ShardID c) +:+ " tlsPubKey: "))
                   (connPubKeyFromHex (cc_TLSPubKey c));
      try pubs <- cluster_keys l; Ok (pub :: pubs)
  end.

Definition ClusterPeerPubKeys (cfg : ThresholdModeConfig) : result (list (list Z)) goerror :=
  cluster_keys (tm_Cosigners cfg).

(** [ChainNode.ConnPubKey], [ChainNode.Validate], [ChainNodes.Validate] *)
Definition ConnPubKey (cn : ChainNode) : result gobytes goerror :=
  if String.eqb (cn_ConnPubKeyHex cn) "" then Ok None
  else
    try pubKey <- map_err (WrapError ("chain node " +:+ cn_PrivValAddr cn +:+ ": "))
                    (connPubKeyFromHex (cn_ConnPubKeyHex cn));
    Ok (Some pubKey).

Definition ChainNode_Validate `{NetParse} (cn : ChainNode) : result unit goerror :=
  try _ <- url_Parse (cn_PrivValAddr cn);
  try _ <- ConnPubKey cn;
  Ok ().

Fixpoint ChainNodes_Validate `{NetParse} (cns : list ChainNode) : result unit goerror :=
  match cns with
  | [] => Ok ()
  | cn :: l => try _ <- ChainNode_Validate cn; ChainNodes_Validate l
  end.

Definition ValidateSingleSignerConfig `{NetParse} (c : Config) : result unit goerror :=
  ChainNodes_Validate (cfg_ChainNodes c).

(** The duplicate key loop of [ValidateThresholdModeConfig]. *)
Fixpoint check_distinct_keys (seen : list (list Z)) (cosigners : list CosignerConfig)
    (keys : list (list Z)) : result unit goerror :=
  match keys, cosigners with
  | k :: ks, c :: cs =>
      if bool_decide (k ∈ seen) then
        Err (ErrorString ("cosigner shard " +:+ fmt_d (cc_ShardID c)
                          +:+ " reuses another cosigner's tlsPubKey"))
      else check_distinct_keys (k :: seen) cs ks
  | _, _ => Ok ()
  end.

Definition ValidateThresholdModeConfig `{NetParse} (c : Config) : result unit goerror :=
  try _ <- ValidateSingleSignerConfig c;
  match cfg_ThresholdModeConfig c with
  | None => Err (ErrorString "cosigner config can't be empty")
  | Some tm =>
      let numShards := Z.of_nat (length (tm_Cosigners tm)) in
      if tm_Threshold tm <=? Z.quot numShards 2 then
        Err (ErrorString ("threshold (" +:+ fmt_d (tm_Threshold tm)
          +:+ ") must be greater than number of shards (" +:+ fmt_d numShards +:+ ") / 2"))
      else if numShards <? tm_Threshold tm then
        Err (ErrorString ("number of shards (" +:+ fmt_d numShards
          +:+ ") must be greater or equal to threshold (" +:+ fmt_d (tm_Threshold tm) +:+ ")"))
      else
        try _ <- map_err (WrapError "invalid raftTimeout: ") (ParseDuration (tm_RaftTimeout tm));
        try _ <- map_err (WrapError "invalid grpcTimeout: ") (ParseDuration (tm_GRPCTimeout tm));
        try _ <- CosignersConfig_Validate (tm_Cosigners tm);
        if ClusterTLSEnabled tm then
          try keys <- map_err (WrapError
              "clusterKeyFile is set, so every cosigner needs a valid tlsPubKey: ")
            (ClusterPeerPubKeys tm);
          check_distinct_keys [] (tm_Cosigners tm) keys
        else Ok ()
  end.

(** [CosignersFromFlag]: shard IDs count from 1. *)
Definition CosignersFromFlag (cosigners : list string) : list CosignerConfig :=
  imap (λ i c, mkCosignerConfig (Z.of_nat i + 1) c "") cosigners.

Definition ChainNodesFromFlag `{NetParse} (nodes : list string) : result (list ChainNode) goerror :=
  let out := (λ n, mkChainNode n "") <$> nodes in
  try _ <- ChainNodes_Validate out; Ok out.

(** *** Specifications *)

(** The language of a regular expression. *)
Inductive in_lang : regex → string → Prop :=
| LEps : in_lang REps EmptyString
| LClass p c : p c = true → in_lang (RClass p) (String c EmptyString)
| LAlt1 r1 r2 s : in_lang r1 s → in_lang (RAlt r1 r2) s
| LAlt2 r1 r2 s : in_lang r2 s → in_lang (RAlt r1 r2) s
| LCat r1 r2 s1 s2 : in_lang r1 s1 → in_lang r2 s2 → in_lang (RCat r1 r2) (s1 +:+ s2)
| LStar0 r : in_lang (RStar r) EmptyString
| LStarS r s1 s2 : in_lang r s1 → in_lang (RStar r) s2 → in_lang (RStar r) (s1 +:+ s2).

(** The characters of a string satisfy [p]. *)
Fixpoint all_chars (p : Ascii.ascii → bool) (s : string) : bool :=
  match s with
  | EmptyString => true
  | String c s' => p c && all_chars p s'
  end.

(** A dot-separated segment of a chain ID. *)
Definition segment_ok (w : string) : Prop := w ≠ EmptyString ∧ all_chars chainID_char w = true.

(** The file name suffixes a chain ID is combined with. *)
Definition file_suffixes : list string :=
  ["_priv_validator_key.json"; "_shard.json"; "_priv_validator_state.json";
   "_share_sign_state.json"].

(** A string without a path separator. *)
Definition no_slash (s : string) : bool := all_chars (λ c, negb (Ascii.eqb c "/"%char)) s.

(** A plain name stays a name under [filepath.Clean]. *)
Definition plain_name (s : string) : Prop :=
  no_slash s = true ∧ s ≠ EmptyString ∧ s ≠ "." ∧ s ≠ "..".

(** Components, each followed by a separator. *)
Fixpoint dir_prefix (ws : list string) : string :=
  match ws with
  | [] => EmptyString
  | w :: ws' => w +:+ "/" +:+ dir_prefix ws'
  end.

(** Parsers to run the model with: a URL is its host, an address has port 1. *)
Definition toy_net : NetParse := {|
  url_Parse u := Ok u;
  SplitHostPort h := Ok (h, "1");
  ParseDuration d := Ok 1000000000
|}.

(** ** Lemmas *)

Lemma string_app_assoc a b c : (a +:+ b) +:+ c = a +:+ (b +:+ c).
Proof. induction a as [|x a IH]; [done|]. rewrite !string_app_cons. by rewrite IH. Qed.

Lemma string_app_nil_r a : a +:+ EmptyString = a.
Proof. induction a as [|x a IH]; [done|]. rewrite string_app_cons. by rewrite IH. Qed.

Lemma string_app_inj_l a b c : a +:+ b = a +:+ c → b = c.
Proof. induction a as [|x a IH]; [done|]. rewrite !string_app_cons. intros [= H]. auto. Qed.

Lemma nullable_lang r : nullable r = true → in_lang r EmptyString.
Proof.
  induction r; cbn; try done; rewrite ?orb_true_iff, ?andb_true_iff; intros H.
  - constructor.
  - destruct H; [apply LAlt1|apply LAlt2]; auto.
  - destruct H. rewrite <- (string_app_nil EmptyString). constructor; auto.
  - constructor.
Qed.

Lemma deriv_lang c r s : in_lang (deriv c r) s → in_lang r (String c s).
Proof.
  revert s. induction r as [| |p|r1 IH1 r2 IH2|r1 IH1 r2 IH2|r IH]; cbn; intros s H.
  - inversion H.
  - inversion H.
  - destruct (p c) eqn:E; inversion H; subst. by constructor.
  - inversion H; subst; [apply LAlt1|apply LAlt2]; auto.
  - destruct (nullable r1) eqn:E.
    + inversion H as [| |? ? ? H1|? ? ? H1| | |]; subst.
      * inversion H1; subst. rewrite <- string_app_cons. constructor; auto.
      * rewrite <- (string_app_nil (String c s)). constructor; auto using nullable_lang.
    + inversion H; subst. rewrite <- string_app_cons. constructor; auto.
  - inversion H; subst. rewrite <- string_app_cons. apply LStarS; auto.
Qed.

Lemma MatchString_lang r s : MatchString r s = true → in_lang r s.
Proof.
  revert r. induction s as [|c s IH]; intros r; cbn.
  - apply nullable_lang.
  - intros H. by apply deriv_lang, IH.
Qed.

Lemma lang_nullable r s : in_lang r s → s = EmptyString → nullable r = true.
Proof.
  induction 1; cbn; intros; subst; try done.
  - apply orb_true_iff. auto.
  - apply orb_true_iff. auto.
  - destruct s1; [|done]. rewrite string_app_nil in H1. subst. apply andb_true_iff. auto.
Qed.

Lemma lang_deriv r s : in_lang r s → ∀ c t, s = String c t → in_lang (deriv c r) t.
Proof.
  induction 1 as [|p c Hp|r1 r2 s H IH|r1 r2 s H IH|r1 r2 s1 s2 H1 IH1 H2 IH2| |r s1 s2 H1 IH1 H2 IH2];
    intros d t E; cbn.
  - done.
  - injection E as <- <-. rewrite Hp. constructor.
  - apply LAlt1; auto.
  - apply LAlt2; auto.
  - destruct s1 as [|x s1].
    + rewrite string_app_nil in E. rewrite (lang_nullable _ _ H1 eq_refl). apply LAlt2; auto.
    + rewrite string_app_cons in E. injection E as <- <-.
      destruct (nullable r1); [apply LAlt1|]; constructor; auto.
  - done.
  - destruct s1 as [|x s1].
    + rewrite string_app_nil in E. exact (IH2 d t E).
    + rewrite string_app_cons in E. injection E as <- <-. constructor; auto.
Qed.

Lemma lang_MatchString r s : in_lang r s → MatchString r s = true.
Proof.
  revert r. induction s as [|c s IH]; intros r H; cbn.
  - by eapply lang_nullable.
  - apply IH. by eapply lang_deriv.
Qed.

Lemma all_chars_app p a b : all_chars p (a +:+ b) = all_chars p a && all_chars p b.
Proof.
  induction a as [|c a IH]; [done|]. rewrite string_app_cons. cbn. by rewrite IH, andb_assoc.
Qed.

Lemma star_class_chars p s : in_lang (RStar (RClass p)) s → all_chars p s = true.
Proof.
  remember (RStar (RClass p)) as r eqn:E. induction 1; try done.
  injection E as ->. match goal with H : in_lang (RClass _) _ |- _ => inversion H; subst end.
  rewrite string_app_cons, string_app_nil. cbn. rewrite IHin_lang2 by done.
  by match goal with H : p _ = true |- _ => rewrite H end.
Qed.

Lemma plus_class_segment s : in_lang (RPlus (RClass chainID_char)) s → segment_ok s.
Proof.
  unfold RPlus. inversion 1; subst.
  match goal with H : in_lang (RClass _) _ |- _ => inversion H; subst end.
  rewrite string_app_cons, string_app_nil. split; [done|]. cbn.
  rewrite star_class_chars by done. by rewrite andb_true_r.
Qed.

Lemma star_segments s :
  in_lang (RStar (RCat (RClass (λ c, Ascii.eqb c "."%char)) (RPlus (RClass chainID_char)))) s →
  ∃ ws, Forall segment_ok ws ∧ ∀ w, w +:+ s = join_with "." (w :: ws).
Proof.
  match goal with |- in_lang ?r _ → _ => remember r as r' eqn:E end.
  induction 1; try done.
  - exists []. split; [constructor|]. intros w. apply string_app_nil_r.
  - injection E as ->. destruct (IHin_lang2 eq_refl) as (ws & Hws & Hj).
    match goal with H : in_lang (RCat _ _) _ |- _ => inversion H; subst end.
    match goal with H : in_lang (RClass _) _ |- _ => inversion H; subst end.
    match goal with H : (_ =? _)%char = true |- _ => apply Ascii.eqb_eq in H; subst end.
    match goal with H : in_lang (RPlus _) ?w |- _ => apply plus_class_segment in H;
      exists (w :: ws) end.
    split; [by constructor|]. intros w. rewrite string_app_assoc, Hj.
    rewrite string_app_cons, string_app_nil. done.
Qed.

(** A validated chain ID is a non-empty list of non-empty segments, joined by dots. *)
Lemma ValidateChainID_segments chainID :
  ValidateChainID chainID = Ok () →
  ∃ w ws, segment_ok w ∧ Forall segment_ok ws ∧ chainID = join_with "." (w :: ws).
Proof.
  unfold ValidateChainID. cbv zeta. repeat case_match; try done. intros _.
  apply negb_false_iff, MatchString_lang in H1. inversion H1; subst.
  match goal with H : in_lang (RPlus _) ?w |- _ => apply plus_class_segment in H end.
  match goal with H : in_lang (RStar _) _ |- _ => apply star_segments in H as (ws & Hws & Hj) end.
  eexists _, ws. split; [done|]. split; [done|]. apply Hj.
Qed.

Lemma chainID_char_no_slash c : chainID_char c = true → Ascii.eqb c "/"%char = false.
Proof.
  intros H. apply Ascii.eqb_neq. intros ->. vm_compute in H. discriminate.
Qed.

Lemma all_chars_impl (p q : Ascii.ascii → bool) s :
  (∀ c, p c = true → q c = true) → all_chars p s = true → all_chars q s = true.
Proof.
  intros Hpq. induction s as [|c s IH]; [done|]. cbn. rewrite !andb_true_iff.
  intros [H1 H2]. split; auto.
Qed.

Lemma no_slash_app a b : no_slash (a +:+ b) = no_slash a && no_slash b.
Proof. apply all_chars_app. Qed.

Lemma segment_no_slash w : segment_ok w → no_slash w = true.
Proof.
  intros [_ H]. revert H. apply all_chars_impl. intros c Hc. by rewrite chainID_char_no_slash.
Qed.

Lemma join_no_slash ws : Forall segment_ok ws → no_slash (join_with "." ws) = true.
Proof.
  induction 1 as [|w ws Hw Hws IH]; [done|]. destruct ws as [|w' ws].
  - by apply segment_no_slash.
  - change (join_with "." (w :: w' :: ws)) with (w +:+ "." +:+ join_with "." (w' :: ws)).
    rewrite !no_slash_app, IH, (segment_no_slash _ Hw). done.
Qed.

Lemma ValidateChainID_no_slash chainID : ValidateChainID chainID = Ok () → no_slash chainID = true.
Proof.
  intros (w & ws & Hw & Hws & ->)%ValidateChainID_segments. apply join_no_slash. by constructor.
Qed.

Lemma split_slash_nonempty s : split_slash s ≠ [].
Proof. destruct s as [|c s]; cbn; [done|]. by repeat case_match. Qed.

Lemma split_slash_single s : no_slash s = true → split_slash s = [s].
Proof.
  induction s as [|c s IH]; [done|]. unfold no_slash. cbn. rewrite andb_true_iff, negb_true_iff.
  intros [-> H]. by rewrite IH.
Qed.

Lemma split_slash_app a b :
  split_slash (a +:+ String "/" b) = split_slash a ++ split_slash b.
Proof.
  induction a as [|c a IH].
  - rewrite string_app_nil. done.
  - rewrite string_app_cons. cbn [split_slash]. rewrite IH. case_match; [done|].
    destruct (split_slash a) eqn:E; [by apply split_slash_nonempty in E|done].
Qed.

Lemma IsAbs_app dir t : dir ≠ EmptyString → IsAbs (dir +:+ t) = IsAbs dir.
Proof. destruct dir as [|c dir]; [done|]. intros _. rewrite string_app_cons. unfold IsAbs. cbn. by destruct dir, t. Qed.

Lemma clean_step_plain rooted stack w : plain_name w → clean_step rooted stack w = w :: stack.
Proof.
  intros (_ & H1 & H2 & H3). unfold clean_step.
  by rewrite (proj2 (String.eqb_neq _ _) H1), (proj2 (String.eqb_neq _ _) H2),
    (proj2 (String.eqb_neq _ _) H3).
Qed.

(** Joining a plain name to a directory appends one component to it. *)
Lemma Join_path_plain dir name :
  plain_name name →
  Join_path dir name = mkPath (IsAbs dir) (path_components (Clean dir) ++ [name]).
Proof.
  intros Hn. pose proof Hn as (Hs & H1 & _). unfold Join_path.
  destruct (String.eqb_spec dir "") as [->|Hd].
  - unfold Clean. rewrite split_slash_single by done. cbn [fold_left].
    rewrite clean_step_plain by done.
    assert (IsAbs name = false) as ->; [|done].
    destruct name as [|c name]; [done|]. unfold no_slash in Hs. cbn [all_chars] in Hs.
    apply andb_true_iff in Hs as [Hc _]. apply negb_true_iff in Hc. unfold IsAbs.
    cbn [HasPrefix]. by rewrite Ascii.eqb_sym, Hc.
  - rewrite (proj2 (String.eqb_neq _ _) H1). unfold Clean.
    rewrite string_app_cons, string_app_nil, IsAbs_app by done. cbn [path_components].
    rewrite split_slash_app, (split_slash_single name) by done. rewrite fold_left_app.
    cbn [fold_left]. rewrite clean_step_plain by done. by rewrite reverse_cons.
Qed.

Lemma file_suffixes_cases suffix :
  suffix ∈ file_suffixes →
  suffix = "_priv_validator_key.json" ∨ suffix = "_shard.json" ∨
  suffix = "_priv_validator_state.json" ∨ suffix = "_share_sign_state.json".
Proof. unfold file_suffixes. rewrite !elem_of_cons, elem_of_nil. tauto. Qed.

Lemma string_length_app a b :
  String.length (a +:+ b) = (String.length a + String.length b)%nat.
Proof. induction a as [|c a IH]; [done|]. rewrite string_app_cons. cbn. by rewrite IH. Qed.

Lemma suffix_plain chainID suffix :
  no_slash chainID = true → suffix ∈ file_suffixes → plain_name (chainID +:+ suffix).
Proof.
  intros Hc Hs%file_suffixes_cases.
  assert (2 < String.length (chainID +:+ suffix))%nat as Hl.
  { rewrite string_length_app. destruct Hs as [->|[->|[->| ->]]]; cbn; lia. }
  split; [|repeat split; intros E; rewrite E in Hl; cbn in Hl; lia].
  rewrite no_slash_app, Hc. destruct Hs as [->|[->|[->| ->]]]; done.
Qed.

Lemma chars_app a b :
  String.list_ascii_of_string (a +:+ b)
  = String.list_ascii_of_string a ++ String.list_ascii_of_string b.
Proof. induction a as [|c a IH]; [done|]. rewrite string_app_cons. cbn. by rewrite IH. Qed.

Lemma chars_inj a b : String.list_ascii_of_string a = String.list_ascii_of_string b → a = b.
Proof.
  intros H. rewrite <- (String.string_of_list_ascii_of_string a), H.
  apply String.string_of_list_ascii_of_string.
Qed.

(** A file name determines its chain ID and its suffix. *)
Lemma suffix_unique a b s1 s2 :
  s1 ∈ file_suffixes → s2 ∈ file_suffixes → a +:+ s1 = b +:+ s2 → a = b ∧ s1 = s2.
Proof.
  intros H1%file_suffixes_cases H2%file_suffixes_cases E.
  apply (f_equal String.list_ascii_of_string), (f_equal reverse) in E.
  rewrite !chars_app, !reverse_app in E.
  destruct (decide (s1 = s2)) as [<-|Hne].
  - apply app_inv_head in E. apply (inj reverse) in E. split; [by apply chars_inj|done].
  - exfalso.
    destruct H1 as [->|[->|[->| ->]]]; destruct H2 as [->|[->|[->| ->]]]; try done;
      vm_compute in E; discriminate E.
Qed.

Lemma join_snoc ws n : join_with "/" (ws ++ [n]) = dir_prefix ws +:+ n.
Proof.
  induction ws as [|w ws IH]; [done|]. cbn [app dir_prefix].
  rewrite !string_app_assoc, <- IH. destruct ws; done.
Qed.

Lemma path_string_snoc r ws n :
  path_string (mkPath r (ws ++ [n])) = ((if r then "/" else "") +:+ dir_prefix ws) +:+ n.
Proof.
  unfold path_string. cbn [path_components path_rooted].
  rewrite string_app_assoc, <- join_snoc. by destruct ws.
Qed.

Lemma filepath_Join_plain dir name :
  plain_name name →
  filepath_Join dir name
  = ((if IsAbs dir then "/" else "") +:+ dir_prefix (path_components (Clean dir))) +:+ name.
Proof.
  intros Hn. pose proof Hn as (_ & H1 & _). unfold filepath_Join.
  rewrite (proj2 (String.eqb_neq name "") H1), andb_false_r.
  rewrite Join_path_plain by done. apply path_string_snoc.
Qed.

(** *** Validation *)

Lemma idAddrs_lookup cs k :
  idAddrs cs !! k =
  match filter (λ c, cc_ShardID c = k) cs with
  | [] => None
  | l => Some (cc_P2PAddr <$> l)
  end.
Proof.
  unfold idAddrs. induction cs as [|c cs IH] using rev_ind; [done|].
  rewrite fold_left_app. cbn [fold_left]. rewrite filter_app, filter_cons, filter_nil.
  destruct (decide (cc_ShardID c = k)) as [<-|Hk].
  - rewrite lookup_insert_eq, IH. by destruct (filter _ cs); cbn; rewrite ?fmap_app.
  - rewrite lookup_insert_ne by done. rewrite IH, app_nil_r. done.
Qed.

Lemma no_duplicates_NoDup cs : duplicateCosigners cs = ∅ → NoDup (cc_ShardID <$> cs).
Proof.
  intros Hd.
  assert (∀ c, c ∈ cs → length (filter (λ c', cc_ShardID c' = cc_ShardID c) cs) = 1%nat) as H1.
  { intros c Hc. pose proof (idAddrs_lookup cs (cc_ShardID c)) as Hl.
    destruct (filter _ cs) as [|x l] eqn:E.
    - exfalso. assert (c ∈ filter (λ c', cc_ShardID c' = cc_ShardID c) cs) as Hin
        by (by apply list_elem_of_filter). rewrite E in Hin. by apply elem_of_nil in Hin.
    - destruct (decide (length (cc_P2PAddr <$> x :: l) = 1%nat)) as [H|H];
        [by rewrite length_fmap in H|].
      assert (duplicateCosigners cs !! cc_ShardID c = Some (cc_P2PAddr <$> x :: l)) as Hs
        by (by apply map_lookup_filter_Some). by rewrite Hd in Hs. }
  clear Hd. induction cs as [|c cs IH]; [constructor|]. rewrite fmap_cons. constructor.
  - intros (c' & E & Hin)%list_elem_of_fmap. specialize (H1 c ltac:(by left)).
    rewrite filter_cons_True in H1 by done. cbn in H1.
    assert (c' ∈ filter (λ c', cc_ShardID c' = cc_ShardID c) cs) as Hf by (by apply list_elem_of_filter).
    destruct (filter _ cs); [by apply elem_of_nil in Hf|cbn in H1; lia].
  - apply IH. intros c' Hc'. specialize (H1 c' ltac:(by right)). rewrite filter_cons in H1.
    case_decide as E; [|done]. cbn in H1.
    assert (c' ∈ filter (λ c'', cc_ShardID c'' = cc_ShardID c') cs) as Hf by (by apply list_elem_of_filter).
    destruct (filter _ cs); [by apply elem_of_nil in Hf|cbn in H1; lia].
Qed.

Lemma validate_cosigners_range `{NetParse} n cs :
  validate_cosigners n cs = Ok () → Forall (λ c, 1 ≤ cc_ShardID c ≤ n) cs.
Proof.
  induction cs as [|c cs IH]; [constructor|]. cbn [validate_cosigners]. cbv zeta.
  destruct ((cc_ShardID c <? 1) || (n <? cc_ShardID c)) eqn:E; [done|].
  apply orb_false_iff in E as [E1%Z.ltb_ge E2%Z.ltb_ge].
  destruct (url_Parse (cc_P2PAddr c)) as [h| |]; [|done|done]. cbn.
  destruct (SplitHostPort h) as [hp| |]; [|done|done]. cbn. case_match; [done|].
  intros Hv. constructor; [lia|]. by apply IH.
Qed.

Lemma CosignersConfig_Validate_sound `{NetParse} cs :
  CosignersConfig_Validate cs = Ok () →
  NoDup (cc_ShardID <$> cs) ∧ Forall (λ c, 1 ≤ cc_ShardID c ≤ Z.of_nat (length cs)) cs.
Proof.
  unfold CosignersConfig_Validate. cbv zeta. case_bool_decide as Hd; [|done]. cbn [negb].
  destruct (validate_cosigners _ _) as [[]| |] eqn:E; [|done|done]. intros _.
  split; [by apply no_duplicates_NoDup|by apply validate_cosigners_range].
Qed.

Lemma check_distinct_keys_sound seen cs ks :
  length ks = length cs → check_distinct_keys seen cs ks = Ok () →
  NoDup ks ∧ Forall (λ k, k ∉ seen) ks.
Proof.
  revert seen cs. induction ks as [|k ks IH]; intros seen [|c cs] Hl; try done.
  - split; constructor.
  - cbn. case_bool_decide as Hk; [done|]. intros Hc.
    destruct (IH (k :: seen) cs ltac:(cbn in Hl; lia) Hc) as [Hn Hf].
    split; constructor; auto.
    + intros Hin. rewrite list.Forall_forall in Hf. apply (Hf k Hin). by left.
    + eapply Forall_impl; [exact Hf|]. intros x Hx Hin. apply Hx. by right.
Qed.

Lemma cluster_keys_length cs ks : cluster_keys cs = Ok ks → length ks = length cs.
Proof.
  revert ks. induction cs as [|c cs IH]; intros ks; cbn; [by intros [= <-]|].
  destruct (connPubKeyFromHex _); [|done|done]. cbn.
  destruct (cluster_keys cs); [|done|done]. intros [= <-]. cbn. by rewrite (IH _ eq_refl).
Qed.

Lemma ValidateThresholdModeConfig_spec `{NetParse} c :
  ValidateThresholdModeConfig c = Ok () →
  ∃ tm, cfg_ThresholdModeConfig c = Some tm ∧
    let n := Z.of_nat (length (tm_Cosigners tm)) in
    n < 2 * tm_Threshold tm ∧ tm_Threshold tm ≤ n ∧
    NoDup (cc_ShardID <$> tm_Cosigners tm) ∧
    Forall (λ c, 1 ≤ cc_ShardID c ≤ n) (tm_Cosigners tm) ∧
    (ClusterTLSEnabled tm = true →
     ∃ keys, ClusterPeerPubKeys tm = Ok keys ∧ NoDup keys ∧
       length keys = length (tm_Cosigners tm)).
Proof.
  unfold ValidateThresholdModeConfig.
  destruct (ValidateSingleSignerConfig c) as [[]| |]; [|done|done]. cbn.
  destruct (cfg_ThresholdModeConfig c) as [tm|]; [|done]. cbv zeta.
  destruct (_ <=? _) eqn:E1; [done|]. apply Z.leb_gt in E1.
  destruct (_ <? _) eqn:E2; [done|]. apply Z.ltb_ge in E2.
  destruct (ParseDuration (tm_RaftTimeout tm)); [|done|done]. cbn.
  destruct (ParseDuration (tm_GRPCTimeout tm)); [|done|done]. cbn.
  destruct (CosignersConfig_Validate _) as [[]| |] eqn:E3; [|done|done]. cbn. intros Hk.
  exists tm. split; [done|]. apply CosignersConfig_Validate_sound in E3 as [Hn Hr].
  rewrite Z.quot_div_nonneg in E1 by lia.
  split; [pose proof (Z.mod_pos_bound (Z.of_nat (length (tm_Cosigners tm))) 2);
          pose proof (Z.div_mod (Z.of_nat (length (tm_Cosigners tm))) 2); lia|].
  split; [done|]. split; [done|]. split; [done|]. intros Ht. rewrite Ht in Hk.
  unfold ClusterPeerPubKeys in *. destruct (cluster_keys _) as [keys| |] eqn:Ek; [|done|done].
  cbn in Hk. pose proof (cluster_keys_length _ _ Ek) as Hl.
  exists keys. split; [done|]. split; [|done]. by eapply check_distinct_keys_sound.
Qed.

(** ** Properties *)

(** A chain ID that passes [ValidateChainID] names exactly one file
    directly inside the configured directory, for each kind of file: it cannot
    leave the directory, and files of different chains or of different kinds never
    coincide, so two chains cannot share a watermark. *)
Theorem chain_files_confined dir a b s1 s2 :
  ValidateChainID a = Ok () → ValidateChainID b = Ok () →
  s1 ∈ file_suffixes → s2 ∈ file_suffixes →
  Join_path dir (a +:+ s1) = mkPath (IsAbs dir) (path_components (Clean dir) ++ [a +:+ s1]) ∧
  (filepath_Join dir (a +:+ s1) = filepath_Join dir (b +:+ s2) → a = b ∧ s1 = s2).
Proof.
  intros Ha%ValidateChainID_no_slash Hb%ValidateChainID_no_slash H1 H2.
  pose proof (suffix_plain _ _ Ha H1). pose proof (suffix_plain _ _ Hb H2).
  split; [by apply Join_path_plain|]. rewrite !filepath_Join_plain by done.
  intros E%string_app_inj_l. by apply suffix_unique.
Qed.

Lemma chain_files_confined_witness :
  ValidateChainID "cosmoshub-4" = Ok () ∧ ValidateChainID "../etc" ≠ Ok () ∧
  Join_path "/root/.horcrux/state" ("cosmoshub-4" +:+ "_share_sign_state.json")
  = mkPath true ["root"; ".horcrux"; "state"; "cosmoshub-4_share_sign_state.json"].
Proof.
  split; [reflexivity|]. split; [discriminate|].
  refine (proj1 (chain_files_confined "/root/.horcrux/state" "cosmoshub-4" "cosmoshub-4"
    "_share_sign_state.json" "_share_sign_state.json" eq_refl eq_refl _ _));
    do 3 right; left.
Defined.

(** [ValidateChainID] accepts exactly the strings of one to fifty
    bytes that are non-empty segments of letters, digits, [_] and [-] joined by single
    dots. *)
Theorem ValidateChainID_exact chainID :
  ValidateChainID chainID = Ok () ↔
  (String.length chainID ≤ 50)%nat ∧ in_lang chainIDPattern chainID.
Proof.
  unfold ValidateChainID. cbv zeta. split.
  - repeat case_match; try done. intros _. apply negb_false_iff, MatchString_lang in H1.
    apply Z.ltb_ge in H0. unfold maxChainIDLen in H0. split; [lia|done].
  - intros [Hl Hin]. destruct (String.eqb_spec chainID "") as [->|Hne].
    + apply lang_MatchString in Hin. by vm_compute in Hin.
    + rewrite (proj2 (Z.ltb_ge _ _)) by (unfold maxChainIDLen; lia).
      by rewrite (lang_MatchString _ _ Hin).
Qed.

(** C39: a configuration that passes [ValidateThresholdModeConfig] has
    distinct shard IDs between 1 and the number of cosigners, a threshold that is a
    strict majority of them and not more than all of them, and, with cluster TLS on,
    one distinct 32-byte key per cosigner. *)
Theorem ValidateThresholdModeConfig_sound `{NetParse} c :
  ValidateThresholdModeConfig c = Ok () →
  ∃ tm, cfg_ThresholdModeConfig c = Some tm ∧
    let n := Z.of_nat (length (tm_Cosigners tm)) in
    n < 2 * tm_Threshold tm ∧ tm_Threshold tm ≤ n ∧
    NoDup (cc_ShardID <$> tm_Cosigners tm) ∧
    Forall (λ c, 1 ≤ cc_ShardID c ≤ n) (tm_Cosigners tm) ∧
    (ClusterTLSEnabled tm = true →
     ∃ keys, ClusterPeerPubKeys tm = Ok keys ∧ NoDup keys ∧
       length keys = length (tm_Cosigners tm)).
Proof. apply ValidateThresholdModeConfig_spec. Qed.

Lemma ValidateThresholdModeConfig_sound_witness :
  ∃ tm, cfg_ThresholdModeConfig
    (mkConfig None "" "threshold" (Some (mkThresholdModeConfig 2 (CosignersFromFlag ["a"; "b"; "c"])
       "" "1s" "1s" false)) [] "" "" 0) = Some tm ∧ 3 < 2 * tm_Threshold tm.
Proof.
  destruct (@ValidateThresholdModeConfig_sound toy_net
    (mkConfig None "" "threshold" (Some (mkThresholdModeConfig 2 (CosignersFromFlag ["a"; "b"; "c"])
       "" "1s" "1s" false)) [] "" "" 0) eq_refl) as (tm & Htm & Hm & _).
  exists tm. split; [exact Htm|]. injection Htm as <-. exact Hm.
Defined.
