(* ===== verification/Strconv.v ===== *)
(** * Numbers and spaces in text

    What the program uses of Go's [strconv] and [strings]: [Atoi], [ParseInt] in base ten and
    64 bits, and [TrimSpace]. *)

From S2P Require Import Prelude Errors Wire Config.
From stdpp Require Import base list strings numbers pretty.
From Stdlib Require Import ZArith Lia.

Open Scope string_scope.
Open Scope list_scope.
Open Scope Z_scope.

(** ** Definitions *)

(** [strconv.Atoi], without the text of its errors *)
Fixpoint digits (s : string) (acc : Z) : option Z :=
  match s with
  | EmptyString => Some acc
  | String c s' =>
      let d := Z.of_N (Ascii.N_of_ascii c) - 48 in
      if (0 <=? d) && (d <=? 9) then digits s' (acc * 10 + d) else None
  end.

Definition unsigned (s : string) : option Z :=
  match s with EmptyString => None | _ => digits s 0 end.

Definition Atoi (s : string) : option Z :=
  match s with
  | EmptyString => None
  | String c s' =>
      n ← (if Ascii.eqb c (Ascii.ascii_of_N 45) then Z.opp <$> unsigned s' else if Ascii.eqb c (Ascii.ascii_of_N 43) then unsigned s' else unsigned s);
      if (- 2 ^ 63 <=? n) && (n <? 2 ^ 63) then Some n else None
  end.

(** Whether the digits leave the range of a uint64 before the first character that is none: that error comes first. *)
Fixpoint overflows (s : string) (acc : Z) : bool :=
  match s with
  | EmptyString => false
  | String c s' =>
      let d := Z.of_N (Ascii.N_of_ascii c) - 48 in
      if (0 <=? d) && (d <=? 9) then (2 ^ 64 <=? acc * 10 + d) || overflows s' (acc * 10 + d) else false
  end.

Definition without_sign (s : string) : string :=
  match s with
  | String c s' => if Ascii.eqb c (Ascii.ascii_of_N 45) || Ascii.eqb c (Ascii.ascii_of_N 43) then s' else s
  | EmptyString => s
  end.

(** [strconv.ParseInt(s, 10, 64)] *)
Definition ParseInt (s : string) : result Z goerror :=
  match Atoi s with
  | Some n => Ok n
  | None =>
      let digs := without_sign s in
      Err (ErrorString ("strconv.ParseInt: parsing " +:+ fmt_q s
             +:+ if overflows digs 0 || bool_decide (is_Some (unsigned digs)) then ": value out of range" else ": invalid syntax"))
  end.

(** The encodings of the white space characters of Unicode *)
Definition unicode_spaces : list (list Z) :=
  ((λ b, [b]) <$> [9; 10; 11; 12; 13; 32]) ++ [[194; 133]; [194; 160]; [225; 154; 128]]
  ++ ((λ i, [226; 128; 128 + i]) <$> seqZ 0 11) ++ [[226; 128; 168]; [226; 128; 169]; [226; 128; 175]; [226; 129; 159]; [227; 128; 128]].

Definition starts_with (l p : list Z) : bool := bool_decide (take (length p) l = p).

(** Drops the encodings at the start; every one is at least a byte. *)
Fixpoint trim_start (spaces : list (list Z)) (n : nat) (l : list Z) : list Z :=
  match n with
  | O => l
  | S n' =>
      match list_find (λ p, starts_with l p = true) spaces with
      | Some (_, p) => trim_start spaces n' (drop (length p) l)
      | None => l
      end
  end.

(** [strings.TrimSpace] *)
Definition TrimSpace (bs : list Z) : list Z :=
  let l := trim_start unicode_spaces (length bs) bs in
  reverse (trim_start (reverse <$> unicode_spaces) (length l) (reverse l)).

(** *** Specifications *)

Definition digit_byte (b : Z) : Prop := 48 ≤ b ≤ 57.

(** ** Lemmas *)

(** *** Numbers and their digits *)

Lemma digit_of n :
  (n < 10)%N →
  let d := Z.of_N (Ascii.N_of_ascii (pretty_N_char n)) - 48 in (0 <=? d) && (d <=? 9) = true ∧ d = Z.of_N n.
Proof. intros Hn. destruct n as [|p]; [done|]. do 4 (destruct p as [p|p|]; try done; try lia). Qed.

Lemma digits_pretty_go x s : (0 < x)%N → digits (pretty_N_go x s) 0 = digits s (Z.of_N x).
Proof.
  revert s. induction (N.lt_wf_0 x) as [x _ IH]. intros s Hx. rewrite pretty_N_go_step by done.
  destruct (digit_of (x `mod` 10)) as [Hd Hv]; [by apply N.mod_lt|].
  assert (x = 10 * (x `div` 10) + x `mod` 10)%N as Hdm by (by apply N.div_mod).
  destruct (decide (0 < x `div` 10)%N) as [Hpos|Hz].
  - rewrite IH; [|by apply N.div_lt|done]. cbn [digits]. rewrite Hd, Hv. f_equal. lia.
  - assert (x `div` 10 = 0)%N as -> by lia. rewrite pretty_N_go_0. cbn [digits]. rewrite Hd, Hv. f_equal. lia.
Qed.

Lemma digits_fmt_d n : 0 ≤ n → digits (fmt_d n) 0 = Some n.
Proof.
  intros Hn. destruct n as [|p|p]; [done| |lia]. unfold fmt_d.
  change (digits (pretty_N (Npos p)) 0 = Some (Z.pos p)). unfold pretty_N. rewrite decide_False by done.
  by rewrite digits_pretty_go.
Qed.

(** [strconv.Atoi] reads what [fmt.Sprint] writes. *)
Lemma Atoi_fmt_d n : 0 ≤ n < 2 ^ 63 → Atoi (fmt_d n) = Some n.
Proof.
  intros [Hn Hlt]. pose proof (digits_fmt_d n Hn) as Hd. unfold Atoi. destruct (fmt_d n) as [|c s] eqn:E.
  { destruct n as [|p|p]; [done| |lia]. cbn in Hd. congruence. }
  assert (∀ m, c = Ascii.ascii_of_N m → (m < 48)%N → False) as Hc.
  { intros m -> Hm. cbn [digits] in Hd. rewrite Ascii.N_ascii_embedding in Hd by lia.
    rewrite (proj2 (Z.leb_gt 0 (Z.of_N m - 48))) in Hd by lia. done. }
  rewrite (proj2 (Ascii.eqb_neq _ _)) by (intros ->; by eapply (Hc 45%N)).
  rewrite (proj2 (Ascii.eqb_neq _ _)) by (intros ->; by eapply (Hc 43%N)).
  cbn [unsigned]. rewrite Hd. cbn. by rewrite (proj2 (Z.leb_le _ _)), (proj2 (Z.ltb_lt _ _)) by lia.
Qed.

Lemma ParseInt_fmt_d n : 0 ≤ n < 2 ^ 63 → ParseInt (fmt_d n) = Ok n.
Proof. intros Hn. unfold ParseInt. by rewrite Atoi_fmt_d. Qed.

Lemma digits_bytes s acc n : digits s acc = Some n → Forall digit_byte (string_bytes s).
Proof.
  revert acc. induction s as [|c s IH]; intros acc; cbn [digits string_bytes]; [by constructor|].
  destruct (_ && _) eqn:E; [|done]. intros H. constructor; [|by eapply IH].
  apply andb_true_iff in E as [?%Z.leb_le ?%Z.leb_le]. unfold digit_byte. lia.
Qed.

Lemma fmt_d_bytes n : 0 ≤ n → Forall digit_byte (string_bytes (fmt_d n)).
Proof. intros Hn. eapply digits_bytes. by apply digits_fmt_d. Qed.

(** No white space starts, or ends, with the byte of a digit. *)
Lemma trim_start_digit spaces n b l :
  digit_byte b → Forall (λ p, match p with c :: _ => ¬ digit_byte c | [] => False end) spaces →
  trim_start spaces n (b :: l) = b :: l.
Proof.
  intros Hb Hs. destruct n as [|n]; [done|]. cbn [trim_start]. destruct (list_find _ _) as [[i p]|] eqn:E; [|done].
  apply list_find_Some in E as (Hi & Hp & _). unfold starts_with in Hp. apply bool_decide_eq_true in Hp.
  rewrite list.Forall_forall in Hs. specialize (Hs p (list_elem_of_lookup_2 _ _ _ Hi)). destruct p as [|c p]; [done|].
  injection Hp as -> _. done.
Qed.

(** The text of a number and a newline, as a PID file has it *)
Lemma TrimSpace_number n : 0 ≤ n → TrimSpace (string_bytes (fmt_d n) ++ [10]) = string_bytes (fmt_d n).
Proof.
  intros Hn. pose proof (fmt_d_bytes n Hn) as Hd. assert (string_bytes (fmt_d n) ≠ []) as Hne.
  { pose proof (digits_fmt_d n Hn) as H. destruct (fmt_d n) as [|c s] eqn:E; [|done].
    destruct n as [|p|p]; [done| |lia]. cbn in H. congruence. }
  revert Hd Hne. generalize (string_bytes (fmt_d n)). intros ds Hd Hne. unfold TrimSpace.
  assert (trim_start unicode_spaces (length (ds ++ [10])) (ds ++ [10]) = ds ++ [10]) as ->.
  { destruct ds as [|d ds]; [done|]. apply Forall_cons in Hd as [Hd _]. cbn [app]. apply trim_start_digit; [done|].
    repeat constructor; unfold digit_byte; lia. }
  rewrite reverse_app, length_app, Nat.add_comm. cbn [length Nat.add].
  assert (∀ k l, trim_start (reverse <$> unicode_spaces) (S k) (reverse [10] ++ l) = trim_start (reverse <$> unicode_spaces) k l) as Hstep.
  { done. }
  rewrite Hstep. destruct (reverse ds) as [|d rs] eqn:Er.
  { apply (f_equal reverse) in Er. rewrite reverse_involutive in Er. done. }
  assert (digit_byte d) as Hdd.
  { rewrite list.Forall_forall in Hd. apply Hd. apply elem_of_reverse. rewrite Er. by apply elem_of_cons; left. }
  rewrite trim_start_digit; [rewrite <- Er; apply reverse_involutive|done|].
  repeat constructor; unfold digit_byte; cbn; lia.
Qed.
