(* ===== verification/Cosigner.v ===== *)
(** * What cosigners exchange

    Models src/signer/cosigner.go and src/signer/threshold_signer.go: the requests,
    responses and nonces of the cosigner protocol with their protobuf conversions,
    [verifySignPayload], which reads height, round and step out of the bytes to sign,
    and the interfaces a cosigner is built on: [ThresholdSigner] (threshold_signer.go)
    and [CosignerSecurity] (cosigner_security.go). *)

From S2P Require Import Prelude Hrs Errors Comet SignState.
From stdpp Require Import base gmap list strings numbers pretty.
From Stdlib Require Import ZArith Lia.

Open Scope Z_scope.

(** ** Definitions *)

(** A [uuid.UUID]: its sixteen bytes. *)
Definition UUID : Type := list Z.

Record Nonces := mkNonces {
  n_PubKey : gobytes;
  n_Shares : option (list gobytes)
}.

Record NoncesWithExpiration := mkNoncesWithExpiration {
  ne_Expiration : Z;
  ne_Nonces : list Nonces
}.

Record Nonce := mkNonce {
  nc_ID : Z;
  nc_Share : gobytes;
  nc_PubKey : gobytes
}.

Record PartialSignature := mkPartialSignature {
  ps_ID : Z;
  ps_Signature : gobytes
}.

(** The interface [ThresholdSigner], on signers of type [S]. *)
Class ThresholdSigner (S : Type) := {
  ts_PubKey : S → gobytes;
  ts_Sign : S → list Nonce → gobytes → result gobytes goerror;
  ts_CombineSignatures : S → list PartialSignature → result gobytes goerror
}.

Record CosignerSignRequest := mkCosignerSignRequest {
  sr_ChainID : string;
  sr_SignBytes : gobytes;
  sr_UUID : UUID;
  sr_VoteExtensionSignBytes : gobytes;
  sr_VoteExtUUID : UUID
}.

Record CosignerSignResponse := mkCosignerSignResponse {
  sp_Timestamp : Z;
  sp_NoncePublic : gobytes;
  sp_Signature : gobytes;
  sp_VoteExtensionNoncePublic : gobytes;
  sp_VoteExtensionSignature : gobytes
}.

Record CosignerNonce := mkCosignerNonce {
  cn_SourceID : Z;
  cn_DestinationID : Z;
  cn_PubKey : gobytes;
  cn_Share : gobytes;
  cn_Signature : gobytes
}.

(** The interface [CosignerSecurity]; encryption is randomised, so a call takes the
    randomness it uses. *)
Class CosignerSecurity (K : Type) := {
  sec_GetID : K → Z;
  EncryptAndSign : K → list Z → Z → gobytes → gobytes → result CosignerNonce goerror;
  DecryptAndVerify : K → Z → gobytes → gobytes → gobytes → result (gobytes * gobytes) goerror
}.

(** The generated message [proto.Nonce]; the IDs are int32 there. *)
Record protoNonce := mkProtoNonce {
  pn_SourceID : Z;
  pn_DestinationID : Z;
  pn_PubKey : gobytes;
  pn_Share : gobytes;
  pn_Signature : gobytes
}.

Definition CosignerNonce_toProto (n : CosignerNonce) : protoNonce :=
  mkProtoNonce (i32 (cn_SourceID n)) (i32 (cn_DestinationID n)) (cn_PubKey n) (cn_Share n)
    (cn_Signature n).

Definition CosignerNonces_toProto (l : list CosignerNonce) : list protoNonce :=
  CosignerNonce_toProto <$> l.

Definition CosignerNonceFromProto (n : protoNonce) : CosignerNonce :=
  mkCosignerNonce (pn_SourceID n) (pn_DestinationID n) (pn_PubKey n) (pn_Share n) (pn_Signature n).

Definition CosignerNoncesFromProto (l : list protoNonce) : list CosignerNonce :=
  CosignerNonceFromProto <$> l.

Record CosignerSignBlockRequest := mkCosignerSignBlockRequest {
  sbr_ChainID : string;
  sbr_Block : Block
}.

Record CosignerSignBlockResponse := mkCosignerSignBlockResponse {
  sbp_Signature : gobytes;
  sbp_VoteExtensionSignature : gobytes;
  sbp_Timestamp : Z
}.

Record CosignerUUIDNonces := mkCosignerUUIDNonces {
  un_UUID : UUID;
  un_Nonces : list CosignerNonce
}.

(** [n.For(id)]: the nonces destined to one cosigner. *)
Definition For (n : CosignerUUIDNonces) (id : Z) : CosignerUUIDNonces :=
  mkCosignerUUIDNonces (un_UUID n) (filter (λ c, cn_DestinationID c = id) (un_Nonces n)).

Record protoUUIDNonce := mkProtoUUIDNonce {
  pun_Uuid : gobytes;
  pun_Nonces : list protoNonce
}.

Definition CosignerUUIDNoncesMultiple_toProto (l : list CosignerUUIDNonces) : list protoUUIDNonce :=
  (λ n, mkProtoUUIDNonce (Some (un_UUID n)) (CosignerNonces_toProto (un_Nonces n))) <$> l.

Record CosignerSetNoncesAndSignRequest := mkSetNoncesAndSignRequest {
  snr_ChainID : string;
  snr_HRST : HRSTKey;
  snr_Nonces : option CosignerUUIDNonces;
  snr_SignBytes : gobytes;
  snr_VoteExtensionNonces : option CosignerUUIDNonces;
  snr_VoteExtensionSignBytes : gobytes
}.

(** [cosigners.GetByID(id)] on any type of cosigner with a [GetID]. *)
Fixpoint GetByID {A} (GetID : A → Z) (cosigners : list A) (id : Z) : option A :=
  match cosigners with
  | [] => None
  | c :: l => if GetID c =? id then Some c else GetByID GetID l id
  end.

(** [errors.Join] of a possibly nil error and an error *)
Definition errors_Join (e1 : option goerror) (e2 : goerror) : goerror :=
  match e1 with
  | None => WrapError "" e2
  | Some e => JoinError e e2
  end.

(** The part of [verifySignPayload] after the bytes did not decode to a vote. *)
Definition verify_proposal `{Codec} (voteErr : option goerror) (signBytes : gobytes)
    : result (HRSTKey * bool) goerror :=
  match unmarshalProposal (slice signBytes) with
  | Ok proposal =>
      Ok (mkHRSTKey (cp_Height proposal) (cp_Round proposal) stepPropose
            (UnixNano (cp_Timestamp proposal)), false)
  | Err proposalErr =>
      Err (WrapError "failed to unmarshal sign bytes into vote or proposal: "
             (errors_Join voteErr proposalErr))
  | Panics m => Panics m
  end.

(** The checks on the vote extension of a precommit for a block. *)
Definition verify_extension `{Codec} (chainID : string) (hrstKey : HRSTKey)
    (voteExtensionSignBytes : gobytes) : result (HRSTKey * bool) goerror :=
  try voteExt <- map_err (WrapError "failed to unmarshal vote extension: ")
                   (unmarshalVoteExtension (slice voteExtensionSignBytes));
  if negb (String.eqb (cve_ChainId voteExt) chainID) then
    Err (ErrorString ("vote extension chain ID " +:+ cve_ChainId voteExt
                      +:+ " does not match chain ID " +:+ chainID))
  else if negb (cve_Height voteExt =? hrst_Height hrstKey) then
    Err (ErrorString ("vote extension height " +:+ fmt_d (cve_Height voteExt)
                      +:+ " does not match block height " +:+ fmt_d (hrst_Height hrstKey)))
  else if negb (cve_Round voteExt =? hrst_Round hrstKey) then
    Err (ErrorString ("vote extension round " +:+ fmt_d (cve_Round voteExt)
                      +:+ " does not match block round " +:+ fmt_d (hrst_Round hrstKey)))
  else Ok (hrstKey, true).

Definition verifySignPayload `{Codec} (chainID : string) (signBytes voteExtensionSignBytes : gobytes)
    : result (HRSTKey * bool) goerror :=
  match unmarshalVote (slice signBytes) with
  | Panics m => Panics m
  | Err voteErr => verify_proposal (Some voteErr) signBytes
  | Ok vote =>
      if (cv_Type vote =? PrevoteType) || (cv_Type vote =? PrecommitType) then
        try step <- CanonicalVoteToStep vote;
        let hrstKey := mkHRSTKey (cv_Height vote) (cv_Round vote) step
                         (UnixNano (cv_Timestamp vote)) in
        if (step =? stepPrecommit) && (0 <? blen voteExtensionSignBytes)
           && negb (bool_decide (cv_BlockID vote = None))
        then verify_extension chainID hrstKey voteExtensionSignBytes
        else Ok (hrstKey, false)
      else verify_proposal None signBytes
  end.

(** ** Lemmas *)

Lemma verify_proposal_step `{Codec} voteErr signBytes hrst hasExt :
  verify_proposal voteErr signBytes = Ok (hrst, hasExt) →
  hrst_Step hrst = stepPropose ∧ hasExt = false.
Proof. unfold verify_proposal. case_match; [|done|done]. by intros [= <- <-]. Qed.

Lemma verify_extension_Ok `{Codec} chainID hrst b hrst' hasExt :
  verify_extension chainID hrst b = Ok (hrst', hasExt) →
  hrst' = hrst ∧ hasExt = true ∧
  ∃ ext, unmarshalVoteExtension (slice b) = Ok ext ∧ cve_ChainId ext = chainID ∧
    cve_Height ext = hrst_Height hrst ∧ cve_Round ext = hrst_Round hrst.
Proof.
  unfold verify_extension. destruct (unmarshalVoteExtension _) as [ext| |]; [|done|done]. cbn.
  destruct (String.eqb_spec (cve_ChainId ext) chainID); [|done].
  destruct (Z.eqb_spec (cve_Height ext) (hrst_Height hrst)); [|done].
  destruct (Z.eqb_spec (cve_Round ext) (hrst_Round hrst)); [|done]. cbn.
  intros [= <- <-]. split; [done|]. split; [done|]. by exists ext.
Qed.

Lemma verifySignPayload_step `{Codec} chainID b vb hrst hasExt :
  verifySignPayload chainID b vb = Ok (hrst, hasExt) →
  1 ≤ hrst_Step hrst ≤ 3 ∧ (hasExt = true → hrst_Step hrst = stepPrecommit).
Proof.
  unfold verifySignPayload. destruct (unmarshalVote (slice b)) as [v| |]; [| |done].
  - case_match.
    + unfold CanonicalVoteToStep.
      destruct (cv_Type v =? PrevoteType); [|destruct (cv_Type v =? PrecommitType); [|done]]; cbn.
      * intros [= <- <-]. cbn. unfold stepPrevote. lia.
      * case_match.
        -- intros (-> & -> & _)%verify_extension_Ok. cbn. unfold stepPrecommit. lia.
        -- intros [= <- <-]. cbn. unfold stepPrecommit. lia.
    + intros (E & ->)%verify_proposal_step. rewrite E. unfold stepPropose. lia.
  - intros (E & ->)%verify_proposal_step. rewrite E. unfold stepPropose. lia.
Qed.

(** ** Properties *)

(** [verifySignPayload] takes the height and round from the bytes to
    sign themselves, gives proposals, prevotes and precommits steps 1, 2 and 3, and
    reports a vote extension only for a precommit on a block whose extension bytes
    carry the same chain ID, height and round. *)
Theorem verifySignPayload_sound `{Codec} chainID b vb hrst hasExt :
  verifySignPayload chainID b vb = Ok (hrst, hasExt) →
  ((∃ p, unmarshalProposal (slice b) = Ok p ∧ hasExt = false ∧
      hrst_HRSKey hrst = mkHRSKey (cp_Height p) (cp_Round p) stepPropose) ∨
   (∃ v, unmarshalVote (slice b) = Ok v ∧
      ((cv_Type v = PrevoteType ∧ hrst_HRSKey hrst = mkHRSKey (cv_Height v) (cv_Round v) stepPrevote) ∨
       (cv_Type v = PrecommitType ∧
        hrst_HRSKey hrst = mkHRSKey (cv_Height v) (cv_Round v) stepPrecommit)) ∧
      (hasExt = true →
       cv_Type v = PrecommitType ∧ cv_BlockID v ≠ None ∧ slice vb ≠ [] ∧
       ∃ ext, unmarshalVoteExtension (slice vb) = Ok ext ∧ cve_ChainId ext = chainID ∧
         cve_Height ext = cv_Height v ∧ cve_Round ext = cv_Round v))).
Proof.
  assert (∀ e, verify_proposal e b = Ok (hrst, hasExt) →
    ∃ p, unmarshalProposal (slice b) = Ok p ∧ hasExt = false ∧
      hrst_HRSKey hrst = mkHRSKey (cp_Height p) (cp_Round p) stepPropose) as Hp.
  { intros e. unfold verify_proposal. destruct (unmarshalProposal _) as [p| |]; [|done|done].
    intros [= <- <-]. by exists p. }
  unfold verifySignPayload. destruct (unmarshalVote (slice b)) as [v|e|] eqn:Ev; [| |done].
  - case_match; [|intros H1; left; by eapply Hp]. intros H1. right. exists v. split; [done|].
    revert H1. unfold CanonicalVoteToStep.
    destruct (Z.eqb_spec (cv_Type v) PrevoteType) as [Et|_]; cbn.
    + intros [= <- <-]. split; [by left|done].
    + destruct (Z.eqb_spec (cv_Type v) PrecommitType) as [Et|_]; [|done]. cbn.
      case_match eqn:Ec; [|intros [= <- <-]; split; [by right|done]].
      apply andb_true_iff in Ec as [Hlen Hbid]. apply Z.ltb_lt in Hlen.
      apply negb_true_iff, bool_decide_eq_false in Hbid.
      intros (-> & -> & Hext)%verify_extension_Ok. split; [by right|]. intros _.
      split; [done|]. split; [done|]. split; [|exact Hext].
      unfold blen in Hlen. intros E. rewrite E in Hlen. cbn in Hlen. lia.
  - intros H1. left. by eapply Hp.
Qed.

Lemma verifySignPayload_sound_witness :
  @verifySignPayload toy_codec "chain" (Some [1; 2; 5; 0; 9; 42]) (Some [3; 5; 0; 77])
  = Ok (mkHRSTKey 5 0 3 9, true) ∧ ∃ v, @unmarshalVote toy_codec [1; 2; 5; 0; 9; 42] = Ok v.
Proof.
  split; [reflexivity|].
  destruct (@verifySignPayload_sound toy_codec "chain" (Some [1; 2; 5; 0; 9; 42])
    (Some [3; 5; 0; 77]) (mkHRSTKey 5 0 3 9) true eq_refl) as [(p & Hp & _)|(v & Hv & _)].
  - discriminate Hp.
  - exists v. exact Hv.
Defined.

(** The nonces of a round survive the RPC: a cosigner's ID fits
    int32, and converting to protobuf and back restores every field. *)
Theorem CosignerNonces_proto_roundtrip l :
  Forall (λ n, in_sint 32 (cn_SourceID n) ∧ in_sint 32 (cn_DestinationID n)) l →
  CosignerNoncesFromProto (CosignerNonces_toProto l) = l.
Proof.
  unfold CosignerNoncesFromProto, CosignerNonces_toProto. intros H. rewrite <- list_fmap_compose.
  induction H as [|n l [H1 H2] _ IH]; [done|]. rewrite fmap_cons, IH. f_equal.
  destruct n. unfold compose, CosignerNonceFromProto, CosignerNonce_toProto. cbn in *.
  by rewrite !sint_small by (done || lia).
Qed.

Lemma CosignerNonces_proto_roundtrip_witness :
  let n := mkCosignerNonce 1 2 (Some [3]) (Some [4]) (Some [5]) in
  CosignerNoncesFromProto (CosignerNonces_toProto [n]) = [n].
Proof.
  cbv zeta. apply CosignerNonces_proto_roundtrip. repeat constructor; cbn; lia.
Defined.
