(* ===== verification/SoftSigner.v ===== *)
(** * Key shards and the soft threshold signer

    Key files and shards (signer/cosigner_key.go, signer/cosigner_key_shares.go) and
    [ThresholdSignerSoft] (signer/threshold_signer_soft.go), the implementation of the
    [ThresholdSigner] interface.  JSON, protobuf, amino and the key types of CometBFT are
    arguments; so is [crypto/rand].  The main theorem composes dealing, nonces, partial
    signatures and their combination: the result satisfies Ed25519's verification equation. *)

From S2P Require Import Prelude Lagrange Sha512 Scalar25519 Field25519 Edwards Group25519 Base25519 Tsed25519 Hrs Errors Comet SignState Config Cosigner.
From stdpp Require Import base gmap list strings numbers.
From Stdlib Require Import ZArith Lia.

Open Scope string_scope.
Open Scope Z_scope.

(** ** Definitions *)

(** *** Key files *)

(** The fields of a key file; the outer [pubKey] shadows the one of the embedded alias. *)
Record KeyJSON := mkKeyJSON {
  kj_pubKey : gobytes;
  kj_privateShard : gobytes;
  kj_id : Z
}.

(** The key types and encoders of CometBFT, and [encoding/json] at the key file. *)
Class KeyCodec := {
  PubKey : Type;
  PubKey_Bytes : PubKey → gobytes;
  ProtoPubKey : Type;
  PubKeyToProto : PubKey → result ProtoPubKey goerror;
  PubKeyFromProto : ProtoPubKey → result PubKey goerror;
  protoPubkey_Marshal : ProtoPubKey → result gobytes goerror;
  protoPubkey_Unmarshal : gobytes → result ProtoPubKey goerror;
  amino_UnmarshalBinaryBare : gobytes → result PubKey goerror;
  json_Marshal : KeyJSON → result (list Z) goerror;
  json_Unmarshal : list Z → result KeyJSON goerror;
  cometjson_UnmarshalPV : list Z → result (PubKey * gobytes) goerror
}.

(** What each encoder writes its decoder reads. *)
Class KeyCodecLaws (C : KeyCodec) := {
  pubkey_roundtrip pk p : PubKeyToProto pk = Ok p → PubKeyFromProto p = Ok pk;
  protokey_roundtrip p bs : protoPubkey_Marshal p = Ok bs → protoPubkey_Unmarshal bs = Ok p;
  keyjson_roundtrip j bs : json_Marshal j = Ok bs → json_Unmarshal bs = Ok j
}.

(** [os.WriteFile] *)
Definition os_WriteFile (fs : FileSystem) (path : string) (bs : list Z) : result FileSystem goerror :=
  match fs_write_error fs path with
  | Some e => Err e
  | None => Ok (mkFS (<[path := Content bs]> (fs_files fs)) (fs_write_error fs))
  end.

Section Keys.
Context `{KC : KeyCodec}.

Record CosignerEd25519Key := mkCosignerEd25519Key {
  ck_PubKey : PubKey;
  ck_PrivateShard : gobytes;
  ck_ID : Z
}.

(** [privval.FilePVKey], whose private key is used through [Bytes()] only. *)
Record FilePVKey := mkFilePVKey {
  pvk_PubKey : PubKey;
  pvk_PrivKey : gobytes
}.

Definition key_MarshalJSON (key : CosignerEd25519Key) : result (list Z) goerror :=
  try protoPubkey <- PubKeyToProto (ck_PubKey key);
  try protoBytes <- protoPubkey_Marshal protoPubkey;
  json_Marshal (mkKeyJSON protoBytes (ck_PrivateShard key) (ck_ID key)).

(** [UnmarshalJSON]: keys written before the protobuf migration are read as amino; the
    error of that attempt is dropped. *)
Definition key_UnmarshalJSON (data : list Z) : result CosignerEd25519Key goerror :=
  try aux <- json_Unmarshal data;
  let filled pubkey := mkCosignerEd25519Key pubkey (kj_privateShard aux) (kj_id aux) in
  match protoPubkey_Unmarshal (kj_pubKey aux) with
  | Err err =>
      match amino_UnmarshalBinaryBare (kj_pubKey aux) with
      | Err errInner => Err err
      | Ok pub => Ok (filled pub)
      | Panics m => Panics m
      end
  | Ok protoPubkey => try pubkey <- PubKeyFromProto protoPubkey; Ok (filled pubkey)
  | Panics m => Panics m
  end.

Definition LoadCosignerEd25519Key (fs : FileSystem) (file : string) : result CosignerEd25519Key goerror :=
  try keyJSONBytes <- ReadFile fs file;
  key_UnmarshalJSON keyJSONBytes.

Definition WriteCosignerEd25519ShardFile (cosigner : CosignerEd25519Key) (file : string) (fs : FileSystem)
    : result FileSystem goerror :=
  try jsonBytes <- key_MarshalJSON cosigner;
  os_WriteFile fs file jsonBytes.

(** [CreateCosignerEd25519Shards]; [rnd] is what [rand.Int] returns. *)
Definition CreateCosignerEd25519Shards (rnd : nat → option Z) (pv : FilePVKey) (threshold shards : Z)
    : result (list CosignerEd25519Key) goerror :=
  if blen (pvk_PrivKey pv) <? 32 then Panics "runtime error: slice bounds out of range"
  else
    try privShards <- DealShares rnd (ExpandSecret (take 32 (slice (pvk_PrivKey pv)))) threshold shards;
    Ok (imap (λ i shard, mkCosignerEd25519Key (pvk_PubKey pv) (Some shard) (Z.of_nat i + 1)) privShards).

(** [cometjson.Unmarshal] into a [privval.FilePVKey] *)
Definition ReadPrivValidatorFile (fs : FileSystem) (priv : string) : result FilePVKey goerror :=
  try bz <- ReadFile fs priv;
  try out <- cometjson_UnmarshalPV bz;
  Ok (mkFilePVKey out.1 out.2).

Definition CreateCosignerEd25519ShardsFromFile (rnd : nat → option Z) (fs : FileSystem) (priv : string)
    (threshold shards : Z) : result (list CosignerEd25519Key) goerror :=
  try pv <- ReadPrivValidatorFile fs priv;
  CreateCosignerEd25519Shards rnd pv threshold shards.

(** *** signer/threshold_signer_soft.go *)

Record ThresholdSignerSoft := mkThresholdSignerSoft {
  sof_privateKeyShard : gobytes;
  sof_pubKey : gobytes;
  sof_threshold : Z;
  sof_total : Z
}.

Definition NewThresholdSignerSoft (dirs : list string) (config : RuntimeConfig) (id : Z) (chainID : string)
    (fs : FileSystem) : result ThresholdSignerSoft goerror :=
  try keyFile <- KeyFileExistsCosigner dirs fs config chainID;
  try key <- map_err (λ err, ErrorString ("error reading cosigner key: " +:+ Error err))
    (LoadCosignerEd25519Key fs keyFile);
  if negb (ck_ID key =? id) then
    Err (ErrorString ("key shard ID (" +:+ fmt_d (ck_ID key) +:+ ") in (" +:+ keyFile
           +:+ ") does not match cosigner ID (" +:+ fmt_d id +:+ ")"))
  else match cfg_ThresholdModeConfig (rc_Config config) with
       | None => Panics nil_dereference
       | Some tm =>
           Ok (mkThresholdSignerSoft (ck_PrivateShard key) (PubKey_Bytes (ck_PubKey key))
                 (u8 (tm_Threshold tm)) (u8 (Z.of_nat (length (tm_Cosigners tm)))))
       end.
End Keys.

Arguments mkCosignerEd25519Key {KC}.
Arguments mkFilePVKey {KC}.

Definition soft_PubKey (s : ThresholdSignerSoft) : gobytes := sof_pubKey s.

Definition sumNonces (nonces : list Nonce) : result (list Z * list Z) goerror :=
  let nonceShare := AddScalars ((λ n, slice (nc_Share n)) <$> nonces) in
  let noncePub := AddElements ((λ n, slice (nc_PubKey n)) <$> nonces) in
  if negb (length nonceShare =? 32)%nat then Err (ErrorString "ephemeral share is out of bounds")
  else if negb (ScMinimal nonceShare) then Err (ErrorString "ephemeral share is out of bounds")
  else Ok (nonceShare, noncePub).

Definition soft_Sign (s : ThresholdSignerSoft) (nonces : list Nonce) (payload : gobytes)
    : result gobytes goerror :=
  try sums <- map_err (WrapError "failed to combine nonces: ") (sumNonces nonces);
  let '(nonceShare, noncePub) := sums in
  try sig <- SignWithShare (slice payload) (slice (sof_privateKeyShard s)) nonceShare (slice (sof_pubKey s)) noncePub;
  Ok (Some (noncePub ++ sig)%list).

(** What [crypto/rand] gives one call of [GenerateNonces]: the secret, then the
    coefficients that [DealShares] draws. *)
Record Rand := mkRand {
  rand_Read : result (list Z) goerror;
  rand_Int : nat → option Z
}.

Definition GenerateNonces (r : Rand) (threshold total : Z) : result Nonces goerror :=
  try secret <- rand_Read r;
  let pub := ScalarMultiplyBase secret in
  try shares <- DealShares (rand_Int r) secret threshold total;
  Ok (mkNonces (Some pub) (Some (Some <$> shares))).

(** The loop of [CombineSignatures]: IDs, share signatures and the nonce public key of
    the first partial signature. *)
Fixpoint collect_signatures (ephPub : option (list Z)) (signatures : list PartialSignature)
    : result (list Z * list (list Z) * option (list Z)) goerror :=
  match signatures with
  | [] => Ok ([], [], ephPub)
  | sig :: signatures' =>
      let bytes := slice (ps_Signature sig) in
      if blen (ps_Signature sig) <=? 32 then
        Err (ErrorString ("partial signature from cosigner " +:+ fmt_d (ps_ID sig) +:+ " too short: "
               +:+ fmt_d (blen (ps_Signature sig)) +:+ " bytes"))
      else
        let continue e :=
          try rest <- collect_signatures e signatures';
          let '(ids, shares, e') := rest in
          Ok (ps_ID sig :: ids, drop 32 bytes :: shares, e') in
        match ephPub with
        | None => continue (Some (take 32 bytes))
        | Some e =>
            if negb (bool_decide (take 32 bytes = e))
            then Err (ErrorString "ephemeral public keys do not match")
            else continue ephPub
        end
  end.

Definition soft_CombineSignatures (s : ThresholdSignerSoft) (signatures : list PartialSignature)
    : result gobytes goerror :=
  try collected <- collect_signatures None signatures;
  let '(sigIds, shareSigs, ephPub) := collected in
  try combinedSig <- CombineShares (sof_total s) sigIds shareSigs;
  Ok (Some (default [] ephPub ++ combinedSig)%list).

(** [var _ ThresholdSigner = &ThresholdSignerSoft{}] *)
Global Instance soft_signer : ThresholdSigner ThresholdSignerSoft := {|
  ts_PubKey := soft_PubKey;
  ts_Sign := soft_Sign;
  ts_CombineSignatures := soft_CombineSignatures
|}.

(** *** What the signer is measured against *)

(** Ed25519 verification of [sig] over [msg]: the first half is the encoding of
    [S B - h A] for the second half [S], reduced, and the challenge [h]. *)
Definition verifies (pub msg sig : list Z) : Prop :=
  length sig = 64%nat ∧ le_val (drop 32 sig) < orderL ∧
  ∃ A, curve A ∧ pub = ed_bytes A ∧
    take 32 sig = ed_bytes (padd (pmul (le_val (drop 32 sig)) B_point)
                              (pneg (pmul (challenge (take 32 sig) pub msg) A))).

(** The nonces that cosigner [i] gets from the sources. *)
Definition nonces_for (i : Z) (sources : list (Z * Nonces)) : list Nonce :=
  (λ jn, mkNonce jn.1 (default [] (n_Shares jn.2) !!! Z.to_nat (i - 1)) (n_PubKey jn.2)) <$> sources.

(** The signer that [NewThresholdSignerSoft] makes of a key file's contents. *)
Definition signer_of `{KeyCodec} (threshold total : Z) (key : CosignerEd25519Key) : ThresholdSignerSoft :=
  mkThresholdSignerSoft (ck_PrivateShard key) (PubKey_Bytes (ck_PubKey key)) threshold total.

(** One nonce round of a source, with the secret it drew. *)
Definition generated (threshold total : Z) (secret : list Z) (nonces : Nonces) : Prop :=
  scalar secret ∧ ∃ r, rand_Read r = Ok secret ∧ GenerateNonces r threshold total = Ok nonces.

(** What the signer with shard [i] answers: its point of the polynomial of signatures. *)
Definition signs `{KeyCodec} (keys : list CosignerEd25519Key) (threshold total : Z)
    (sources : list (Z * Nonces)) (payload : gobytes) (R : list Z) (i : Z) (share : list Z) : Prop :=
  ∃ key, keys !! Z.to_nat (i - 1) = Some key ∧ ck_ID key = i
    ∧ soft_Sign (signer_of threshold total key) (nonces_for i sources) payload = Ok (Some (R ++ share)%list).

(** *** A key codec, for the witnesses *)

Definition toy_key_json (bs : list Z) : result KeyJSON goerror :=
  match bs with
  | id :: bs =>
      let '(pk, bs) := toy_get bs in
      let '(shard, _) := toy_get bs in
      Ok (mkKeyJSON pk shard id)
  | [] => Err (ErrorString "unexpected end of JSON input")
  end.

Definition toy_keys : KeyCodec := {|
  PubKey := list Z;
  PubKey_Bytes := Some;
  ProtoPubKey := list Z;
  PubKeyToProto := Ok;
  PubKeyFromProto := Ok;
  protoPubkey_Marshal := λ p, Ok (Some p);
  protoPubkey_Unmarshal := λ bs, Ok (slice bs);
  amino_UnmarshalBinaryBare := λ _, Err (ErrorString "unregistered");
  json_Marshal := λ j, Ok (kj_id j :: toy_put (kj_pubKey j) ++ toy_put (kj_privateShard j))%list;
  json_Unmarshal := toy_key_json;
  cometjson_UnmarshalPV := λ bs, Ok (bs, Some bs)
|}.

(** Randomness whose every draw is 3 and whose secret is 7. *)
Definition toy_rand : Rand := mkRand (Ok (7 :: replicate 31 0)) (λ _, Some 3).

Definition toy_pv : @FilePVKey toy_keys :=
  mkFilePVKey (ScalarMultiplyBase (ExpandSecret (replicate 32 1)) : @PubKey toy_keys)
    (Some (replicate 64 1)).

Definition toy_key : @CosignerEd25519Key toy_keys :=
  mkCosignerEd25519Key ([1; 2; 3] : @PubKey toy_keys) (Some (replicate 32 4)) 1.

Definition toy_tm : ThresholdModeConfig :=
  mkThresholdModeConfig 2 (CosignersFromFlag ["tcp://a:1"; "tcp://b:1"; "tcp://c:1"]) "" "1000ms" "1000ms" false.

Definition toy_config : RuntimeConfig :=
  mkRuntimeConfig "/h" "" "/s" "" (mkConfig None "" "threshold" (Some toy_tm) [] "" "" 0).

(** ** Key files *)

Section KeyFiles.
Context `{KL : KeyCodecLaws}.

Lemma key_json_roundtrip key bs : key_MarshalJSON key = Ok bs → key_UnmarshalJSON bs = Ok key.
Proof.
  unfold key_MarshalJSON, key_UnmarshalJSON.
  destruct (PubKeyToProto _) as [p| |] eqn:E1; cbn [result_bind]; [|done..].
  destruct (protoPubkey_Marshal p) as [pb| |] eqn:E2; cbn [result_bind]; [|done..].
  intros H. rewrite (keyjson_roundtrip _ _ H). cbn [result_bind kj_pubKey kj_privateShard kj_id].
  rewrite (protokey_roundtrip _ _ E2), (pubkey_roundtrip _ _ E1). by destruct key.
Qed.

Lemma ReadFile_written fs path bs fs' : os_WriteFile fs path bs = Ok fs' → ReadFile fs' path = Ok bs.
Proof.
  unfold os_WriteFile. destruct (fs_write_error fs path); [done|]. intros [= <-].
  unfold ReadFile. cbn [fs_files]. by rewrite lookup_insert_eq.
Qed.

Lemma key_file_spec key file fs fs' :
  WriteCosignerEd25519ShardFile key file fs = Ok fs' → LoadCosignerEd25519Key fs' file = Ok key.
Proof.
  unfold WriteCosignerEd25519ShardFile, LoadCosignerEd25519Key.
  destruct (key_MarshalJSON key) as [bs| |] eqn:E; cbn [result_bind]; [|done..].
  intros H. rewrite (ReadFile_written _ _ _ _ H). by apply key_json_roundtrip.
Qed.
End KeyFiles.

Lemma toy_keys_laws : KeyCodecLaws toy_keys.
Proof.
  split.
  - by intros pk p [= ->].
  - by intros p bs [= <-].
  - intros [pk shard id] bs [= <-]. cbn [json_Unmarshal toy_keys toy_key_json kj_id kj_pubKey kj_privateShard].
    rewrite toy_get_put. rewrite <- (app_nil_r (toy_put shard)), toy_get_put. done.
Qed.

(** ** Nonces and partial signatures *)

#[local] Opaque Z.pow p25519 d_val orderL AddElements ScalarMultiplyBase AddScalars ed_mul ed_add sha512.

Lemma scalar_minimal x : ScMinimal (le_bytes 32 (x mod orderL)) = true.
Proof. apply le_bytes_mod_order. Qed.

Lemma sumNonces_spec nonces :
  sumNonces nonces = Ok (le_bytes 32 (zsum (λ n, le_val (slice (nc_Share n))) nonces mod orderL),
                         AddElements ((λ n, slice (nc_PubKey n)) <$> nonces)).
Proof.
  unfold sumNonces. rewrite AddScalars_spec, le_bytes_length, scalar_minimal. cbn [negb Nat.eqb].
  do 4 f_equal. induction nonces as [|n l IH]; [done|]. cbn [fmap list_fmap zsum]. by rewrite IH.
Qed.

Lemma soft_Sign_spec s nonces payload shard :
  sof_privateKeyShard s = Some shard → scalar shard →
  let R := AddElements ((λ n, slice (nc_PubKey n)) <$> nonces) in
  let h := challenge R (slice (sof_pubKey s)) (slice payload) in
  soft_Sign s nonces payload
  = Ok (Some (R ++ le_bytes 32 ((h * le_val shard + zsum (λ n, le_val (slice (nc_Share n))) nonces) mod orderL))%list).
Proof.
  intros Hs Hsc R h. unfold soft_Sign. rewrite sumNonces_spec. cbn [map_err result_bind]. rewrite Hs.
  cbn [slice default from_option]. rewrite SignWithShare_spec by (try exact Hsc; apply scalar_le_bytes).
  cbn [result_bind]. do 4 f_equal. rewrite le_val_scalar_mod.
  change (h * le_val shard + zsum (λ n, le_val (slice (nc_Share n))) nonces mod orderL
          ≡⟨ orderL ⟩ h * le_val shard + zsum (λ n, le_val (slice (nc_Share n))) nonces).
  by rewrite cong_mod.
Qed.

(** Partial signatures that share the nonce public key [R]. *)
Lemma collect_signatures_spec R ids (shares : list (list Z)) e :
  length R = 32%nat → length ids = length shares → Forall (λ s, s ≠ []) shares → e = None ∨ e = Some R →
  collect_signatures e (zip_with (λ i s, mkPartialSignature i (Some (R ++ s)%list)) ids shares)
  = Ok (ids, shares, if ids is [] then e else Some R).
Proof.
  intros HR. revert shares e. induction ids as [|i ids IH]; intros [|s shares] e Hl Hs He; try discriminate Hl; [done|].
  apply list.Forall_cons in Hs as [Hne Hs]. injection Hl as Hl.
  cbn [zip_with collect_signatures ps_Signature ps_ID].
  change (slice (Some (R ++ s)%list)) with (R ++ s)%list.
  assert ((blen (Some (R ++ s)%list) <=? 32) = false) as ->.
  { apply Z.leb_gt. unfold blen. change (slice (Some (R ++ s)%list)) with (R ++ s)%list. rewrite length_app, HR.
    destruct s; [done|]. cbn [length]. lia. }
  assert (take 32 (R ++ s)%list = R) as -> by (rewrite <- HR; apply take_app_length).
  assert (drop 32 (R ++ s)%list = s) as -> by (rewrite <- HR; apply drop_app_length).
  destruct He as [-> | ->].
  - rewrite (IH shares (Some R) Hl Hs) by auto. cbn [result_bind]. by destruct ids.
  - rewrite bool_decide_true by done. cbn [negb]. rewrite (IH shares (Some R) Hl Hs) by auto. cbn [result_bind].
    by destruct ids.
Qed.

Lemma GenerateNonces_spec threshold total secret nonces :
  generated threshold total secret nonces → 1 ≤ threshold → 0 ≤ total < 256 →
  n_PubKey nonces = Some (ScalarMultiplyBase secret)
  ∧ ∃ q, polynomial (Z.to_nat threshold) q ∧ q 0 = le_val secret
    ∧ ∀ i, 1 ≤ i ≤ total →
        le_val (slice (default [] (n_Shares nonces) !!! Z.to_nat (i - 1))) ≡⟨ orderL ⟩ q i.
Proof.
  intros (Hs & r & Hr & H) Ht Hn. unfold GenerateNonces in H. rewrite Hr in H. cbn [result_bind] in H.
  destruct (DealShares _ _ _ _) as [shares| |] eqn:HD; cbn [result_bind] in H; [|done..].
  injection H as <-. split; [done|].
  destruct (DealShares_polynomial _ _ _ _ _ HD ltac:(lia) Hn Hs) as (q & Hq & Hq0 & _ & Hsh).
  exists q. split; [done|]. split; [done|]. intros i Hi. destruct (Hsh i Hi) as (sh & Hl & _ & Hc).
  cbn [n_Shares default from_option]. unfold id.
  rewrite (list_lookup_total_correct _ _ (Some sh)); [exact Hc|]. by rewrite list_lookup_fmap, Hl.
Qed.

(** The nonces of several sources: one polynomial of sums, one sum of elements. *)
Lemma nonces_for_spec threshold total secrets sources :
  Forall2 (λ secret jn, generated threshold total secret jn.2) secrets sources →
  1 ≤ threshold → 0 ≤ total < 256 →
  (∀ i, (λ n, slice (nc_PubKey n)) <$> nonces_for i sources = ScalarMultiplyBase <$> secrets)
  ∧ ∃ q, polynomial (Z.to_nat threshold) q ∧ q 0 = zsum le_val secrets
    ∧ ∀ i, 1 ≤ i ≤ total →
        zsum (λ n, le_val (slice (nc_Share n))) (nonces_for i sources) ≡⟨ orderL ⟩ q i.
Proof.
  intros H Ht Hn. induction H as [|secret jn secrets sources Hg H (IH1 & q & IH2 & IH3 & IH4)].
  - split; [done|]. exists (λ _, 0). split; [apply polynomial_const; lia|]. by split.
  - destruct (GenerateNonces_spec _ _ _ _ Hg Ht Hn) as (Hpub & p & Hp & Hp0 & Hps). split.
    + intros i. unfold nonces_for in *. cbn [fmap list_fmap nc_PubKey]. rewrite Hpub. f_equal. apply IH1.
    + exists (λ x, p x + q x). split; [by apply polynomial_add|]. split; [cbn [zsum]; lia|].
      intros i Hi. unfold nonces_for in *. cbn [fmap list_fmap zsum nc_Share].
      rewrite (Hps i Hi). f_equiv. by apply IH4.
Qed.

(** The value of the combined signature makes the verification equation hold. *)
Lemma signature_equation x r h :
  padd (pmul ((h * x + r) mod orderL) B_point) (pneg (pmul h (pmul x B_point))) = pmul r B_point.
Proof.
  pose proof curve_B as C.
  rewrite pmul_mod_order, <- ed_mul_mul, <- ed_mul_opp, <- ed_mul_add by exact C.
  f_equal. lia.
Qed.

Lemma combined_verifies x secrets payload :
  scalar x → Forall scalar secrets →
  let R := AddElements (ScalarMultiplyBase <$> secrets) in
  let h := challenge R (ScalarMultiplyBase x) payload in
  verifies (ScalarMultiplyBase x) payload
    (R ++ le_bytes 32 ((h * le_val x + zsum le_val secrets) mod orderL))%list.
Proof.
  intros Hx Hs R h. assert (R = ed_bytes (pmul (zsum le_val secrets) B_point)) as ER
    by (apply AddElements_multiples, Hs).
  assert (length R = 32%nat) as LR by (rewrite ER; apply ed_bytes_ok).
  unfold verifies. set (S := le_bytes 32 _).
  assert (length S = 32%nat) as LS by apply le_bytes_length.
  assert (take 32 (R ++ S)%list = R) as -> by (rewrite <- LR; apply take_app_length).
  assert (drop 32 (R ++ S)%list = S) as -> by (rewrite <- LR; apply drop_app_length).
  assert (le_val S = (h * le_val x + zsum le_val secrets) mod orderL) as ES by apply le_val_scalar_mod.
  split; [by rewrite length_app, LR, LS|]. split; [rewrite ES; apply Z.mod_pos_bound, orderL_small|].
  exists (pmul (le_val x) B_point). split; [apply on_curve_mul, curve_B|].
  split; [apply ScalarMultiplyBase_spec, Hx|]. fold h. rewrite ES, signature_equation. exact ER.
Qed.

(** The shards of a key: scalars on one polynomial of the expanded secret. *)
Lemma CreateCosignerEd25519Shards_spec `{KeyCodec} rnd pv threshold total keys :
  CreateCosignerEd25519Shards rnd pv threshold total = Ok keys → 1 ≤ threshold → 0 ≤ total < 256 →
  let x := ExpandSecret (take 32 (slice (pvk_PrivKey pv))) in
  scalar x ∧ length keys = Z.to_nat total
  ∧ ∃ f, polynomial (Z.to_nat threshold) f ∧ f 0 = le_val x
    ∧ ∀ i, 1 ≤ i ≤ total → ∃ key shard, keys !! Z.to_nat (i - 1) = Some key
        ∧ key = mkCosignerEd25519Key (pvk_PubKey pv) (Some shard) i
        ∧ scalar shard ∧ le_val shard ≡⟨ orderL ⟩ f i.
Proof.
  intros H1 Ht Hn x. unfold CreateCosignerEd25519Shards in H1. case_match; [done|].
  assert (scalar x) as Hx by apply ExpandSecret_scalar. fold x in H1.
  destruct (DealShares _ _ _ _) as [shares| |] eqn:HD; cbn [result_bind] in H1; [|done..].
  injection H1 as <-. split; [done|].
  destruct (DealShares_polynomial _ _ _ _ _ HD ltac:(lia) Hn Hx) as (f & Hf & Hf0 & Hl & Hsh).
  split; [by rewrite length_imap|]. exists f. split; [done|]. split; [done|].
  intros i Hi. destruct (Hsh i Hi) as (sh & Hi' & Hsc & Hc).
  exists (mkCosignerEd25519Key (pvk_PubKey pv) (Some sh) i), sh.
  split; [|by split]. rewrite list_lookup_imap, Hi'. cbn. do 2 f_equal. lia.
Qed.

Lemma shards_sign `{KeyCodec} rnd pv threshold total keys secrets sources payload :
  CreateCosignerEd25519Shards rnd pv threshold total = Ok keys → 1 ≤ threshold → 0 ≤ total < 256 →
  let x := ExpandSecret (take 32 (slice (pvk_PrivKey pv))) in
  PubKey_Bytes (pvk_PubKey pv) = Some (ScalarMultiplyBase x) →
  Forall2 (λ secret jn, generated threshold total secret jn.2) secrets sources →
  let R := AddElements (ScalarMultiplyBase <$> secrets) in
  let h := challenge R (ScalarMultiplyBase x) (slice payload) in
  ∃ g, polynomial (Z.to_nat threshold) g ∧ g 0 = h * le_val x + zsum le_val secrets
    ∧ ∀ i, 1 ≤ i ≤ total → ∃ share, signs keys threshold total sources payload R i share
        ∧ length share = 32%nat ∧ le_val share ≡⟨ orderL ⟩ g i.
Proof.
  intros HK Ht Hn x Hpub Hgen R h.
  destruct (CreateCosignerEd25519Shards_spec _ _ _ _ _ HK Ht Hn) as (_ & _ & f & Hf & Hf0 & Hsh).
  destruct (nonces_for_spec _ _ _ _ Hgen Ht Hn) as (HP & q & Hq & Hq0 & Hqs).
  exists (λ z, h * f z + q z). split; [by apply polynomial_add; [apply polynomial_scale|]|].
  split; [by rewrite Hf0, Hq0|]. intros i Hi. destruct (Hsh i Hi) as (key & shard & Hk & -> & Hsc & Hc).
  eexists. split; [|split; [apply le_bytes_length|]].
  - eexists. split; [exact Hk|]. split; [done|]. rewrite (soft_Sign_spec _ _ _ shard) by done.
    unfold signer_of. cbn [sof_pubKey ck_PubKey]. rewrite (HP i), Hpub. reflexivity.
  - rewrite le_val_scalar_mod, cong_mod, Hc, (Hqs i Hi). reflexivity.
Qed.

(** ** Properties *)

(** C4: a threshold signature is an Ed25519 signature.  Let the shards of a validator key be
    dealt by [CreateCosignerEd25519Shards], and let every source of nonces have run
    [GenerateNonces].  Then any set of distinct shards as large as the threshold can sign
    any payload: each partial signature succeeds, [CombineSignatures] of them succeeds, and the
    result satisfies Ed25519's verification equation under the validator's public key, for
    clusters of up to 12 cosigners. *)
Theorem threshold_signature_valid `{KeyCodec} rnd pv threshold total keys secrets sources ids payload s :
  CreateCosignerEd25519Shards rnd pv threshold total = Ok keys →
  PubKey_Bytes (pvk_PubKey pv)
    = Some (ScalarMultiplyBase (ExpandSecret (take 32 (slice (pvk_PrivKey pv))))) →
  1 ≤ threshold ≤ total → total ≤ max_total → shard_set total ids → threshold ≤ Z.of_nat (length ids) →
  Forall2 (λ secret jn, generated threshold total secret jn.2) secrets sources →
  sof_total s = total →
  ∃ sigs sig,
    Forall2 (λ i sig, ∃ key, keys !! Z.to_nat (i - 1) = Some key ∧ ck_ID key = i
               ∧ ts_Sign (signer_of threshold total key) (nonces_for i sources) payload = Ok sig) ids sigs
    ∧ ts_CombineSignatures s (zip_with mkPartialSignature ids sigs) = Ok (Some sig)
    ∧ verifies (slice (PubKey_Bytes (pvk_PubKey pv))) (slice payload) sig.
Proof.
  intros HK Hpub Ht Hm Hids Hlen Hgen Hs. unfold max_total in Hm.
  destruct (shards_sign _ _ _ _ _ _ _ payload HK ltac:(lia) ltac:(lia) Hpub Hgen) as (g & Hg & Hg0 & Hsign).
  rewrite Hpub. set (x := ExpandSecret _) in *. set (R := AddElements _) in *.
  set (h := challenge _ _ _) in *.
  assert (∃ shares, Forall2 (λ i share, signs keys threshold total sources payload R i share
      ∧ length share = 32%nat ∧ le_val share ≡⟨ orderL ⟩ g i) ids shares) as [shares Hsh].
  { destruct Hids as [_ Hr]. clear - Hsign Hr. induction Hr as [|i ids Hi _ [shares IH]]; [by exists []|].
    destruct (Hsign i Hi) as [share H1]. exists (share :: shares). by constructor. }
  assert (Forall scalar secrets) as Hsecrets.
  { clear - Hgen. induction Hgen as [|a b l k [Ha _] _ IH]; constructor; assumption. }
  pose proof (combined_verifies x secrets (slice payload) (ExpandSecret_scalar _) Hsecrets) as HV.
  assert (length R = 32%nat) as LR by (subst R; rewrite AddElements_multiples by exact Hsecrets; apply ed_bytes_ok).
  exists ((λ share, Some (R ++ share)%list) <$> shares). eexists. split; [|split; [|exact HV]].
  - clear - Hsh. induction Hsh as [|i share ids shares [(key & H1) _] _ IH]; constructor; [by exists key|done].
  - cbn [ts_CombineSignatures soft_signer]. unfold soft_CombineSignatures.
    rewrite zip_with_fmap_r, collect_signatures_spec;
      [|exact LR|by eapply Forall2_length| |by left].
    2: { clear - Hsh. induction Hsh as [|i share ids shares (_ & H1 & _) _ IH]; constructor; [|done].
         intros ->. discriminate H1. }
    cbn [result_bind]. rewrite Hs, (CombineShares_spec total ids shares g); [|unfold max_total; lia|exact Hids| |].
    + cbn [result_bind]. rewrite Hg0. destruct ids; [cbn in Hlen; lia|]. reflexivity.
    + destruct Hg as (f & Hf & Hx). exists f. split; [lia|exact Hx].
    + clear - Hsh. induction Hsh as [|i share ids shares (_ & _ & H1) _ IH]; by constructor.
Qed.

Lemma threshold_signature_valid_witness :
  ∃ keys nonces sig,
    @CreateCosignerEd25519Shards toy_keys (λ _, Some 5) toy_pv 2 3 = Ok keys
    ∧ GenerateNonces toy_rand 2 3 = Ok nonces
    ∧ verifies (slice (PubKey_Bytes (pvk_PubKey toy_pv))) [1; 2; 3] sig.
Proof.
  destruct (DealShares_total (E:=goerror) (λ _, Some 5) (ExpandSecret (replicate 32 1)) 2 3) as [shares HD];
    [by eexists|done|].
  destruct (DealShares_total (E:=goerror) (λ _, Some 3) (7 :: replicate 31 0) 2 3) as [nshares HN];
    [by eexists|done|].
  set (nonces := mkNonces (Some (ScalarMultiplyBase (7 :: replicate 31 0))) (Some (Some <$> nshares))).
  assert (GenerateNonces toy_rand 2 3 = Ok nonces) as HG.
  { unfold GenerateNonces, toy_rand. cbn [rand_Read rand_Int result_bind]. rewrite HN. reflexivity. }
  eassert (@CreateCosignerEd25519Shards toy_keys (λ _, Some 5) toy_pv 2 3 = Ok _) as HK.
  { unfold CreateCosignerEd25519Shards. cbn [pvk_PrivKey toy_pv].
    change (blen (Some (replicate 64 1)) <? 32) with false. cbv iota.
    change (take 32 (slice (Some (replicate 64 1)))) with (replicate 32 1). rewrite HD. reflexivity. }
  destruct (@threshold_signature_valid toy_keys (λ _, Some 5) toy_pv 2 3 _
    [7 :: replicate 31 0] [(1, nonces)] [3; 1] (Some [1; 2; 3]) (mkThresholdSignerSoft None None 2 3) HK)
    as (sigs & sig & _ & _ & HV).
  - reflexivity.
  - lia.
  - vm_compute. congruence.
  - split; [|repeat constructor; lia]. apply (bool_decide_unpack _). vm_compute. exact I.
  - reflexivity.
  - constructor; [|constructor]. split; [|exists toy_rand; split; [reflexivity|exact HG]].
    split; [repeat constructor; vm_compute; congruence|reflexivity].
  - reflexivity.
  - eexists _, _, sig. split; [exact HK|]. split; [exact HG|]. exact HV.
Defined.

(** Key files round trip: the key that was written to a shard file is the key that is
    loaded from it, and the signer made for it has its shard, its public key and the
    configuration's threshold and number of shards; a file of another shard is refused. *)
Theorem key_file_roundtrip `{KL : KeyCodecLaws} key fs fs' dirs config tm id chainID :
  let file := KeyFilePathCosigner config chainID in
  file ∉ dirs → cfg_ThresholdModeConfig (rc_Config config) = Some tm →
  WriteCosignerEd25519ShardFile key file fs = Ok fs' →
  LoadCosignerEd25519Key fs' file = Ok key
  ∧ if ck_ID key =? id
    then NewThresholdSignerSoft dirs config id chainID fs'
         = Ok (signer_of (u8 (tm_Threshold tm)) (u8 (Z.of_nat (length (tm_Cosigners tm)))) key)
    else ∃ e, NewThresholdSignerSoft dirs config id chainID fs' = Err e.
Proof.
  intros file Hd Htm Hw. pose proof (key_file_spec key file fs fs' Hw) as HL. split; [exact HL|].
  assert (KeyFileExistsCosigner dirs fs' config chainID = Ok file) as HF.
  { unfold KeyFileExistsCosigner. fold file. unfold fileExists. rewrite bool_decide_false by exact Hd.
    unfold WriteCosignerEd25519ShardFile, os_WriteFile in Hw.
    destruct (key_MarshalJSON key); cbn [result_bind] in Hw; [|done..]. case_match; [done|].
    injection Hw as <-. cbn [fs_files]. by rewrite lookup_insert_eq. }
  unfold NewThresholdSignerSoft. rewrite HF. cbn [result_bind]. rewrite HL. cbn [map_err result_bind].
  destruct (ck_ID key =? id); cbn [negb]; [by rewrite Htm|by eexists].
Qed.

Lemma key_file_roundtrip_witness :
  ∃ fs', WriteCosignerEd25519ShardFile toy_key (KeyFilePathCosigner toy_config "chain") empty_fs = Ok fs'
    ∧ NewThresholdSignerSoft (KC := toy_keys) [] toy_config 1 "chain" fs' = Ok (signer_of 2 3 toy_key).
Proof.
  eexists. split; [reflexivity|].
  refine (proj2 (key_file_roundtrip (KL := toy_keys_laws) toy_key empty_fs _ [] toy_config toy_tm 1 "chain" _ _ _));
    [apply not_elem_of_nil|reflexivity|reflexivity].
Defined.

(** ** Combining what peers send *)

Lemma collect_signatures_Ok e signatures :
  match collect_signatures e signatures with
  | Ok (ids, shares, e') =>
      ids = ps_ID <$> signatures ∧ shares = (λ p, drop 32 (slice (ps_Signature p))) <$> signatures
      ∧ Forall (λ p, 32 < blen (ps_Signature p) ∧ e' = Some (take 32 (slice (ps_Signature p)))) signatures
      ∧ (is_Some e → e' = e)
  | Err _ => True
  | Panics _ => False
  end.
Proof.
  revert e. induction signatures as [|p signatures IH]; intros e; [by repeat split|].
  cbn [collect_signatures]. destruct (Z.leb_spec (blen (ps_Signature p)) 32) as [|Hp]; [done|].
  assert (∀ R, e = None ∨ e = Some R → R = take 32 (slice (ps_Signature p)) →
    match (try rest <- collect_signatures (Some R) signatures;
           let '(ids, shares, e') := rest in
           Ok (ps_ID p :: ids, drop 32 (slice (ps_Signature p)) :: shares, e')) with
    | Ok (ids, shares, e') =>
        ids = ps_ID <$> p :: signatures ∧ shares = (λ p, drop 32 (slice (ps_Signature p))) <$> p :: signatures
        ∧ Forall (λ p, 32 < blen (ps_Signature p) ∧ e' = Some (take 32 (slice (ps_Signature p)))) (p :: signatures)
        ∧ (is_Some e → e' = e)
    | Err _ => True
    | Panics _ => False
    end) as Hgo.
  { intros R He ->. specialize (IH (Some (take 32 (slice (ps_Signature p))))).
    destruct (collect_signatures _ signatures) as [[[ids shares] e']| |]; cbn [result_bind]; [|done..].
    destruct IH as (-> & -> & HF & Hs). rewrite Hs by by eexists. split; [done|]. split; [done|].
    split; [constructor; [done|]|].
    - rewrite Hs in HF by by eexists. exact HF.
    - destruct He as [-> | ->]; [by intros [? [=]]|done]. }
  destruct e as [R|].
  - case_bool_decide as HR; cbn [negb]; [|done]. apply Hgo; [by right|done].
  - apply Hgo; [by left|done].
Qed.

Lemma combine_loop_Ok delta all ids (shares : list (list Z)) acc :
  length ids = length shares → ∃ r, combine_loop (E:=goerror) delta all ids shares acc = Ok r.
Proof.
  revert shares acc. induction ids as [|i ids IH]; intros [|s shares] acc Hl; try discriminate Hl; [by eexists|].
  cbn [combine_loop]. apply IH. by injection Hl.
Qed.

(** Combining never crashes on what peers send, and never mixes nonces: the result is an
    error unless every partial signature is longer than 32 bytes and starts with the same
    nonce public key, which then is the first half of the combined signature. *)
Theorem combine_checks s signatures :
  match soft_CombineSignatures s signatures with
  | Ok sig => ∃ R S, sig = Some (R ++ S)%list ∧ length S = 32%nat ∧ (signatures ≠ [] → length R = 32%nat)
      ∧ Forall (λ p, 32 < blen (ps_Signature p) ∧ take 32 (slice (ps_Signature p)) = R) signatures
  | Err _ => signatures ≠ []
  | Panics _ => False
  end.
Proof.
  unfold soft_CombineSignatures. pose proof (collect_signatures_Ok None signatures) as H.
  destruct signatures as [|p signatures].
  { cbn [collect_signatures result_bind]. unfold CombineShares. cbn [combine_loop result_bind default from_option].
    eexists [], _. split; [done|]. split; [|by repeat split]. rewrite scalar_out_mod. apply le_bytes_length. }
  destruct (collect_signatures None (p :: signatures)) as [[[ids shares] e']| |]; cbn [result_bind]; [|done..].
  destruct H as (-> & -> & HF & _). unfold CombineShares.
  edestruct combine_loop_Ok as [r Hr]; [|rewrite Hr; cbn [result_bind]].
  { by rewrite !length_fmap. }
  pose proof HF as [[Hp ->] _]%list.Forall_cons. set (R := take 32 (slice (ps_Signature p))) in *.
  eexists R, _. split; [done|]. split; [rewrite scalar_out_mod; apply le_bytes_length|]. split.
  - intros _. subst R. rewrite length_take. unfold blen in Hp. lia.
  - eapply list.Forall_impl; [exact HF|]. intros q [Hq [= Hq']]. by split.
Qed.
