(* ===== verification/NonceCache.v ===== *)
(** * The leader's nonce cache (signer/cosigner_nonce_cache.go)

    Nonces fetched ahead of time from the cosigners: the cache and its operations, the
    moving average that sizes it, the reconciliation that fills it.  A cosigner is known
    to the cache by its ID.  The operations of [NonceCache] run under its mutex and
    are the steps of [cnc_step]; float64 is IEEE binary64, by the standard library's
    executable specification of floating point. *)

From S2P Require Import Prelude Hrs Errors Comet SignState Cosigner.
From stdpp Require Import sorting base gmap list strings numbers relations.
From Stdlib Require Import ZArith Lia SpecFloat.

Open Scope string_scope.
Open Scope list_scope.
Open Scope Z_scope.

(** ** Definitions *)

(** *** float64 *)

Definition float64 : Type := spec_float.

Definition f64_of_int (z : Z) : float64 := binary_normalize 53 1024 z 0 false.
Definition f64_add (a b : float64) : float64 := SFadd 53 1024 a b.
Definition f64_mul (a b : float64) : float64 := SFmul 53 1024 a b.
Definition f64_div (a b : float64) : float64 := SFdiv 53 1024 a b.

Definition f64_zero : float64 := S754_zero false.

(** [int(f)] truncates; the result for other values than those of an int64 depends on
    the machine. *)
Definition f64_to_int (machine : float64 → Z) (f : float64) : Z :=
  match f with
  | S754_zero _ => 0
  | S754_finite s m e =>
      let t := if 0 <=? e then Z.pos m * 2 ^ e else Z.pos m / 2 ^ (- e) in
      let t := if s then - t else t in
      if (- 2 ^ 63 <=? t) && (t <? 2 ^ 63) then t else machine f
  | _ => machine f
  end.

(** Durations are int64 nanoseconds. *)
Definition Second : Z := 1000000000.
Definition Minute : Z := 60 * Second.

Definition Duration_Seconds (d : Z) : float64 :=
  f64_add (f64_of_int (Z.quot d Second)) (f64_div (f64_of_int (Z.rem d Second)) (f64_of_int Second)).

Definition Duration_Minutes (d : Z) : float64 :=
  f64_add (f64_of_int (Z.quot d Minute)) (f64_div (f64_of_int (Z.rem d Minute)) (f64_of_int Minute)).

(** *** The moving average *)

Definition defaultGetNoncesInterval : Z := 3 * Second.
Definition defaultGetNoncesTimeout : Z := 4 * Second.
Definition defaultNonceExpiration : Z := 10 * Second.
Definition nonceOverallocation : float64 := binary_normalize 53 1024 3 (-1) false.

Record movingAverageItem := mkMovingAverageItem {
  timeSinceLastReconcile : Z;
  noncesPerMinute : float64
}.

Record movingAverage := mkMovingAverage {
  ma_items : list movingAverageItem;
  ma_period : Z
}.

Definition newMovingAverage (period : Z) : movingAverage := mkMovingAverage [] period.

(** The loop of [add]: how many of the items, from the newest on, are kept. *)
Fixpoint keep_items (period duration : Z) (items : list movingAverageItem) : list movingAverageItem :=
  match items with
  | [] => []
  | e :: items' =>
      let duration := i64 (duration + timeSinceLastReconcile e) in
      if period <=? duration then [e] else e :: keep_items period duration items'
  end.

Definition add (m : movingAverage) (elapsed : Z) (rate : float64) : movingAverage :=
  mkMovingAverage (mkMovingAverageItem elapsed rate :: keep_items (ma_period m) elapsed (ma_items m))
    (ma_period m).

Definition average (m : movingAverage) : float64 :=
  let sums := fold_left (λ acc e,
    let d := f64_of_int (timeSinceLastReconcile e) in
    (f64_add acc.1 (f64_mul (noncesPerMinute e) d), f64_add acc.2 d)) (ma_items m) (f64_zero, f64_zero) in
  f64_div sums.1 sums.2.

(** *** The cache *)

Record CosignerNoncesRel := mkCosignerNoncesRel {
  rel_Cosigner : Z;
  rel_Nonces : list CosignerNonce
}.

Record CachedNonceSingle := mkCachedNonceSingle {
  cns_Cosigner : Z;
  cns_Nonces : list CosignerUUIDNonces
}.

Record CachedNonce := mkCachedNonce {
  cch_UUID : UUID;
  cch_Expiration : Z;
  cch_Nonces : list CosignerNoncesRel
}.

Definition NonceCache : Type := list CachedNonce.

Definition Size (nc : NonceCache) : Z := Z.of_nat (length nc).

Definition Add (cn : CachedNonce) (nc : NonceCache) : NonceCache := nc ++ [cn].

(** [append(l[:index], l[index+1:]...)], for an index in range *)
Definition delete_at {A} (index : nat) (l : list A) : list A := take index l ++ drop (S index) l.

Definition Delete (index : nat) (nc : NonceCache) : NonceCache := delete_at index nc.

(** The search of [PruneNonces]; the clock is read for every entry. *)
Fixpoint first_non_expired (now : nat → Z) (i : nat) (nc : NonceCache) : option nat :=
  match nc with
  | [] => None
  | cn :: nc' => if now i <? cch_Expiration cn then Some i else first_non_expired now (S i) nc'
  end.

Definition PruneNonces (now : nat → Z) (nc : NonceCache) : NonceCache * Z :=
  match first_non_expired now 0 nc with
  | None => ([], Size nc)
  | Some nonExpiredIndex => (drop nonExpiredIndex nc, Z.of_nat nonExpiredIndex)
  end.

(** *** [CosignerNonceCache] *)

(** What does not change after [NewCosignerNonceCache]. *)
Record CacheConfig := mkCacheConfig {
  cc_cosigners : list Z;
  cc_getNoncesInterval : Z;
  cc_getNoncesTimeout : Z;
  cc_nonceExpiration : Z;
  cc_threshold : Z
}.

(** [cnc_empty] is the number of events waiting in the channel [empty]. *)
Record CosignerNonceCache := mkCosignerNonceCache {
  cnc_lastReconcileNonces : Z;
  cnc_lastReconcileTime : Z;
  cnc_cache : NonceCache;
  cnc_movingAverage : movingAverage;
  cnc_empty : nat
}.

Definition NewCosignerNonceCache (cc : CacheConfig) (zeroTime : Z) : CosignerNonceCache :=
  mkCosignerNonceCache 0 zeroTime [] (newMovingAverage (i64 (4 * cc_getNoncesInterval cc))) 0.

Definition set_cache (nc : NonceCache) (c : CosignerNonceCache) : CosignerNonceCache :=
  mkCosignerNonceCache (cnc_lastReconcileNonces c) (cnc_lastReconcileTime c) nc (cnc_movingAverage c)
    (cnc_empty c).

Definition target (machine : float64 → Z) (cc : CacheConfig) (rate : float64) : Z :=
  let t := f64_to_int machine
    (f64_mul (f64_div rate (f64_of_int 60))
       (f64_add (f64_mul (Duration_Seconds (cc_getNoncesInterval cc)) nonceOverallocation)
          (Duration_Seconds (cc_getNoncesTimeout cc)))) in
  if t <=? 0 then 1 else t.

(** One entry of [LoadN]: the nonces for the [i]-th UUID of the cosigners that answered,
    and their number, a uint8. *)
Fixpoint load_entry (i : nat) (nonces : list (option CachedNonceSingle)) (num : Z)
    : result (list CosignerNoncesRel * Z) goerror :=
  match nonces with
  | [] => Ok ([], num)
  | None :: nonces' => load_entry i nonces' num
  | Some n :: nonces' =>
      match cns_Nonces n !! i with
      | None => Panics index_out_of_range
      | Some un =>
          try rest <- load_entry i nonces' (u8 (num + 1));
          Ok (mkCosignerNoncesRel (cns_Cosigner n) (un_Nonces un) :: rest.1, rest.2)
      end
  end.

(** The loop of [LoadN] over the UUIDs; [i] counts them. *)
Fixpoint load_entries (threshold expiration : Z) (nonces : list (option CachedNonceSingle)) (i : nat)
    (uuids : list UUID) (nc : NonceCache) : result NonceCache goerror :=
  match uuids with
  | [] => Ok nc
  | u :: uuids' =>
      try e <- load_entry i nonces 0;
      load_entries threshold expiration nonces (S i) uuids'
        (if threshold <=? e.2 then Add (mkCachedNonce u expiration e.1) nc else nc)
  end.

(** What the cosigners answered to [GetNonces], in their order; an error is [None]. *)
Definition answers (cosigners : list Z) (responses : list (option (list CosignerUUIDNonces)))
    : list (option CachedNonceSingle) :=
  zip_with (λ p r, mkCachedNonceSingle p <$> r) cosigners responses.

(** [LoadN]: [uuids] are the [n] fresh UUIDs, [now] the clock. *)
Definition LoadN (cc : CacheConfig) (now : Z) (uuids : list UUID)
    (responses : list (option (list CosignerUUIDNonces))) (nc : NonceCache) : result NonceCache goerror :=
  if (length uuids =? 0)%nat then Ok nc
  else load_entries (cc_threshold cc) (i64 (now + cc_nonceExpiration cc))
         (answers (cc_cosigners cc) responses) 0 uuids nc.

(** What one run of [reconcile] reads from its surroundings. *)
Record ReconcileEnv := mkReconcileEnv {
  re_prune_now : nat → Z;
  re_isLeader : bool;
  re_now : Z;
  re_load_now : Z;
  re_end_now : Z;
  re_uuids : Z → list UUID;
  re_responses : list UUID → list (option (list CosignerUUIDNonces))
}.

(** [reconcile].  The deferred function runs after [LoadN] and sees the last value of
    [additional]. *)
Definition reconcile (machine : float64 → Z) (cc : CacheConfig) (env : ReconcileEnv) (c : CosignerNonceCache)
    : result CosignerNonceCache goerror :=
  let '(nc, pruned) := PruneNonces (re_prune_now env) (cnc_cache c) in
  let c := set_cache nc c in
  if negb (re_isLeader env) then Ok c
  else
    let remainingNonces := Size (cnc_cache c) in
    let elapsed := i64 (re_now env - cnc_lastReconcileTime c) in
    let lastReconcileNonces := cnc_lastReconcileNonces c in
    let noncesPerMin := f64_div
      (f64_of_int (i64 (i64 (i64 lastReconcileNonces - remainingNonces) - pruned)))
      (Duration_Minutes elapsed) in
    let noncesPerMin := if SFltb noncesPerMin f64_zero then f64_zero else noncesPerMin in
    let ma := add (cnc_movingAverage c) elapsed noncesPerMin in
    let t := target machine cc (average ma) in
    let additional := i64 (t - remainingNonces) in
    let finish additional nc :=
      mkCosignerNonceCache (uint 64 (remainingNonces + additional)) (re_end_now env) nc ma (cnc_empty c) in
    if additional <=? 0 then Ok (finish 0 (cnc_cache c))
    else
      let uuids := re_uuids env additional in
      try nc <- LoadN cc (re_load_now env) uuids (re_responses env uuids) (cnc_cache c);
      Ok (finish additional nc).

(** The nonces of one cosigner in an entry. *)
Fixpoint find_nonces (id : Z) (rels : list CosignerNoncesRel) : option (list CosignerNonce) :=
  match rels with
  | [] => None
  | n :: rels' => if rel_Cosigner n =? id then Some (rel_Nonces n) else find_nonces id rels'
  end.

(** The loop of [GetNonces] over the peers, for one entry. *)
Fixpoint peers_nonces (peers : list Z) (rels : list CosignerNoncesRel) (nonces : list CosignerNonce)
    : option (list CosignerNonce) :=
  match peers with
  | [] => Some nonces
  | p :: peers' =>
      match find_nonces p rels with
      | None => None
      | Some ns => peers_nonces peers' rels (nonces ++ ns)
      end
  end.

(** The loop over the entries: the first that has nonces of every peer. *)
Fixpoint find_entry (peers : list Z) (i : nat) (nc : NonceCache) : option (nat * CosignerUUIDNonces) :=
  match nc with
  | [] => None
  | cn :: nc' =>
      match peers_nonces peers (cch_Nonces cn) [] with
      | Some nonces => Some (i, mkCosignerUUIDNonces (cch_UUID cn) nonces)
      | None => find_entry peers (S i) nc'
      end
  end.

(** [%+v] of a slice of ints *)
Definition fmt_ints (l : list Z) : string := "[" +:+ String.concat " " (fmt_d <$> l) +:+ "]".

Definition GetNonces (fastestPeers : list Z) (c : CosignerNonceCache)
    : CosignerNonceCache * result CosignerUUIDNonces goerror :=
  match find_entry fastestPeers 0 (cnc_cache c) with
  | Some (i, nonces) =>
      let nc := Delete i (cnc_cache c) in
      let empty := if (length nc =? 0)%nat && (cnc_empty c =? 0)%nat then S (cnc_empty c) else cnc_empty c in
      (mkCosignerNonceCache (cnc_lastReconcileNonces c) (cnc_lastReconcileTime c) nc (cnc_movingAverage c) empty,
       Ok nonces)
  | None =>
      (mkCosignerNonceCache (uint 64 (cnc_lastReconcileNonces c + 1)) (cnc_lastReconcileTime c) (cnc_cache c)
         (cnc_movingAverage c) (cnc_empty c),
       Err (ErrorString ("no nonces found involving cosigners " +:+ fmt_ints fastestPeers)))
  end.

(** The index at which a cosigner's nonces are in an entry. *)
Fixpoint find_cosigner (id : Z) (j : nat) (rels : list CosignerNoncesRel) : option nat :=
  match rels with
  | [] => None
  | n :: rels' => if rel_Cosigner n =? id then Some j else find_cosigner id (S j) rels'
  end.

(** The loop of [ClearNonces]: [i] stays where it is after a deletion. *)
Fixpoint clear_loop (fuel : nat) (threshold id : Z) (i : nat) (nc : NonceCache) : option NonceCache :=
  match fuel with
  | O => None
  | S fuel' =>
      match nc !! i with
      | None => Some nc
      | Some cn =>
          match find_cosigner id 0 (cch_Nonces cn) with
          | None => clear_loop fuel' threshold id (S i) nc
          | Some deleteID =>
              if Z.of_nat (length (cch_Nonces cn)) - 1 <? threshold
              then clear_loop fuel' threshold id i (Delete i nc)
              else clear_loop fuel' threshold id (S i)
                     (<[i := mkCachedNonce (cch_UUID cn) (cch_Expiration cn)
                               (delete_at deleteID (cch_Nonces cn))]> nc)
          end
      end
  end.

Definition ClearNonces (cc : CacheConfig) (id : Z) (c : CosignerNonceCache) : option CosignerNonceCache :=
  nc ← clear_loop (S (length (cnc_cache c))) (cc_threshold cc) id 0 (cnc_cache c);
  Some (set_cache nc c).

(** [Start]: its first two lines, and the receive from [empty] that drains the channel. *)
Definition start (now : Z) (c : CosignerNonceCache) : CosignerNonceCache :=
  mkCosignerNonceCache (uint 64 (Size (cnc_cache c))) now (cnc_cache c) (cnc_movingAverage c) (cnc_empty c).

Definition drain (c : CosignerNonceCache) : CosignerNonceCache :=
  mkCosignerNonceCache (cnc_lastReconcileNonces c) (cnc_lastReconcileTime c) (cnc_cache c)
    (cnc_movingAverage c) 0.

(** *** Specifications *)

(** The nonces used per minute since the last reconciliation: those it left, without the ones that are still there or that
    expired, and never less than none. *)
Definition nonces_per_min (env : ReconcileEnv) (c : CosignerNonceCache) : float64 :=
  let '(nc, pruned) := PruneNonces (re_prune_now env) (cnc_cache c) in
  let used := i64 (i64 (i64 (cnc_lastReconcileNonces c) - Size nc) - pruned) in
  let rate := f64_div (f64_of_int used) (Duration_Minutes (i64 (re_now env - cnc_lastReconcileTime c))) in
  if SFltb rate f64_zero then f64_zero else rate.

(** What [ClearNonces] does to one entry. *)
Definition clear_entry (threshold id : Z) (cn : CachedNonce) : option CachedNonce :=
  match find_cosigner id 0 (cch_Nonces cn) with
  | None => Some cn
  | Some j =>
      if Z.of_nat (length (cch_Nonces cn)) - 1 <? threshold then None
      else Some (mkCachedNonce (cch_UUID cn) (cch_Expiration cn) (delete_at j (cch_Nonces cn)))
  end.

(** The part of an entry that comes from the [i]-th nonces of every answer. *)
Definition entry_rels (i : nat) (nonces : list CachedNonceSingle) : list CosignerNoncesRel :=
  (λ n, mkCosignerNoncesRel (cns_Cosigner n) (from_option un_Nonces [] (cns_Nonces n !! i))) <$> nonces.

(** The entries of [LoadN]. *)
Definition loaded (cc : CacheConfig) (now : Z) (uuids : list UUID) (nonces : list CachedNonceSingle) : NonceCache :=
  if cc_threshold cc <=? Z.of_nat (length nonces)
  then imap (λ i u, mkCachedNonce u (i64 (now + cc_nonceExpiration cc)) (entry_rels i nonces)) uuids
  else [].

(** An entry is usable: enough cosigners, each once. *)
Definition usable (threshold : Z) (cn : CachedNonce) : Prop :=
  threshold ≤ Z.of_nat (length (cch_Nonces cn)) ∧ NoDup (rel_Cosigner <$> cch_Nonces cn).

(** The state of the cache and the UUIDs it has handed out. *)
Record world := mkWorld {
  w_cache : CosignerNonceCache;
  w_given : list UUID
}.

(** The operations under the mutex, and what [Start] and [reconcile] do to the other fields,
    in any order.  [LoadN] adds its entries one by one, each with a UUID that was never
    used, built from the answers of the cosigners, when enough of them answered. *)
Inductive cnc_step (cc : CacheConfig) : world → world → Prop :=
| StepAdd w u expiration responses i rels num :
    u ∉ w_given w → u ∉ (cch_UUID <$> cnc_cache (w_cache w)) →
    load_entry i (answers (cc_cosigners cc) responses) 0 = Ok (rels, num) → cc_threshold cc ≤ num →
    cnc_step cc w (mkWorld (set_cache (Add (mkCachedNonce u expiration rels) (cnc_cache (w_cache w))) (w_cache w))
                     (w_given w))
| StepReconciled w nonces time ma :
    cnc_step cc w (mkWorld (mkCosignerNonceCache nonces time (cnc_cache (w_cache w)) ma (cnc_empty (w_cache w)))
                     (w_given w))
| StepPrune w now :
    cnc_step cc w (mkWorld (set_cache (PruneNonces now (cnc_cache (w_cache w))).1 (w_cache w)) (w_given w))
| StepGet w peers c nonces :
    GetNonces peers (w_cache w) = (c, Ok nonces) → cnc_step cc w (mkWorld c (un_UUID nonces :: w_given w))
| StepMiss w peers c e :
    GetNonces peers (w_cache w) = (c, Err e) → cnc_step cc w (mkWorld c (w_given w))
| StepClear w id c :
    ClearNonces cc id (w_cache w) = Some c → cnc_step cc w (mkWorld c (w_given w))
| StepDrain w : cnc_step cc w (mkWorld (drain (w_cache w)) (w_given w)).

(** The cosigners are different, and no more than a uint8 counts. *)
Definition config_ok (cc : CacheConfig) : Prop :=
  NoDup (cc_cosigners cc) ∧ (length (cc_cosigners cc) < 256)%nat.

Definition cache_inv (cc : CacheConfig) (w : world) : Prop :=
  NoDup (w_given w ++ (cch_UUID <$> cnc_cache (w_cache w)))
  ∧ Forall (usable (cc_threshold cc)) (cnc_cache (w_cache w))
  ∧ (cnc_empty (w_cache w) ≤ 1)%nat.

(** *** Examples *)

Definition example_config : CacheConfig :=
  mkCacheConfig [1; 2; 3] defaultGetNoncesInterval defaultGetNoncesTimeout defaultNonceExpiration 2.

Definition example_nonces (id : Z) : list CosignerNonce :=
  [mkCosignerNonce id 1 (Some [id]) (Some [id]) (Some [])].

Definition example_answer (id : Z) (uuids : list UUID) : list CosignerUUIDNonces :=
  (λ u, mkCosignerUUIDNonces u (example_nonces id)) <$> uuids.

(** Cosigner 3 does not answer. *)
Definition example_env (t0 : Z) : ReconcileEnv :=
  mkReconcileEnv (λ _, t0) true t0 t0 t0 (λ n, (λ i, [Z.of_nat i]) <$> seq 0 (Z.to_nat n))
    (λ us, [Some (example_answer 1 us); Some (example_answer 2 us); None]).

Definition example_cache : CosignerNonceCache :=
  mkCosignerNonceCache 1 0 [mkCachedNonce [7] 5 (entry_rels 0 [mkCachedNonceSingle 1 (example_answer 1 [[7]]);
    mkCachedNonceSingle 2 (example_answer 2 [[7]])]); mkCachedNonce [8] 9 (entry_rels 0
    [mkCachedNonceSingle 1 (example_answer 1 [[8]]); mkCachedNonceSingle 2 (example_answer 2 [[8]]);
     mkCachedNonceSingle 3 (example_answer 3 [[8]])])] (newMovingAverage (12 * Second)) 0.

(** One load for the UUID 7, then a request of the cosigners 2 and 1. *)
Definition example_run : world :=
  mkWorld (GetNonces [2; 1] (set_cache (loaded example_config 0 [[7]]
             [mkCachedNonceSingle 1 (example_answer 1 [[7]]); mkCachedNonceSingle 2 (example_answer 2 [[7]])])
             (NewCosignerNonceCache example_config 0))).1 [[7]].

Lemma example_config_ok : config_ok example_config.
Proof. split; [by apply (bool_decide_unpack _)|cbn; lia]. Qed.

(** ** The loop of [ClearNonces] *)

Lemma clear_loop_spec threshold id fuel i nc :
  (i ≤ length nc)%nat → (length nc - i < fuel)%nat →
  clear_loop fuel threshold id i nc = Some (take i nc ++ omap (clear_entry threshold id) (drop i nc)).
Proof.
  revert i nc. induction fuel as [|fuel IH]; intros i nc Hi Hf; [lia|]. cbn [clear_loop].
  unfold NonceCache in *.
  destruct (nc !! i) as [cn|] eqn:E.
  - pose proof (lookup_lt_Some _ _ _ E) as Hlt. rewrite (drop_S nc cn i E). cbn [omap list_omap].
    assert (length (take i nc) = i) as Lt by (rewrite length_take; lia).
    unfold clear_entry at 1. destruct (find_cosigner id 0 (cch_Nonces cn)) as [j|].
    + case_match.
      * unfold Delete, delete_at. rewrite IH; rewrite ?length_app, ?Lt, ?length_drop; [|lia..].
        by rewrite take_app_length', drop_app_length' by done.
      * rewrite IH; rewrite ?length_insert; [|lia..].
        rewrite (take_S_r _ _ _ (list_lookup_insert_eq _ _ _ Hlt)), take_insert_ge by lia.
        by rewrite drop_insert_lt, <- app_assoc by lia.
    + rewrite IH by lia. by rewrite (take_S_r _ _ _ E), <- app_assoc.
  - apply lookup_ge_None in E. rewrite take_ge, drop_ge by lia. by rewrite app_nil_r.
Qed.

Lemma ClearNonces_spec cc id c :
  ClearNonces cc id c = Some (set_cache (omap (clear_entry (cc_threshold cc) id) (cnc_cache c)) c).
Proof. unfold ClearNonces. rewrite clear_loop_spec by lia. done. Qed.

Lemma delete_at_sublist {A} i (l : list A) : delete_at i l `sublist_of` l.
Proof.
  unfold delete_at. rewrite <- (take_drop i l) at 3. apply sublist_app; [done|].
  replace (drop (S i) l) with (drop 1 (drop i l)) by (rewrite drop_drop; f_equal; lia).
  apply sublist_drop.
Qed.

Lemma delete_at_length {A} i (l : list A) x :
  l !! i = Some x → length (delete_at i l) = (length l - 1)%nat.
Proof.
  intros H%lookup_lt_Some. unfold delete_at. rewrite length_app, length_take, length_drop. lia.
Qed.

Lemma find_cosigner_spec id j rels :
  match find_cosigner id j rels with
  | None => id ∉ (rel_Cosigner <$> rels)
  | Some k => ∃ n, (j ≤ k)%nat ∧ rels !! (k - j)%nat = Some n ∧ rel_Cosigner n = id
  end.
Proof.
  revert j. induction rels as [|n rels IH]; intros j; [apply not_elem_of_nil|]. cbn [find_cosigner].
  destruct (Z.eqb_spec (rel_Cosigner n) id) as [E|E].
  - exists n. rewrite Nat.sub_diag. done.
  - specialize (IH (S j)). destruct (find_cosigner id (S j) rels) as [k|].
    + destruct IH as (n' & Hle & Hk & Hn). exists n'. split; [lia|].
      replace (k - j)%nat with (S (k - S j)) by lia. done.
    + cbn [fmap list_fmap]. rewrite list.elem_of_cons. intros [H|H]; [by rewrite H in E|done].
Qed.

Lemma NoDup_delete_at {A} i (l : list A) x : NoDup l → l !! i = Some x → x ∉ delete_at i l.
Proof.
  intros Hn Hi Hx. unfold delete_at in Hx. rewrite <- (take_drop_middle l i x Hi) in Hn.
  apply NoDup_app in Hn as (_ & Hd & [Hx' _]%list.NoDup_cons). apply elem_of_app in Hx as [Hx|Hx]; [|done].
  apply (Hd x Hx). left.
Qed.

Lemma fmap_delete_at {A B} (f : A → B) i l : f <$> delete_at i l = delete_at i (f <$> l).
Proof. unfold delete_at. by rewrite fmap_app, fmap_take, fmap_drop. Qed.

(** After clearing, an entry is still usable and does not involve the cosigner. *)
Lemma clear_entry_spec threshold id cn cn' :
  usable threshold cn → clear_entry threshold id cn = Some cn' →
  cch_UUID cn' = cch_UUID cn ∧ usable threshold cn' ∧ id ∉ (rel_Cosigner <$> cch_Nonces cn').
Proof.
  intros [Hl Hn] H. unfold clear_entry in H. pose proof (find_cosigner_spec id 0 (cch_Nonces cn)) as Hf.
  destruct (find_cosigner id 0 (cch_Nonces cn)) as [j|]; [|by injection H as <-].
  destruct Hf as (n & _ & Hj & <-). rewrite Nat.sub_0_r in Hj.
  destruct (Z.ltb_spec (Z.of_nat (length (cch_Nonces cn)) - 1) threshold) as [|Hge]; [done|].
  injection H as <-. unfold usable. cbn [cch_UUID cch_Nonces]. rewrite fmap_delete_at.
  pose proof (lookup_lt_Some _ _ _ Hj).
  split; [done|]. split; [split|].
  - rewrite (delete_at_length _ _ _ Hj). lia.
  - eapply sublist_NoDup; [done|apply delete_at_sublist].
  - apply NoDup_delete_at; [done|]. by rewrite list_lookup_fmap, Hj.
Qed.

(** ** Taking nonces *)

(** The peers' nonces in an entry, one after the other. *)
Lemma peers_nonces_spec peers rels acc :
  match peers_nonces peers rels acc with
  | Some ns => ∃ nss, Forall2 (λ p l, find_nonces p rels = Some l) peers nss ∧ ns = acc ++ concat nss
  | None => ∃ p, p ∈ peers ∧ find_nonces p rels = None
  end.
Proof.
  revert acc. induction peers as [|p peers IH]; intros acc; cbn [peers_nonces].
  { exists []. split; [constructor|]. by rewrite app_nil_r. }
  destruct (find_nonces p rels) as [l|] eqn:E; [|exists p; split; [left|done]].
  specialize (IH (acc ++ l)). destruct (peers_nonces peers rels (acc ++ l)) as [ns|].
  - destruct IH as (nss & HF & ->). exists (l :: nss). split; [by constructor|]. by rewrite <- app_assoc.
  - destruct IH as (q & Hq & Hn). exists q. split; [by right|done].
Qed.

(** The first entry that has them all. *)
Lemma find_entry_spec peers i nc :
  match find_entry peers i nc with
  | Some (k, un) => ∃ cn, (i ≤ k)%nat ∧ nc !! (k - i)%nat = Some cn ∧ un_UUID un = cch_UUID cn
      ∧ peers_nonces peers (cch_Nonces cn) [] = Some (un_Nonces un)
      ∧ ∀ j cn', (j < k - i)%nat → nc !! j = Some cn' → peers_nonces peers (cch_Nonces cn') [] = None
  | None => Forall (λ cn, peers_nonces peers (cch_Nonces cn) [] = None) nc
  end.
Proof.
  unfold NonceCache. revert i. induction nc as [|cn nc IH]; intros i; cbn [find_entry]; [constructor|].
  destruct (peers_nonces peers (cch_Nonces cn) []) as [ns|] eqn:E.
  - exists cn. rewrite Nat.sub_diag. repeat split; try done. intros; lia.
  - specialize (IH (S i)). destruct (find_entry peers (S i) nc) as [[k un]|]; [|by constructor].
    destruct IH as (cn' & Hk & Hl & Hu & Hp & Hb). exists cn'. split; [lia|].
    replace (k - i)%nat with (S (k - S i)) by lia. repeat split; try done.
    intros [|j] cn2 Hj; [by intros [= <-]|]. intros H. apply (Hb j); [lia|done].
Qed.

Lemma delete_at_Permutation {A} i (l : list A) x : l !! i = Some x → l ≡ₚ x :: delete_at i l.
Proof.
  intros H. unfold delete_at. rewrite <- (take_drop_middle l i x H) at 1. by rewrite Permutation_middle.
Qed.

(** ** Loading *)

Lemma load_entry_spec i nonces num rels n :
  load_entry i nonces num = Ok (rels, n) → 0 ≤ num → num + Z.of_nat (length nonces) < 256 →
  n = num + Z.of_nat (length rels)
  ∧ (rel_Cosigner <$> rels) `sublist_of` (cns_Cosigner <$> omap id nonces).
Proof.
  revert num rels n. induction nonces as [|[s|] nonces IH]; intros num rels n H Hn Hb; cbn [load_entry] in H.
  - injection H as <- <-. split; [cbn; lia|done].
  - destruct (cns_Nonces s !! i) as [un|]; [|done].
    destruct (load_entry i nonces (u8 (num + 1))) as [[rels' n']| |] eqn:E; cbn [result_bind] in H; [|done..].
    injection H as <- <-. cbn [length] in Hb.
    assert (u8 (num + 1) = num + 1) as Eu by (apply Z.mod_small; lia).
    rewrite Eu in E. destruct (IH _ _ _ E ltac:(lia) ltac:(lia)) as [-> Hs].
    cbn [length]. split; [lia|]. cbn [omap list_omap fmap list_fmap rel_Cosigner]. by constructor.
  - cbn [length] in Hb. destruct (IH _ _ _ H Hn ltac:(lia)) as [-> Hs]. by split.
Qed.

Lemma answers_cosigners cosigners responses :
  (cns_Cosigner <$> omap id (answers cosigners responses)) `sublist_of` cosigners.
Proof.
  revert responses. unfold answers. induction cosigners as [|p ps IH]; intros [|[r|] rs]; cbn; try constructor; auto.
  apply sublist_nil_l.
Qed.

Lemma answers_length cosigners responses : (length (answers cosigners responses) ≤ length cosigners)%nat.
Proof. unfold answers. rewrite length_zip_with. lia. Qed.

(** An entry that [LoadN] adds is usable. *)
Lemma load_entry_usable cc i responses rels num u expiration :
  config_ok cc → load_entry i (answers (cc_cosigners cc) responses) 0 = Ok (rels, num) →
  cc_threshold cc ≤ num → usable (cc_threshold cc) (mkCachedNonce u expiration rels).
Proof.
  intros [Hnd Hl] H Ht. pose proof (answers_length (cc_cosigners cc) responses) as La.
  destruct (load_entry_spec _ _ _ _ _ H ltac:(lia) ltac:(lia)) as [-> Hs]. split; cbn [cch_Nonces]; [lia|].
  eapply sublist_NoDup; [exact Hnd|]. by etrans; [|apply answers_cosigners].
Qed.

(** One entry: the uint8 counts the answers, whichever the UUID, and an answer that is too
    short is a panic. *)
Lemma load_entry_ok i nonces num :
  0 ≤ num → num + Z.of_nat (length nonces) < 256 →
  Forall (λ n, (i < length (cns_Nonces n))%nat) (omap id nonces) →
  load_entry i nonces num = Ok (entry_rels i (omap id nonces), num + Z.of_nat (length (omap id nonces))).
Proof.
  revert num. induction nonces as [|[n|] nonces IH]; intros num Hn Hb HF; cbn [load_entry].
  - cbn. by rewrite Z.add_0_r.
  - cbn [omap list_omap id] in HF |- *. apply list.Forall_cons in HF as [Hi HF]. cbn [length] in *.
    destruct (lookup_lt_is_Some_2 _ _ Hi) as [un Eu]. rewrite Eu.
    replace (u8 (num + 1)) with (num + 1) by (symmetry; apply Z.mod_small; lia).
    rewrite IH by (done || lia). cbn. rewrite Eu. do 2 f_equal. lia.
  - cbn [length] in Hb. apply IH; [done|lia|done].
Qed.

Lemma load_entry_panics i nonces num :
  Exists (λ n, (length (cns_Nonces n) ≤ i)%nat) (omap id nonces) →
  load_entry i nonces num = Panics index_out_of_range.
Proof.
  revert num. induction nonces as [|[n|] nonces IH]; intros num HE; cbn [load_entry].
  - by apply Exists_nil in HE.
  - cbn [omap list_omap id] in HE. apply Exists_cons in HE as [Hl|HE].
    + by rewrite (proj2 (lookup_ge_None _ _) Hl).
    + destruct (cns_Nonces n !! i); [|done]. by rewrite (IH _ HE).
  - by apply IH.
Qed.

Lemma load_entries_ok threshold expiration nonces i uuids nc :
  Z.of_nat (length nonces) < 256 →
  Forall (λ n, (i + length uuids ≤ length (cns_Nonces n))%nat) (omap id nonces) →
  load_entries threshold expiration nonces i uuids nc
  = Ok (nc ++ if threshold <=? Z.of_nat (length (omap id nonces))
              then imap (λ j u, mkCachedNonce u expiration (entry_rels (i + j) (omap id nonces))) uuids else []).
Proof.
  intros Hb. unfold NonceCache. revert i nc. induction uuids as [|u uuids IH]; intros i nc HF; cbn [load_entries].
  - case_match; cbn; by rewrite app_nil_r.
  - cbn [length] in HF. rewrite load_entry_ok; [|lia|lia|eapply list.Forall_impl; [exact HF|cbn; lia]].
    cbn [result_bind fst snd]. rewrite IH; [|eapply list.Forall_impl; [exact HF|cbn; lia]]. rewrite Z.add_0_l.
    destruct (threshold <=? _) eqn:E; [|done]. unfold Add. rewrite <- app_assoc. cbn [app].
    rewrite imap_cons, Nat.add_0_r. do 3 f_equal. apply imap_ext. intros j x _. cbn. do 3 f_equal. lia.
Qed.

Lemma load_entries_panics threshold expiration nonces i uuids nc :
  Z.of_nat (length nonces) < 256 →
  Forall (λ n, (i ≤ length (cns_Nonces n))%nat) (omap id nonces) →
  Exists (λ n, (length (cns_Nonces n) < i + length uuids)%nat) (omap id nonces) →
  load_entries threshold expiration nonces i uuids nc = Panics index_out_of_range.
Proof.
  intros Hb. revert i nc. induction uuids as [|u uuids IH]; intros i nc HF HE; cbn [load_entries].
  - apply list.Exists_exists in HE as (n & Hn & Hl). rewrite list.Forall_forall in HF.
    specialize (HF n Hn). cbn in *. lia.
  - destruct (decide (Exists (λ n, (length (cns_Nonces n) ≤ i)%nat) (omap id nonces))) as [HI|HI].
    { by rewrite load_entry_panics. }
    apply not_Exists_Forall in HI; [|apply _].
    rewrite load_entry_ok; [|lia|lia|eapply list.Forall_impl; [exact HI|cbn; lia]]. cbn [result_bind].
    apply IH; [eapply list.Forall_impl; [exact HI|cbn; lia]|].
    eapply list.Exists_impl; [exact HE|cbn; lia].
Qed.

Lemma LoadN_spec cc now uuids responses nc :
  config_ok cc →
  LoadN cc now uuids responses nc
  = if decide (Exists (λ n, (length (cns_Nonces n) < length uuids)%nat) (omap id (answers (cc_cosigners cc) responses)))
    then Panics index_out_of_range
    else Ok (nc ++ loaded cc now uuids (omap id (answers (cc_cosigners cc) responses))).
Proof.
  intros [_ Hl]. pose proof (answers_length (cc_cosigners cc) responses) as La. unfold LoadN, loaded.
  case_decide as HE.
  - destruct uuids as [|u uuids]; cbn [length Nat.eqb].
    { apply list.Exists_exists in HE as (n & _ & Hn). cbn in Hn. lia. }
    apply load_entries_panics; [lia| |done]. apply list.Forall_forall. lia.
  - apply not_Exists_Forall in HE; [|apply _]. destruct uuids as [|u uuids]; cbn [length Nat.eqb].
    { unfold NonceCache. case_match; by rewrite app_nil_r. }
    rewrite load_entries_ok; [done|lia|]. eapply list.Forall_impl; [exact HE|cbn; lia].
Qed.

(** ** The invariant *)

Lemma cache_inv_sublist cc given c nc' e :
  cache_inv cc (mkWorld c given) → (cch_UUID <$> nc') `sublist_of` (cch_UUID <$> cnc_cache c) →
  Forall (usable (cc_threshold cc)) nc' → (e ≤ 1)%nat → ∀ n t ma,
  cache_inv cc (mkWorld (mkCosignerNonceCache n t nc' ma e) given).
Proof.
  intros (H1 & _ & _) Hs Hu He n t ma. repeat split; [|done..]. cbn [w_given w_cache cnc_cache] in *.
  eapply sublist_NoDup; [exact H1|]. by apply sublist_app.
Qed.

Lemma omap_clear_uuids threshold id nc :
  Forall (usable threshold) nc →
  (cch_UUID <$> omap (clear_entry threshold id) nc) `sublist_of` (cch_UUID <$> nc)
  ∧ Forall (usable threshold) (omap (clear_entry threshold id) nc)
  ∧ Forall (λ cn, id ∉ (rel_Cosigner <$> cch_Nonces cn)) (omap (clear_entry threshold id) nc).
Proof.
  induction 1 as [|cn nc Hu _ (IH1 & IH2 & IH3)]; [by repeat constructor|]. cbn [omap list_omap].
  destruct (clear_entry threshold id cn) as [cn'|] eqn:E.
  - destruct (clear_entry_spec _ _ _ _ Hu E) as (Eu & Hu' & Hid). cbn [fmap list_fmap]. rewrite Eu.
    split; [by constructor|]. split; by constructor.
  - cbn [fmap list_fmap]. split; [by constructor|done].
Qed.

Lemma PruneNonces_drop now nc : ∃ k, (PruneNonces now nc).1 = drop k nc.
Proof.
  unfold PruneNonces. destruct (first_non_expired now 0 nc) as [k|]; [by exists k|].
  exists (length nc). unfold NonceCache in *. by rewrite drop_ge.
Qed.

Lemma cache_inv_get cc given c peers c' un :
  cache_inv cc (mkWorld c given) → GetNonces peers c = (c', Ok un) →
  cache_inv cc (mkWorld c' (un_UUID un :: given)).
Proof.
  intros (H1 & H2 & H3) H. unfold GetNonces in H. cbn [w_given w_cache] in *.
  pose proof (find_entry_spec peers 0 (cnc_cache c)) as HF.
  destruct (find_entry peers 0 (cnc_cache c)) as [[k un']|]; [|done]. injection H as <- ->.
  destruct HF as (cn & _ & Hl & Hu & _). rewrite Nat.sub_0_r in Hl. unfold cache_inv.
  cbn [w_given w_cache cnc_cache cnc_empty]. unfold Delete, NonceCache in *. rewrite fmap_delete_at.
  split; [|split].
  - rewrite (delete_at_Permutation k (cch_UUID <$> cnc_cache c) (un_UUID un)) in H1.
    2: { by rewrite list_lookup_fmap, Hl, Hu. }
    by rewrite <- Permutation_middle in H1.
  - eapply list.Forall_forall. intros x Hx. rewrite list.Forall_forall in H2. apply H2.
    eapply elem_of_submseteq; [exact Hx|]. apply sublist_submseteq, delete_at_sublist.
  - case_match eqn:Eb; [|done]. apply andb_true_iff in Eb as [_ Eb%Nat.eqb_eq]. lia.
Qed.

Lemma cache_inv_add cc given c u expiration rels :
  cache_inv cc (mkWorld c given) → u ∉ given → u ∉ (cch_UUID <$> cnc_cache c) →
  usable (cc_threshold cc) (mkCachedNonce u expiration rels) →
  cache_inv cc (mkWorld (set_cache (Add (mkCachedNonce u expiration rels) (cnc_cache c)) c) given).
Proof.
  intros (H1 & H2 & H3) Hg Hc Hu. repeat split; cbn [w_cache w_given set_cache cnc_cache cnc_empty] in *.
  - unfold Add, NonceCache in *. rewrite fmap_app, app_assoc. apply NoDup_app. split; [done|].
    split; [|apply NoDup_singleton]. intros v Hv ->%list_elem_of_singleton. by apply elem_of_app in Hv as [?|?].
  - apply Forall_app_2; [done|]. by constructor.
  - done.
Qed.

Lemma cache_inv_step cc w w' : config_ok cc → cache_inv cc w → cnc_step cc w w' → cache_inv cc w'.
Proof.
  intros Hcc HI Hs. pose proof HI as (H1 & H2 & H3).
  destruct Hs as [w u exp resp i rels num Hg Hc Hl Ht|w n t ma|w now|w peers c un H|w peers c e H|w id c H|w];
    destruct w as [c0 given]; cbn [w_cache w_given] in *.
  - apply cache_inv_add; try done. by eapply load_entry_usable.
  - by repeat split.
  - destruct (PruneNonces_drop now (cnc_cache c0)) as [k ->].
    eapply cache_inv_sublist; [exact HI| | |done].
    + unfold NonceCache in *. rewrite fmap_drop. apply sublist_drop.
    + unfold NonceCache in *. by apply Forall_drop.
  - eapply cache_inv_get; done.
  - unfold GetNonces in H. destruct (find_entry _ _ _) as [[k un']|]; [done|]. injection H as <- _. by repeat split.
  - rewrite ClearNonces_spec in H. injection H as <-.
    destruct (omap_clear_uuids (cc_threshold cc) id (cnc_cache c0) H2) as (U1 & U2 & _).
    by eapply cache_inv_sublist.
  - eapply cache_inv_sublist; [exact HI|done|done|lia].
Qed.

(** ** Reconciling *)

(** Adding entries is a sequence of steps. *)
Lemma load_entries_steps cc expiration responses i uuids c given nc' :
  NoDup uuids → Forall (λ u, (u ∉ given) ∧ u ∉ (cch_UUID <$> cnc_cache c)) uuids →
  load_entries (cc_threshold cc) expiration (answers (cc_cosigners cc) responses) i uuids (cnc_cache c) = Ok nc' →
  rtc (cnc_step cc) (mkWorld c given) (mkWorld (set_cache nc' c) given).
Proof.
  revert i c. induction uuids as [|u uuids IH]; intros i c Hnd HF H; cbn [load_entries] in H.
  - injection H as <-. by destruct c.
  - apply list.NoDup_cons in Hnd as [Hu Hnd]. apply list.Forall_cons in HF as [[Hg Hc] HF].
    destruct (load_entry i _ 0) as [[rels num]| |] eqn:E; cbn [result_bind fst snd] in H; [|done..].
    destruct (Z.leb_spec (cc_threshold cc) num); [|by eapply IH].
    eapply rtc_l; [by eapply (StepAdd cc (mkWorld c given)); cbn [w_given w_cache]|].
    refine (IH (S i) (set_cache _ c) Hnd _ H). eapply list.Forall_forall. intros v Hv. cbn [cnc_cache set_cache w_cache].
    rewrite list.Forall_forall in HF. destruct (HF v Hv). split; [done|]. unfold Add, NonceCache in *.
    rewrite fmap_app, elem_of_app. intros [?| ->%list_elem_of_singleton]; done.
Qed.

Lemma LoadN_steps cc now uuids responses c given nc' :
  NoDup uuids → Forall (λ u, (u ∉ given) ∧ u ∉ (cch_UUID <$> cnc_cache c)) uuids →
  LoadN cc now uuids responses (cnc_cache c) = Ok nc' →
  rtc (cnc_step cc) (mkWorld c given) (mkWorld (set_cache nc' c) given).
Proof.
  intros Hnd HF H. unfold LoadN in H. destruct uuids; cbn [length Nat.eqb] in H; [|by eapply load_entries_steps].
  injection H as <-. by destruct c.
Qed.

Lemma target_pos machine cc rate : 1 ≤ target machine cc rate.
Proof. unfold target. case_match; lia. Qed.

Lemma target_lt machine cc rate : (∀ f, machine f < 2 ^ 63) → target machine cc rate < 2 ^ 63.
Proof.
  intros Hm. unfold target. generalize (f64_mul (f64_div rate (f64_of_int 60))
    (f64_add (f64_mul (Duration_Seconds (cc_getNoncesInterval cc)) nonceOverallocation)
       (Duration_Seconds (cc_getNoncesTimeout cc)))). intros f.
  assert (f64_to_int machine f < 2 ^ 63) as Hf.
  { unfold f64_to_int. destruct f as [| | |s m e]; try apply Hm; [lia|]. case_match eqn:E; [|apply Hm].
    apply andb_true_iff in E as [_ E%Z.ltb_lt]. exact E. }
  case_match; [lia|exact Hf].
Qed.

Lemma filter_all {A} (P : A → Prop) `{∀ x, Decision (P x)} (l : list A) : Forall P l → filter P l = l.
Proof. induction 1 as [|x l Hx _ IH]; [done|]. by rewrite filter_cons_True, IH. Qed.

Lemma filter_none {A} (P : A → Prop) `{∀ x, Decision (P x)} (l : list A) :
  Forall (λ x, ¬ P x) l → filter P l = [].
Proof. induction 1 as [|x l Hx _ IH]; [done|]. by rewrite filter_cons_False, IH. Qed.

(** With the clock standing still and the entries in the order of their expiration, the
    search finds where the expired ones end. *)
Lemma first_non_expired_spec now nc i :
  StronglySorted Z.le (cch_Expiration <$> nc) →
  match first_non_expired (λ _, now) i nc with
  | None => filter (λ cn, now < cch_Expiration cn) nc = []
            ∧ filter (λ cn, ¬ (now < cch_Expiration cn)) nc = nc
  | Some k => (i ≤ k)%nat ∧ filter (λ cn, now < cch_Expiration cn) nc = drop (k - i) nc
              ∧ length (filter (λ cn, ¬ (now < cch_Expiration cn)) nc) = (k - i)%nat
  end.
Proof.
  unfold NonceCache in *. revert i. induction nc as [|cn nc IH]; intros i Hs; cbn [first_non_expired]; [done|].
  cbn [fmap list_fmap] in Hs. apply StronglySorted_inv in Hs as [Hs Hle].
  destruct (Z.ltb_spec now (cch_Expiration cn)).
  - rewrite Nat.sub_diag, !filter_cons. rewrite decide_True, decide_False by lia. split; [lia|].
    assert (Forall (λ cn', now < cch_Expiration cn') nc) as Ha.
    { eapply list.Forall_impl; [exact (proj1 (Forall_fmap _ _ _) Hle)|]. cbn. intros; lia. }
    rewrite filter_all by done. rewrite filter_none; [done|].
    eapply list.Forall_impl; [exact Ha|]. cbn. intros; lia.
  - rewrite !filter_cons. rewrite decide_False, decide_True by lia. specialize (IH (S i) Hs).
    destruct (first_non_expired _ (S i) nc) as [k|].
    + destruct IH as (Hk & -> & IH). replace (k - i)%nat with (S (k - S i)) by lia. cbn [drop length]. auto with lia.
    + destruct IH as [-> ->]. done.
Qed.

(** A reconciliation of a leader after the pruning: nothing is loaded, or [LoadN] is. *)
Lemma reconcile_leader machine cc env c c' :
  re_isLeader env = true → (∀ f, machine f < 2 ^ 63) → Size (cnc_cache c) < 2 ^ 63 →
  reconcile machine cc env c = Ok c' →
  let ma := add (cnc_movingAverage c) (i64 (re_now env - cnc_lastReconcileTime c)) (nonces_per_min env c) in
  let t := target machine cc (average ma) in
  ∃ k nc, nc = drop k (cnc_cache c) ∧ (PruneNonces (re_prune_now env) (cnc_cache c)).1 = nc ∧ 1 ≤ t < 2 ^ 63
    ∧ if t <=? Size nc
      then c' = mkCosignerNonceCache (Size nc) (re_end_now env) nc ma (cnc_empty c)
      else ∃ nc', LoadN cc (re_load_now env) (re_uuids env (t - Size nc))
                    (re_responses env (re_uuids env (t - Size nc))) nc = Ok nc'
           ∧ c' = mkCosignerNonceCache t (re_end_now env) nc' ma (cnc_empty c).
Proof.
  intros Hl Hm Hs H. destruct (PruneNonces_drop (re_prune_now env) (cnc_cache c)) as [k Hk].
  unfold reconcile in H. unfold nonces_per_min. destruct (PruneNonces (re_prune_now env) (cnc_cache c)) as [nc pruned]. cbn [fst] in *.
  rewrite Hl in H. cbn [negb] in H. revert H. cbn [cnc_cache set_cache cnc_lastReconcileTime cnc_movingAverage
    cnc_lastReconcileNonces cnc_empty].
  match goal with |- context [add ?m ?e ?r] => generalize (add m e r); intros ma end. cbv zeta.
  pose proof (target_pos machine cc (average ma)) as H1. pose proof (target_lt machine cc (average ma) Hm) as H2.
  revert H1 H2. generalize (target machine cc (average ma)). intros t H1 H2.
  assert (0 ≤ Size nc < 2 ^ 63) as Hn.
  { subst nc. unfold Size, NonceCache in *. rewrite length_drop. lia. }
  intros H. exists k, nc. do 3 (split; [done|]). revert H.
  rewrite (sint_small 64 (t - Size nc)) by (unfold in_sint; lia).
  destruct (Z.leb_spec t (Size nc)) as [Ht|Ht].
  - rewrite (proj2 (Z.leb_le (t - Size nc) 0)) by lia. intros [= <-]. f_equal. rewrite Z.add_0_r.
    apply Z.mod_small. lia.
  - rewrite (proj2 (Z.leb_gt (t - Size nc) 0)) by lia. destruct (LoadN _ _ _ _ _) as [nc'| |]; [|done..].
    cbn [result_bind]. intros [= <-]. exists nc'. split; [done|]. f_equal.
    replace (Size nc + (t - Size nc)) with t by lia. apply Z.mod_small. lia.
Qed.

(** ** Theorems *)

(** C14: however [LoadN], [reconcile], [GetNonces], [ClearNonces] and the pruning
    interleave, the cache hands out every UUID at most once and never one it still holds,
    every entry it holds has nonces of at least threshold different cosigners, and at most
    one event waits in the channel [empty], so that the send of [GetNonces], made with the
    mutex held, does not block. *)
Theorem nonce_cache_once cc zeroTime w :
  config_ok cc → rtc (cnc_step cc) (mkWorld (NewCosignerNonceCache cc zeroTime) []) w → cache_inv cc w.
Proof.
  intros Hcc H. cut (cache_inv cc (mkWorld (NewCosignerNonceCache cc zeroTime) [])).
  - induction H as [|w1 w2 w3 Hs _ IH]; [done|]. intros HI. apply IH. by eapply cache_inv_step.
  - repeat split; cbn; [constructor..|lia].
Qed.

Lemma nonce_cache_once_witness :
  cache_inv example_config example_run ∧ cnc_cache (w_cache example_run) = [] ∧ cnc_empty (w_cache example_run) = 1%nat.
Proof.
  split; [|done]. apply (nonce_cache_once example_config 0 example_run example_config_ok).
  eapply rtc_l.
  - eapply (StepAdd example_config _ [7] (10 * Second)
      [Some (example_answer 1 [[7]]); Some (example_answer 2 [[7]]); None] 0); cbn [w_given w_cache];
      [apply not_elem_of_nil|apply not_elem_of_nil|reflexivity|vm_compute; discriminate].
  - apply rtc_once. eapply (StepGet example_config (mkWorld _ []) [2; 1] _ (mkCosignerUUIDNonces [7] _)).
    vm_compute. reflexivity.
Defined.

(** C15: a run of [reconcile] that does not panic is a sequence of the steps above, when the
    UUIDs it draws are new.  A leader adds the rate at which nonces were used since the last run
    to its moving average, and then remembers the larger of the target of that average and of
    what the pruning left, which is at least one; any other process prunes only. *)
Theorem reconcile_refines machine cc env c given c' :
  (∀ n, NoDup (re_uuids env n) ∧ Forall (λ u, (u ∉ given) ∧ u ∉ (cch_UUID <$> cnc_cache c)) (re_uuids env n)) →
  (∀ f, machine f < 2 ^ 63) → Size (cnc_cache c) < 2 ^ 63 →
  reconcile machine cc env c = Ok c' →
  rtc (cnc_step cc) (mkWorld c given) (mkWorld c' given)
  ∧ if re_isLeader env
    then cnc_movingAverage c' = add (cnc_movingAverage c) (i64 (re_now env - cnc_lastReconcileTime c)) (nonces_per_min env c)
         ∧ cnc_lastReconcileNonces c' = Z.max (target machine cc (average (cnc_movingAverage c')))
             (Size (PruneNonces (re_prune_now env) (cnc_cache c)).1)
         ∧ 1 ≤ cnc_lastReconcileNonces c'
         ∧ cnc_lastReconcileTime c' = re_end_now env
    else c' = set_cache (PruneNonces (re_prune_now env) (cnc_cache c)).1 c.
Proof.
  intros Hu Hm Hs H. destruct (re_isLeader env) eqn:El.
  2: { unfold reconcile in H. rewrite El in H. destruct (PruneNonces _ _) as [nc pruned] eqn:E. injection H as <-.
       split; [|done]. apply rtc_once.
       pose proof (StepPrune cc (mkWorld c given) (re_prune_now env)) as S. cbn [w_cache] in S. by rewrite E in S. }
  destruct (reconcile_leader machine cc env c c' El Hm Hs H) as (k & nc & Hk & Hp & Ht & HC). cbv zeta in *.
  revert Ht HC. set (ma := add _ _ _). set (t := target _ _ _). intros Ht HC.
  pose proof (StepPrune cc (mkWorld c given) (re_prune_now env)) as S1. cbn [w_cache w_given] in S1. rewrite Hp in *.
  destruct (Z.leb_spec t (Size nc)) as [Hle|Hle].
  - subst c'. split; [|cbn [cnc_movingAverage cnc_lastReconcileNonces cnc_lastReconcileTime]; fold t; split_and!; [done|lia|lia|done]]. eapply rtc_l; [exact S1|]. apply rtc_once. apply StepReconciled.
  - destruct HC as (nc' & HL & ->).
    split; [|cbn [cnc_movingAverage cnc_lastReconcileNonces cnc_lastReconcileTime]; fold t; split_and!; [done|lia|lia|done]]. eapply rtc_l; [exact S1|].
    destruct (Hu (t - Size nc)) as [U1 U2].
    eapply rtc_r; [eapply (LoadN_steps cc _ _ _ (set_cache nc c) given nc' U1); [|exact HL]|apply StepReconciled].
    eapply list.Forall_impl; [exact U2|]. intros u [Hg Hc]. split; [done|]. cbn [cnc_cache set_cache].
    subst nc. unfold NonceCache in *. rewrite fmap_drop. intros Hin. apply Hc.
    eapply elem_of_submseteq; [exact Hin|]. apply sublist_submseteq, sublist_drop.
Qed.

Lemma reconcile_refines_witness :
  ∃ c', reconcile (λ _, - 2 ^ 63) example_config (example_env Second) (NewCosignerNonceCache example_config 0) = Ok c'
    ∧ rtc (cnc_step example_config) (mkWorld (NewCosignerNonceCache example_config 0) []) (mkWorld c' []).
Proof.
  destruct (reconcile (λ _, - 2 ^ 63) example_config (example_env Second) (NewCosignerNonceCache example_config 0))
    as [c'| |] eqn:E; [|vm_compute in E; discriminate E..].
  exists c'. split; [reflexivity|].
  refine (proj1 (reconcile_refines _ example_config (example_env Second) _ [] c' _ _ _ E)).
  - intros n. cbn [re_uuids example_env]. split.
    + apply NoDup_fmap_2; [|apply NoDup_seq]. intros i j [= H]. lia.
    + apply list.Forall_forall. intros u _. split; apply not_elem_of_nil.
  - intros _. lia.
  - vm_compute. reflexivity.
Defined.

(** [LoadN] adds one entry for every UUID, with the nonces every cosigner that answered
    made for it, when at least threshold cosigners answered, and nothing when fewer did; it
    panics when one of them sent fewer nonces than UUIDs it was asked for. *)
Theorem LoadN_result cc now uuids responses nc :
  config_ok cc →
  LoadN cc now uuids responses nc
  = if decide (Exists (λ n, (length (cns_Nonces n) < length uuids)%nat) (omap id (answers (cc_cosigners cc) responses)))
    then Panics index_out_of_range
    else Ok (nc ++ loaded cc now uuids (omap id (answers (cc_cosigners cc) responses))).
Proof. apply LoadN_spec. Qed.

Lemma LoadN_result_witness :
  LoadN example_config 0 [[7]; [8]] [Some (example_answer 1 [[7]]); Some (example_answer 2 [[7]; [8]]); None] []
  = Panics index_out_of_range.
Proof. rewrite (LoadN_result example_config 0 _ _ _ example_config_ok). vm_compute. reflexivity. Defined.

(** The loop of [ClearNonces], whose index stands still after a deletion, ends, and its
    result is what treating every entry on its own gives: no entry has nonces of the
    cosigner any more, each of those kept has enough others, and an entry without the
    cosigner is left as it was. *)
Theorem ClearNonces_terminates cc id c :
  Forall (usable (cc_threshold cc)) (cnc_cache c) →
  ∃ c', ClearNonces cc id c = Some c'
    ∧ cnc_cache c' = omap (clear_entry (cc_threshold cc) id) (cnc_cache c)
    ∧ Forall (usable (cc_threshold cc)) (cnc_cache c')
    ∧ Forall (λ cn, id ∉ (rel_Cosigner <$> cch_Nonces cn)) (cnc_cache c')
    ∧ ∀ cn, cn ∈ cnc_cache c → id ∉ (rel_Cosigner <$> cch_Nonces cn) → cn ∈ cnc_cache c'.
Proof.
  intros Hu. rewrite ClearNonces_spec. eexists. split; [done|]. cbn [cnc_cache set_cache]. split; [done|].
  destruct (omap_clear_uuids (cc_threshold cc) id (cnc_cache c) Hu) as (_ & H2 & H3). do 2 (split; [done|]).
  intros cn Hin Hid. apply list_elem_of_omap. exists cn. split; [done|]. unfold clear_entry.
  pose proof (find_cosigner_spec id 0 (cch_Nonces cn)) as HF.
  destruct (find_cosigner id 0 (cch_Nonces cn)) as [k|]; [|done].
  destruct HF as (n & _ & Hl & Hc). destruct Hid. rewrite <- Hc. apply list_elem_of_fmap. exists n.
  split; [done|]. by eapply list_elem_of_lookup_2.
Qed.

Lemma ClearNonces_terminates_witness :
  ∃ c', ClearNonces example_config 1 example_cache = Some c' ∧ (cch_UUID <$> cnc_cache c') = [[8]].
Proof.
  destruct (ClearNonces_terminates example_config 1 example_cache) as (c' & H & E & _).
  - repeat constructor; cbn; try lia; by apply (bool_decide_unpack _).
  - exists c'. split; [exact H|]. rewrite E. vm_compute. reflexivity.
Defined.

(** When the entries are in the order of their expiration, cutting the cache at the
    first one that has not expired removes the expired entries, all of them and no other,
    and the count is theirs. *)
Theorem PruneNonces_filter now nc :
  StronglySorted Z.le (cch_Expiration <$> nc) →
  PruneNonces (λ _, now) nc
  = (filter (λ cn, now < cch_Expiration cn) nc, Z.of_nat (length (filter (λ cn, ¬ (now < cch_Expiration cn)) nc))).
Proof.
  intros Hs. pose proof (first_non_expired_spec now nc 0 Hs) as H. unfold PruneNonces, NonceCache in *.
  destruct (first_non_expired _ _ _) as [k|].
  - destruct H as (_ & -> & ->). by rewrite Nat.sub_0_r.
  - by destruct H as [-> ->].
Qed.

Lemma PruneNonces_filter_witness :
  PruneNonces (λ _, 5) (cnc_cache example_cache) = (drop 1 (cnc_cache example_cache), 1).
Proof.
  rewrite (PruneNonces_filter 5 (cnc_cache example_cache)); [vm_compute; reflexivity|].
  cbn. repeat constructor; lia.
Defined.

(** [GetNonces] takes the first entry that has nonces of every one of the peers, gives
    their nonces in the order of the peers under the UUID of the entry and removes that
    entry alone; when there is none it changes no entry and returns an error. *)
Theorem GetNonces_exact peers c :
  match (GetNonces peers c).2 with
  | Ok un => ∃ before cn after nss,
      cnc_cache c = before ++ cn :: after
      ∧ cnc_cache (GetNonces peers c).1 = before ++ after
      ∧ un_UUID un = cch_UUID cn
      ∧ Forall2 (λ p l, find_nonces p (cch_Nonces cn) = Some l) peers nss ∧ un_Nonces un = concat nss
      ∧ Forall (λ cn', ∃ p, p ∈ peers ∧ find_nonces p (cch_Nonces cn') = None) before
  | Err _ => cnc_cache (GetNonces peers c).1 = cnc_cache c
      ∧ Forall (λ cn', ∃ p, p ∈ peers ∧ find_nonces p (cch_Nonces cn') = None) (cnc_cache c)
  | Panics _ => False
  end.
Proof.
  assert (∀ cn', peers_nonces peers (cch_Nonces cn') [] = None →
    ∃ p, p ∈ peers ∧ find_nonces p (cch_Nonces cn') = None) as HN.
  { intros cn' E. pose proof (peers_nonces_spec peers (cch_Nonces cn') []) as HP. by rewrite E in HP. }
  unfold GetNonces. pose proof (find_entry_spec peers 0 (cnc_cache c)) as HF. unfold NonceCache in *.
  destruct (find_entry peers 0 (cnc_cache c)) as [[k un]|]; cbn [snd fst cnc_cache].
  - destruct HF as (cn & _ & Hl & Hu & Hp & Hb). rewrite Nat.sub_0_r in *.
    pose proof (peers_nonces_spec peers (cch_Nonces cn) []) as HP. rewrite Hp in HP. destruct HP as (nss & H2 & E).
    exists (take k (cnc_cache c)), cn, (drop (S k) (cnc_cache c)), nss. split; [by rewrite take_drop_middle|].
    do 4 (split; [done|]). apply list.Forall_forall. intros cn' Hin. apply HN.
    apply list_elem_of_lookup in Hin as [j Hj]. apply lookup_take_Some in Hj as [Hj Hlt]. by eapply Hb.
  - split; [done|]. eapply list.Forall_impl; [exact HF|]. apply HN.
Qed.
