(* ===== verification/CosignerHealth.v ===== *)
(** * Round-trip times of the peers

    [CosignerHealth] of cosigner_health.go: the leader pings its peers and orders them by
    round-trip time, so that a block is signed with those that answer fastest.
    [sort.Slice] promises a sorted permutation for a strict weak order and nothing on the
    order of equivalent elements, so it is an argument with that promise as a hypothesis;
    [insertionSort] is what it runs on short slices.  The goroutines of [Reconcile] are the
    round-trip times they store, in the order they finish. *)

From S2P Require Import Prelude.
From stdpp Require Import base gmap list sorting numbers.
From Stdlib Require Import ZArith Lia.

Open Scope Z_scope.

(** ** Definitions *)

(** A [Cosigner] as the leader holds it: a peer behind gRPC or one in this process. *)
Inductive Peer : Type :=
| PeerRemote (id : Z)
| PeerLocal (id : Z).

Definition peer_GetID (p : Peer) : Z :=
  match p with
  | PeerRemote id | PeerLocal id => id
  end.

Definition is_remote (p : Peer) : bool :=
  match p with
  | PeerRemote _ => true
  | PeerLocal _ => false
  end.

Record CosignerHealth := mkCosignerHealth {
  ch_cosigners : list Peer;
  ch_rtt : gmap Z Z
}.

Definition NewCosignerHealth (cosigners : list Peer) : CosignerHealth := mkCosignerHealth cosigners ∅.

Definition MarkUnhealthy (id : Z) (ch : CosignerHealth) : CosignerHealth :=
  mkCosignerHealth (ch_cosigners ch) (<[id := -1]> (ch_rtt ch)).

(** [updateRTT]: [ping] is the time the ping took, if it succeeded. *)
Definition updateRTT (id : Z) (ping : option Z) (ch : CosignerHealth) : CosignerHealth :=
  mkCosignerHealth (ch_cosigners ch) (<[id := default (-1) ping]> (ch_rtt ch)).

(** [Reconcile]: the goroutines finish in the order of [finished], each with its ping.  The
    second result is what is left of the wait group when they all have. *)
Definition Reconcile (isLeader : bool) (finished : list (Z * option Z)) (ch : CosignerHealth)
    : CosignerHealth * Z :=
  if negb isLeader then (ch, 0)
  else (fold_left (λ ch f, updateRTT f.1 f.2 ch) finished ch,
        Z.of_nat (length (ch_cosigners ch)) - Z.of_nat (length finished)).

(** The order of [GetFastest]. *)
Definition faster (rtt : gmap Z Z) (p q : Peer) : bool :=
  match rtt !! peer_GetID p with
  | None => false
  | Some rtt1 =>
      if rtt1 =? -1 then false
      else match rtt !! peer_GetID q with
           | None => true
           | Some rtt2 => if rtt2 =? -1 then true else rtt1 <? rtt2
           end
  end.

(** *** [sort.Slice] *)

Record strict_weak {A} (less : A → A → bool) : Prop := {
  sw_asym x y : less x y = true → less y x = false;
  sw_neg_trans x y z : less x y = false → less y z = false → less x z = false
}.

Definition sort_Slice_ok (sort_Slice : ∀ A, (A → A → bool) → list A → list A) : Prop :=
  ∀ A (less : A → A → bool) l, strict_weak less →
    sort_Slice A less l ≡ₚ l ∧ StronglySorted (λ x y, less y x = false) (sort_Slice A less l).

(** The inner loop of the insertion sort: [x] moves left past the elements it is less than;
    the prefix is held with its last element first. *)
Fixpoint insert_left {A} (less : A → A → bool) (x : A) (prefix : list A) : list A :=
  match prefix with
  | [] => [x]
  | y :: prefix' => if less x y then y :: insert_left less x prefix' else x :: prefix
  end.

Definition insertionSort A (less : A → A → bool) (l : list A) : list A :=
  reverse (fold_left (λ prefix x, insert_left less x prefix) l []).

Definition GetFastest (sort_Slice : ∀ A, (A → A → bool) → list A → list A) (ch : CosignerHealth) : list Peer :=
  sort_Slice Peer (faster (ch_rtt ch)) (ch_cosigners ch).

(** *** Specifications *)

(** The last ping of a peer succeeded, in this time. *)
Definition healthy (ch : CosignerHealth) (p : Peer) (rtt : Z) : Prop :=
  ch_rtt ch !! peer_GetID p = Some rtt ∧ rtt ≠ -1.

Definition unhealthy (ch : CosignerHealth) (p : Peer) : Prop := ∀ rtt, ¬ healthy ch p rtt.

Definition example_health : CosignerHealth :=
  mkCosignerHealth [PeerRemote 2; PeerRemote 3; PeerRemote 4; PeerRemote 5]
    (<[2 := 30]> (<[3 := -1]> (<[5 := 10]> ∅))).

(** ** Lemmas *)

Lemma faster_strict_weak rtt : strict_weak (faster rtt).
Proof.
  split; unfold faster.
  - intros x y. destruct (rtt !! peer_GetID x) as [a|]; [|done]. destruct (Z.eqb_spec a (-1)); [done|].
    destruct (rtt !! peer_GetID y) as [b|]; [|done]. destruct (Z.eqb_spec b (-1)); [done|].
    intros H%Z.ltb_lt. apply Z.ltb_ge. lia.
  - intros x y z. destruct (rtt !! peer_GetID x) as [a|]; [|done]. destruct (Z.eqb_spec a (-1)); [done|].
    destruct (rtt !! peer_GetID y) as [b|]; [|done]. destruct (Z.eqb_spec b (-1)); [done|].
    intros H1%Z.ltb_ge. destruct (rtt !! peer_GetID z) as [c|]; [|done]. destruct (Z.eqb_spec c (-1)); [done|].
    intros H2%Z.ltb_ge. apply Z.ltb_ge. lia.
Qed.

Lemma insert_left_Permutation {A} (less : A → A → bool) x l : insert_left less x l ≡ₚ x :: l.
Proof.
  induction l as [|y l IH]; cbn; [done|]. destruct (less x y); [|done]. rewrite IH. apply Permutation_swap.
Qed.

Lemma insert_left_sorted {A} (less : A → A → bool) x l :
  strict_weak less → StronglySorted (λ y z, less y z = false) l →
  StronglySorted (λ y z, less y z = false) (insert_left less x l).
Proof.
  intros Hsw. induction 1 as [|y l Hs IH Hy]; cbn; [by repeat constructor|].
  destruct (less x y) eqn:E.
  - constructor; [done|]. change (Forall (λ z, less y z = false) (insert_left less x l)).
    rewrite insert_left_Permutation. constructor; [by apply (sw_asym _ Hsw)|]. done.
  - constructor; [by constructor|]. constructor; [done|]. eapply list.Forall_impl; [exact Hy|].
    intros z Hz. by eapply (sw_neg_trans _ Hsw).
Qed.

Lemma StronglySorted_reverse {A} (R : A → A → Prop) l :
  StronglySorted R l → StronglySorted (λ x y, R y x) (reverse l).
Proof.
  induction 1 as [|x l _ IH Hx]; [constructor|]. rewrite reverse_cons.
  assert (∀ y, y ∈ reverse l → R x y) as Hr.
  { intros y Hy. rewrite list.Forall_forall in Hx. apply Hx. by rewrite elem_of_reverse in Hy. }
  clear Hx. revert IH Hr. generalize (reverse l). intros m. induction 1 as [|y m Hm IHm Hy]; intros Hr; cbn.
  - repeat constructor.
  - constructor; [apply IHm; intros; apply Hr; by right|]. change (Forall (λ z, R z y) (m ++ [x])).
    apply Forall_app. split; [done|]. constructor; [|constructor]. apply Hr. by left.
Qed.

Lemma insertionSort_ok : sort_Slice_ok insertionSort.
Proof.
  intros A less l Hsw. unfold insertionSort.
  assert (∀ p, StronglySorted (λ y z, less y z = false) p →
    fold_left (λ prefix x, insert_left less x prefix) l p ≡ₚ l ++ p ∧
    StronglySorted (λ y z, less y z = false) (fold_left (λ prefix x, insert_left less x prefix) l p)) as H.
  { induction l as [|x l IH]; intros p Hp; cbn; [done|].
    destruct (IH _ (insert_left_sorted less x p Hsw Hp)) as [H1 H2]. split; [|done].
    rewrite H1, insert_left_Permutation. symmetry. apply Permutation_middle. }
  destruct (H [] ltac:(constructor)) as [H1 H2]. split.
  - by rewrite reverse_Permutation, H1, app_nil_r.
  - by apply StronglySorted_reverse in H2.
Qed.

(** A list sorted by [faster] is the healthy peers by their time, then the others. *)
Lemma sorted_faster ch l :
  StronglySorted (λ p q, faster (ch_rtt ch) q p = false) l →
  ∃ fast slow rtts, l = fast ++ slow ∧ Forall2 (healthy ch) fast rtts ∧ StronglySorted Z.le rtts
    ∧ Forall (unhealthy ch) slow.
Proof.
  induction 1 as [|p l _ (fast & slow & rtts & -> & Hf & Hs & Hu) Hp].
  { exists [], [], []. repeat constructor. }
  assert (unhealthy ch p ∨ ∃ r, healthy ch p r) as [Hn|[r Hr]].
  { unfold unhealthy, healthy. destruct (ch_rtt ch !! peer_GetID p) as [r|]; [|left; by intros r [??]].
    destruct (Z.eq_dec r (-1)) as [-> |Hr]; [left; by intros r [[= <-] ?]|right; by exists r]. }
  - destruct fast as [|q fast].
    { exists [], (p :: slow), []. repeat split; try constructor; try done. }
    exfalso. apply list.Forall_cons in Hp as [Hq _]. inversion Hf as [|? r ? rs [Hr Hr1] _]; subst.
    unfold faster in Hq. rewrite Hr in Hq. rewrite (proj2 (Z.eqb_neq r (-1)) Hr1) in Hq.
    destruct (ch_rtt ch !! peer_GetID p) as [r'|] eqn:E; [|done].
    destruct (Z.eqb_spec r' (-1)); [done|]. by apply (Hn r').
  - exists (p :: fast), slow, (r :: rtts). split; [done|]. split; [by constructor|]. split; [|done].
    constructor; [done|]. apply list.Forall_forall. intros r' Hr'.
    apply list_elem_of_lookup in Hr' as [i Hi]. destruct (Forall2_lookup_r _ _ _ _ _ Hf Hi) as (q & Hq & [Hq1 Hq2]).
    rewrite list.Forall_forall in Hp. specialize (Hp q). unfold faster in Hp. destruct Hr as [Hr1 Hr2].
    rewrite Hq1, Hr1 in Hp. rewrite (proj2 (Z.eqb_neq r' (-1)) Hq2), (proj2 (Z.eqb_neq r (-1)) Hr2) in Hp.
    apply Z.ltb_ge, Hp. apply elem_of_app. left. by eapply list_elem_of_lookup_2.
Qed.

(** ** Theorems *)

(** [GetFastest] gives every peer once: first those whose last ping succeeded, by their
    round-trip time, then those that never answered or are marked unhealthy. *)
Theorem GetFastest_order sort_Slice ch :
  sort_Slice_ok sort_Slice →
  ∃ fast slow rtts, GetFastest sort_Slice ch = fast ++ slow ∧ fast ++ slow ≡ₚ ch_cosigners ch
    ∧ Forall2 (healthy ch) fast rtts ∧ StronglySorted Z.le rtts ∧ Forall (unhealthy ch) slow.
Proof.
  intros Hs. destruct (Hs _ _ (ch_cosigners ch) (faster_strict_weak (ch_rtt ch))) as [H1 H2].
  destruct (sorted_faster ch _ H2) as (fast & slow & rtts & E & H). exists fast, slow, rtts.
  unfold GetFastest. rewrite <- E. done.
Qed.

Lemma GetFastest_order_witness :
  GetFastest insertionSort example_health = [PeerRemote 5; PeerRemote 2; PeerRemote 3; PeerRemote 4]
  ∧ ∃ fast slow, GetFastest insertionSort example_health = fast ++ slow ∧ Forall (unhealthy example_health) slow.
Proof.
  split; [vm_compute; reflexivity|].
  destruct (GetFastest_order insertionSort example_health insertionSort_ok) as (f & s & r & H1 & _ & _ & _ & H2).
  exists f, s. split; [exact H1|exact H2].
Defined.
