(* ===== verification/Cond.v ===== *)
(** * The condition variable

    [Cond] of cond/cond.go, which a request waits on while another one signs the same
    block.  A channel is its number; a receive from it succeeds once it is closed.  The
    step relation interleaves any number of [Broadcast]s, which swap the channel and then
    close the old one, and of waits, which load the channel and then receive from it or
    time out. *)

From S2P Require Import Prelude.
From stdpp Require Import base list relations.
From Stdlib Require Import Lia.

(** ** Definitions *)

(** [c_p] is the channel the pointer [p] holds and [c_made] the number of channels made so
    far; [c_closing] are the broadcasts that have swapped and not yet closed, [c_waiting]
    the waits that have loaded their channel; [c_panicked] tells whether a channel was
    closed twice. *)
Record Cond := mkCond {
  c_p : nat;
  c_made : nat;
  c_closed : list nat;
  c_closing : list nat;
  c_waiting : list nat;
  c_panicked : bool
}.

Definition New : Cond := mkCond 0 1 [] [] [] false.

(** [n := make(chan struct{}); p := c.p.Swap(&n)] *)
Definition swap (c : Cond) : Cond :=
  mkCond (c_made c) (S (c_made c)) (c_closed c) (c_p c :: c_closing c) (c_waiting c) (c_panicked c).

(** [close( *p )] by the [i]-th of the broadcasts; closing a closed channel panics. *)
Definition close (i : nat) (c : Cond) : option Cond :=
  ch ← c_closing c !! i;
  Some (mkCond (c_p c) (c_made c) (ch :: c_closed c) (delete i (c_closing c)) (c_waiting c)
          (c_panicked c || bool_decide (ch ∈ c_closed c))).

Definition NotifyChan (c : Cond) : nat := c_p c.

(** The start of [Wait] and [WaitWithTimeout]. *)
Definition wait (c : Cond) : Cond :=
  mkCond (c_p c) (c_made c) (c_closed c) (c_closing c) (NotifyChan c :: c_waiting c) (c_panicked c).

Definition done_waiting (i : nat) (c : Cond) : Cond :=
  mkCond (c_p c) (c_made c) (c_closed c) (c_closing c) (delete i (c_waiting c)) (c_panicked c).

(** The receive of the [i]-th wait: it blocks until its channel is closed. *)
Definition receive (i : nat) (c : Cond) : option Cond :=
  ch ← c_waiting c !! i;
  if bool_decide (ch ∈ c_closed c) then Some (done_waiting i c) else None.

Inductive cond_step : Cond → Cond → Prop :=
| StepSwap c : cond_step c (swap c)
| StepClose i c c' : close i c = Some c' → cond_step c c'
| StepWait c : cond_step c (wait c)
| StepReceive i c c' : receive i c = Some c' → cond_step c c'
| StepTimeout i c : cond_step c (done_waiting i c).

(** *** The invariant *)

(** Every channel but the one [p] holds is closed or about to be, and only once. *)
Record cond_inv (c : Cond) : Prop := {
  ci_nodup : NoDup (c_p c :: c_closing c ++ c_closed c);
  ci_made ch : ch < c_made c ↔ ch ∈ c_p c :: c_closing c ++ c_closed c;
  ci_waiting : Forall (λ ch, ch < c_made c) (c_waiting c);
  ci_panicked : c_panicked c = false
}.

Definition example_woken : Cond := mkCond 1 2 [0] [] [0] false.

(** ** Lemmas *)

Lemma cond_inv_New : cond_inv New.
Proof.
  split; cbn; [apply NoDup_singleton| |constructor|done].
  intros ch. rewrite list_elem_of_singleton. lia.
Qed.

Lemma cond_inv_waiting c ws :
  cond_inv c → Forall (λ ch, ch < c_made c) ws →
  cond_inv (mkCond (c_p c) (c_made c) (c_closed c) (c_closing c) ws (c_panicked c)).
Proof. intros [H1 H2 H3 H4] H. by split. Qed.

Lemma cond_inv_swap c : cond_inv c → cond_inv (swap c).
Proof.
  intros [H1 H2 H3 H4]. split; cbn; [| | |done].
  - apply list.NoDup_cons. split; [|done]. intros H. apply H2 in H. lia.
  - intros ch. rewrite list.elem_of_cons, <- H2. lia.
  - eapply list.Forall_impl; [exact H3|]. cbn. lia.
Qed.

Lemma cond_inv_close i c c' : cond_inv c → close i c = Some c' → cond_inv c'.
Proof.
  intros [H1 H2 H3 H4] H. unfold close in H. destruct (c_closing c !! i) as [ch|] eqn:E; [|done].
  injection H as <-. apply delete_Permutation in E as Hp.
  assert (c_p c :: delete i (c_closing c) ++ ch :: c_closed c ≡ₚ c_p c :: c_closing c ++ c_closed c) as HP.
  { rewrite Hp at 2. by rewrite <- Permutation_middle. }
  split; cbn [c_p c_made c_closed c_closing c_waiting c_panicked].
  - by rewrite HP.
  - intros x. by rewrite HP.
  - done.
  - rewrite H4. cbn. apply bool_decide_eq_false. rewrite Hp in H1. cbn in H1.
    apply list.NoDup_cons in H1 as [_ H1]. apply list.NoDup_cons in H1 as [H1 _].
    intros Hin. apply H1. apply elem_of_app. by right.
Qed.

Lemma cond_inv_step c c' : cond_inv c → cond_step c c' → cond_inv c'.
Proof.
  intros HI Hs. destruct Hs as [c|i c c' H|c|i c c' H|i c].
  - by apply cond_inv_swap.
  - by eapply cond_inv_close.
  - apply cond_inv_waiting; [done|]. constructor; [|apply HI]. apply (ci_made _ HI). by left.
  - unfold receive in H. destruct (c_waiting c !! i); [|done]. cbn in H. case_bool_decide; [|done].
    injection H as <-. apply cond_inv_waiting; [done|]. apply Forall_delete, HI.
  - apply cond_inv_waiting; [done|]. apply Forall_delete, HI.
Qed.

Lemma cond_inv_reach c : rtc cond_step New c → cond_inv c.
Proof.
  intros H. pose proof cond_inv_New as H0. revert H0. induction H as [|c1 c2 c3 Hs _ IH]; [done|].
  intros HI. apply IH. by eapply cond_inv_step.
Qed.

(** The number of the current channel never decreases, nor does the number made. *)
Lemma cond_step_mono c c' :
  cond_inv c → cond_step c c' → (c_p c ≤ c_p c' ∧ c_made c ≤ c_made c')%nat.
Proof.
  intros HI Hs. assert (c_p c < c_made c) as Hm by (apply (ci_made _ HI); by left).
  destruct Hs as [c|i c c' H|c|i c c' H|i c]; cbn; try lia.
  - unfold close in H. destruct (c_closing c !! i); [|done]. injection H as <-. cbn. lia.
  - unfold receive in H. destruct (c_waiting c !! i); [|done]. cbn in H. case_bool_decide; [|done].
    injection H as <-. cbn. lia.
Qed.

Lemma cond_rtc_mono c c' :
  cond_inv c → rtc cond_step c c' → cond_inv c' ∧ c_p c ≤ c_p c' ∧ c_made c ≤ c_made c'.
Proof.
  intros HI H. induction H as [|c1 c2 c3 Hs _ IH]; [done|].
  destruct (cond_step_mono _ _ HI Hs). destruct (IH (cond_inv_step _ _ HI Hs)) as (? & ? & ?). split; [done|lia].
Qed.

(** ** Theorems *)

(** In every interleaving no channel is closed twice, so [Broadcast] never panics; and
    no wake-up is lost: when a broadcast swaps the channel after a wait has loaded it, then
    as soon as the broadcasts under way have finished the wait's receive succeeds. *)
Theorem no_lost_wakeup c0 c1 c :
  rtc cond_step New c0 → rtc cond_step (wait c0) c1 → rtc cond_step (swap c1) c →
  c_panicked c = false
  ∧ (c_closing c = [] →
     NotifyChan c0 ∈ c_closed c
     ∧ ∀ i, c_waiting c !! i = Some (NotifyChan c0) → receive i c = Some (done_waiting i c)).
Proof.
  intros H0 H1 H. apply cond_inv_reach in H0 as I0. assert (cond_inv (wait c0)) as Iw by (eapply cond_inv_step; [done|constructor]).
  destruct (cond_rtc_mono _ _ Iw H1) as (I1 & _ & M1). apply cond_inv_swap in I1 as Is.
  destruct (cond_rtc_mono _ _ Is H) as (I & P & M). split; [apply I|]. intros Hc.
  assert (c_p c0 < c_made c0) as Hm by (apply (ci_made _ I0); by left). cbn in *.
  assert (c_p c0 ∈ c_closed c) as Hin.
  { pose proof (proj1 (ci_made _ I (c_p c0)) ltac:(lia)) as He. rewrite Hc in He.
    apply list.elem_of_cons in He as [He|He]; [lia|exact He]. }
  split; [done|]. intros i Hi. unfold receive. rewrite Hi. cbn. by rewrite bool_decide_true.
Qed.

Lemma no_lost_wakeup_witness :
  receive 0 example_woken = Some (done_waiting 0 example_woken).
Proof.
  refine (proj2 (proj2 (no_lost_wakeup New (wait New) example_woken _ _ _) eq_refl) 0 eq_refl).
  - reflexivity.
  - reflexivity.
  - apply rtc_once. apply (StepClose 0). reflexivity.
Defined.
