(* ===== verification/Conc.v ===== *)
(** * Handlers as programs of critical sections

    A Go handler that runs concurrently with others is a [prog]: a tree of the
    critical sections it executes, each an atomic step on the shared state, with the
    local computation between them as plain functions.  [Pick] is a choice the
    scheduler makes, such as which goroutine of an [errgroup] runs next.  A section
    may also log events, which the code does not see; properties are stated on the
    log.

    [par] runs two goroutines of a handler side by side, and [eg_run] several that loop.
    [run] executes one handler alone, [pool_step] interleaves any number of them.
    [wp] is a rely-guarantee condition on one handler: its sections keep a shared
    invariant whatever the other handlers did before, and its result satisfies a
    postcondition.  [pool_sound] shows that handlers checked one by one are safe in
    every interleaving. *)

From S2P Require Import Prelude Errors.
From stdpp Require Import base list relations.
From Stdlib Require Import Lia.

(** ** Definitions *)

Section prog.
Context {S E : Type}.

Inductive prog (A : Type) : Type :=
| Ret (a : A)
| Atomic (B : Type) (f : S → S * list E * B) (k : B → prog A)
| Pick (n : nat) (k : nat → prog A).
Arguments Ret {A} a.
Arguments Atomic {A B} f k.
Arguments Pick {A} n k.

Fixpoint prog_bind {A B} (p : prog A) (g : A → prog B) : prog B :=
  match p with
  | Ret a => g a
  | Atomic f k => Atomic f (λ b, prog_bind (k b) g)
  | Pick n k => Pick n (λ i, prog_bind (k i) g)
  end.

(** Runs to completion without interference, choices made by [sched]. *)
Fixpoint run {A} (sched : nat → nat) (p : prog A) (s : S) : S * list E * A :=
  match p with
  | Ret a => (s, [], a)
  | Atomic f k =>
      let '(s', ev, b) := f s in
      let '(s'', ev', a) := run sched (k b) s' in
      (s'', ev ++ ev', a)
  | Pick n k => run sched (k (sched n)) s
  end.

(** One step of one program. *)
Inductive prog_step {A} : prog A → S → prog A → S → list E → Prop :=
| StepAtomic B (f : S → S * list E * B) k s s' ev b :
    f s = (s', ev, b) → prog_step (Atomic f k) s (k b) s' ev
| StepPick n k i s : i < n → prog_step (Pick n k) s (k i) s [].

(** A pool of programs over one state, with the log so far. *)
Record pool (A : Type) := mkPool {
  pl_state : S;
  pl_log : list E;
  pl_threads : list (prog A)
}.
Arguments mkPool {A} _ _ _.
Arguments pl_state {A} _.
Arguments pl_log {A} _.
Arguments pl_threads {A} _.

(** The scheduler runs one step of any thread, or a new thread of the allowed
    kind arrives. *)
Inductive pool_step {A} (allowed : prog A → Prop) : pool A → pool A → Prop :=
| PoolRun s log ts i p p' s' ev :
    ts !! i = Some p → prog_step p s p' s' ev →
    pool_step allowed (mkPool s log ts) (mkPool s' (log ++ ev) (<[i := p']> ts))
| PoolSpawn s log ts p :
    allowed p → pool_step allowed (mkPool s log ts) (mkPool s log (ts ++ [p])).

(** The condition on one program: [known] is a part of the log it may rely on. *)
Fixpoint wp (I : S → list E → Prop) {A} (p : prog A) (known : list E)
    (Q : A → list E → Prop) : Prop :=
  match p with
  | Ret a => Q a known
  | Atomic f k =>
      ∀ s log s' ev b, I s log → known ⊆ log → f s = (s', ev, b) →
        I s' (log ++ ev) ∧ wp I (k b) (log ++ ev) Q
  | Pick n k => ∀ i, i < n → wp I (k i) known Q
  end.
End prog.

Arguments Ret {S E A} a.
Arguments Atomic {S E A B} f k.
Arguments Pick {S E A} n k.
Arguments mkPool {S E A} _ _ _.
Arguments pl_state {S E A} _.
Arguments pl_log {S E A} _.
Arguments pl_threads {S E A} _.

Declare Scope prog_scope.
Delimit Scope prog_scope with prog.
Notation "'do' x <- p ; k" := (prog_bind p (λ x, k))
  (at level 10, x binder, p at level 100, k at level 200) : prog_scope.
Open Scope prog_scope.

(** A critical section as a program, with and without events. *)
Definition atomically {S E B} (f : S → S * list E * B) : prog B := Atomic f Ret.

Definition atomic {S E B} (f : S → S * B) : @prog S E B :=
  Atomic (λ s, let '(s', b) := f s in (s', [], b)) Ret.

(** A section that only reads. *)
Definition reading {S E B} (f : S → B) : @prog S E B := Atomic (λ s, (s, [], f s)) Ret.

(** Sequencing on the success of a fallible program. *)
Definition prog_try {S E A B} (p : @prog S E (result A goerror))
    (g : A → @prog S E (result B goerror)) : @prog S E (result B goerror) :=
  do r <- p;
  match r with
  | Ok a => g a
  | Err e => Ret (Err e)
  | Panics m => Ret (Panics m)
  end.

Notation "'must' x <- p ; k" := (prog_try p (λ x, k))
  (at level 10, x binder, p at level 100, k at level 200) : prog_scope.

(** A program of a component, on a state and a log that hold those of the component. *)
Fixpoint prog_lift {S S' E E' A} (get : S → S') (set : S' → S → S) (ev : E' → E) (p : @prog S' E' A) : @prog S E A :=
  match p with
  | Ret a => Ret a
  | Atomic f k =>
      Atomic (λ s, let '(s', es, b) := f (get s) in (set s' s, ev <$> es, b)) (λ b, prog_lift get set ev (k b))
  | Pick n k => Pick n (λ i, prog_lift get set ev (k i))
  end.

(** The results a program can return, whatever other programs do to the state between its sections. *)
Fixpoint may_return {S E A} (p : @prog S E A) (a : A) : Prop :=
  match p with
  | Ret b => a = b
  | Atomic f k => ∃ s, may_return (k (f s).2) a
  | Pick n k => ∃ i, i < n ∧ may_return (k i) a
  end.

(** Every result of a program, whatever its sections return, is in [P]. *)
Fixpoint returns {S E A} (P : A → Prop) (p : @prog S E A) : Prop :=
  match p with
  | Ret a => P a
  | Atomic f k => ∀ b, returns P (k b)
  | Pick n k => ∀ i, returns P (k i)
  end.

(** [errgroup.Group]: every task runs, in an order the scheduler picks; the first
    error is the result, and a panic wins. *)
Definition eg_first (acc r : result unit goerror) : result unit goerror :=
  match acc, r with
  | Panics m, _ => Panics m
  | _, Panics m => Panics m
  | Err e, _ => Err e
  | Ok _, r => r
  end.

Fixpoint eg_go {S E} (n : nat) (tasks : list (@prog S E (result unit goerror)))
    (acc : result unit goerror) : @prog S E (result unit goerror) :=
  match n with
  | O => Ret acc
  | S n' =>
      Pick (length tasks) (λ i,
        match tasks !! i with
        | None => Ret acc
        | Some t => do r <- t; eg_go n' (delete i tasks) (eg_first acc r)
        end)
  end.

Definition eg_Wait {S E} (tasks : list (@prog S E (result unit goerror)))
    : @prog S E (result unit goerror) := eg_go (length tasks) tasks (Ok ()).

(** Two goroutines side by side until both have returned: the scheduler picks whose next
    section runs. *)
Fixpoint par {S E A B} (p : @prog S E A) : @prog S E B → @prog S E (A * B) :=
  fix go q :=
    match p, q with
    | Ret a, _ => do b <- q; Ret (a, b)
    | _, Ret b => do a <- p; Ret (a, b)
    | _, _ =>
        Pick 2 (λ turn,
          match turn with
          | O =>
              match p with
              | Ret a => do b <- q; Ret (a, b)
              | Atomic f k => Atomic f (λ x, par (k x) q)
              | Pick n k => Pick n (λ i, par (k i) q)
              end
          | _ =>
              match q with
              | Ret b => do a <- p; Ret (a, b)
              | Atomic f k => Atomic f (λ x, go (k x))
              | Pick n k => Pick n (λ i, go (k i))
              end
          end)
    end.

(** What a group reports of the outcomes of two of its goroutines: a panic ends the process,
    and of two errors that of the goroutine that happened to return first. *)
Definition eg_both {S E A B C} (f : A → B → C) (ra : result A goerror) (rb : result B goerror)
    : @prog S E (result C goerror) :=
  match ra, rb with
  | Ok a, Ok b => Ret (Ok (f a b))
  | Panics m, _ => Ret (Panics m)
  | _, Panics m => Ret (Panics m)
  | Err e, Ok _ => Ret (Err e)
  | Ok _, Err e => Ret (Err e)
  | Err e, Err e' => Pick 2 (λ first, Ret (Err (if first is O then e else e')))
  end.

(** Goroutines that loop: [step] is one iteration of a goroutine: it updates the variables the goroutines share
    and ends or goes on; the scheduler picks whose turn it is.  Out of fuel is [None]. *)
Fixpoint eg_run {S E T L} (step : T → L → @prog S E (L * option T)) (fuel : nat) (tasks : list T) (l : L)
    : @prog S E (option L) :=
  match tasks with
  | [] => Ret (Some l)
  | _ =>
      match fuel with
      | O => Ret None
      | S fuel' =>
          Pick (length tasks) (λ i,
            match tasks !! i with
            | None => Ret None
            | Some t =>
                do r <- step t l;
                eg_run step fuel'
                  (match r.2 with Some t' => <[i := t']> tasks | None => delete i tasks end) r.1
            end)
      end
  end.

(** Postconditions that more knowledge does not spoil. *)
Definition stable {E A} (Q : A → list E → Prop) : Prop := ∀ a l l', l ⊆ l' → Q a l → Q a l'.

(** *** Executing a schedule *)

(** One step of a program, with [c] as the choice at a [Pick]. *)
Definition thread_step {S E A} (c : nat) (p : @prog S E A) (s : S)
    : option (@prog S E A * S * list E) :=
  match p with
  | Ret _ => None
  | Atomic f k => let '(s', ev, b) := f s in Some (k b, s', ev)
  | Pick n k => if decide (c < n) then Some (k c, s, []) else None
  end.

(** Runs the scheduled threads; entries that cannot step are skipped. *)
Fixpoint pool_exec {S E A} (sched : list (nat * nat)) (pl : @pool S E A) : @pool S E A :=
  match sched with
  | [] => pl
  | (i, c) :: l =>
      pool_exec l
        match pl_threads pl !! i with
        | None => pl
        | Some p =>
            match thread_step c p (pl_state pl) with
            | None => pl
            | Some (p', s', ev) => mkPool s' (pl_log pl ++ ev) (<[i := p']> (pl_threads pl))
            end
        end
  end.

(** The schedule that runs thread 0 of a pool alone, its choices made by [choice]. *)
Fixpoint drive {S E A} (fuel : nat) (choice : nat → nat) (p : @prog S E A) (s : S) : list (nat * nat) :=
  match fuel, p with
  | S fuel', Atomic f k => let '(s', _, b) := f s in (0%nat, 0%nat) :: drive fuel' choice (k b) s'
  | S fuel', Pick n k => (0%nat, choice n) :: drive fuel' choice (k (choice n)) s
  | _, _ => []
  end.

(** ** Lemmas *)

Section wp.
Context {S E : Type} (I : S → list E → Prop).

Lemma known_app (known log ev : list E) : known ⊆ log → known ⊆ log ++ ev.
Proof. intros H x Hx. apply elem_of_app. left. by apply H. Qed.

(** What is checked with less known holds with more known. *)
Lemma wp_mono {A} (p : prog A) known known' (Q : A → list E → Prop) :
  stable Q → known ⊆ known' → wp I p known Q → wp I p known' Q.
Proof.
  intros HQ. revert known known'. induction p as [a|B f k IH|n k IH]; intros known known' Hk; cbn.
  - by apply HQ.
  - intros H s log s' ev b HI Hl Hf. apply (H s log s' ev b); [done|by etransitivity|done].
  - intros H i Hi. eapply IH; [exact Hk|]. by apply H.
Qed.

Lemma wp_impl {A} (p : prog A) known (Q Q' : A → list E → Prop) :
  (∀ a l, Q a l → Q' a l) → wp I p known Q → wp I p known Q'.
Proof.
  intros HQ. revert known. induction p as [a|B f k IH|n k IH]; intros known; cbn.
  - by apply HQ.
  - intros H s log s' ev b HI Hl Hf. destruct (H s log s' ev b HI Hl Hf) as [HI' Hw].
    split; [done|]. by apply IH.
  - intros H i Hi. apply IH. by apply H.
Qed.

Lemma wp_bind {A B} (p : prog A) (g : A → prog B) known Q :
  wp I p known (λ a l, wp I (g a) l Q) → wp I (prog_bind p g) known Q.
Proof.
  revert known. induction p as [a|C f k IH|n k IH]; intros known; cbn.
  - done.
  - intros H s log s' ev b HI Hl Hf. destruct (H s log s' ev b HI Hl Hf) as [HI' Hw].
    split; [done|]. by apply IH.
  - intros H i Hi. by apply IH, H.
Qed.

Lemma wp_bind_inv {A B} (p : prog A) (g : A → prog B) known Q :
  wp I (prog_bind p g) known Q → wp I p known (λ a l, wp I (g a) l Q).
Proof.
  revert known. induction p as [a|C f k IH|n k IH]; intros known; cbn.
  - done.
  - intros H s log s' ev b HI Hl Hf. destruct (H s log s' ev b HI Hl Hf) as [HI' Hw].
    split; [done|]. by apply IH.
  - intros H i Hi. by apply IH, H.
Qed.

Lemma wp_try {A B} (p : @prog S E (result A goerror)) (g : A → @prog S E (result B goerror)) known Q :
  wp I p known (λ r l,
    match r with
    | Ok a => wp I (g a) l Q
    | Err e => Q (Err e) l
    | Panics m => Q (Panics m) l
    end) →
  wp I (prog_try p g) known Q.
Proof. intros H. apply wp_bind. eapply wp_impl; [|exact H]. by intros [a|e|m] l. Qed.

(** A program's knowledge only grows. *)
Lemma wp_grow {A} (p : prog A) known (Q : A → list E → Prop) :
  wp I p known Q → wp I p known (λ a l, Q a l ∧ known ⊆ l).
Proof.
  assert (∀ base known, base ⊆ known → wp I p known Q → wp I p known (λ a l, Q a l ∧ base ⊆ l)) as H.
  { intros base. clear known. induction p as [a|B f k IH|n k IH]; intros known Hb; cbn.
    - done.
    - intros Hw s log s' ev b HI Hl Hf. destruct (Hw s log s' ev b HI Hl Hf) as [HI' Hw'].
      split; [done|]. apply IH; [|done]. apply known_app. by etransitivity.
    - intros Hw i Hi. apply IH; [done|]. by apply Hw. }
  by apply H.
Qed.

Lemma wp_reading {A B} (f : S → B) (k : B → @prog S E A) known Q :
  (∀ s log, I s log → known ⊆ log → wp I (k (f s)) log Q) →
  wp I (prog_bind (reading f) k) known Q.
Proof.
  intros H s log s' ev b HI Hl [= <- <- <-]. rewrite app_nil_r. split; [done|]. by apply H.
Qed.

(** Tasks of an [errgroup] that need nothing and promise nothing but the invariant. *)
Lemma wp_eg_go n tasks acc known (Q : result unit goerror → list E → Prop) :
  stable Q → length tasks = n →
  (∀ t, t ∈ tasks → wp I t known (λ _ _, True)) →
  (∀ r l, known ⊆ l → Q r l) →
  wp I (eg_go n tasks acc) known Q.
Proof.
  intros HQ. revert tasks acc known.
  induction n as [|n IH]; intros tasks acc known Hn Ht Hq; cbn; [by apply Hq|].
  intros i Hi. destruct (lookup_lt_is_Some_2 tasks i Hi) as [t Hti]. rewrite Hti.
  apply wp_bind. pose proof (Ht t (list_elem_of_lookup_2 _ _ _ Hti)) as Hw.
  eapply wp_impl; [|apply wp_grow, Hw]. cbn. intros r l [_ Hl].
  apply IH.
  - rewrite length_delete; [lia|done].
  - intros t' Ht'. eapply wp_mono; [done|exact Hl|]. apply Ht.
    eapply elem_of_submseteq; [exact Ht'|]. by apply sublist_submseteq, sublist_delete.
  - intros r' l' Hl'. apply Hq. by etransitivity.
Qed.

Lemma wp_eg_Wait tasks known (Q : result unit goerror → list E → Prop) :
  stable Q → (∀ t, t ∈ tasks → wp I t known (λ _ _, True)) →
  (∀ r l, known ⊆ l → Q r l) →
  wp I (eg_Wait tasks) known Q.
Proof. intros. by apply wp_eg_go. Qed.

(** Sequencing by postconditions. *)
Lemma wp_seq {A B} (p : prog A) (g : A → prog B) known (R : A → list E → Prop) Q :
  wp I p known R → (∀ a l, known ⊆ l → R a l → wp I (g a) l Q) → wp I (prog_bind p g) known Q.
Proof.
  intros Hp Hg. apply wp_bind. eapply wp_impl; [|apply wp_grow, Hp]. cbn. intros a l [HR Hl]. by apply Hg.
Qed.

Lemma wp_seq_try {A B} (p : @prog S E (result A goerror)) (g : A → @prog S E (result B goerror)) known
    (R : result A goerror → list E → Prop) (Q : result B goerror → list E → Prop) :
  wp I p known R → (∀ a l, known ⊆ l → R (Ok a) l → wp I (g a) l Q) →
  (∀ e l, Q (Err e) l) → (∀ m l, Q (Panics m) l) → wp I (prog_try p g) known Q.
Proof. intros Hp Hg He Hm. eapply wp_seq; [exact Hp|]. intros [a|e|m] l Hl HR; [by apply Hg|by apply He|by apply Hm]. Qed.

(** Goroutines side by side reach what each reaches, if nothing later spoils it. *)
Lemma wp_par {A B} (p : prog A) (q : prog B) known (Q1 : A → list E → Prop) (Q2 : B → list E → Prop) :
  stable Q1 → stable Q2 → wp I p known Q1 → wp I q known Q2 →
  wp I (par p q) known (λ r l, Q1 r.1 l ∧ Q2 r.2 l).
Proof.
  intros H1 H2. revert q known.
  assert (∀ p known, wp I p known Q1 → ∀ b, Q2 b known →
    wp I (do a <- p; Ret (a, b)) known (λ r l, Q1 r.1 l ∧ Q2 r.2 l)) as Hp.
  { intros p0 k Hp b Hb. apply (wp_seq _ _ _ Q1 _ Hp). intros a l Hl Ha. split; [done|]. by eapply H2. }
  assert (∀ q known, wp I q known Q2 → ∀ a, Q1 a known →
    wp I (do b <- q; Ret (a, b)) known (λ r l, Q1 r.1 l ∧ Q2 r.2 l)) as Hq.
  { intros q0 k Hq a Ha. apply (wp_seq _ _ _ Q2 _ Hq). intros b l Hl Hb. split; [|done]. by eapply H1. }
  induction p as [a|X f k IH|n k IH].
  { intros [b|X f k|n k] known Hwp Hwq; by apply (Hq _ known Hwq). }
  all: induction q as [b|Y f' k' IHq|n' k' IHq]; intros known Hwp Hwq; [by apply (Hp _ known Hwp)|..].
  all: intros [|turn] Hturn; cbn.
  - intros s log s' ev x HI Hl Hf. destruct (Hwp s log s' ev x HI Hl Hf) as [HI' Hw]. split; [done|].
    apply IH; [done|]. eapply wp_mono; [done|by apply known_app|exact Hwq].
  - intros s log s' ev x HI Hl Hf. destruct (Hwq s log s' ev x HI Hl Hf) as [HI' Hw]. split; [done|].
    apply IHq; [|done]. eapply wp_mono; [done|by apply known_app|exact Hwp].
  - intros s log s' ev x HI Hl Hf. destruct (Hwp s log s' ev x HI Hl Hf) as [HI' Hw]. split; [done|].
    apply IH; [done|]. eapply wp_mono; [done|by apply known_app|exact Hwq].
  - intros i Hi. apply IHq; [done|]. by apply Hwq.
  - intros i Hi. apply IH; [|done]. by apply Hwp.
  - intros s log s' ev x HI Hl Hf. destruct (Hwq s log s' ev x HI Hl Hf) as [HI' Hw]. split; [done|].
    apply IHq; [|done]. eapply wp_mono; [done|by apply known_app|exact Hwp].
  - intros i Hi. apply IH; [|done]. by apply Hwp.
  - intros i Hi. apply IHq; [done|]. by apply Hwq.
Qed.

(** Looping goroutines keep an invariant of what they share; they end, because every
    iteration either ends its goroutine or decreases the measure. *)
Lemma wp_eg_run {T L} (step : T → L → @prog S E (L * option T)) (Tinv : T → Prop) (Linv : L → list E → Prop)
    (measure : L → nat) fuel tasks l known :
  (∀ l k k', k ⊆ k' → Linv l k → Linv l k') →
  (∀ t l k, Tinv t → Linv l k →
     wp I (step t l) k (λ r k', Linv r.1 k' ∧
       match r.2 with
       | Some t' => Tinv t' ∧ (measure r.1 < measure l)%nat
       | None => (measure r.1 ≤ measure l)%nat
       end)) →
  Forall Tinv tasks → Linv l known → (length tasks + measure l ≤ fuel)%nat →
  wp I (eg_run step fuel tasks l) known (λ r k, ∃ l', r = Some l' ∧ Linv l' k).
Proof.
  intros Hst Hstep. revert tasks l known. induction fuel as [|fuel IH]; intros tasks l known HT HL Hf.
  - destruct tasks; cbn in *; [by exists l|lia].
  - destruct tasks as [|t0 tasks]; [by exists l|]. cbn [eg_run]. intros i Hi.
    destruct (lookup_lt_is_Some_2 (t0 :: tasks) i Hi) as [t Ht]. rewrite Ht.
    assert (Tinv t) as Htt by (by eapply Forall_lookup_1).
    eapply wp_seq; [by apply Hstep|]. cbn beta. intros [l' [t'|]] k Hk; cbn [fst snd].
    + intros (HL' & Ht' & Hm). apply IH; [by apply Forall_insert|done|]. rewrite length_insert. lia.
    + intros (HL' & Hm). apply IH; [by apply Forall_delete|done|]. rewrite length_delete by done. cbn in *. lia.
Qed.
End wp.

(** With no invariant to keep every program is fine. *)
Section lift.
Context {S S' E E' : Type} (get : S → S') (set : S' → S → S) (ev : E' → E) (unev : E → option E').
Context (Hget : ∀ s' s, get (set s' s) = s') (Hev : ∀ e, unev (ev e) = Some e).

Lemma omap_ev (es : list E') : omap unev (ev <$> es) = es.
Proof using Hev. induction es as [|e es IH]; [done|]. cbn. by rewrite Hev, IH. Qed.

Lemma omap_subseteq (k l : list E) : k ⊆ l → omap unev k ⊆ omap unev l.
Proof. intros H e. rewrite !list_elem_of_omap. intros (x & Hx & He). exists x. auto. Qed.

(** A component's condition holds of its lifted program. *)
Lemma wp_lift I {A} (p : @prog S' E' A) known known' (Q : A → list E' → Prop) :
  stable Q → wp I p known Q → known ⊆ omap unev known' →
  wp (λ s log, I (get s) (omap unev log)) (prog_lift get set ev p) known' (λ a log, Q a (omap unev log)).
Proof using Hget Hev.
  intros HQ. revert known known'. induction p as [a|B f k IH|n k IH]; intros known known' Hp Hk; cbn [prog_lift wp] in *.
  - by eapply HQ.
  - intros s log s1 evs b HI Hlog. destruct (f (get s)) as [[s' es] b'] eqn:Ef. intros [= <- <- <-].
    destruct (Hp _ _ _ _ _ HI (transitivity Hk (omap_subseteq _ _ Hlog)) Ef) as [HI' Hw].
    rewrite omap_app, omap_ev, Hget. split; [done|]. eapply IH; [exact Hw|]. by rewrite omap_app, omap_ev.
  - intros i Hi. eapply IH; [by apply Hp|done].
Qed.
End lift.

Lemma may_return_bind {S E A B} (p : @prog S E A) (g : A → @prog S E B) b :
  may_return (prog_bind p g) b ↔ ∃ a, may_return p a ∧ may_return (g a) b.
Proof.
  split.
  - induction p as [a|C f k IH|n k IH]; cbn; [by exists a| |].
    + intros (s & Hs). destruct (IH _ Hs) as (a & Ha & Hb). exists a. split; [by exists s|done].
    + intros (i & Hi & Hk). destruct (IH _ Hk) as (a & Ha & Hb). exists a. split; [by exists i|done].
  - intros (a & Ha & Hb). induction p as [a'|C f k IH|n k IH]; cbn in *; [by subst| |].
    + destruct Ha as [s Ha]. exists s. by apply IH.
    + destruct Ha as (i & Hi & Ha). exists i. split; [done|]. by apply IH.
Qed.

Lemma returns_bind {S E A B} (p : @prog S E A) (g : A → @prog S E B) (P : A → Prop) (Q : B → Prop) :
  returns P p → (∀ a, P a → returns Q (g a)) → returns Q (prog_bind p g).
Proof. intros Hp Hg. induction p as [a|C f k IH|n k IH]; cbn; [by apply Hg| |]; intros x; apply IH, Hp. Qed.

Lemma returns_all {S E A} (p : @prog S E A) : returns (λ _, True) p.
Proof. by induction p. Qed.

Lemma returns_par {S E A B} (p : @prog S E A) (q : @prog S E B) (P : A → Prop) (Q : B → Prop) :
  returns P p → returns Q q → returns (λ r, P r.1 ∧ Q r.2) (par p q).
Proof.
  assert (∀ (p : @prog S E A) b, returns P p → Q b → returns (λ r, P r.1 ∧ Q r.2) (do a <- p; Ret (a, b))) as Hl.
  { intros p0 b Hp Hb. by apply (returns_bind _ _ P). }
  assert (∀ (q : @prog S E B) a, returns Q q → P a → returns (λ r, P r.1 ∧ Q r.2) (do b <- q; Ret (a, b))) as Hr.
  { intros q0 a Hq Ha. by apply (returns_bind _ _ Q). }
  revert q. induction p as [a|X f k IH|n k IH].
  { intros [b|Y f k|n k] Hp Hq; by apply Hr. }
  all: induction q as [b|Y f' k' IHq|n' k' IHq]; intros Hp Hq; [by apply Hl|..].
  all: intros [|turn] x; [by apply IH|by apply IHq].
Qed.

Lemma returns_run {S E A} (sched : nat → nat) (p : @prog S E A) (P : A → Prop) s s' ev a :
  returns P p → run sched p s = (s', ev, a) → P a.
Proof.
  revert s ev. induction p as [a'|B f k IH|n k IH]; intros s ev Hp; cbn [run]; [by intros [= _ _ <-]| |by eapply IH].
  destruct (f s) as [[s1 ev1] b]. destruct (run sched (k b) s1) as [[s2 ev2] a2] eqn:Er. intros [= -> _ ->]. by eapply IH.
Qed.

Lemma wp_no_invariant {S E A} (p : @prog S E A) known : wp (λ _ _, True) p known (λ _ _, True).
Proof. revert known. induction p as [a|B f k IH|n k IH]; intros known; cbn; [done| |by intros]. intros; by split. Qed.

(** *** Running alone *)

Section run.
Context {S E : Type} (sched : nat → nat).

Lemma run_bind {A B} (p : @prog S E A) (g : A → @prog S E B) s s1 ev1 a s2 ev2 b :
  run sched p s = (s1, ev1, a) → run sched (g a) s1 = (s2, ev2, b) →
  run sched (prog_bind p g) s = (s2, ev1 ++ ev2, b).
Proof.
  revert s s1 ev1. induction p as [a'|C f k IH|n k IH]; intros s s1 ev1; cbn.
  - by intros [= -> <- ->] ->.
  - destruct (f s) as [[s' ev] c]. destruct (run sched (k c) s') as [[s'' ev'] a'] eqn:Er.
    intros [= -> <- ->] Hg. rewrite (IH c _ _ _ Er Hg). by rewrite app_assoc.
  - intros Hr Hg. by eapply IH.
Qed.

Lemma run_try {A B} (p : @prog S E (result A goerror)) (g : A → @prog S E (result B goerror))
    s s1 ev1 a s2 ev2 b :
  run sched p s = (s1, ev1, Ok a) → run sched (g a) s1 = (s2, ev2, b) →
  run sched (prog_try p g) s = (s2, ev1 ++ ev2, b).
Proof. intros Hp Hg. by eapply run_bind. Qed.

Lemma run_bind_eq {A B} (p : @prog S E A) (g : A → @prog S E B) s :
  run sched (prog_bind p g) s
  = let '(s1, ev1, a) := run sched p s in
    let '(s2, ev2, b) := run sched (g a) s1 in (s2, ev1 ++ ev2, b).
Proof.
  destruct (run sched p s) as [[s1 ev1] a] eqn:E1. destruct (run sched (g a) s1) as [[s2 ev2] b] eqn:E2.
  by eapply run_bind.
Qed.

(** What follows a program that only turns its result. *)
Lemma run_map {A B} (p : @prog S E (result A goerror)) (g : A → result B goerror) s :
  run sched (prog_try p (λ a, Ret (g a))) s
  = let '(s1, ev1, r) := run sched p s in (s1, ev1, result_bind r g).
Proof.
  unfold prog_try. rewrite run_bind_eq. destruct (run sched p s) as [[s1 ev1] r]. destruct r; cbn; by rewrite app_nil_r.
Qed.

(** A lifted program runs as it does on its own state. *)
Lemma run_lift {S' E' A} (get : S → S') (set : S' → S → S) (ev : E' → E) (p : @prog S' E' A) s :
  (∀ x s, get (set x s) = x) → (∀ x y s, set x (set y s) = set x s) → (∀ s, set (get s) s = s) →
  run sched (prog_lift get set ev p) s
  = let '(s', es, a) := run sched p (get s) in (set s' s, ev <$> es, a).
Proof.
  intros Hgs Hss Hsg. revert s. induction p as [a|B f k IH|n k IH]; intros s; cbn [prog_lift run].
  - by rewrite Hsg.
  - destruct (f (get s)) as [[s' es] b]. rewrite IH, Hgs. destruct (run sched (k b) s') as [[s'' es'] a].
    by rewrite Hss, fmap_app.
  - apply IH.
Qed.
End run.

(** ** Soundness *)

Section pool.
Context {S E A : Type} (I : S → list E → Prop) (Q : A → list E → Prop).
Context (allowed : @prog S E A → Prop).
Hypothesis HQ : stable Q.
Hypothesis Hallowed : ∀ p, allowed p → wp I p [] Q.

(** Every thread of the pool satisfies its condition with what the log holds. *)
Definition pool_ok (pl : pool A) : Prop :=
  I (pl_state pl) (pl_log pl) ∧
  Forall (λ p, ∃ known, known ⊆ pl_log pl ∧ wp I p known Q) (pl_threads pl).

Lemma pool_step_ok pl pl' : pool_ok pl → pool_step allowed pl pl' → pool_ok pl'.
Proof.
  intros [HI Ht] Hstep. destruct Hstep as [s log ts i p p' s' ev Hi Hp|s log ts p Hp]; cbn in *.
  - rewrite list.Forall_forall in Ht.
    destruct (Ht p (list_elem_of_lookup_2 _ _ _ Hi)) as (known & Hk & Hw).
    assert (I s' (log ++ ev) ∧ wp I p' (log ++ ev) Q) as [HI' Hw'].
    { destruct Hp as [B f k s s' ev b Hf|n k j s Hj]; cbn in Hw.
      - by apply (Hw s log s' ev b).
      - rewrite app_nil_r. split; [done|]. eapply wp_mono; [done|exact Hk|]. by apply Hw. }
    split; cbn; [done|]. apply Forall_insert.
    + rewrite list.Forall_forall. intros q Hq. destruct (Ht q Hq) as (kn & Hkn & Hwq).
      exists kn. split; [set_solver|done].
    + by exists (log ++ ev).
  - split; cbn; [done|]. apply Forall_app. split; [done|]. constructor; [|constructor].
    exists []. split; [set_solver|]. by apply Hallowed.
Qed.

(** In every reachable pool the invariant holds, and what a finished handler
    returned satisfies the postcondition. *)
Lemma pool_sound s log pl :
  I s log → rtc (pool_step allowed) (mkPool s log []) pl →
  I (pl_state pl) (pl_log pl) ∧
  ∀ i a, pl_threads pl !! i = Some (Ret a) → Q a (pl_log pl).
Proof.
  intros HI Hrtc. assert (pool_ok (mkPool s log [])) as Hok by (split; [done|constructor]).
  assert (pool_ok pl) as [HI' Ht].
  { remember (mkPool s log []) as pl0 eqn:E0. clear E0. induction Hrtc as [|x y z Hxy _ IH]; [done|].
    apply IH. by eapply pool_step_ok. }
  split; [done|]. intros i a Hi. rewrite list.Forall_forall in Ht.
  destruct (Ht _ (list_elem_of_lookup_2 _ _ _ Hi)) as (known & Hk & Hw). cbn in Hw. by eapply HQ.
Qed.
End pool.

Section exec.
Context {S E A : Type} (allowed : @prog S E A → Prop).

Lemma thread_step_sound c (p : @prog S E A) s p' s' ev :
  thread_step c p s = Some (p', s', ev) → prog_step p s p' s' ev.
Proof.
  destruct p as [a|B f k|n k]; cbn; [done| |].
  - destruct (f s) as [[s1 e1] b] eqn:Ef. intros [= <- <- <-]. by constructor.
  - case_decide; [|done]. intros [= <- <- <-]. by constructor.
Qed.

(** What a schedule executes is a run of the pool. *)
Lemma pool_exec_rtc sched (pl : pool A) : rtc (pool_step allowed) pl (pool_exec sched pl).
Proof.
  revert pl. induction sched as [|[i c] l IH]; intros pl; cbn; [done|].
  destruct (pl_threads pl !! i) as [p|] eqn:Ei; [|apply IH].
  destruct (thread_step c p (pl_state pl)) as [[[p' s'] ev]|] eqn:Et; [|apply IH].
  eapply rtc_l; [|apply IH]. destruct pl as [s log ts]. cbn in *.
  eapply PoolRun; [exact Ei|]. by eapply thread_step_sound.
Qed.

Lemma pool_spawn_all s log (ts : list (@prog S E A)) :
  Forall allowed ts → rtc (pool_step allowed) (mkPool s log []) (mkPool s log ts).
Proof.
  induction ts as [|p ts IH] using rev_ind; [done|]. intros [H1 H2]%Forall_app.
  eapply rtc_r; [by apply IH|]. constructor. by inversion H2.
Qed.
End exec.

(** The log is not looked at: a run goes the same way after a log that holds more. *)
Definition log_after {S E A} (earlier : list E) (pl : @pool S E A) : @pool S E A :=
  mkPool (pl_state pl) (earlier ++ pl_log pl) (pl_threads pl).

Lemma pool_step_log_after {S E A} (allowed : @prog S E A → Prop) earlier x y :
  pool_step allowed x y → pool_step allowed (log_after earlier x) (log_after earlier y).
Proof. intros [s log ts i p p' s' ev Hi Hp|s log ts p Hp]; unfold log_after; cbn; [rewrite app_assoc|]; by econstructor. Qed.

Lemma pool_rtc_log_after {S E A} (allowed : @prog S E A → Prop) earlier x y :
  rtc (pool_step allowed) x y → rtc (pool_step allowed) (log_after earlier x) (log_after earlier y).
Proof. apply rtc_congruence. intros ? ?. apply pool_step_log_after. Qed.
