(* ===== verification/LocalCosigner.v ===== *)
(** * The local cosigner

    Models src/signer/local_cosigner.go.  A cosigner keeps, per chain, a pointer to
    its watermark and signer, and a table of nonces by UUID.  Its handlers run
    concurrently: each is a [prog] (Conc.v) whose atomic steps are the critical
    sections of [noncesMu], of [SignState.mu] and of the [sync.Map], in the order the
    source executes them.

    [lc_heap] holds the [ChainState] objects and [lc_chainState] the pointers, because
    a handler keeps the pointer it loaded while others may replace it in the map.
    Time and randomness are arguments of the handlers that use them.  The events of
    the log are ghosts: [EvGenerated] and [EvConsumed] (a nonce round was made, or taken for
    signing), [EvSaved] (a payload became the watermark) and [EvReached] (a save found the
    watermark already at its key). *)

From S2P Require Import Prelude Hrs Errors Comet SignState Config Cosigner Conc.
From stdpp Require Import base gmap list strings numbers pretty relations.
From Stdlib Require Import ZArith Lia.

Open Scope Z_scope.

(** ** Definitions *)

Record ChainState (S : Type) := mkChainState {
  cs_lastSignState : SignState;
  cs_signer : S
}.
Arguments mkChainState {S} _ _.
Arguments cs_lastSignState {S} _.
Arguments cs_signer {S} _.

(** The fields set at construction. *)
Record LocalCosigner (K : Type) := mkLocalCosigner {
  lc_config : RuntimeConfig;
  lc_security : K;
  lc_address : string
}.
Arguments mkLocalCosigner {K} _ _ _.
Arguments lc_config {K} _.
Arguments lc_security {K} _.
Arguments lc_address {K} _.

(** The fields the handlers share. *)
Record LCState (S : Type) := mkLCState {
  lc_chainState : gmap string nat;
  lc_heap : list (ChainState S);
  lc_nonces : gmap UUID NoncesWithExpiration;
  lc_disk : Disk
}.
Arguments mkLCState {S} _ _ _ _.
Arguments lc_chainState {S} _.
Arguments lc_heap {S} _.
Arguments lc_nonces {S} _.
Arguments lc_disk {S} _.

Inductive lc_event : Type :=
| EvGenerated (u : UUID)
| EvConsumed (u : UUID)
| EvSaved (loc : nat) (ssc : SignStateConsensus)
| EvReached (loc : nat) (hrs : HRSKey).

(** The randomness of [GetNonces]: for the nonce of the [j]-th UUID, and for its
    encryption to a peer. *)
Record Randomness (R : Type) := mkRandomness {
  rnd_nonce : nat → R;
  rnd_encrypt : nat → Z → list Z
}.
Arguments mkRandomness {R} _ _.
Arguments rnd_nonce {R} _.
Arguments rnd_encrypt {R} _.

Definition nonceExpiration : Z := 20 * 1000000000.

Definition errUnexpectedState : string := "unexpected state, metadata does not exist for U:".

(** [uuid.String()] *)
Definition uuid_String (u : UUID) : string :=
  hex_EncodeToString (take 4 u) +:+ "-" +:+ hex_EncodeToString (take 2 (drop 4 u)) +:+ "-"
    +:+ hex_EncodeToString (take 2 (drop 6 u)) +:+ "-" +:+ hex_EncodeToString (take 2 (drop 8 u))
    +:+ "-" +:+ hex_EncodeToString (take 6 (drop 10 u)).

(** [uuid.Nil], the value of an unset [VoteExtUUID]. *)
Definition uuid_Nil : UUID := replicate 16 0.

Section local_cosigner.
Context {S K R : Type} `{TS : !ThresholdSigner S} `{CS : !CosignerSecurity K} `{C : !Codec} `{J : !Json}.

(** [NewThresholdSignerSoft(config, id, chainID)] and [GenerateNonces(threshold, total)]. *)
Context (NewThresholdSigner : RuntimeConfig → Z → string → FileSystem → result S goerror).
Context (GenerateNonces : R → Z → Z → result Nonces goerror).
Context (cosigner : LocalCosigner K).

Local Abbreviation P A := (@prog (LCState S) lc_event A).
Local Abbreviation St := (LCState S).

Definition set_nonces (n : gmap UUID NoncesWithExpiration) (s : St) : St :=
  mkLCState (lc_chainState s) (lc_heap s) n (lc_disk s).

Definition set_disk (d : Disk) (s : St) : St :=
  mkLCState (lc_chainState s) (lc_heap s) (lc_nonces s) d.

Definition set_heap (h : list (ChainState S)) (s : St) : St :=
  mkLCState (lc_chainState s) h (lc_nonces s) (lc_disk s).

(** [cosigner.GetID()], [cosigner.GetAddress()] *)
Definition GetID : Z := sec_GetID (lc_security cosigner).

Definition GetAddress : string := lc_address cosigner.

(** [cosigner.config.Config.ThresholdModeConfig], a pointer *)
Definition thresholdModeConfig : result ThresholdModeConfig goerror :=
  match cfg_ThresholdModeConfig (rc_Config (lc_config cosigner)) with
  | None => Panics nil_dereference
  | Some tm => Ok tm
  end.

(** *** Nonces *)

Definition pruneNonces (now : Z) : P (result unit goerror) :=
  atomic (λ s, (set_nonces (filter (λ kv, (ne_Expiration kv.2 <? now) = false) (lc_nonces s)) s, Ok ())).

(** The loop of [combinedNonces] over the cosigners' slots. *)
Fixpoint combine_slots (myID : Z) (slots : list Nonces) : result (list Nonce) goerror :=
  match slots with
  | [] => Ok []
  | c :: l =>
      match n_Shares c with
      | None | Some [] => combine_slots myID l
      | Some shares =>
          match zlookup (myID - 1) shares with
          | None => Panics index_out_of_range
          | Some share =>
              if blen share =? 0 then combine_slots myID l
              else try rest <- combine_slots myID l; Ok (mkNonce 0 share (n_PubKey c) :: rest)
          end
      end
  end.

(** [combinedNonces]: the entry is consumed as it is read, whatever comes of it. *)
Definition combinedNonces (myID threshold : Z) (uuid : UUID) : P (result (list Nonce) goerror) :=
  atomically (λ s,
    match lc_nonces s !! uuid with
    | None => (s, [], Err (ErrorString "no metadata at HRS"))
    | Some nonces =>
        (set_nonces (delete uuid (lc_nonces s)) s, [EvConsumed uuid],
         try combined <- combine_slots myID (ne_Nonces nonces);
         let n := Z.of_nat (length combined) in
         if n <? threshold then
           Err (ErrorString ("insufficient nonces for signing: have " +:+ fmt_d n
                             +:+ ", need " +:+ fmt_d threshold))
         else Ok combined)
    end).

Definition generateNonces (r : R) : result (list Nonces) goerror :=
  try tm <- thresholdModeConfig;
  let total := Z.of_nat (length (tm_Cosigners tm)) in
  try nonces <- GenerateNonces r (u8 (tm_Threshold tm)) (u8 total);
  match zinsert (GetID - 1) nonces (replicate (Z.to_nat total) (mkNonces None None)) with
  | None => Panics index_out_of_range
  | Some meta => Ok meta
  end.

(** [generateNoncesIfNecessary]: a read section, then a write section. *)
Definition generateNoncesIfNecessary (now : Z) (r : R) (uuid : UUID)
    : P (result NoncesWithExpiration goerror) :=
  do found <- reading (λ s, lc_nonces s !! uuid);
  match found with
  | Some nonces => Ret (Ok nonces)
  | None =>
      match generateNonces r with
      | Err e => Ret (Err e)
      | Panics m => Ret (Panics m)
      | Ok newNonces =>
          let res := mkNoncesWithExpiration (now + nonceExpiration) newNonces in
          atomically (λ s, (set_nonces (<[uuid := res]> (lc_nonces s)) s, [EvGenerated uuid], Ok res))
      end
  end.

Definition getNonce (meta : NoncesWithExpiration) (r : list Z) (peerID : Z)
    : result CosignerNonce goerror :=
  match zlookup (GetID - 1) (ne_Nonces meta) with
  | None => Panics index_out_of_range
  | Some ourCosignerMeta =>
      match zlookup (peerID - 1) (default [] (n_Shares ourCosignerMeta)) with
      | None => Panics index_out_of_range
      | Some share =>
          EncryptAndSign (lc_security cosigner) r peerID (n_PubKey ourCosignerMeta) share
      end
  end.

(** The encrypted shares for the peers, in increasing order of their IDs.  Their goroutines
    share nothing; of several errors this keeps that of the lowest peer. *)
Fixpoint getNonces_for (meta : NoncesWithExpiration) (r : Z → list Z) (peers : list Z)
    : result (list CosignerNonce) goerror :=
  match peers with
  | [] => Ok []
  | p :: l =>
      try n <- getNonce meta (r p) p;
      try ns <- getNonces_for meta r l; Ok (n :: ns)
  end.

Definition peer_ids (total : Z) : list Z := filter (λ p, p ≠ GetID) (seqZ 1 total).

(** One goroutine of [GetNonces]. *)
Definition GetNonces_one (now : Z) (rnd : Randomness R) (total : Z) (j : nat) (u : UUID)
    : P (result CosignerUUIDNonces goerror) :=
  must meta <- generateNoncesIfNecessary now (rnd_nonce rnd j) u;
  Ret (try nonces <- getNonces_for meta (rnd_encrypt rnd j) (peer_ids total);
       Ok (mkCosignerUUIDNonces u nonces)).

(** The goroutines of [GetNonces], one for each UUID, their sections in any order. *)
Fixpoint GetNonces_all (now : Z) (rnd : Randomness R) (total : Z) (j : nat) (uuids : list UUID)
    : P (result (list CosignerUUIDNonces) goerror) :=
  match uuids with
  | [] => Ret (Ok [])
  | u :: l =>
      do r <- par (GetNonces_one now rnd total j u) (GetNonces_all now rnd total (Datatypes.S j) l);
      eg_both cons r.1 r.2
  end.

Definition GetNonces (now : Z) (rnd : Randomness R) (uuids : list UUID)
    : P (result (list CosignerUUIDNonces) goerror) :=
  match thresholdModeConfig with
  | Err e => Ret (Err e)
  | Panics m => Ret (Panics m)
  | Ok tm => GetNonces_all now rnd (Z.of_nat (length (tm_Cosigners tm))) 0 uuids
  end.

(** The critical section of [setNonce]. *)
Definition set_slot (uuid : UUID) (sourceID : Z) (noncePub nonceShare : gobytes) (s : St)
    : St * result unit goerror :=
  match lc_nonces s !! uuid with
  | None => (s, Err (ErrorString (errUnexpectedState +:+ " " +:+ uuid_String uuid)))
  | Some n =>
      match zlookup (sourceID - 1) (ne_Nonces n) with
      | None => (s, Panics index_out_of_range)
      | Some slot =>
          let store sl := set_nonces (<[uuid := mkNoncesWithExpiration (ne_Expiration n)
                            (<[Z.to_nat (sourceID - 1) := sl]> (ne_Nonces n))]> (lc_nonces s)) s in
          match (match n_Shares slot with
                 | Some shares => Ok shares
                 | None => try tm <- thresholdModeConfig;
                           Ok (replicate (length (tm_Cosigners tm)) None)
                 end) with
          | Err e => (s, Err e)
          | Panics m => (s, Panics m)
          | Ok shares =>
              match zinsert (GetID - 1) nonceShare shares with
              | None => (store (mkNonces (n_PubKey slot) (Some shares)), Panics index_out_of_range)
              | Some shares' => (store (mkNonces noncePub (Some shares')), Ok ())
              end
          end
      end
  end.

Definition setNonce (uuid : UUID) (nonce : CosignerNonce) : P (result unit goerror) :=
  if is_nil (cn_Signature nonce) then Ret (Err (ErrorString "signature field is required"))
  else
    match DecryptAndVerify (lc_security cosigner) (cn_SourceID nonce) (cn_PubKey nonce)
            (cn_Share nonce) (cn_Signature nonce) with
    | Err e => Ret (Err e)
    | Panics m => Ret (Panics m)
    | Ok (noncePub, nonceShare) =>
        atomic (set_slot uuid (cn_SourceID nonce) noncePub nonceShare)
    end.

(** *** Chain state *)

Definition getChainState (chainID : string) : P (result nat goerror) :=
  reading (λ s,
    match lc_chainState s !! chainID with
    | None => Err (ErrorString ("failed to load chain state for " +:+ chainID))
    | Some loc => Ok loc
    end).

(** Dereference of a [*ChainState]. *)
Definition deref (loc : nat) (s : St) : result (ChainState S) goerror :=
  match lc_heap s !! loc with
  | None => Panics nil_dereference
  | Some ccs => Ok ccs
  end.

(** The three sections: [chainState.Load], the state file, [chainState.Store].  The
    check and the store are separate, so two first requests for one chain can both
    get to the store. *)
Definition LoadSignStateIfNecessary (chainID : string) : P (result unit goerror) :=
  match ValidateChainID chainID with
  | Err e => Ret (Err e)
  | Panics m => Ret (Panics m)
  | Ok _ =>
      do found <- reading (λ s, bool_decide (is_Some (lc_chainState s !! chainID)));
      if (found : bool) then Ret (Ok ())
      else
        must signState <- atomic (λ s,
          match LoadOrCreateSignState (CosignerStateFile (lc_config cosigner) chainID)
                  (d_fs (lc_disk s)) with
          | Ok (st, fs) => (set_disk (mkDisk fs (d_pending (lc_disk s))) s, Ok st)
          | Err e => (s, Err e)
          | Panics m => (s, Panics m)
          end);
        must signer <- reading (λ s,
          NewThresholdSigner (lc_config cosigner) GetID chainID (d_fs (lc_disk s)));
        atomic (λ s,
          (mkLCState (<[chainID := length (lc_heap s)]> (lc_chainState s))
             (lc_heap s ++ [mkChainState signState signer]) (lc_nonces s) (lc_disk s), Ok ()))
  end.

(** [ccs.lastSignState.Save(ssc, &pendingDiskWG)]: the double-sign check, and the
    write it queues. *)
Definition save_section (loc : nat) (ssc : SignStateConsensus) (s : St)
    : St * list lc_event * result unit goerror :=
  match deref loc s with
  | Err e => (s, [], Err e)
  | Panics m => (s, [], Panics m)
  | Ok ccs =>
      match Save (cs_lastSignState ccs) ssc true (lc_disk s) with
      | Ok (ss', d') =>
          (set_disk d' (set_heap (<[loc := mkChainState ss' (cs_signer ccs)]> (lc_heap s)) s),
           [EvSaved loc ssc], Ok ())
      | Err e =>
          (s, if is_SameHRSError e then [EvReached loc (ssc_HRSKey ssc)] else [], Err e)
      | Panics m => (s, [], Panics m)
      end
  end.

Definition SaveLastSignedState (chainID : string) (ssc : SignStateConsensus)
    : P (result unit goerror) :=
  must loc <- getChainState chainID;
  atomically (save_section loc ssc).

(** [pendingDiskWG]: one queued write completes. *)
Definition flush_pending (i : nat) : P (result unit goerror) :=
  atomic (λ s,
    match flush_write i (lc_disk s) with
    | Ok d => (set_disk d s, Ok ())
    | Err e => (s, Err e)
    | Panics m => (s, Panics m)
    end).

Definition GetPubKey (chainID : string) : P (result gobytes goerror) :=
  must _ <- LoadSignStateIfNecessary chainID;
  must loc <- getChainState chainID;
  reading (λ s, try ccs <- deref loc s; Ok (ts_PubKey (cs_signer ccs))).

Definition CombineSignatures (chainID : string) (signatures : list PartialSignature)
    : P (result gobytes goerror) :=
  must loc <- getChainState chainID;
  reading (λ s, try ccs <- deref loc s; ts_CombineSignatures (cs_signer ccs) signatures).

(** [VerifySignature], with CometBFT's ed25519 verification as an argument. *)
Definition VerifySignature (verify : gobytes → gobytes → gobytes → bool) (chainID : string)
    (payload signature : gobytes) : P bool :=
  do r <- LoadSignStateIfNecessary chainID;
  match r with
  | Ok _ =>
      do l <- getChainState chainID;
      match l with
      | Ok loc =>
          reading (λ s,
            match deref loc s with
            | Ok ccs => verify (ts_PubKey (cs_signer ccs)) payload (bytes_copy signature)
            | _ => false
            end)
      | _ => Ret false
      end
  | _ => Ret false
  end.

(** *** Signing *)

(** [ccs.lastSignState.errorIfConflictOrRegression(hrst, signBytes)] *)
Definition check_section (loc : nat) (hrst : HRSTKey) (signBytes : gobytes) : P (result unit goerror) :=
  reading (λ s, try ccs <- deref loc s;
                errorIfConflictOrRegression (cs_lastSignState ccs) hrst signBytes).

(** The passed-round fallback for a delayed extension: the cached vote, if it is
    exactly the requested one and at the current height. *)
Definition cached_section (loc : nat) (hrst : HRSTKey) (signBytes : gobytes)
    : P (result (option gobytes) goerror) :=
  reading (λ s,
    try ccs <- deref loc s;
    let '(latest, cached) := GetFromCache (cs_lastSignState ccs) (hrst_HRSKey hrst) in
    match cached with
    | None => Ok None
    | Some c =>
        if negb (is_nil (ssc_Signature c)) && (hrst_Height hrst =? hrs_Height latest)
           && bytes_Equal (ssc_SignBytes c) signBytes
        then Ok (Some (ssc_Signature c)) else Ok None
    end).

Definition empty_response : CosignerSignResponse :=
  mkCosignerSignResponse zero_time None None None None.

Definition response (sig voteExtSig : gobytes) : CosignerSignResponse :=
  mkCosignerSignResponse zero_time None sig None voteExtSig.

(** [ccs.signer.Sign], through the pointer *)
Definition sign_section (loc : nat) (nonces : list Nonce) (payload : gobytes)
    : P (result gobytes goerror) :=
  reading (λ s, try ccs <- deref loc s; ts_Sign (cs_signer ccs) nonces payload).

(** The deferred function of [sign]. *)
Definition drop_nonces (req : CosignerSignRequest) : P unit :=
  atomic (λ s, (set_nonces (delete (sr_VoteExtUUID req) (delete (sr_UUID req) (lc_nonces s))) s, ())).

(** [sign] once the existing signature of the vote is known: only the extension is
    signed. *)
Definition sign_extension_only (req : CosignerSignRequest) (loc : nat) (threshold : Z)
    (existingSignature : gobytes) : P (result CosignerSignResponse goerror) :=
  must nonces <- combinedNonces GetID threshold (sr_VoteExtUUID req);
  must voteExtSig <- sign_section loc nonces (sr_VoteExtensionSignBytes req);
  Ret (Ok (response existingSignature voteExtSig)).

(** The two signing goroutines: both run; if both fail either error is returned. *)
Definition sign_both (req : CosignerSignRequest) (loc : nat) (hasVoteExtensions : bool)
    (nonces voteExtNonces : list Nonce) : P (result (gobytes * gobytes) goerror) :=
  do sig <- sign_section loc nonces (sr_SignBytes req);
  if hasVoteExtensions then
    do voteExtSig <- sign_section loc voteExtNonces (sr_VoteExtensionSignBytes req);
    Pick 2 (λ i,
      Ret (match i with
           | O => try a <- sig; try b <- voteExtSig; Ok (a, b)
           | _ => try b <- voteExtSig; try a <- sig; Ok (a, b)
           end))
  else Ret (try a <- sig; Ok (a, None)).

(** [sign] for a fresh vote or proposal: consume the nonces, sign, save, and if
    another request got to this height, round and step first, check its payload. *)
Definition sign_fresh (req : CosignerSignRequest) (loc : nat) (threshold : Z) (hrst : HRSTKey)
    (hasVoteExtensions : bool) : P (result CosignerSignResponse goerror) :=
  must nonces <- combinedNonces GetID threshold (sr_UUID req);
  must voteExtNonces <-
    (if hasVoteExtensions then combinedNonces GetID threshold (sr_VoteExtUUID req)
     else Ret (Ok []));
  must sigs <- sign_both req loc hasVoteExtensions nonces voteExtNonces;
  do saved <- atomically (save_section loc
    (mkSSC (hrst_Height hrst) (hrst_Round hrst) (hrst_Step hrst) sigs.1 sigs.2 (sr_SignBytes req)));
  match saved with
  | Ok _ => Ret (Ok (response sigs.1 sigs.2))
  | Panics m => Ret (Panics m)
  | Err err =>
      if negb (errors_As is_SameHRSError err) then Ret (Err err)
      else
        must _ <- check_section loc hrst (sr_SignBytes req);
        Ret (Ok (response sigs.1 sigs.2))
  end.

(** [sign] after its gate: [existing] is the cached signature of the fallback, if it
    was taken.  The deferred function runs on every way out. *)
Definition sign_gated (req : CosignerSignRequest) (loc : nat) (hrst : HRSTKey)
    (hasVoteExtensions : bool) (existing : option gobytes) : P (result CosignerSignResponse goerror) :=
  do res <-
    match thresholdModeConfig with
    | Err e => Ret (Err e)
    | Panics m => Ret (Panics m)
    | Ok tm =>
        let threshold := u8 (tm_Threshold tm) in
        match existing with
        | Some existingSignature => sign_extension_only req loc threshold existingSignature
        | None => sign_fresh req loc threshold hrst hasVoteExtensions
        end
    end;
  do _ <- drop_nonces req;
  Ret res.

(** The gate of [sign] and its fallback for a delayed extension. *)
Definition sign_gate (req : CosignerSignRequest) (loc : nat) (hrst : HRSTKey)
    (hasVoteExtensions : bool) : P (result (option gobytes) goerror) :=
  do err <- check_section loc hrst (sr_SignBytes req);
  match err with
  | Ok _ => Ret (Ok None)
  | Panics m => Ret (Panics m)
  | Err e =>
      if hasVoteExtensions then
        must c <- cached_section loc hrst (sr_SignBytes req);
        Ret (match c with Some sig => Ok (Some sig) | None => Err e end)
      else Ret (Err e)
  end.

Definition sign (req : CosignerSignRequest) : P (result CosignerSignResponse goerror) :=
  must loc <- getChainState (sr_ChainID req);
  match verifySignPayload (sr_ChainID req) (sr_SignBytes req) (sr_VoteExtensionSignBytes req) with
  | Err e => Ret (Err e)
  | Panics m => Ret (Panics m)
  | Ok (hrst, hasVoteExtensions) =>
      if hasVoteExtensions && bool_decide (sr_UUID req = sr_VoteExtUUID req) then
        Ret (Err (ErrorString "vote and vote extension nonce UUIDs must differ"))
      else
        must existing <- sign_gate req loc hrst hasVoteExtensions;
        sign_gated req loc hrst hasVoteExtensions existing
  end.

(** [SetNoncesAndSign] *)
Definition SetNoncesAndSign (req : CosignerSetNoncesAndSignRequest)
    : P (result CosignerSignResponse goerror) :=
  must _ <- LoadSignStateIfNecessary (snr_ChainID req);
  match snr_Nonces req with
  | None => Ret (Err (ErrorString "nonces are required"))
  | Some nonces =>
      let hasExt := 0 <? blen (snr_VoteExtensionSignBytes req) in
      if hasExt && bool_decide (snr_VoteExtensionNonces req = None) then
        Ret (Err (ErrorString "vote extension nonces are required when signing a vote extension"))
      else
        let tasks n := (λ secretPart, setNonce (un_UUID n) secretPart) <$> un_Nonces n in
        must _ <- eg_Wait (tasks nonces ++
          match snr_VoteExtensionNonces req with
          | Some extNonces => tasks extNonces
          | None => []
          end);
        sign (if hasExt then
                mkCosignerSignRequest (snr_ChainID req) (snr_SignBytes req) (un_UUID nonces)
                  (snr_VoteExtensionSignBytes req)
                  (match snr_VoteExtensionNonces req with
                   | Some n => un_UUID n
                   | None => uuid_Nil
                   end)
              else
                mkCosignerSignRequest (snr_ChainID req) (snr_SignBytes req) (un_UUID nonces)
                  None uuid_Nil)
  end.
End local_cosigner.
