(* ===== verification/ThresholdValidator.v ===== *)
(** * The threshold validator

    [ThresholdValidator] of threshold_validator.go: the process that leads the cluster
    turns a sign request into a validator signature.  It refuses or answers from its cache
    what was signed before, draws nonces, collects signature shares from cosigners, combines
    and verifies them, and moves its watermark; a process that does not lead passes the
    request on.

    The handlers are programs of Conc.v over the validator's state.  What they call is
    behind an interface, [ClusterNet]: the Go interfaces [Cosigner] and [Leader], the
    process's own cosigner, and [uuid.New].  A call is one step of the program, between any
    two of which other requests run.  The goroutines of one request take turns: [eg_run]
    lets the scheduler pick which of them runs its next iteration, and
    [fallback_loop] does so between the goroutines that ask for nonces and the [select] that
    waits for them.  A value returned beside
    a non-nil error is not modelled; every caller drops it. *)

From S2P Require Import Prelude Hrs Errors Comet SignState Config Cosigner NonceCache CosignerHealth Conc LocalCosigner.
From stdpp Require Import base gmap list strings numbers relations.
From Stdlib Require Import ZArith Lia.

Open Scope string_scope.
Open Scope list_scope.
Open Scope Z_scope.

(** ** Definitions *)

(** *** The protocol form of a block *)

Record protoBlock := mkProtoBlock {
  pb_Height : Z;
  pb_Round : Z;
  pb_Step : Z;
  pb_SignBytes : gobytes;
  pb_VoteExtSignBytes : gobytes;
  pb_Timestamp : Z
}.

Definition block_ToProto (block : Block) : protoBlock :=
  mkProtoBlock (b_Height block) (b_Round block) (i32 (b_Step block)) (b_SignBytes block)
    (b_VoteExtensionSignBytes block)
    (if negb (IsZero (b_Timestamp block)) then UnixNano (b_Timestamp block) else 0).

Definition BlockFromProto (block : protoBlock) : Block :=
  mkBlock (pb_Height block) (pb_Round block) (i8 (pb_Step block)) (pb_SignBytes block)
    (pb_VoteExtSignBytes block)
    (if negb (pb_Timestamp block =? 0) then pb_Timestamp block else zero_time).

(** *** What the validator calls *)

Class ClusterNet (W : Type) := {
  net_GetNonces : Z → list UUID → W → W * result (list CosignerUUIDNonces) goerror;
  net_SetNoncesAndSign :
    Z → CosignerSetNoncesAndSignRequest → W → W * result CosignerSignResponse goerror;
  net_SignBlock : Z → CosignerSignBlockRequest → W → W * result CosignerSignBlockResponse goerror;
  net_LoadSignState : string → W → W * result unit goerror;
  net_CombineSignatures : string → list PartialSignature → W → W * result gobytes goerror;
  net_VerifySignature : string → gobytes → gobytes → W → W * bool;
  net_IsLeader : W → W * bool;
  net_GetLeader : W → W * Z;
  net_ShareSigned : ChainSignStateConsensus → W → W * result unit goerror;
  net_uuids : nat → W → W * list UUID
}.

(** *** State *)

(** What does not change after [NewThresholdValidator]; the cosigners are their IDs, and
    [tv_myID] is that of [myCosigner]. *)
Record ThresholdValidator := mkThresholdValidator {
  tv_config : RuntimeConfig;
  tv_threshold : Z;
  tv_maxWaitForSameBlockAttempts : Z;
  tv_myID : Z;
  tv_peerCosigners : list Peer;
  tv_cacheConfig : CacheConfig
}.

Record ChainSignState := mkChainSignState {
  css_lastSignState : SignState;
  css_lastSignStateInitiated : SignState
}.

(** [chainState] maps a chain to the pointers of its [ChainSignState]. *)
Record TVState (W : Type) := mkTVState {
  tv_chainState : gmap string nat;
  tv_heap : list ChainSignState;
  tv_disk : Disk;
  tv_nonceCache : CosignerNonceCache;
  tv_health : CosignerHealth;
  tv_world : W
}.
Arguments mkTVState {W} _ _ _ _ _ _.
Arguments tv_chainState {W} _.
Arguments tv_heap {W} _.
Arguments tv_disk {W} _.
Arguments tv_nonceCache {W} _.
Arguments tv_health {W} _.
Arguments tv_world {W} _.

Definition allCosigners (myID : Z) (peers : list Peer) : list Z := myID :: (peer_GetID <$> peers).

Definition NewThresholdValidator {W} (config : RuntimeConfig) (threshold grpcTimeout maxWait myID : Z)
    (peers : list Peer) (zeroTime : Z) (fs : FileSystem) (w : W) : ThresholdValidator * TVState W :=
  let cc := mkCacheConfig (allCosigners myID peers) defaultGetNoncesInterval grpcTimeout
              defaultNonceExpiration (u8 threshold) in
  (mkThresholdValidator config threshold maxWait myID peers cc,
   mkTVState ∅ [] (mkDisk fs []) (NewCosignerNonceCache cc zeroTime) (NewCosignerHealth peers) w).

(** What the properties are about: the state of a chain was stored; an entry came from the
    state file or from raft; a cosigner gave a share; the process's own cosigner combined
    shares, or verified a signature; the leader answered a request that was passed on to it. *)
Inductive tv_event : Type :=
| EvStored (chainID : string) (loc : nat)
| EvGiven (chainID : string) (ssc : SignStateConsensus)
| EvShare (id : Z) (req : CosignerSetNoncesAndSignRequest) (res : CosignerSignResponse)
| EvCombined (chainID : string) (shares : list PartialSignature) (signature : gobytes)
| EvVerified (chainID : string) (payload signature : gobytes)
| EvProxied (leader : Z) (chainID : string) (block : Block) (r : CosignerSignBlockResponse).

(** The signature, the vote extension's signature and the timestamp [Sign] returns. *)
Record Signed := mkSigned {
  sg_Signature : gobytes;
  sg_VoteExtensionSignature : gobytes;
  sg_Timestamp : Z
}.

Definition no_signature : Signed := mkSigned None None zero_time.

Record CosignersAndNonces := mkCosignersAndNonces {
  can_Cosigners : list Z;
  can_Nonces : list CosignerUUIDNonces
}.

(** [status.Code] of gRPC, on an error that carries a status or wraps one. *)
Fixpoint status_Code (e : goerror) : option Z :=
  match e with
  | StatusError code _ => Some code
  | WrapError _ e | WrapSuffixError e _ => status_Code e
  | JoinError e1 e2 => match status_Code e1 with Some c => Some c | None => status_Code e2 end
  | _ => None
  end.

Definition DeadlineExceeded : Z := 4.
Definition NotFound : Z := 5.
Definition Unavailable : Z := 14.

Definition is_unavailable (e : goerror) : bool :=
  match status_Code e with
  | Some c => (c =? DeadlineExceeded) || (c =? NotFound) || (c =? Unavailable)
  | None => false
  end.

(** [signBytesTimestamp] *)
Definition signBytesTimestamp `{Codec} (step : Z) (signBytes : gobytes) : result Z goerror :=
  if step =? stepPropose then
    try proposal <- map_err (newUnmarshalError "signBytes" "proposal") (unmarshalProposal (slice signBytes));
    Ok (cp_Timestamp proposal)
  else
    try vote <- map_err (newUnmarshalError "signBytes" "vote") (unmarshalVote (slice signBytes));
    Ok (cv_Timestamp vote).

(** The error of the leader as [proxyIfNecessary] passes it on. *)
Definition proxy_error (err : goerror) : goerror :=
  match err with
  | RPCError _ _ data =>
      if (33 <? Z.of_nat (String.length data)) && String.eqb (String.substring 0 33 data) "Progress already started on block"
      then BeyondBlockError data else err
  | _ => err
  end.

(** One nonce round of a peer, put beside those of the same UUID. *)
Fixpoint merge_nonces (n : CosignerUUIDNonces) (acc : list CosignerUUIDNonces) : list CosignerUUIDNonces :=
  match acc with
  | [] => [n]
  | nn :: acc' =>
      if bool_decide (un_UUID n = un_UUID nn)
      then mkCosignerUUIDNonces (un_UUID nn) (un_Nonces nn ++ un_Nonces n) :: acc'
      else nn :: merge_nonces n acc'
  end.

(** The shares that are not empty, with their IDs. *)
Definition share_signatures (shares : list gobytes) : list PartialSignature :=
  omap id (imap (λ idx s, if blen s =? 0 then None
                          else Some (mkPartialSignature (Z.of_nat idx + 1) (Some (slice s)))) shares).

(** The first [threshold-1] of the fastest peers, after the process's own cosigner:
    [make], the store to index 0, the slice expression and [copy] panic out of range. *)
Definition cosigners_for_block (threshold myID : Z) (fastest : list Peer) : result (list Z) goerror :=
  if threshold <=? 0 then Panics index_out_of_range
  else if Z.of_nat (length fastest) <? threshold - 1 then Panics "runtime error: slice bounds out of range"
  else Ok (myID :: (peer_GetID <$> take (Z.to_nat (threshold - 1)) fastest)).

(** *** Goroutines of one request *)

(** The variables the signing goroutines of [Sign] share. *)
Record Shares := mkShares {
  sh_next : nat;
  sh_Signatures : list gobytes;
  sh_VoteExtSignatures : list gobytes;
  sh_err : result unit goerror
}.

Definition shares_fail (r : result unit goerror) (l : Shares) : Shares :=
  mkShares (sh_next l) (sh_Signatures l) (sh_VoteExtSignatures l) (eg_first (sh_err l) r).

Section validator.
Context {W : Type} `{C : !Codec} `{J : !Json} `{N : !ClusterNet W}.
Context (sort_Slice : ∀ A, (A → A → bool) → list A → list A).
Context (pv : ThresholdValidator).

Local Abbreviation St := (TVState W).
Local Abbreviation P A := (@prog St tv_event A).

Definition tv_set_heap (h : list ChainSignState) (s : St) : St :=
  mkTVState (tv_chainState s) h (tv_disk s) (tv_nonceCache s) (tv_health s) (tv_world s).

Definition tv_set_disk (d : Disk) (s : St) : St :=
  mkTVState (tv_chainState s) (tv_heap s) d (tv_nonceCache s) (tv_health s) (tv_world s).

Definition tv_set_cache (c : CosignerNonceCache) (s : St) : St :=
  mkTVState (tv_chainState s) (tv_heap s) (tv_disk s) c (tv_health s) (tv_world s).

Definition tv_set_health (h : CosignerHealth) (s : St) : St :=
  mkTVState (tv_chainState s) (tv_heap s) (tv_disk s) (tv_nonceCache s) h (tv_world s).

Definition tv_set_world (w : W) (s : St) : St :=
  mkTVState (tv_chainState s) (tv_heap s) (tv_disk s) (tv_nonceCache s) (tv_health s) w.

(** A call through the interface, without and with an event. *)
Definition call {B} (f : W → W * B) : P B :=
  atomic (λ s, let '(w, b) := f (tv_world s) in (tv_set_world w s, b)).

Definition call_logged {B} (f : W → W * B) (ev : B → list tv_event) : P B :=
  atomically (λ s, let '(w, b) := f (tv_world s) in (tv_set_world w s, ev b, b)).

Definition VerifySignature (chainID : string) (payload signature : gobytes) : P bool :=
  call_logged (net_VerifySignature chainID payload signature)
    (λ b, if (b : bool) then [EvVerified chainID payload signature] else []).

Definition SetNoncesAndSign (id : Z) (req : CosignerSetNoncesAndSignRequest) : P (result CosignerSignResponse goerror) :=
  call_logged (net_SetNoncesAndSign id req) (λ r, match r with Ok res => [EvShare id req res] | _ => [] end).

Definition CombineSignatures (chainID : string) (sigs : list PartialSignature) : P (result gobytes goerror) :=
  call_logged (net_CombineSignatures chainID sigs)
    (λ r, match r with Ok signature => [EvCombined chainID sigs signature] | _ => [] end).

(** *** Chain state *)

Definition mustLoadChainState (chainID : string) : P (result nat goerror) :=
  reading (λ s,
    match tv_chainState s !! chainID with
    | None => Panics ("failed to load chain state for " +:+ chainID)
    | Some loc => Ok loc
    end).

Definition deref (loc : nat) (s : St) : result ChainSignState goerror :=
  match tv_heap s !! loc with
  | None => Panics nil_dereference
  | Some css => Ok css
  end.

(** [css.lastSignState.Save(ssc, &pv.pendingDiskWG)]; [ev] are the events of a success. *)
Definition save_section (loc : nat) (ssc : SignStateConsensus) (ev : list tv_event) (s : St)
    : St * list tv_event * result unit goerror :=
  match deref loc s with
  | Err e => (s, [], Err e)
  | Panics m => (s, [], Panics m)
  | Ok css =>
      match Save (css_lastSignState css) ssc true (tv_disk s) with
      | Ok (ss', d') =>
          (tv_set_disk d' (tv_set_heap
             (<[loc := mkChainSignState ss' (css_lastSignStateInitiated css)]> (tv_heap s)) s), ev, Ok ())
      | Err e => (s, [], Err e)
      | Panics m => (s, [], Panics m)
      end
  end.

(** [SaveLastSignedState], which raft calls with the state another leader shared. *)
Definition SaveLastSignedState (chainID : string) (signState : SignStateConsensus) : P (result unit goerror) :=
  must loc <- mustLoadChainState chainID;
  atomically (save_section loc signState [EvGiven chainID signState]).

(** [css.lastSignStateInitiated.Save(...)] *)
Definition initiate_section (loc : nat) (hrs : HRSKey) (s : St) : St * result unit goerror :=
  match deref loc s with
  | Err e => (s, Err e)
  | Panics m => (s, Panics m)
  | Ok css =>
      match Save (css_lastSignStateInitiated css)
              (NewSignStateConsensus (hrs_Height hrs) (hrs_Round hrs) (hrs_Step hrs)) true (tv_disk s) with
      | Ok (ss', d') =>
          (tv_set_disk d' (tv_set_heap
             (<[loc := mkChainSignState (css_lastSignState css) ss']> (tv_heap s)) s), Ok ())
      | Err e => (s, Err e)
      | Panics m => (s, Panics m)
      end
  end.

Definition newBeyondBlockError (chainID : string) (hrs : HRSKey) : P (result goerror goerror) :=
  must loc <- mustLoadChainState chainID;
  reading (λ s, try css <- deref loc s;
    Ok (BeyondBlockError (beyondBlockMsg chainID (lockedHrsKey (css_lastSignStateInitiated css)) hrs))).

(** It always returns an error: the requested key is behind, equal or ahead. *)
Definition compareBlockSignatureAgainstHRS (chainID : string) (block : Block) (hrs : HRSKey)
    : P (result unit goerror) :=
  let blockHRS := block_HRSKey block in
  if GreaterThan hrs blockHRS then
    must e <- newBeyondBlockError chainID blockHRS; Ret (Err e)
  else if bool_decide (hrs = blockHRS) then Ret (Err (newSameBlockError chainID blockHRS))
  else Ret (Err (newStillWaitingForBlockError chainID blockHRS)).

(** [compareBlockSignatureAgainstSSC] once the keys are known to be the same. *)
Definition reuse_signature (block : Block) (existing : SignStateConsensus) : result Signed goerror :=
  try existingStamp <- signBytesTimestamp (ssc_Step existing) (ssc_SignBytes existing);
  let signed := mkSigned (ssc_Signature existing) (ssc_VoteExtensionSignature existing) existingStamp in
  if (b_Step block =? stepPropose) || bytes_Equal (b_SignBytes block) (ssc_SignBytes existing) then Ok signed
  else try _ <- ssc_OnlyDifferByTimestamp existing (b_SignBytes block); Ok signed.

Definition compareBlockSignatureAgainstSSC (chainID : string) (block : Block) (existing : SignStateConsensus)
    : P (result Signed goerror) :=
  do r <- compareBlockSignatureAgainstHRS chainID block (ssc_HRSKey existing);
  match r with
  | Panics m => Ret (Panics m)
  | Err err => if is_SameBlockError err then Ret (reuse_signature block existing) else Ret (Err err)
  | Ok _ => Ret (reuse_signature block existing)
  end.

(** [css.lastSignState.GetFromCache] and the read of the cache in the waiting loop *)
Definition cache_section (loc : nat) (hrs : HRSKey) : P (result (HRSKey * option SignStateConsensus) goerror) :=
  reading (λ s, try css <- deref loc s; Ok (GetFromCache (css_lastSignState css) hrs)).

Definition getExistingBlockSignature (chainID : string) (block : Block) : P (result Signed goerror) :=
  must loc <- mustLoadChainState chainID;
  must c <- cache_section loc (block_HRSKey block);
  match c.2 with
  | Some existing => compareBlockSignatureAgainstSSC chainID block existing
  | None =>
      must _ <- compareBlockSignatureAgainstHRS chainID block c.1;
      Ret (Ok (mkSigned None None (b_Timestamp block)))
  end.

(** The loop that waits for the signature of a block another request is signing. *)
Fixpoint wait_for_block (attempts : nat) (loc : nat) (chainID : string) (block : Block) : P (result Signed goerror) :=
  match attempts with
  | O => Ret (Err (ErrorString ("exceeded max attempts waiting for block to be signed. height: "
           +:+ fmt_d (b_Height block) +:+ ", round: " +:+ fmt_d (b_Round block) +:+ ", step: "
           +:+ fmt_d (b_Step block))))
  | S attempts' =>
      must c <- cache_section loc (block_HRSKey block);
      match c.2 with
      | None => wait_for_block attempts' loc chainID block
      | Some ssc =>
          do r <- compareBlockSignatureAgainstSSC chainID block ssc;
          match r with
          | Ok signed => Ret (Ok signed)
          | Panics m => Ret (Panics m)
          | Err e =>
              if negb (is_StillWaitingForBlockError e)
              then Ret (Err (WrapError "same block error in loop, but we are not still waiting for signature: " e))
              else wait_for_block attempts' loc chainID block
          end
      end
  end.

(** An existing signature, or [no_signature] when the block is to be signed. *)
Definition SaveLastSignedStateInitiated (chainID : string) (block : Block) : P (result Signed goerror) :=
  must loc <- mustLoadChainState chainID;
  do saved <- atomic (initiate_section loc (block_HRSKey block));
  match saved with
  | Ok _ => Ret (Ok no_signature)
  | Panics m => Ret (Panics m)
  | Err err =>
      do existing <- getExistingBlockSignature chainID block;
      match existing with
      | Panics m => Ret (Panics m)
      | Ok signed =>
          if negb (is_SameHRSError err) then Ret (Ok signed)
          else if negb (is_nil (sg_Signature signed)) then Ret (Ok signed)
          else Ret (Ok no_signature)
      | Err sameBlockErr =>
          if negb (is_SameHRSError err) then
            must e <- newBeyondBlockError chainID (block_HRSKey block); Ret (Err e)
          else if negb (is_StillWaitingForBlockError sameBlockErr) then
            Ret (Err (WrapError "same block error, but we are not still waiting for signature: " sameBlockErr))
          else wait_for_block (Z.to_nat (tv_maxWaitForSameBlockAttempts pv)) loc chainID block
      end
  end.

(** An entry without a signature tells the waiting requests that they may try again. *)
Definition notify_section (loc : nat) (hrs : HRSKey) (signBytes : gobytes) (s : St) : St * result unit goerror :=
  match deref loc s with
  | Err e => (s, Err e)
  | Panics m => (s, Panics m)
  | Ok css =>
      let l := css_lastSignState css in
      let l' := mkSignState (ss_Height l) (ss_Round l) (ss_Step l) (ss_NoncePublic l) (ss_Signature l)
                  (ss_SignBytes l) (ss_VoteExtensionSignature l) (ss_filePath l)
                  (<[hrs := mkSSC (hrs_Height hrs) (hrs_Round hrs) (hrs_Step hrs) None None signBytes]>
                     (ss_cache l)) in
      (tv_set_heap (<[loc := mkChainSignState l' (css_lastSignStateInitiated css)]> (tv_heap s)) s, Ok ())
  end.

Definition notifyBlockSignError (chainID : string) (hrs : HRSKey) (signBytes : gobytes) : P (result unit goerror) :=
  must loc <- mustLoadChainState chainID;
  atomic (notify_section loc hrs signBytes).

(** The sections of [LoadSignStateIfNecessary], as in LocalCosigner.v; the process's own
    cosigner loads its state after. *)
Definition LoadSignStateIfNecessary (chainID : string) : P (result unit goerror) :=
  match ValidateChainID chainID with
  | Err e => Ret (Err e)
  | Panics m => Ret (Panics m)
  | Ok _ =>
      do found <- reading (λ s, bool_decide (is_Some (tv_chainState s !! chainID)));
      if (found : bool) then Ret (Ok ())
      else
        must signState <- atomic (λ s,
          match LoadOrCreateSignState (PrivValStateFile (tv_config pv) chainID) (d_fs (tv_disk s)) with
          | Ok (st, fs) => (tv_set_disk (mkDisk fs (d_pending (tv_disk s))) s, Ok st)
          | Err e => (s, Err e)
          | Panics m => (s, Panics m)
          end);
        let fresh := FreshCache signState in
        let initiated := mkSignState (ss_Height fresh) (ss_Round fresh) (ss_Step fresh) (ss_NoncePublic fresh)
          (ss_Signature fresh) (ss_SignBytes fresh) (ss_VoteExtensionSignature fresh) DevNull (ss_cache fresh) in
        do _ <- atomically (λ s,
          (mkTVState (<[chainID := length (tv_heap s)]> (tv_chainState s))
             (tv_heap s ++ [mkChainSignState signState initiated]) (tv_disk s) (tv_nonceCache s) (tv_health s)
             (tv_world s),
           EvStored chainID (length (tv_heap s)) :: (EvGiven chainID <$> (map_to_list (ss_cache signState)).*2), ()));
        call (net_LoadSignState chainID)
  end.

(** *** Nonces *)

(** [pv.nonceCache.GetNonces(cosigners)] *)
Definition cached_nonces (cosigners : list Z) : P (result CosignerUUIDNonces goerror) :=
  atomic (λ s, let '(c, r) := NonceCache.GetNonces cosigners (tv_nonceCache s) in (tv_set_cache c s, r)).

Definition clear_nonces (id : Z) : P unit :=
  atomic (λ s, match ClearNonces (tv_cacheConfig pv) id (tv_nonceCache s) with
               | Some c => (tv_set_cache c s, ())
               | None => (s, ())
               end).

Definition mark_unhealthy (id : Z) : P unit :=
  atomic (λ s, (tv_set_health (MarkUnhealthy id (tv_health s)) s, ())).

(** [pv.cosignerHealth.GetFastest()] *)
Definition fastest_peers : P (list Peer) := reading (λ s, GetFastest sort_Slice (tv_health s)).

Definition timed_out : goerror := ErrorString "timed out waiting for ephemeral shares".

(** [waitForPeerNonces] once the peer has answered: what is collected, and whether the
    channel is closed. *)
Definition add_peer_nonces (id : Z) (peerNonces : list CosignerUUIDNonces) (acc : CosignersAndNonces)
    : CosignersAndNonces * bool :=
  if tv_threshold pv <=? Z.of_nat (length (can_Cosigners acc)) then (acc, false)
  else
    let acc' := mkCosignersAndNonces (can_Cosigners acc ++ [id])
                  (fold_left (λ l n, merge_nonces n l) peerNonces (can_Nonces acc)) in
    (acc', Z.of_nat (length (can_Cosigners acc')) =? tv_threshold pv).

(** A goroutine of [getNoncesFallback]: its cosigner has not answered yet, or has and its
    nonces are to be added. *)
Inductive NonceWait : Type :=
| Asking (id : Z)
| Answered (id : Z) (peerNonces : list CosignerUUIDNonces).

(** The [select] of [getNoncesFallback] beside its goroutines: the scheduler picks between
    it and the next step of any of them.  It takes the timeout or, once the channel is
    closed, either case.  The goroutines that have not ended by then go on. *)
Fixpoint fallback_loop (n : nat) (uuids : list UUID) (tasks : list NonceWait) (acc : CosignersAndNonces)
    (reached : bool) : P (result CosignersAndNonces goerror) :=
  match n with
  | O => Ret (Err timed_out)
  | S n' =>
      Pick (S (length tasks)) (λ i,
        match i with
        | O => if reached then Pick 2 (λ b, Ret (if (b =? 0)%nat then Ok acc else Err timed_out))
               else Ret (Err timed_out)
        | S j =>
            match tasks !! j with
            | None => Ret (Err timed_out)
            | Some (Asking id) =>
                do r <- call (net_GetNonces id uuids);
                match r with
                | Panics m => Ret (Panics m)
                | Err _ => fallback_loop n' uuids (delete j tasks) acc reached
                | Ok peerNonces => fallback_loop n' uuids (<[j := Answered id peerNonces]> tasks) acc reached
                end
            | Some (Answered id peerNonces) =>
                let '(acc', closed) := add_peer_nonces id peerNonces acc in
                fallback_loop n' uuids (delete j tasks) acc' (reached || closed)
            end
        end)
  end.

(** Each goroutine takes two steps, and the [select] one. *)
Definition getNoncesFallback (count : nat) : P (result CosignersAndNonces goerror) :=
  do uuids <- call (net_uuids count);
  let all := allCosigners (tv_myID pv) (tv_peerCosigners pv) in
  fallback_loop (S (2 * length all)) uuids (Asking <$> all) (mkCosignersAndNonces [] []) false.

Definition voteExtensionNonces : P (result CosignersAndNonces goerror) :=
  do fastest <- fastest_peers;
  if tv_threshold pv - 1 <=? Z.of_nat (length fastest) then
    match cosigners_for_block (tv_threshold pv) (tv_myID pv) fastest with
    | Panics m => Ret (Panics m)
    | Err e => Ret (Err e)
    | Ok cosigners =>
        do voteNonces <- cached_nonces cosigners;
        match voteNonces with
        | Panics m => Ret (Panics m)
        | Err _ => getNoncesFallback 2
        | Ok v =>
            do extNonces <- cached_nonces cosigners;
            match extNonces with
            | Panics m => Ret (Panics m)
            | Err _ => getNoncesFallback 2
            | Ok e => Ret (Ok (mkCosignersAndNonces cosigners [v; e]))
            end
        end
    end
  else getNoncesFallback 2.

(** *** Followers *)

(** The poll during an election. *)
Fixpoint poll_leader (n : nat) (leader : Z) : P Z :=
  match n with
  | O => Ret leader
  | S n' => if leader =? -1 then do l <- call net_GetLeader; poll_leader n' l else Ret leader
  end.

(** [None] when this process is to sign. *)
Definition proxyIfNecessary (chainID : string) (block : Block) : P (option (result Signed goerror)) :=
  do isLeader <- call net_IsLeader;
  if (isLeader : bool) then Ret None
  else
    do leader <- call net_GetLeader;
    do leader <- poll_leader 500 leader;
    if leader =? -1 then Ret (Some (Err (ErrorString "timed out waiting for raft leader")))
    else if leader =? tv_myID pv then Ret None
    else
      match GetByID peer_GetID (tv_peerCosigners pv) leader with
      | None => Ret (Some (Err (ErrorString ("failed to find cosigner with id " +:+ fmt_d leader))))
      | Some (PeerLocal _) =>
          Ret (Some (Panics "interface conversion: signer.Cosigner is not *signer.RemoteCosigner"))
      | Some (PeerRemote id) =>
          do signRes <- call_logged (net_SignBlock id (mkCosignerSignBlockRequest chainID block))
            (λ r, match r with Ok a => [EvProxied id chainID block a] | _ => [] end);
          Ret (Some (match signRes with
                     | Ok r => Ok (mkSigned (sbp_Signature r) (sbp_VoteExtensionSignature r) (sbp_Timestamp r))
                     | Err e => Err (proxy_error e)
                     | Panics m => Panics m
                     end))
      end.

(** *** A changed extension of a vote that is already signed *)

(** The shares by position, and the first error. *)
Record ExtShares := mkExtShares {
  es_shares : list PartialSignature;
  es_err : result unit goerror
}.

Definition ext_worker (chainID : string) (block : Block) (stamp : Z) (signBytes : gobytes)
    (voteNonces extNonces : CosignerUUIDNonces) (task : nat * Z) (l : ExtShares)
    : P (ExtShares * option (nat * Z)) :=
  let '(i, id) := task in
  do res <- SetNoncesAndSign id (mkSetNoncesAndSignRequest chainID
    (mkHRSTKey (b_Height block) (b_Round block) (b_Step block) (UnixNano stamp))
    (Some (For voteNonces id)) signBytes (Some (For extNonces id)) (b_VoteExtensionSignBytes block));
  Ret (match res with
       | Panics m => (mkExtShares (es_shares l) (eg_first (es_err l) (Panics m)), None)
       | Err e =>
           (mkExtShares (es_shares l) (eg_first (es_err l)
              (Err (WrapError ("cosigner " +:+ fmt_d id +:+ " signing vote extension: ") e))), None)
       | Ok r =>
           if blen (sp_VoteExtensionSignature r) =? 0 then
             (mkExtShares (es_shares l) (eg_first (es_err l)
                (Err (ErrorString ("cosigner " +:+ fmt_d id +:+ " returned no vote extension signature")))), None)
           else (mkExtShares (<[i := mkPartialSignature id (sp_VoteExtensionSignature r)]> (es_shares l)) (es_err l), None)
       end).

Definition signVoteExtension (chainID : string) (block : Block) (stamp : Z) : P (result gobytes goerror) :=
  match (try vote <- map_err (newUnmarshalError "signBytes" "vote") (unmarshalVote (slice (b_SignBytes block)));
         map_err (WrapError "marshalling cached vote: ") (marshalVote (vote_set_Timestamp stamp vote))) with
  | Err e => Ret (Err e)
  | Panics m => Ret (Panics m)
  | Ok signBytes =>
      do nonces <- voteExtensionNonces;
      match nonces with
      | Panics m => Ret (Panics m)
      | Err e => Ret (Err (WrapError "getting vote extension nonces: " e))
      | Ok n =>
          match can_Nonces n with
          | voteNonces :: extNonces :: _ =>
              do shares <- eg_run (ext_worker chainID block stamp (Some signBytes) voteNonces extNonces)
                (length (can_Cosigners n)) (imap pair (can_Cosigners n))
                (mkExtShares (replicate (length (can_Cosigners n)) (mkPartialSignature 0 None)) (Ok ()));
              match shares with
              | None => Ret (Err (ErrorString "out of fuel"))
              | Some l =>
                  must _ <- Ret (es_err l);
                  do sig <- CombineSignatures chainID (es_shares l);
                  match sig with
                  | Panics m => Ret (Panics m)
                  | Err e => Ret (Err (WrapError "combining vote extension signatures: " e))
                  | Ok signature =>
                      do ok <- VerifySignature chainID (b_VoteExtensionSignBytes block) signature;
                      if (ok : bool) then Ret (Ok signature)
                      else Ret (Err (ErrorString "combined signature for vote extension is not valid"))
                  end
              end
          | l => Ret (Err (ErrorString ("got " +:+ fmt_d (Z.of_nat (length l))
                   +:+ " nonce rounds for vote extension, need 2")))
          end
      end
  end.

(** *** [Sign] *)

(** An error of [Sign] after which waiting requests are told to try again. *)
Definition fail_block (chainID : string) (block : Block) (e : goerror) {A} : P (result A goerror) :=
  must _ <- notifyBlockSignError chainID (block_HRSKey block) (b_SignBytes block);
  Ret (Err e).

(** The answer from an existing signature. *)
Definition sign_existing (chainID : string) (block : Block) (existing : Signed) : P (result Signed goerror) :=
  match map_err (WrapError "failed to verify payload: ")
          (verifySignPayload chainID (b_SignBytes block) (b_VoteExtensionSignBytes block)) with
  | Err e => Ret (Err e)
  | Panics m => Ret (Panics m)
  | Ok (_, hasVoteExtensions) =>
      if negb hasVoteExtensions
      then Ret (Ok (mkSigned (sg_Signature existing) None (sg_Timestamp existing)))
      else
        do valid <- VerifySignature chainID (b_VoteExtensionSignBytes block) (sg_VoteExtensionSignature existing);
        if (valid : bool) then Ret (Ok existing)
        else
          must loc <- mustLoadChainState chainID;
          must latest <- reading (λ s, try css <- deref loc s; Ok (LatestHRS (css_lastSignState css)));
          if negb (b_Height block =? hrs_Height latest)
          then Ret (Err (newHeightRegressionError (b_Height block) (hrs_Height latest)))
          else
            must ext <- signVoteExtension chainID block (sg_Timestamp existing);
            Ret (Ok (mkSigned (sg_Signature existing) ext (sg_Timestamp existing)))
  end.

(** The goroutine that asks one cosigner for a nonce round of the extension. *)
Definition ext_nonces_worker (u : UUID) (id : Z) (l : option CosignerUUIDNonces * result unit goerror)
    : P (option CosignerUUIDNonces * result unit goerror * option Z) :=
  do r <- call (net_GetNonces id [u]);
  Ret (match r with
       | Panics m => ((l.1, eg_first l.2 (Panics m)), None)
       | Err e => ((l.1, eg_first l.2 (Err e)), None)
       | Ok [] => ((l.1, eg_first l.2 (Panics index_out_of_range)), None)
       | Ok (n :: _) =>
           ((Some (match l.1 with
                   | None => n
                   | Some v => mkCosignerUUIDNonces (un_UUID v) (un_Nonces v ++ un_Nonces n)
                   end), l.2), None)
       end).

(** What [Sign] signs with: the cosigners, the nonce rounds, and whether they came from the
    fallback, in which case no other cosigner is tried. *)
Record Round := mkRound {
  r_Cosigners : list Z;
  r_Nonces : CosignerUUIDNonces;
  r_VoteExtNonces : option CosignerUUIDNonces;
  r_dontIterateFastestCosigners : bool
}.

(** The fallback when the cache has no round for the cosigners. *)
Definition fallback_round (chainID : string) (block : Block) (hasVoteExtensions : bool) (err : goerror)
    : P (result Round goerror) :=
  do fallbackRes <- getNoncesFallback (if hasVoteExtensions then 2 else 1);
  match fallbackRes with
  | Panics m => Ret (Panics m)
  | Err fallbackErr => fail_block chainID block (WrapError "failed to get nonces: " (JoinError err fallbackErr))
  | Ok res =>
      match can_Nonces res with
      | [] => Ret (Panics index_out_of_range)
      | n :: rest =>
          if hasVoteExtensions then
            match rest with
            | [] => Ret (Panics index_out_of_range)
            | e :: _ => Ret (Ok (mkRound (can_Cosigners res) n (Some e) true))
            end
          else Ret (Ok (mkRound (can_Cosigners res) n None true))
      end
  end.

Definition get_round (chainID : string) (block : Block) (hasVoteExtensions : bool) (cosigners : list Z)
    : P (result Round goerror) :=
  do cached <- cached_nonces cosigners;
  match cached with
  | Panics m => Ret (Panics m)
  | Err err => fallback_round chainID block hasVoteExtensions err
  | Ok nonces =>
      if negb hasVoteExtensions then Ret (Ok (mkRound cosigners nonces None false))
      else
        do ext <- cached_nonces cosigners;
        match ext with
        | Panics m => Ret (Panics m)
        | Ok e => Ret (Ok (mkRound cosigners nonces (Some e) false))
        | Err err =>
            do us <- call (net_uuids 1);
            do res <- eg_run (ext_nonces_worker (nth 0 us [])) (length cosigners) cosigners (None, Ok ());
            match res with
            | None => Ret (Err (ErrorString "out of fuel"))
            | Some (_, Panics m) => Ret (Panics m)
            | Some (_, Err fallbackErr) =>
                fail_block chainID block
                  (WrapError "failed to get nonces for vote extensions: " (JoinError err fallbackErr))
            | Some (voteExtNonces, Ok _) => Ret (Ok (mkRound cosigners nonces voteExtNonces false))
            end
        end
  end.

(** The request for one cosigner. *)
Definition share_request (chainID : string) (block : Block) (r : Round) (id : Z) : CosignerSetNoncesAndSignRequest :=
  mkSetNoncesAndSignRequest chainID (block_HRSTKey block) (Some (For (r_Nonces r) id)) (b_SignBytes block)
    ((λ n, For n id) <$> r_VoteExtNonces r)
    (match r_VoteExtNonces r with Some _ => b_VoteExtensionSignBytes block | None => None end).

(** What a signing goroutine does when its cosigner failed: the next cosigner it asks. *)
Definition next_cosigner (fastest : list Peer) (dontIterate : bool) (l : Shares) : Shares * option Z :=
  match (if dontIterate then None else fastest !! sh_next l) with
  | None => (shares_fail (Err (ErrorString "no cosigners available to sign")) l, None)
  | Some p =>
      (mkShares (S (sh_next l)) (sh_Signatures l) (sh_VoteExtSignatures l) (sh_err l), Some (peer_GetID p))
  end.

(** The store of a share; the index is the shard's. *)
Definition store_share (id : Z) (r : CosignerSignResponse) (l : Shares) : Shares :=
  if (0 <? id) && (id <=? Z.of_nat (length (sh_Signatures l))) then
    let i := Z.to_nat (id - 1) in
    mkShares (sh_next l) (<[i := sp_Signature r]> (sh_Signatures l))
      (<[i := sp_VoteExtensionSignature r]> (sh_VoteExtSignatures l)) (sh_err l)
  else shares_fail (Panics index_out_of_range) l.

(** One iteration of a signing goroutine. *)
Definition sign_worker (chainID : string) (block : Block) (fastest : list Peer) (r : Round) (id : Z) (l : Shares)
    : P (Shares * option Z) :=
  do res <- SetNoncesAndSign id (share_request chainID block r id);
  match res with
  | Panics m => Ret (shares_fail (Panics m) l, None)
  | Ok sigRes => Ret (store_share id sigRes l, None)
  | Err err =>
      do _ <- (if strings_Contains (Error err) errUnexpectedState then clear_nonces id else Ret ());
      if id =? tv_myID pv then Ret (shares_fail (Err err) l, None)
      else
        do _ <- (if is_unavailable err then do _ <- mark_unhealthy id; clear_nonces id else Ret ());
        Ret (next_cosigner fastest (r_dontIterateFastestCosigners r) l)
  end.

(** All of them: the shares, or the error. *)
Definition collect_shares (chainID : string) (block : Block) (fastest : list Peer) (r : Round)
    : P (result Shares goerror) :=
  let total := Z.to_nat (u8 (Z.of_nat (length (tv_peerCosigners pv)) + 1)) in
  let start := Z.to_nat (tv_threshold pv - 1) in
  do res <- eg_run (sign_worker chainID block fastest r)
    (length (r_Cosigners r) + (length fastest - start)) (r_Cosigners r)
    (mkShares start (replicate total None) (replicate total None) (Ok ()));
  match res with
  | None => Ret (Err (ErrorString "out of fuel"))
  | Some l =>
      match sh_err l with
      | Panics m => Ret (Panics m)
      | Err e => fail_block chainID block (ErrorString ("error from cosigner(s): " +:+ Error e))
      | Ok _ => Ret (Ok l)
      end
  end.

(** Combine the shares of a payload and verify the result; [what] distinguishes the errors
    of the vote from those of its extension. *)
Definition assemble (chainID : string) (block : Block) (ext : bool) (payload : gobytes) (shares : list gobytes)
    : P (result gobytes goerror) :=
  let sigs := share_signatures shares in
  if Z.of_nat (length sigs) <? tv_threshold pv then
    fail_block chainID block (ErrorString
      (if ext then "not enough cosigners for vote extension" else "not enough cosigners"))
  else
    do combined <- CombineSignatures chainID sigs;
    match combined with
    | Panics m => Ret (Panics m)
    | Err e =>
        fail_block chainID block (WrapError
          (if ext then "error combining vote extension signatures: " else "error combining signatures: ") e)
    | Ok signature =>
        do valid <- VerifySignature chainID payload signature;
        if (valid : bool) then Ret (Ok signature)
        else fail_block chainID block (ErrorString
          (if ext then "combined signature for vote extension is not valid" else "combined signature is not valid"))
    end.

(** The watermark moves, and the cluster is told. *)
Definition finish_block (chainID : string) (block : Block) (signature voteExtSig : gobytes) : P (result Signed goerror) :=
  let newLss := mkSSC (b_Height block) (b_Round block) (b_Step block) signature voteExtSig (b_SignBytes block) in
  must loc <- mustLoadChainState chainID;
  do saved <- atomically (save_section loc newLss []);
  let share :=
    do _ <- call (net_ShareSigned (mkChainSSC chainID newLss));
    Ret (Ok (mkSigned signature voteExtSig (b_Timestamp block))) in
  match saved with
  | Panics m => Ret (Panics m)
  | Ok _ => share
  | Err e =>
      if negb (is_SameHRSError e) then fail_block chainID block (WrapError "error saving last sign state: " e)
      else share
  end.

(** [Sign] for a block that has no signature yet. *)
Definition sign_new (chainID : string) (block : Block) : P (result Signed goerror) :=
  do fastest <- fastest_peers;
  must cosigners <- Ret (cosigners_for_block (tv_threshold pv) (tv_myID pv) fastest);
  match verifySignPayload chainID (b_SignBytes block) (b_VoteExtensionSignBytes block) with
  | Panics m => Ret (Panics m)
  | Err e => fail_block chainID block (WrapError "failed to verify payload: " e)
  | Ok (_, hasVoteExtensions) =>
      must r <- get_round chainID block hasVoteExtensions cosigners;
      must shares <- collect_shares chainID block fastest r;
      must signature <- assemble chainID block false (b_SignBytes block) (sh_Signatures shares);
      must voteExtSig <-
        (if hasVoteExtensions
         then assemble chainID block true (b_VoteExtensionSignBytes block) (sh_VoteExtSignatures shares)
         else Ret (Ok None));
      finish_block chainID block signature voteExtSig
  end.

Definition Sign (chainID : string) (block : Block) : P (result Signed goerror) :=
  must _ <- LoadSignStateIfNecessary chainID;
  do proxied <- proxyIfNecessary chainID block;
  match proxied with
  | Some r => Ret r
  | None =>
      do existing <- SaveLastSignedStateInitiated chainID block;
      match existing with
      | Panics m => Ret (Panics m)
      | Err e => Ret (Err (WrapError "error saving last sign state initiated: " e))
      | Ok signed =>
          if negb (is_nil (sg_Signature signed)) then sign_existing chainID block signed
          else sign_new chainID block
      end
  end.

(** [waitForSignStatesToFlushToDisk]: a queued write completes. *)
Definition tv_flush (i : nat) : P (result unit goerror) :=
  atomic (λ s,
    match flush_write i (tv_disk s) with
    | Ok d => (tv_set_disk d s, Ok ())
    | Err e => (s, Err e)
    | Panics m => (s, Panics m)
    end).
End validator.
