(* ===== verification/CosignerProto.v ===== *)
(** * The messages between cosigners

    The generated messages of signer/proto/cosigner.pb.go: for each message its size, its
    writer, the switch of its [Unmarshal] over field numbers, and [Unmarshal].  The class
    [Message] is what the transport uses of a message; [Marshal] is generic over it.

    A field that is a pointer is an option.  The elements of the repeated fields are never
    nil: [Unmarshal] allocates each, and the conversions of signer/cosigner.go build each.

    The specification of a message is its encoding: fields in the order of their numbers,
    each with its tag, those with zero values left out.  [messages_roundtrip] shows that
    [Marshal] produces the encoding without a panic, that [Size] is its length, and that
    [Unmarshal] recovers the message from it, where an empty byte slice comes back as nil.
    [messages_total] shows that [Unmarshal] ends on any data, and never panics. *)

From S2P Require Import Prelude Errors Wire Hrs Cosigner ThresholdValidator.
From stdpp Require Import base list strings numbers.
From Stdlib Require Import ZArith Lia.

Open Scope string_scope.
Open Scope list_scope.
Open Scope Z_scope.
Open Scope wire_scope.

(** ** Definitions *)

(** What the transport uses of a message. *)
Class Message (M : Type) := {
  zero : M;
  Size : M → Z;
  MarshalToSizedBuffer : M → writer;
  Unmarshal : M → list Z → result M goerror
}.

Definition Marshal `{Message M} (m : M) : result (list Z) goerror := marshal (Size m) (MarshalToSizedBuffer m).

(** *** The data *)

Record protoSignBlockRequest := mkProtoSignBlockRequest {
  psbq_ChainID : string;
  psbq_Block : option protoBlock
}.

Record protoSignBlockResponse := mkProtoSignBlockResponse {
  psbp_Signature : gobytes;
  psbp_VoteExtSignature : gobytes;
  psbp_Timestamp : Z
}.

Record protoSetNoncesAndSignRequest := mkProtoSetNoncesAndSignRequest {
  psnq_Uuid : gobytes;
  psnq_Nonces : list protoNonce;
  psnq_Hrst : option protoHRST;
  psnq_SignBytes : gobytes;
  psnq_VoteExtUuid : gobytes;
  psnq_VoteExtNonces : list protoNonce;
  psnq_VoteExtSignBytes : gobytes;
  psnq_ChainID : string
}.

Record protoSetNoncesAndSignResponse := mkProtoSetNoncesAndSignResponse {
  psnp_Timestamp : Z;
  psnp_NoncePublic : gobytes;
  psnp_Signature : gobytes;
  psnp_VoteExtNoncePublic : gobytes;
  psnp_VoteExtSignature : gobytes
}.

Record protoGetNoncesRequest := mkProtoGetNoncesRequest {
  pgnq_Uuids : list gobytes
}.

Record protoGetNoncesResponse := mkProtoGetNoncesResponse {
  pgnp_Nonces : list protoUUIDNonce
}.

Record protoTransferLeadershipRequest := mkProtoTransferLeadershipRequest {
  ptlq_LeaderID : string
}.

Record protoTransferLeadershipResponse := mkProtoTransferLeadershipResponse {
  ptlp_LeaderID : string;
  ptlp_LeaderAddress : string
}.

Record protoGetLeaderRequest := mkProtoGetLeaderRequest {}.

Record protoGetLeaderResponse := mkProtoGetLeaderResponse {
  pglp_Leader : Z
}.

Record protoPingRequest := mkProtoPingRequest {}.

Record protoPingResponse := mkProtoPingResponse {}.

(** *** Block *)

Definition Block_Size (m : protoBlock) : Z :=
  size_int (pb_Height m) + size_int (pb_Round m) + size_int (pb_Step m) + size_bytes (slice (pb_SignBytes m))
  + size_bytes (slice (pb_VoteExtSignBytes m)) + size_int (pb_Timestamp m).

Definition Block_MarshalToSizedBuffer (m : protoBlock) : writer :=
  put_int 48 (pb_Timestamp m) ;;
  put_bytes 42 (slice (pb_VoteExtSignBytes m)) ;;
  put_bytes 34 (slice (pb_SignBytes m)) ;;
  put_int 24 (pb_Step m) ;;
  put_int 16 (pb_Round m) ;;
  put_int 8 (pb_Height m).

Definition Block_Unmarshal (m : protoBlock) (dAtA : list Z) : result protoBlock goerror :=
  unmarshal "Block" (λ l fieldNum wireType m,
    let '(mkProtoBlock height round step signBytes voteExtSignBytes timestamp) := m in
    match fieldNum with
    | 1 => Some (get_int i64 "Height" wireType (λ v, mkProtoBlock v round step signBytes voteExtSignBytes timestamp))
    | 2 => Some (get_int i64 "Round" wireType (λ v, mkProtoBlock height v step signBytes voteExtSignBytes timestamp))
    | 3 => Some (get_int i32 "Step" wireType (λ v, mkProtoBlock height round v signBytes voteExtSignBytes timestamp))
    | 4 => Some (get_bytes l "SignBytes" wireType (λ v, mkProtoBlock height round step (Some v) voteExtSignBytes timestamp))
    | 5 => Some (get_bytes l "VoteExtSignBytes" wireType (λ v, mkProtoBlock height round step signBytes (Some v) timestamp))
    | 6 => Some (get_int i64 "Timestamp" wireType (λ v, mkProtoBlock height round step signBytes voteExtSignBytes v))
    | _ => None
    end) m dAtA.

#[global] Instance Block_Message : Message protoBlock :=
  {| zero := mkProtoBlock 0 0 0 None None 0; Size := Block_Size;
     MarshalToSizedBuffer := Block_MarshalToSizedBuffer; Unmarshal := Block_Unmarshal |}.

(** *** SignBlockRequest *)

Definition SignBlockRequest_Size (m : protoSignBlockRequest) : Z :=
  size_bytes (string_bytes (psbq_ChainID m))
  + match psbq_Block m with Some b => size_slice (Block_Size b) | None => 0 end.

Definition SignBlockRequest_MarshalToSizedBuffer (m : protoSignBlockRequest) : writer :=
  match psbq_Block m with Some b => put_message 18 (Block_MarshalToSizedBuffer b) | None => skip_write end ;;
  put_bytes 10 (string_bytes (psbq_ChainID m)).

Definition SignBlockRequest_Unmarshal (m : protoSignBlockRequest) (dAtA : list Z) : result protoSignBlockRequest goerror :=
  unmarshal "SignBlockRequest" (λ l fieldNum wireType m,
    let '(mkProtoSignBlockRequest chainID block) := m in
    match fieldNum with
    | 1 => Some (get_string l "ChainID" wireType (λ v, mkProtoSignBlockRequest v block))
    | 2 => Some (get_message l "Block" wireType (λ bs,
             try b <- Block_Unmarshal (default zero block) bs;
             Ok (mkProtoSignBlockRequest chainID (Some b))))
    | _ => None
    end) m dAtA.

#[global] Instance SignBlockRequest_Message : Message protoSignBlockRequest :=
  {| zero := mkProtoSignBlockRequest "" None; Size := SignBlockRequest_Size;
     MarshalToSizedBuffer := SignBlockRequest_MarshalToSizedBuffer; Unmarshal := SignBlockRequest_Unmarshal |}.

(** *** SignBlockResponse *)

Definition SignBlockResponse_Size (m : protoSignBlockResponse) : Z :=
  size_bytes (slice (psbp_Signature m)) + size_bytes (slice (psbp_VoteExtSignature m)) + size_int (psbp_Timestamp m).

Definition SignBlockResponse_MarshalToSizedBuffer (m : protoSignBlockResponse) : writer :=
  put_int 24 (psbp_Timestamp m) ;;
  put_bytes 18 (slice (psbp_VoteExtSignature m)) ;;
  put_bytes 10 (slice (psbp_Signature m)).

Definition SignBlockResponse_Unmarshal (m : protoSignBlockResponse) (dAtA : list Z) : result protoSignBlockResponse goerror :=
  unmarshal "SignBlockResponse" (λ l fieldNum wireType m,
    let '(mkProtoSignBlockResponse signature voteExtSignature timestamp) := m in
    match fieldNum with
    | 1 => Some (get_bytes l "Signature" wireType (λ v, mkProtoSignBlockResponse (Some v) voteExtSignature timestamp))
    | 2 => Some (get_bytes l "VoteExtSignature" wireType (λ v, mkProtoSignBlockResponse signature (Some v) timestamp))
    | 3 => Some (get_int i64 "Timestamp" wireType (λ v, mkProtoSignBlockResponse signature voteExtSignature v))
    | _ => None
    end) m dAtA.

#[global] Instance SignBlockResponse_Message : Message protoSignBlockResponse :=
  {| zero := mkProtoSignBlockResponse None None 0; Size := SignBlockResponse_Size;
     MarshalToSizedBuffer := SignBlockResponse_MarshalToSizedBuffer; Unmarshal := SignBlockResponse_Unmarshal |}.

(** *** Nonce *)

Definition Nonce_Size (m : protoNonce) : Z :=
  size_int (pn_SourceID m) + size_int (pn_DestinationID m) + size_bytes (slice (pn_PubKey m))
  + size_bytes (slice (pn_Share m)) + size_bytes (slice (pn_Signature m)).

Definition Nonce_MarshalToSizedBuffer (m : protoNonce) : writer :=
  put_bytes 42 (slice (pn_Signature m)) ;;
  put_bytes 34 (slice (pn_Share m)) ;;
  put_bytes 26 (slice (pn_PubKey m)) ;;
  put_int 16 (pn_DestinationID m) ;;
  put_int 8 (pn_SourceID m).

Definition Nonce_Unmarshal (m : protoNonce) (dAtA : list Z) : result protoNonce goerror :=
  unmarshal "Nonce" (λ l fieldNum wireType m,
    let '(mkProtoNonce sourceID destinationID pubKey share signature) := m in
    match fieldNum with
    | 1 => Some (get_int i32 "SourceID" wireType (λ v, mkProtoNonce v destinationID pubKey share signature))
    | 2 => Some (get_int i32 "DestinationID" wireType (λ v, mkProtoNonce sourceID v pubKey share signature))
    | 3 => Some (get_bytes l "PubKey" wireType (λ v, mkProtoNonce sourceID destinationID (Some v) share signature))
    | 4 => Some (get_bytes l "Share" wireType (λ v, mkProtoNonce sourceID destinationID pubKey (Some v) signature))
    | 5 => Some (get_bytes l "Signature" wireType (λ v, mkProtoNonce sourceID destinationID pubKey share (Some v)))
    | _ => None
    end) m dAtA.

#[global] Instance Nonce_Message : Message protoNonce :=
  {| zero := mkProtoNonce 0 0 None None None; Size := Nonce_Size;
     MarshalToSizedBuffer := Nonce_MarshalToSizedBuffer; Unmarshal := Nonce_Unmarshal |}.

(** *** UUIDNonce *)

Definition UUIDNonce_Size (m : protoUUIDNonce) : Z :=
  size_bytes (slice (pun_Uuid m)) + size_repeated Nonce_Size (pun_Nonces m).

Definition UUIDNonce_MarshalToSizedBuffer (m : protoUUIDNonce) : writer :=
  put_repeated (λ n, put_message 18 (Nonce_MarshalToSizedBuffer n)) (pun_Nonces m) ;;
  put_bytes 10 (slice (pun_Uuid m)).

Definition UUIDNonce_Unmarshal (m : protoUUIDNonce) (dAtA : list Z) : result protoUUIDNonce goerror :=
  unmarshal "UUIDNonce" (λ l fieldNum wireType m,
    let '(mkProtoUUIDNonce uuid nonces) := m in
    match fieldNum with
    | 1 => Some (get_bytes l "Uuid" wireType (λ v, mkProtoUUIDNonce (Some v) nonces))
    | 2 => Some (get_message l "Nonces" wireType (λ bs,
             try n <- Nonce_Unmarshal zero bs;
             Ok (mkProtoUUIDNonce uuid (nonces ++ [n]))))
    | _ => None
    end) m dAtA.

#[global] Instance UUIDNonce_Message : Message protoUUIDNonce :=
  {| zero := mkProtoUUIDNonce None []; Size := UUIDNonce_Size;
     MarshalToSizedBuffer := UUIDNonce_MarshalToSizedBuffer; Unmarshal := UUIDNonce_Unmarshal |}.

(** *** HRST *)

Definition HRST_Size (m : protoHRST) : Z :=
  size_int (pHRST_Height m) + size_int (pHRST_Round m) + size_int (pHRST_Step m) + size_int (pHRST_Timestamp m).

Definition HRST_MarshalToSizedBuffer (m : protoHRST) : writer :=
  put_int 32 (pHRST_Timestamp m) ;;
  put_int 24 (pHRST_Step m) ;;
  put_int 16 (pHRST_Round m) ;;
  put_int 8 (pHRST_Height m).

Definition HRST_Unmarshal (m : protoHRST) (dAtA : list Z) : result protoHRST goerror :=
  unmarshal "HRST" (λ l fieldNum wireType m,
    let '(mkProtoHRST height round step timestamp) := m in
    match fieldNum with
    | 1 => Some (get_int i64 "Height" wireType (λ v, mkProtoHRST v round step timestamp))
    | 2 => Some (get_int i64 "Round" wireType (λ v, mkProtoHRST height v step timestamp))
    | 3 => Some (get_int i32 "Step" wireType (λ v, mkProtoHRST height round v timestamp))
    | 4 => Some (get_int i64 "Timestamp" wireType (λ v, mkProtoHRST height round step v))
    | _ => None
    end) m dAtA.

#[global] Instance HRST_Message : Message protoHRST :=
  {| zero := mkProtoHRST 0 0 0 0; Size := HRST_Size;
     MarshalToSizedBuffer := HRST_MarshalToSizedBuffer; Unmarshal := HRST_Unmarshal |}.

(** *** SetNoncesAndSignRequest *)

Definition SetNoncesAndSignRequest_Size (m : protoSetNoncesAndSignRequest) : Z :=
  size_bytes (slice (psnq_Uuid m)) + size_repeated Nonce_Size (psnq_Nonces m)
  + match psnq_Hrst m with Some h => size_slice (HRST_Size h) | None => 0 end
  + size_bytes (slice (psnq_SignBytes m)) + size_bytes (slice (psnq_VoteExtUuid m))
  + size_repeated Nonce_Size (psnq_VoteExtNonces m) + size_bytes (slice (psnq_VoteExtSignBytes m))
  + size_bytes (string_bytes (psnq_ChainID m)).

Definition SetNoncesAndSignRequest_MarshalToSizedBuffer (m : protoSetNoncesAndSignRequest) : writer :=
  put_bytes 66 (string_bytes (psnq_ChainID m)) ;;
  put_bytes 58 (slice (psnq_VoteExtSignBytes m)) ;;
  put_repeated (λ n, put_message 50 (Nonce_MarshalToSizedBuffer n)) (psnq_VoteExtNonces m) ;;
  put_bytes 42 (slice (psnq_VoteExtUuid m)) ;;
  put_bytes 34 (slice (psnq_SignBytes m)) ;;
  match psnq_Hrst m with Some h => put_message 26 (HRST_MarshalToSizedBuffer h) | None => skip_write end ;;
  put_repeated (λ n, put_message 18 (Nonce_MarshalToSizedBuffer n)) (psnq_Nonces m) ;;
  put_bytes 10 (slice (psnq_Uuid m)).

Definition SetNoncesAndSignRequest_Unmarshal (m : protoSetNoncesAndSignRequest) (dAtA : list Z)
    : result protoSetNoncesAndSignRequest goerror :=
  unmarshal "SetNoncesAndSignRequest" (λ l fieldNum wireType m,
    let '(mkProtoSetNoncesAndSignRequest uuid nonces hrst signBytes veUuid veNonces veSignBytes chainID) := m in
    match fieldNum with
    | 1 => Some (get_bytes l "Uuid" wireType (λ v,
             mkProtoSetNoncesAndSignRequest (Some v) nonces hrst signBytes veUuid veNonces veSignBytes chainID))
    | 2 => Some (get_message l "Nonces" wireType (λ bs,
             try n <- Nonce_Unmarshal zero bs;
             Ok (mkProtoSetNoncesAndSignRequest uuid (nonces ++ [n]) hrst signBytes veUuid veNonces veSignBytes chainID)))
    | 3 => Some (get_message l "Hrst" wireType (λ bs,
             try h <- HRST_Unmarshal (default zero hrst) bs;
             Ok (mkProtoSetNoncesAndSignRequest uuid nonces (Some h) signBytes veUuid veNonces veSignBytes chainID)))
    | 4 => Some (get_bytes l "SignBytes" wireType (λ v,
             mkProtoSetNoncesAndSignRequest uuid nonces hrst (Some v) veUuid veNonces veSignBytes chainID))
    | 5 => Some (get_bytes l "VoteExtUuid" wireType (λ v,
             mkProtoSetNoncesAndSignRequest uuid nonces hrst signBytes (Some v) veNonces veSignBytes chainID))
    | 6 => Some (get_message l "VoteExtNonces" wireType (λ bs,
             try n <- Nonce_Unmarshal zero bs;
             Ok (mkProtoSetNoncesAndSignRequest uuid nonces hrst signBytes veUuid (veNonces ++ [n]) veSignBytes chainID)))
    | 7 => Some (get_bytes l "VoteExtSignBytes" wireType (λ v,
             mkProtoSetNoncesAndSignRequest uuid nonces hrst signBytes veUuid veNonces (Some v) chainID))
    | 8 => Some (get_string l "ChainID" wireType (λ v,
             mkProtoSetNoncesAndSignRequest uuid nonces hrst signBytes veUuid veNonces veSignBytes v))
    | _ => None
    end) m dAtA.

#[global] Instance SetNoncesAndSignRequest_Message : Message protoSetNoncesAndSignRequest :=
  {| zero := mkProtoSetNoncesAndSignRequest None [] None None None [] None ""; Size := SetNoncesAndSignRequest_Size;
     MarshalToSizedBuffer := SetNoncesAndSignRequest_MarshalToSizedBuffer;
     Unmarshal := SetNoncesAndSignRequest_Unmarshal |}.

(** *** SetNoncesAndSignResponse *)

Definition SetNoncesAndSignResponse_Size (m : protoSetNoncesAndSignResponse) : Z :=
  size_int (psnp_Timestamp m) + size_bytes (slice (psnp_NoncePublic m)) + size_bytes (slice (psnp_Signature m))
  + size_bytes (slice (psnp_VoteExtNoncePublic m)) + size_bytes (slice (psnp_VoteExtSignature m)).

Definition SetNoncesAndSignResponse_MarshalToSizedBuffer (m : protoSetNoncesAndSignResponse) : writer :=
  put_bytes 42 (slice (psnp_VoteExtSignature m)) ;;
  put_bytes 34 (slice (psnp_VoteExtNoncePublic m)) ;;
  put_bytes 26 (slice (psnp_Signature m)) ;;
  put_bytes 18 (slice (psnp_NoncePublic m)) ;;
  put_int 8 (psnp_Timestamp m).

Definition SetNoncesAndSignResponse_Unmarshal (m : protoSetNoncesAndSignResponse) (dAtA : list Z)
    : result protoSetNoncesAndSignResponse goerror :=
  unmarshal "SetNoncesAndSignResponse" (λ l fieldNum wireType m,
    let '(mkProtoSetNoncesAndSignResponse timestamp noncePublic signature veNoncePublic veSignature) := m in
    match fieldNum with
    | 1 => Some (get_int i64 "Timestamp" wireType (λ v,
             mkProtoSetNoncesAndSignResponse v noncePublic signature veNoncePublic veSignature))
    | 2 => Some (get_bytes l "NoncePublic" wireType (λ v,
             mkProtoSetNoncesAndSignResponse timestamp (Some v) signature veNoncePublic veSignature))
    | 3 => Some (get_bytes l "Signature" wireType (λ v,
             mkProtoSetNoncesAndSignResponse timestamp noncePublic (Some v) veNoncePublic veSignature))
    | 4 => Some (get_bytes l "VoteExtNoncePublic" wireType (λ v,
             mkProtoSetNoncesAndSignResponse timestamp noncePublic signature (Some v) veSignature))
    | 5 => Some (get_bytes l "VoteExtSignature" wireType (λ v,
             mkProtoSetNoncesAndSignResponse timestamp noncePublic signature veNoncePublic (Some v)))
    | _ => None
    end) m dAtA.

#[global] Instance SetNoncesAndSignResponse_Message : Message protoSetNoncesAndSignResponse :=
  {| zero := mkProtoSetNoncesAndSignResponse 0 None None None None; Size := SetNoncesAndSignResponse_Size;
     MarshalToSizedBuffer := SetNoncesAndSignResponse_MarshalToSizedBuffer;
     Unmarshal := SetNoncesAndSignResponse_Unmarshal |}.

(** *** GetNoncesRequest and GetNoncesResponse *)

Definition GetNoncesRequest_Size (m : protoGetNoncesRequest) : Z := size_repeated blen (pgnq_Uuids m).

Definition GetNoncesRequest_MarshalToSizedBuffer (m : protoGetNoncesRequest) : writer :=
  put_repeated (λ b, put_slice 10 (slice b)) (pgnq_Uuids m).

Definition GetNoncesRequest_Unmarshal (m : protoGetNoncesRequest) (dAtA : list Z) : result protoGetNoncesRequest goerror :=
  unmarshal "GetNoncesRequest" (λ l fieldNum wireType m,
    let '(mkProtoGetNoncesRequest uuids) := m in
    match fieldNum with
    | 1 => Some (get_bytes l "Uuids" wireType (λ v, mkProtoGetNoncesRequest (uuids ++ [Some v])))
    | _ => None
    end) m dAtA.

#[global] Instance GetNoncesRequest_Message : Message protoGetNoncesRequest :=
  {| zero := mkProtoGetNoncesRequest []; Size := GetNoncesRequest_Size;
     MarshalToSizedBuffer := GetNoncesRequest_MarshalToSizedBuffer; Unmarshal := GetNoncesRequest_Unmarshal |}.

Definition GetNoncesResponse_Size (m : protoGetNoncesResponse) : Z := size_repeated UUIDNonce_Size (pgnp_Nonces m).

Definition GetNoncesResponse_MarshalToSizedBuffer (m : protoGetNoncesResponse) : writer :=
  put_repeated (λ n, put_message 10 (UUIDNonce_MarshalToSizedBuffer n)) (pgnp_Nonces m).

Definition GetNoncesResponse_Unmarshal (m : protoGetNoncesResponse) (dAtA : list Z) : result protoGetNoncesResponse goerror :=
  unmarshal "GetNoncesResponse" (λ l fieldNum wireType m,
    let '(mkProtoGetNoncesResponse nonces) := m in
    match fieldNum with
    | 1 => Some (get_message l "Nonces" wireType (λ bs,
             try n <- UUIDNonce_Unmarshal zero bs;
             Ok (mkProtoGetNoncesResponse (nonces ++ [n]))))
    | _ => None
    end) m dAtA.

#[global] Instance GetNoncesResponse_Message : Message protoGetNoncesResponse :=
  {| zero := mkProtoGetNoncesResponse []; Size := GetNoncesResponse_Size;
     MarshalToSizedBuffer := GetNoncesResponse_MarshalToSizedBuffer; Unmarshal := GetNoncesResponse_Unmarshal |}.

(** *** TransferLeadershipRequest and TransferLeadershipResponse *)

Definition TransferLeadershipRequest_Size (m : protoTransferLeadershipRequest) : Z :=
  size_bytes (string_bytes (ptlq_LeaderID m)).

Definition TransferLeadershipRequest_MarshalToSizedBuffer (m : protoTransferLeadershipRequest) : writer :=
  put_bytes 10 (string_bytes (ptlq_LeaderID m)).

Definition TransferLeadershipRequest_Unmarshal (m : protoTransferLeadershipRequest) (dAtA : list Z)
    : result protoTransferLeadershipRequest goerror :=
  unmarshal "TransferLeadershipRequest" (λ l fieldNum wireType m,
    match fieldNum with
    | 1 => Some (get_string l "LeaderID" wireType mkProtoTransferLeadershipRequest)
    | _ => None
    end) m dAtA.

#[global] Instance TransferLeadershipRequest_Message : Message protoTransferLeadershipRequest :=
  {| zero := mkProtoTransferLeadershipRequest ""; Size := TransferLeadershipRequest_Size;
     MarshalToSizedBuffer := TransferLeadershipRequest_MarshalToSizedBuffer;
     Unmarshal := TransferLeadershipRequest_Unmarshal |}.

Definition TransferLeadershipResponse_Size (m : protoTransferLeadershipResponse) : Z :=
  size_bytes (string_bytes (ptlp_LeaderID m)) + size_bytes (string_bytes (ptlp_LeaderAddress m)).

Definition TransferLeadershipResponse_MarshalToSizedBuffer (m : protoTransferLeadershipResponse) : writer :=
  put_bytes 18 (string_bytes (ptlp_LeaderAddress m)) ;;
  put_bytes 10 (string_bytes (ptlp_LeaderID m)).

Definition TransferLeadershipResponse_Unmarshal (m : protoTransferLeadershipResponse) (dAtA : list Z)
    : result protoTransferLeadershipResponse goerror :=
  unmarshal "TransferLeadershipResponse" (λ l fieldNum wireType m,
    let '(mkProtoTransferLeadershipResponse leaderID leaderAddress) := m in
    match fieldNum with
    | 1 => Some (get_string l "LeaderID" wireType (λ v, mkProtoTransferLeadershipResponse v leaderAddress))
    | 2 => Some (get_string l "LeaderAddress" wireType (λ v, mkProtoTransferLeadershipResponse leaderID v))
    | _ => None
    end) m dAtA.

#[global] Instance TransferLeadershipResponse_Message : Message protoTransferLeadershipResponse :=
  {| zero := mkProtoTransferLeadershipResponse "" ""; Size := TransferLeadershipResponse_Size;
     MarshalToSizedBuffer := TransferLeadershipResponse_MarshalToSizedBuffer;
     Unmarshal := TransferLeadershipResponse_Unmarshal |}.

(** *** GetLeaderRequest and GetLeaderResponse *)

Definition GetLeaderRequest_Size (_ : protoGetLeaderRequest) : Z := 0.

Definition GetLeaderRequest_MarshalToSizedBuffer (_ : protoGetLeaderRequest) : writer := skip_write.

Definition GetLeaderRequest_Unmarshal (m : protoGetLeaderRequest) (dAtA : list Z) : result protoGetLeaderRequest goerror :=
  unmarshal "GetLeaderRequest" (λ _ _ _ _, None) m dAtA.

#[global] Instance GetLeaderRequest_Message : Message protoGetLeaderRequest :=
  {| zero := mkProtoGetLeaderRequest; Size := GetLeaderRequest_Size;
     MarshalToSizedBuffer := GetLeaderRequest_MarshalToSizedBuffer; Unmarshal := GetLeaderRequest_Unmarshal |}.

Definition GetLeaderResponse_Size (m : protoGetLeaderResponse) : Z := size_int (pglp_Leader m).

Definition GetLeaderResponse_MarshalToSizedBuffer (m : protoGetLeaderResponse) : writer := put_int 8 (pglp_Leader m).

Definition GetLeaderResponse_Unmarshal (m : protoGetLeaderResponse) (dAtA : list Z) : result protoGetLeaderResponse goerror :=
  unmarshal "GetLeaderResponse" (λ l fieldNum wireType m,
    match fieldNum with
    | 1 => Some (get_int i32 "Leader" wireType mkProtoGetLeaderResponse)
    | _ => None
    end) m dAtA.

#[global] Instance GetLeaderResponse_Message : Message protoGetLeaderResponse :=
  {| zero := mkProtoGetLeaderResponse 0; Size := GetLeaderResponse_Size;
     MarshalToSizedBuffer := GetLeaderResponse_MarshalToSizedBuffer; Unmarshal := GetLeaderResponse_Unmarshal |}.

(** *** PingRequest and PingResponse *)

Definition PingRequest_Size (_ : protoPingRequest) : Z := 0.

Definition PingRequest_MarshalToSizedBuffer (_ : protoPingRequest) : writer := skip_write.

Definition PingRequest_Unmarshal (m : protoPingRequest) (dAtA : list Z) : result protoPingRequest goerror :=
  unmarshal "PingRequest" (λ _ _ _ _, None) m dAtA.

#[global] Instance PingRequest_Message : Message protoPingRequest :=
  {| zero := mkProtoPingRequest; Size := PingRequest_Size;
     MarshalToSizedBuffer := PingRequest_MarshalToSizedBuffer; Unmarshal := PingRequest_Unmarshal |}.

Definition PingResponse_Size (_ : protoPingResponse) : Z := 0.

Definition PingResponse_MarshalToSizedBuffer (_ : protoPingResponse) : writer := skip_write.

Definition PingResponse_Unmarshal (m : protoPingResponse) (dAtA : list Z) : result protoPingResponse goerror :=
  unmarshal "PingResponse" (λ _ _ _ _, None) m dAtA.

#[global] Instance PingResponse_Message : Message protoPingResponse :=
  {| zero := mkProtoPingResponse; Size := PingResponse_Size;
     MarshalToSizedBuffer := PingResponse_MarshalToSizedBuffer; Unmarshal := PingResponse_Unmarshal |}.

(** *** Specifications *)

(** The encoding of a pointer field *)
Definition enc_pointer {A} (tag : Z) (enc : A → list Z) (x : option A) : list Z :=
  match x with
  | Some a => enc_slice tag (enc a)
  | None => []
  end.

(** What a message means on the wire: messages that [fits] have this [encoding], which
    [Unmarshal] takes to [decoded]. *)
Definition encodes `{Message M} (fits : M → Prop) (encoding : M → list Z) (decoded : M → M) : Prop :=
  ∀ m, fits m → Z.of_nat (length (encoding m)) < 2 ^ 63 →
    writes (MarshalToSizedBuffer m) (encoding m) ∧ Size m = Z.of_nat (length (encoding m))
    ∧ Unmarshal zero (encoding m) = Ok (decoded m).

Class MessageSpec (M : Type) `{Message M} := {
  fits : M → Prop;
  encoding : M → list Z;
  decoded : M → M;
  encoding_ok : encodes fits encoding decoded;
  Unmarshal_no_panic : ∀ m, no_panic (Unmarshal m)
}.

(** The round trip through [Marshal] and [Unmarshal]. *)
Definition roundtrips `{Message M} (fits : M → Prop) (encoding : M → list Z) (decoded : M → M) : Prop :=
  ∀ m, fits m → Z.of_nat (length (encoding m)) < 2 ^ 63 →
    Marshal m = Ok (encoding m) ∧ Size m = Z.of_nat (length (encoding m))
    ∧ Unmarshal zero (encoding m) = Ok (decoded m).

(** The integer fields hold values of their types. *)
Definition Block_fits (m : protoBlock) : Prop :=
  in_sint 64 (pb_Height m) ∧ in_sint 64 (pb_Round m) ∧ in_sint 32 (pb_Step m) ∧ in_sint 64 (pb_Timestamp m).

Definition Block_encoding (m : protoBlock) : list Z :=
  enc_int 8 (pb_Height m) ++ enc_int 16 (pb_Round m) ++ enc_int 24 (pb_Step m) ++ enc_bytes 34 (slice (pb_SignBytes m))
  ++ enc_bytes 42 (slice (pb_VoteExtSignBytes m)) ++ enc_int 48 (pb_Timestamp m).

Definition Block_decoded (m : protoBlock) : protoBlock :=
  mkProtoBlock (pb_Height m) (pb_Round m) (pb_Step m) (received (pb_SignBytes m)) (received (pb_VoteExtSignBytes m))
    (pb_Timestamp m).

Definition SignBlockRequest_fits (m : protoSignBlockRequest) : Prop := ∀ b, psbq_Block m = Some b → Block_fits b.

Definition SignBlockRequest_encoding (m : protoSignBlockRequest) : list Z :=
  enc_bytes 10 (string_bytes (psbq_ChainID m)) ++ enc_pointer 18 Block_encoding (psbq_Block m).

Definition SignBlockRequest_decoded (m : protoSignBlockRequest) : protoSignBlockRequest :=
  mkProtoSignBlockRequest (psbq_ChainID m) (Block_decoded <$> psbq_Block m).

Definition SignBlockResponse_fits (m : protoSignBlockResponse) : Prop := in_sint 64 (psbp_Timestamp m).

Definition SignBlockResponse_encoding (m : protoSignBlockResponse) : list Z :=
  enc_bytes 10 (slice (psbp_Signature m)) ++ enc_bytes 18 (slice (psbp_VoteExtSignature m)) ++ enc_int 24 (psbp_Timestamp m).

Definition SignBlockResponse_decoded (m : protoSignBlockResponse) : protoSignBlockResponse :=
  mkProtoSignBlockResponse (received (psbp_Signature m)) (received (psbp_VoteExtSignature m)) (psbp_Timestamp m).

Definition Nonce_fits (m : protoNonce) : Prop := in_sint 32 (pn_SourceID m) ∧ in_sint 32 (pn_DestinationID m).

Definition Nonce_encoding (m : protoNonce) : list Z :=
  enc_int 8 (pn_SourceID m) ++ enc_int 16 (pn_DestinationID m) ++ enc_bytes 26 (slice (pn_PubKey m))
  ++ enc_bytes 34 (slice (pn_Share m)) ++ enc_bytes 42 (slice (pn_Signature m)).

Definition Nonce_decoded (m : protoNonce) : protoNonce :=
  mkProtoNonce (pn_SourceID m) (pn_DestinationID m) (received (pn_PubKey m)) (received (pn_Share m))
    (received (pn_Signature m)).

Definition UUIDNonce_fits (m : protoUUIDNonce) : Prop := Forall Nonce_fits (pun_Nonces m).

Definition UUIDNonce_encoding (m : protoUUIDNonce) : list Z :=
  enc_bytes 10 (slice (pun_Uuid m)) ++ enc_repeated 18 Nonce_encoding (pun_Nonces m).

Definition UUIDNonce_decoded (m : protoUUIDNonce) : protoUUIDNonce :=
  mkProtoUUIDNonce (received (pun_Uuid m)) (Nonce_decoded <$> pun_Nonces m).

Definition HRST_fits (m : protoHRST) : Prop :=
  in_sint 64 (pHRST_Height m) ∧ in_sint 64 (pHRST_Round m) ∧ in_sint 32 (pHRST_Step m) ∧ in_sint 64 (pHRST_Timestamp m).

Definition HRST_encoding (m : protoHRST) : list Z :=
  enc_int 8 (pHRST_Height m) ++ enc_int 16 (pHRST_Round m) ++ enc_int 24 (pHRST_Step m) ++ enc_int 32 (pHRST_Timestamp m).

Definition SetNoncesAndSignRequest_fits (m : protoSetNoncesAndSignRequest) : Prop :=
  Forall Nonce_fits (psnq_Nonces m) ∧ (∀ h, psnq_Hrst m = Some h → HRST_fits h) ∧ Forall Nonce_fits (psnq_VoteExtNonces m).

Definition SetNoncesAndSignRequest_encoding (m : protoSetNoncesAndSignRequest) : list Z :=
  enc_bytes 10 (slice (psnq_Uuid m)) ++ enc_repeated 18 Nonce_encoding (psnq_Nonces m)
  ++ enc_pointer 26 HRST_encoding (psnq_Hrst m) ++ enc_bytes 34 (slice (psnq_SignBytes m))
  ++ enc_bytes 42 (slice (psnq_VoteExtUuid m)) ++ enc_repeated 50 Nonce_encoding (psnq_VoteExtNonces m)
  ++ enc_bytes 58 (slice (psnq_VoteExtSignBytes m)) ++ enc_bytes 66 (string_bytes (psnq_ChainID m)).

Definition SetNoncesAndSignRequest_decoded (m : protoSetNoncesAndSignRequest) : protoSetNoncesAndSignRequest :=
  mkProtoSetNoncesAndSignRequest (received (psnq_Uuid m)) (Nonce_decoded <$> psnq_Nonces m) (psnq_Hrst m)
    (received (psnq_SignBytes m)) (received (psnq_VoteExtUuid m)) (Nonce_decoded <$> psnq_VoteExtNonces m)
    (received (psnq_VoteExtSignBytes m)) (psnq_ChainID m).

Definition SetNoncesAndSignResponse_fits (m : protoSetNoncesAndSignResponse) : Prop := in_sint 64 (psnp_Timestamp m).

Definition SetNoncesAndSignResponse_encoding (m : protoSetNoncesAndSignResponse) : list Z :=
  enc_int 8 (psnp_Timestamp m) ++ enc_bytes 18 (slice (psnp_NoncePublic m)) ++ enc_bytes 26 (slice (psnp_Signature m))
  ++ enc_bytes 34 (slice (psnp_VoteExtNoncePublic m)) ++ enc_bytes 42 (slice (psnp_VoteExtSignature m)).

Definition SetNoncesAndSignResponse_decoded (m : protoSetNoncesAndSignResponse) : protoSetNoncesAndSignResponse :=
  mkProtoSetNoncesAndSignResponse (psnp_Timestamp m) (received (psnp_NoncePublic m)) (received (psnp_Signature m))
    (received (psnp_VoteExtNoncePublic m)) (received (psnp_VoteExtSignature m)).

Definition GetNoncesRequest_encoding (m : protoGetNoncesRequest) : list Z := enc_repeated 10 slice (pgnq_Uuids m).

Definition GetNoncesRequest_decoded (m : protoGetNoncesRequest) : protoGetNoncesRequest :=
  mkProtoGetNoncesRequest (bytes_copy <$> pgnq_Uuids m).

Definition GetNoncesResponse_fits (m : protoGetNoncesResponse) : Prop := Forall UUIDNonce_fits (pgnp_Nonces m).

Definition GetNoncesResponse_encoding (m : protoGetNoncesResponse) : list Z :=
  enc_repeated 10 UUIDNonce_encoding (pgnp_Nonces m).

Definition GetNoncesResponse_decoded (m : protoGetNoncesResponse) : protoGetNoncesResponse :=
  mkProtoGetNoncesResponse (UUIDNonce_decoded <$> pgnp_Nonces m).

Definition TransferLeadershipRequest_encoding (m : protoTransferLeadershipRequest) : list Z :=
  enc_bytes 10 (string_bytes (ptlq_LeaderID m)).

Definition TransferLeadershipResponse_encoding (m : protoTransferLeadershipResponse) : list Z :=
  enc_bytes 10 (string_bytes (ptlp_LeaderID m)) ++ enc_bytes 18 (string_bytes (ptlp_LeaderAddress m)).

Definition GetLeaderResponse_fits (m : protoGetLeaderResponse) : Prop := in_sint 32 (pglp_Leader m).

Definition GetLeaderResponse_encoding (m : protoGetLeaderResponse) : list Z := enc_int 8 (pglp_Leader m).

(** ** Lemmas *)

(** *** Parts of an encoding fit when the whole does *)

Lemma enc_slice_le tag bs : (length bs ≤ length (enc_slice tag bs))%nat.
Proof. unfold enc_slice. cbn [length]. rewrite length_app. lia. Qed.

Lemma enc_bytes_le tag bs : (length bs ≤ length (enc_bytes tag bs))%nat.
Proof. unfold enc_bytes. destruct (Nat.eqb_spec (length bs) 0); [lia|apply enc_slice_le]. Qed.

Lemma enc_repeated_le {A} tag (enc : A → list Z) xs x :
  x ∈ xs → (length (enc_slice tag (enc x)) ≤ length (enc_repeated tag enc xs))%nat.
Proof.
  unfold enc_repeated. induction 1 as [x xs|x y xs _ IH]; cbn [fmap list_fmap concat] in *; rewrite length_app; lia.
Qed.

Lemma part_bytes tag bs :
  Z.of_nat (length (enc_bytes tag bs)) < 2 ^ 63 →
  writes (put_bytes tag bs) (enc_bytes tag bs) ∧ size_bytes bs = Z.of_nat (length (enc_bytes tag bs)).
Proof.
  intros H. pose proof (enc_bytes_le tag bs). split; [apply writes_bytes; lia|apply size_bytes_ok; lia].
Qed.

Lemma part_pointer `{MessageSpec A} tag (x : option A) :
  (∀ a, x = Some a → fits a) → Z.of_nat (length (enc_pointer tag encoding x)) < 2 ^ 63 →
  writes (match x with Some a => put_message tag (MarshalToSizedBuffer a) | None => skip_write end)
    (enc_pointer tag encoding x)
  ∧ match x with Some a => size_slice (Size a) | None => 0 end = Z.of_nat (length (enc_pointer tag encoding x))
  ∧ ∀ a, x = Some a → Unmarshal zero (encoding a) = Ok (decoded a).
Proof.
  intros Hf Hl. destruct x as [a|]; cbn [enc_pointer] in *; [|split; [apply writes_skip|by split]].
  pose proof (enc_slice_le tag (encoding a)). destruct (encoding_ok a) as (Hw & Hs & Hu); [by apply Hf|lia|].
  split; [apply writes_message; [lia|done]|]. split; [rewrite Hs; apply size_slice_ok; lia|]. by intros ? [= <-].
Qed.

Lemma part_repeated `{MessageSpec A} tag (xs : list A) :
  Forall fits xs → Z.of_nat (length (enc_repeated tag encoding xs)) < 2 ^ 63 →
  writes (put_repeated (λ a, put_message tag (MarshalToSizedBuffer a)) xs) (enc_repeated tag encoding xs)
  ∧ size_repeated Size xs = Z.of_nat (length (enc_repeated tag encoding xs))
  ∧ ∀ a, a ∈ xs → Unmarshal zero (encoding a) = Ok (decoded a).
Proof.
  intros Hf Hl. assert (∀ a, a ∈ xs → fits a ∧ Z.of_nat (length (encoding a)) < 2 ^ 63) as Hx.
  { intros a Ha. rewrite list.Forall_forall in Hf. pose proof (enc_repeated_le tag encoding xs a Ha).
    pose proof (enc_slice_le tag (encoding a)). split; [by apply Hf|lia]. }
  split; [|split].
  - apply (writes_repeated tag _ encoding). apply list.Forall_forall. intros a Ha. destruct (Hx a Ha) as [Hfa Hla].
    apply writes_message; [done|]. by apply encoding_ok.
  - apply size_repeated_ok. apply list.Forall_forall. intros a Ha. destruct (Hx a Ha) as [Hfa Hla].
    split; [by apply encoding_ok|done].
  - intros a Ha. destruct (Hx a Ha) as [Hfa Hla]. by apply encoding_ok.
Qed.

(** *** Fields that are messages *)

Section fields.
Context {M : Type} (name : string) (field : Z → Z → Z → M → option (reader M)) (l : Z) (Hl : l < 2 ^ 63).
Context `{Message A} (enc : A → list Z) (dec : A → A).

Lemma decodes_pointer fieldNum (set : option A → M) fname x :
  0 < fieldNum < 16 →
  field l fieldNum 2 (set None)
  = Some (get_message l fname 2 (λ bs, try a <- Unmarshal zero bs; Ok (set (Some a)))) →
  (∀ a, x = Some a → Unmarshal zero (enc a) = Ok (dec a)) →
  decodes name field l (set None) (enc_pointer (Z.lor (Z.shiftl fieldNum 3) 2) enc x) (set (dec <$> x)).
Proof using Hl.
  intros Hf Hr Hu. destruct x as [a|]; cbn [enc_pointer fmap option_fmap option_map]; [|apply decodes_nil].
  eapply decodes_message; [done..|]. cbn beta. by rewrite Hu.
Qed.

Lemma decodes_elements fieldNum (set : list A → M) fname xs :
  0 < fieldNum < 16 →
  (∀ before, field l fieldNum 2 (set before)
     = Some (get_message l fname 2 (λ bs, try a <- Unmarshal zero bs; Ok (set (before ++ [a]))))) →
  (∀ a, a ∈ xs → Unmarshal zero (enc a) = Ok (dec a)) →
  decodes name field l (set []) (enc_repeated (Z.lor (Z.shiftl fieldNum 3) 2) enc xs) (set (dec <$> xs)).
Proof using Hl.
  intros Hf Hr Hu. apply decodes_repeated. intros before a Ha.
  eapply decodes_message; [done|done|apply Hr|]. cbn beta. by rewrite Hu.
Qed.

End fields.

Lemma wrap_sint w v : 0 < w ≤ 64 → in_sint w v → sint w (uint 64 v) = v.
Proof.
  intros Hw Hv. rewrite <- (sint_small w v) at 2 by (lia || done). apply sint_mod. unfold cong, uint.
  apply Z.mod_mod_divide. exists (2 ^ (64 - w)). rewrite <- Z.pow_add_r by lia. f_equal. lia.
Qed.

#[local] Arguments enc_int : simpl never.
#[local] Arguments enc_bytes : simpl never.
#[local] Arguments enc_repeated : simpl never.
#[local] Arguments enc_pointer : simpl never.
#[local] Arguments size_int : simpl never.
#[local] Arguments size_bytes : simpl never.
#[local] Arguments Z.pow : simpl never.
#[local] Arguments Z.of_nat : simpl never.
#[local] Arguments length : simpl never.
#[local] Arguments slice : simpl never.
#[local] Arguments received : simpl never.
#[local] Arguments string_bytes : simpl never.
#[local] Arguments app : simpl never.
#[local] Arguments Z.add : simpl never.

(** The lengths of the parts of an encoding, bounded by that of the whole *)
Ltac part_length := repeat rewrite length_app in *; lia.

(** The parts of a writer, by the lemmas at hand *)
Ltac write_fields :=
  rewrite ?app_assoc; repeat apply writes_seq; first [done | apply writes_int | apply writes_skip].

Ltac size_fields :=
  repeat match goal with
    | |- context [size_int ?v] => match goal with |- context [enc_int ?tag v] => rewrite (size_int_ok tag v) end
    end;
  repeat match goal with H : ?x = Z.of_nat (length _) |- context [?x] => rewrite H; clear H end;
  rewrite ?length_app; lia.

Ltac read_int n set :=
  apply (decodes_int _ _ _ n set _ _ _ ltac:(lia) eq_refl); [apply bitwise_sint; lia|by apply wrap_sint].
Ltac read_bytes n set := unshelve eapply (decodes_bytes _ _ _ _ n set _ _ ltac:(lia) eq_refl); assumption.
Ltac read_string n set := unshelve eapply (decodes_string _ _ _ _ n set _ _ ltac:(lia) eq_refl); assumption.

Lemma Block_ok : encodes Block_fits Block_encoding Block_decoded.
Proof.
  intros [h r s sb ve ts] (Hh & Hr & Hs & Ht) Hl. unfold Block_encoding in *. cbn in Hh, Hr, Hs, Ht, Hl |- *.
  destruct (part_bytes 34 (slice sb)) as [W4 S4]; [part_length|].
  destruct (part_bytes 42 (slice ve)) as [W5 S5]; [part_length|].
  split; [|split].
  - unfold Block_MarshalToSizedBuffer. cbn. write_fields.
  - unfold Block_Size. cbn. size_fields.
  - apply unmarshal_ok. 
    eapply decodes_app; [read_int 1 (λ v, mkProtoBlock v 0 0 None None 0)|].
    eapply decodes_app; [read_int 2 (λ v, mkProtoBlock h v 0 None None 0)|].
    eapply decodes_app; [read_int 3 (λ v, mkProtoBlock h r v None None 0)|].
    eapply decodes_app; [read_bytes 4 (λ v, mkProtoBlock h r s v None 0)|].
    eapply decodes_app; [read_bytes 5 (λ v, mkProtoBlock h r s (received sb) v 0)|].
    read_int 6 (λ v, mkProtoBlock h r s (received sb) (received ve) v).
Qed.

Lemma no_panic_then {A M} (U : list Z → result A goerror) (k : A → M) :
  no_panic U → no_panic (λ bs, try a <- U bs; Ok (k a)).
Proof.
  intros HU dAtA msg Hl. specialize (HU dAtA). destruct (U dAtA) as [a|e|p]; [done..|]. intros _. by apply (HU p).
Qed.

Create HintDb wire.
#[export] Hint Resolve get_int_consumes get_bytes_consumes get_string_consumes get_message_consumes no_panic_then : wire.

Ltac never_panics :=
  apply unmarshal_total; intros ?l ?fieldNum ?wireType [] ?read ?E; repeat (case_match; try done);
  simplify_eq; auto with wire.

Lemma Block_no_panic m : no_panic (Block_Unmarshal m).
Proof. never_panics. Qed.

#[global] Instance Block_Spec : MessageSpec protoBlock :=
  {| encoding_ok := Block_ok; Unmarshal_no_panic := Block_no_panic |}.
#[local] Hint Resolve Block_no_panic : wire.

Lemma SignBlockRequest_ok : encodes SignBlockRequest_fits SignBlockRequest_encoding SignBlockRequest_decoded.
Proof.
  intros [c b] Hf Hl. unfold SignBlockRequest_fits, SignBlockRequest_encoding in *. cbn in Hf, Hl |- *.
  destruct (part_bytes 10 (string_bytes c)) as [W1 S1]; [part_length|].
  destruct (part_pointer (A := protoBlock) 18 b) as (W2 & S2 & U2); [done|cbn; part_length|]. cbn in W2, S2, U2.
  split; [|split].
  - unfold SignBlockRequest_MarshalToSizedBuffer. cbn. write_fields.
  - unfold SignBlockRequest_Size. cbn. size_fields.
  - apply unmarshal_ok.
    eapply decodes_app; [read_string 1 (λ v, mkProtoSignBlockRequest v None)|].
    apply (decodes_pointer _ _ _ Hl Block_encoding Block_decoded 2 (λ v, mkProtoSignBlockRequest c v) "Block"); [lia|done|done].
Qed.

Lemma SignBlockRequest_no_panic m : no_panic (SignBlockRequest_Unmarshal m).
Proof. never_panics. Qed.

#[global] Instance SignBlockRequest_Spec : MessageSpec protoSignBlockRequest :=
  {| encoding_ok := SignBlockRequest_ok; Unmarshal_no_panic := SignBlockRequest_no_panic |}.

Lemma SignBlockResponse_ok : encodes SignBlockResponse_fits SignBlockResponse_encoding SignBlockResponse_decoded.
Proof.
  intros [s ve ts] Hf Hl. unfold SignBlockResponse_fits, SignBlockResponse_encoding in *. cbn in Hf, Hl |- *.
  destruct (part_bytes 10 (slice s)) as [W1 S1]; [part_length|].
  destruct (part_bytes 18 (slice ve)) as [W2 S2]; [part_length|].
  split; [|split].
  - unfold SignBlockResponse_MarshalToSizedBuffer. cbn. write_fields.
  - unfold SignBlockResponse_Size. cbn. size_fields.
  - apply unmarshal_ok.
    eapply decodes_app; [read_bytes 1 (λ v, mkProtoSignBlockResponse v None 0)|].
    eapply decodes_app; [read_bytes 2 (λ v, mkProtoSignBlockResponse (received s) v 0)|].
    read_int 3 (λ v, mkProtoSignBlockResponse (received s) (received ve) v).
Qed.

Lemma SignBlockResponse_no_panic m : no_panic (SignBlockResponse_Unmarshal m).
Proof. never_panics. Qed.

#[global] Instance SignBlockResponse_Spec : MessageSpec protoSignBlockResponse :=
  {| encoding_ok := SignBlockResponse_ok; Unmarshal_no_panic := SignBlockResponse_no_panic |}.

Lemma Nonce_ok : encodes Nonce_fits Nonce_encoding Nonce_decoded.
Proof.
  intros [s d p sh sg] [Hs Hd] Hl. unfold Nonce_encoding in *. cbn in Hs, Hd, Hl |- *.
  destruct (part_bytes 26 (slice p)) as [W3 S3]; [part_length|].
  destruct (part_bytes 34 (slice sh)) as [W4 S4]; [part_length|].
  destruct (part_bytes 42 (slice sg)) as [W5 S5]; [part_length|].
  split; [|split].
  - unfold Nonce_MarshalToSizedBuffer. cbn. write_fields.
  - unfold Nonce_Size. cbn. size_fields.
  - apply unmarshal_ok.
    eapply decodes_app; [read_int 1 (λ v, mkProtoNonce v 0 None None None)|].
    eapply decodes_app; [read_int 2 (λ v, mkProtoNonce s v None None None)|].
    eapply decodes_app; [read_bytes 3 (λ v, mkProtoNonce s d v None None)|].
    eapply decodes_app; [read_bytes 4 (λ v, mkProtoNonce s d (received p) v None)|].
    read_bytes 5 (λ v, mkProtoNonce s d (received p) (received sh) v).
Qed.

Lemma Nonce_no_panic m : no_panic (Nonce_Unmarshal m).
Proof. never_panics. Qed.

#[global] Instance Nonce_Spec : MessageSpec protoNonce :=
  {| encoding_ok := Nonce_ok; Unmarshal_no_panic := Nonce_no_panic |}.
#[local] Hint Resolve Nonce_no_panic : wire.

Lemma UUIDNonce_ok : encodes UUIDNonce_fits UUIDNonce_encoding UUIDNonce_decoded.
Proof.
  intros [u ns] Hf Hl. unfold UUIDNonce_fits, UUIDNonce_encoding in *. cbn in Hf, Hl |- *.
  destruct (part_bytes 10 (slice u)) as [W1 S1]; [part_length|].
  destruct (part_repeated (A := protoNonce) 18 ns) as (W2 & S2 & U2); [done|cbn; part_length|]. cbn in W2, S2, U2.
  split; [|split].
  - unfold UUIDNonce_MarshalToSizedBuffer. cbn. write_fields.
  - unfold UUIDNonce_Size. cbn. size_fields.
  - apply unmarshal_ok.
    eapply decodes_app; [read_bytes 1 (λ v, mkProtoUUIDNonce v [])|].
    apply (decodes_elements _ _ _ Hl Nonce_encoding Nonce_decoded 2 (λ v, mkProtoUUIDNonce (received u) v) "Nonces"); done.
Qed.

Lemma UUIDNonce_no_panic m : no_panic (UUIDNonce_Unmarshal m).
Proof. never_panics. Qed.

#[global] Instance UUIDNonce_Spec : MessageSpec protoUUIDNonce :=
  {| encoding_ok := UUIDNonce_ok; Unmarshal_no_panic := UUIDNonce_no_panic |}.
#[local] Hint Resolve UUIDNonce_no_panic : wire.

Lemma HRST_ok : encodes HRST_fits HRST_encoding id.
Proof.
  intros [h r s ts] (Hh & Hr & Hs & Ht) Hl. unfold HRST_encoding in *. cbn in Hh, Hr, Hs, Ht, Hl |- *.
  split; [|split].
  - unfold HRST_MarshalToSizedBuffer. cbn. write_fields.
  - unfold HRST_Size. cbn. size_fields.
  - apply unmarshal_ok.
    eapply decodes_app; [read_int 1 (λ v, mkProtoHRST v 0 0 0)|].
    eapply decodes_app; [read_int 2 (λ v, mkProtoHRST h v 0 0)|].
    eapply decodes_app; [read_int 3 (λ v, mkProtoHRST h r v 0)|].
    read_int 4 (λ v, mkProtoHRST h r s v).
Qed.

Lemma HRST_no_panic m : no_panic (HRST_Unmarshal m).
Proof. never_panics. Qed.

#[global] Instance HRST_Spec : MessageSpec protoHRST :=
  {| encoding_ok := HRST_ok; Unmarshal_no_panic := HRST_no_panic |}.
#[local] Hint Resolve HRST_no_panic : wire.

Lemma SetNoncesAndSignRequest_ok :
  encodes SetNoncesAndSignRequest_fits SetNoncesAndSignRequest_encoding SetNoncesAndSignRequest_decoded.
Proof.
  intros [u ns h sb vu vns vsb c] (Hns & Hh & Hvns) Hl. unfold SetNoncesAndSignRequest_encoding in *.
  cbn in Hns, Hh, Hvns, Hl |- *.
  destruct (part_bytes 10 (slice u)) as [W1 S1]; [part_length|].
  destruct (part_repeated (A := protoNonce) 18 ns) as (W2 & S2 & U2); [done|cbn; part_length|]. cbn in W2, S2, U2.
  destruct (part_pointer (A := protoHRST) 26 h) as (W3 & S3 & U3); [done|cbn; part_length|]. cbn in W3, S3, U3.
  destruct (part_bytes 34 (slice sb)) as [W4 S4]; [part_length|].
  destruct (part_bytes 42 (slice vu)) as [W5 S5]; [part_length|].
  destruct (part_repeated (A := protoNonce) 50 vns) as (W6 & S6 & U6); [done|cbn; part_length|]. cbn in W6, S6, U6.
  destruct (part_bytes 58 (slice vsb)) as [W7 S7]; [part_length|].
  destruct (part_bytes 66 (string_bytes c)) as [W8 S8]; [part_length|].
  split; [|split].
  - unfold SetNoncesAndSignRequest_MarshalToSizedBuffer. cbn. write_fields.
  - unfold SetNoncesAndSignRequest_Size. cbn. size_fields.
  - apply unmarshal_ok. set (u' := received u). set (ns' := Nonce_decoded <$> ns). set (mk := mkProtoSetNoncesAndSignRequest).
    eapply decodes_app; [read_bytes 1 (λ v, mk v [] None None None [] None "")|].
    eapply decodes_app.
    { apply (decodes_elements _ _ _ Hl Nonce_encoding Nonce_decoded 2 (λ v, mk u' v None None None [] None "") "Nonces"); done. }
    eapply decodes_app.
    { apply (decodes_pointer _ _ _ Hl HRST_encoding id 3 (λ v, mk u' ns' v None None [] None "") "Hrst"); done. }
    rewrite option_fmap_id.
    eapply decodes_app; [read_bytes 4 (λ v, mk u' ns' h v None [] None "")|].
    eapply decodes_app; [read_bytes 5 (λ v, mk u' ns' h (received sb) v [] None "")|].
    eapply decodes_app.
    { apply (decodes_elements _ _ _ Hl Nonce_encoding Nonce_decoded 6
        (λ v, mk u' ns' h (received sb) (received vu) v None "") "VoteExtNonces"); done. }
    eapply decodes_app; [read_bytes 7 (λ v, mk u' ns' h (received sb) (received vu) (Nonce_decoded <$> vns) v "")|].
    read_string 8 (λ v, mk u' ns' h (received sb) (received vu) (Nonce_decoded <$> vns) (received vsb) v).
Qed.

Lemma SetNoncesAndSignRequest_no_panic m : no_panic (SetNoncesAndSignRequest_Unmarshal m).
Proof. never_panics. Qed.

#[global] Instance SetNoncesAndSignRequest_Spec : MessageSpec protoSetNoncesAndSignRequest :=
  {| encoding_ok := SetNoncesAndSignRequest_ok; Unmarshal_no_panic := SetNoncesAndSignRequest_no_panic |}.

Lemma SetNoncesAndSignResponse_ok :
  encodes SetNoncesAndSignResponse_fits SetNoncesAndSignResponse_encoding SetNoncesAndSignResponse_decoded.
Proof.
  intros [ts np s vnp vs] Hf Hl. unfold SetNoncesAndSignResponse_fits, SetNoncesAndSignResponse_encoding in *.
  cbn in Hf, Hl |- *.
  destruct (part_bytes 18 (slice np)) as [W2 S2]; [part_length|].
  destruct (part_bytes 26 (slice s)) as [W3 S3]; [part_length|].
  destruct (part_bytes 34 (slice vnp)) as [W4 S4]; [part_length|].
  destruct (part_bytes 42 (slice vs)) as [W5 S5]; [part_length|].
  split; [|split].
  - unfold SetNoncesAndSignResponse_MarshalToSizedBuffer. cbn. write_fields.
  - unfold SetNoncesAndSignResponse_Size. cbn. size_fields.
  - apply unmarshal_ok. set (mk := mkProtoSetNoncesAndSignResponse).
    eapply decodes_app; [read_int 1 (λ v, mk v None None None None)|].
    eapply decodes_app; [read_bytes 2 (λ v, mk ts v None None None)|].
    eapply decodes_app; [read_bytes 3 (λ v, mk ts (received np) v None None)|].
    eapply decodes_app; [read_bytes 4 (λ v, mk ts (received np) (received s) v None)|].
    read_bytes 5 (λ v, mk ts (received np) (received s) (received vnp) v).
Qed.

Lemma SetNoncesAndSignResponse_no_panic m : no_panic (SetNoncesAndSignResponse_Unmarshal m).
Proof. never_panics. Qed.

#[global] Instance SetNoncesAndSignResponse_Spec : MessageSpec protoSetNoncesAndSignResponse :=
  {| encoding_ok := SetNoncesAndSignResponse_ok; Unmarshal_no_panic := SetNoncesAndSignResponse_no_panic |}.

Lemma GetNoncesRequest_ok : encodes (λ _, True) GetNoncesRequest_encoding GetNoncesRequest_decoded.
Proof.
  intros [us] _ Hl. unfold GetNoncesRequest_encoding in *. cbn in Hl |- *.
  assert (∀ b, b ∈ us → Z.of_nat (length (slice b)) < 2 ^ 63) as Hb.
  { intros b Hb. pose proof (enc_repeated_le 10 slice us b Hb). pose proof (enc_slice_le 10 (slice b)). lia. }
  split; [|split].
  - apply (writes_repeated 10 _ slice). apply list.Forall_forall. intros b Hi. apply writes_slice. by apply Hb.
  - apply size_repeated_ok. apply list.Forall_forall. intros b Hi. split; [done|by apply Hb].
  - apply unmarshal_ok. apply (decodes_repeated _ _ _ mkProtoGetNoncesRequest). intros before b _.
    by apply (decodes_slice _ _ _ Hl (mkProtoGetNoncesRequest before) "Uuids" 1
      (λ v, mkProtoGetNoncesRequest (before ++ [Some v]))).
Qed.

Lemma GetNoncesRequest_no_panic m : no_panic (GetNoncesRequest_Unmarshal m).
Proof. never_panics. Qed.

#[global] Instance GetNoncesRequest_Spec : MessageSpec protoGetNoncesRequest :=
  {| encoding_ok := GetNoncesRequest_ok; Unmarshal_no_panic := GetNoncesRequest_no_panic |}.

Lemma GetNoncesResponse_ok : encodes GetNoncesResponse_fits GetNoncesResponse_encoding GetNoncesResponse_decoded.
Proof.
  intros [ns] Hf Hl. unfold GetNoncesResponse_fits, GetNoncesResponse_encoding in *. cbn in Hf, Hl |- *.
  destruct (part_repeated (A := protoUUIDNonce) 10 ns) as (W & S & U); [done|done|]. cbn in W, S, U.
  split; [done|]. split; [done|]. apply unmarshal_ok.
  apply (decodes_elements _ _ _ Hl UUIDNonce_encoding UUIDNonce_decoded 1 mkProtoGetNoncesResponse "Nonces"); done.
Qed.

Lemma GetNoncesResponse_no_panic m : no_panic (GetNoncesResponse_Unmarshal m).
Proof. never_panics. Qed.

#[global] Instance GetNoncesResponse_Spec : MessageSpec protoGetNoncesResponse :=
  {| encoding_ok := GetNoncesResponse_ok; Unmarshal_no_panic := GetNoncesResponse_no_panic |}.

Lemma TransferLeadershipRequest_ok : encodes (λ _, True) TransferLeadershipRequest_encoding id.
Proof.
  intros [s] _ Hl. unfold TransferLeadershipRequest_encoding in *. cbn in Hl |- *.
  destruct (part_bytes 10 (string_bytes s)) as [W1 S1]; [part_length|].
  split; [done|]. split; [done|]. apply unmarshal_ok. read_string 1 mkProtoTransferLeadershipRequest.
Qed.

Lemma TransferLeadershipRequest_no_panic m : no_panic (TransferLeadershipRequest_Unmarshal m).
Proof. never_panics. Qed.

#[global] Instance TransferLeadershipRequest_Spec : MessageSpec protoTransferLeadershipRequest :=
  {| encoding_ok := TransferLeadershipRequest_ok; Unmarshal_no_panic := TransferLeadershipRequest_no_panic |}.

Lemma TransferLeadershipResponse_ok : encodes (λ _, True) TransferLeadershipResponse_encoding id.
Proof.
  intros [s a] _ Hl. unfold TransferLeadershipResponse_encoding in *. cbn in Hl |- *.
  destruct (part_bytes 10 (string_bytes s)) as [W1 S1]; [part_length|].
  destruct (part_bytes 18 (string_bytes a)) as [W2 S2]; [part_length|].
  split; [|split].
  - unfold TransferLeadershipResponse_MarshalToSizedBuffer. cbn. write_fields.
  - unfold TransferLeadershipResponse_Size. cbn. size_fields.
  - apply unmarshal_ok. eapply decodes_app; [read_string 1 (λ v, mkProtoTransferLeadershipResponse v "")|].
    read_string 2 (λ v, mkProtoTransferLeadershipResponse s v).
Qed.

Lemma TransferLeadershipResponse_no_panic m : no_panic (TransferLeadershipResponse_Unmarshal m).
Proof. never_panics. Qed.

#[global] Instance TransferLeadershipResponse_Spec : MessageSpec protoTransferLeadershipResponse :=
  {| encoding_ok := TransferLeadershipResponse_ok; Unmarshal_no_panic := TransferLeadershipResponse_no_panic |}.

Lemma GetLeaderRequest_ok : encodes (λ _, True) (λ _, []) (@id protoGetLeaderRequest).
Proof. intros [] _ _. split; [apply writes_skip|]. by split. Qed.

Lemma GetLeaderRequest_no_panic m : no_panic (GetLeaderRequest_Unmarshal m).
Proof. never_panics. Qed.

#[global] Instance GetLeaderRequest_Spec : MessageSpec protoGetLeaderRequest :=
  {| encoding_ok := GetLeaderRequest_ok; Unmarshal_no_panic := GetLeaderRequest_no_panic |}.

Lemma GetLeaderResponse_ok : encodes GetLeaderResponse_fits GetLeaderResponse_encoding id.
Proof.
  intros [v] Hf Hl. unfold GetLeaderResponse_fits, GetLeaderResponse_encoding in *. cbn in Hf, Hl |- *.
  split; [apply writes_int|]. split; [apply size_int_ok|]. apply unmarshal_ok. read_int 1 mkProtoGetLeaderResponse.
Qed.

Lemma GetLeaderResponse_no_panic m : no_panic (GetLeaderResponse_Unmarshal m).
Proof. never_panics. Qed.

#[global] Instance GetLeaderResponse_Spec : MessageSpec protoGetLeaderResponse :=
  {| encoding_ok := GetLeaderResponse_ok; Unmarshal_no_panic := GetLeaderResponse_no_panic |}.

Lemma PingRequest_ok : encodes (λ _, True) (λ _, []) (@id protoPingRequest).
Proof. intros [] _ _. split; [apply writes_skip|]. by split. Qed.

Lemma PingRequest_no_panic m : no_panic (PingRequest_Unmarshal m).
Proof. never_panics. Qed.

#[global] Instance PingRequest_Spec : MessageSpec protoPingRequest :=
  {| encoding_ok := PingRequest_ok; Unmarshal_no_panic := PingRequest_no_panic |}.

Lemma PingResponse_ok : encodes (λ _, True) (λ _, []) (@id protoPingResponse).
Proof. intros [] _ _. split; [apply writes_skip|]. by split. Qed.

Lemma PingResponse_no_panic m : no_panic (PingResponse_Unmarshal m).
Proof. never_panics. Qed.

#[global] Instance PingResponse_Spec : MessageSpec protoPingResponse :=
  {| encoding_ok := PingResponse_ok; Unmarshal_no_panic := PingResponse_no_panic |}.

(** *** The messages *)

Lemma encodes_roundtrips `{Message M} fits encoding decoded :
  encodes fits encoding decoded → roundtrips fits encoding decoded.
Proof.
  intros Hok m Hf Hl. destruct (Hok m Hf Hl) as (Hw & Hs & Hu). split; [|done]. by apply marshal_ok.
Qed.

(** C28: Marshal and Unmarshal of every message of the cosigner protocol are inverse to each
    other.  For a message whose integers are of the types of their fields, Marshal does not
    panic and returns the fields in the order of their numbers; Size is the length of what
    it returns; and Unmarshal of it recovers the message, where an empty byte slice comes
    back as nil and a UUID of GetNoncesRequest is never nil. *)
Theorem messages_roundtrip :
  roundtrips Block_fits Block_encoding Block_decoded
  ∧ roundtrips SignBlockRequest_fits SignBlockRequest_encoding SignBlockRequest_decoded
  ∧ roundtrips SignBlockResponse_fits SignBlockResponse_encoding SignBlockResponse_decoded
  ∧ roundtrips Nonce_fits Nonce_encoding Nonce_decoded
  ∧ roundtrips UUIDNonce_fits UUIDNonce_encoding UUIDNonce_decoded
  ∧ roundtrips HRST_fits HRST_encoding id
  ∧ roundtrips SetNoncesAndSignRequest_fits SetNoncesAndSignRequest_encoding SetNoncesAndSignRequest_decoded
  ∧ roundtrips SetNoncesAndSignResponse_fits SetNoncesAndSignResponse_encoding SetNoncesAndSignResponse_decoded
  ∧ roundtrips (λ _, True) GetNoncesRequest_encoding GetNoncesRequest_decoded
  ∧ roundtrips GetNoncesResponse_fits GetNoncesResponse_encoding GetNoncesResponse_decoded
  ∧ roundtrips (λ _, True) TransferLeadershipRequest_encoding id
  ∧ roundtrips (λ _, True) TransferLeadershipResponse_encoding id
  ∧ roundtrips GetLeaderResponse_fits GetLeaderResponse_encoding id
  ∧ roundtrips (λ _, True) (λ _ : protoGetLeaderRequest, []) id
  ∧ roundtrips (λ _, True) (λ _ : protoPingRequest, []) id
  ∧ roundtrips (λ _, True) (λ _ : protoPingResponse, []) id.
Proof.
  split_and!; apply encodes_roundtrips;
    [ apply Block_ok | apply SignBlockRequest_ok | apply SignBlockResponse_ok | apply Nonce_ok | apply UUIDNonce_ok
    | apply HRST_ok | apply SetNoncesAndSignRequest_ok | apply SetNoncesAndSignResponse_ok | apply GetNoncesRequest_ok
    | apply GetNoncesResponse_ok | apply TransferLeadershipRequest_ok | apply TransferLeadershipResponse_ok
    | apply GetLeaderResponse_ok | apply GetLeaderRequest_ok | apply PingRequest_ok | apply PingResponse_ok ].
Qed.

(** C29: Unmarshal of every message ends with a message or an error on any data that fits a
    slice, and into any message: no index is out of range, no slice has bounds that do not
    fit, and no loop goes on for more iterations than the data has bytes. *)
Theorem messages_total dAtA :
  Z.of_nat (length dAtA) < 2 ^ 63 →
  ∀ msg,
    (∀ m, Block_Unmarshal m dAtA ≠ Panics msg) ∧ (∀ m, SignBlockRequest_Unmarshal m dAtA ≠ Panics msg)
    ∧ (∀ m, SignBlockResponse_Unmarshal m dAtA ≠ Panics msg) ∧ (∀ m, Nonce_Unmarshal m dAtA ≠ Panics msg)
    ∧ (∀ m, UUIDNonce_Unmarshal m dAtA ≠ Panics msg) ∧ (∀ m, HRST_Unmarshal m dAtA ≠ Panics msg)
    ∧ (∀ m, SetNoncesAndSignRequest_Unmarshal m dAtA ≠ Panics msg)
    ∧ (∀ m, SetNoncesAndSignResponse_Unmarshal m dAtA ≠ Panics msg)
    ∧ (∀ m, GetNoncesRequest_Unmarshal m dAtA ≠ Panics msg) ∧ (∀ m, GetNoncesResponse_Unmarshal m dAtA ≠ Panics msg)
    ∧ (∀ m, TransferLeadershipRequest_Unmarshal m dAtA ≠ Panics msg)
    ∧ (∀ m, TransferLeadershipResponse_Unmarshal m dAtA ≠ Panics msg)
    ∧ (∀ m, GetLeaderRequest_Unmarshal m dAtA ≠ Panics msg) ∧ (∀ m, GetLeaderResponse_Unmarshal m dAtA ≠ Panics msg)
    ∧ (∀ m, PingRequest_Unmarshal m dAtA ≠ Panics msg) ∧ (∀ m, PingResponse_Unmarshal m dAtA ≠ Panics msg).
Proof.
  intros Hl msg. split_and!; intros m; revert dAtA msg Hl;
    [ apply Block_no_panic | apply SignBlockRequest_no_panic | apply SignBlockResponse_no_panic | apply Nonce_no_panic
    | apply UUIDNonce_no_panic | apply HRST_no_panic | apply SetNoncesAndSignRequest_no_panic
    | apply SetNoncesAndSignResponse_no_panic | apply GetNoncesRequest_no_panic | apply GetNoncesResponse_no_panic
    | apply TransferLeadershipRequest_no_panic | apply TransferLeadershipResponse_no_panic
    | apply GetLeaderRequest_no_panic | apply GetLeaderResponse_no_panic | apply PingRequest_no_panic
    | apply PingResponse_no_panic ].
Qed.

(** A group in a group, an unknown field, and a length past the end *)
Lemma messages_total_witness :
  HRST_Unmarshal (mkProtoHRST 0 0 0 0) [8; 5; 51; 59; 60; 52; 66; 200; 1; 7] ≠ Panics out_of_fuel
  ∧ HRST_Unmarshal (mkProtoHRST 0 0 0 0) [8; 5; 51; 59; 60; 52; 66; 200; 1; 7] = Err ErrUnexpectedEOF.
Proof.
  pose proof (messages_total [8; 5; 51; 59; 60; 52; 66; 200; 1; 7] ltac:(vm_compute; reflexivity) out_of_fuel) as H.
  split; [apply H|vm_compute; reflexivity].
Defined.

(** The bytes of a message with a negative number, an empty slice and a nested message *)
Lemma SignBlockRequest_example :
  let m := mkProtoSignBlockRequest "ab" (Some (mkProtoBlock 300 0 (-1) (Some [7; 8]) (Some []) 0)) in
  Marshal m = Ok [10; 2; 97; 98; 18; 18; 8; 172; 2; 24; 255; 255; 255; 255; 255; 255; 255; 255; 255; 1; 34; 2; 7; 8]
  ∧ Unmarshal zero [10; 2; 97; 98; 18; 18; 8; 172; 2; 24; 255; 255; 255; 255; 255; 255; 255; 255; 255; 1; 34; 2; 7; 8]
    = Ok (mkProtoSignBlockRequest "ab" (Some (mkProtoBlock 300 0 (-1) (Some [7; 8]) None 0))).
Proof. split; vm_compute; reflexivity. Qed.
