(* ===== verification/RemoteProto.v ===== *)
(** * The messages of the remote signer

    The generated messages of signer/proto/remote_signer.pb.go, for the public key of a chain;
    signing uses the messages of CosignerProto.  The file repeats the routines for varints,
    lengths and unknown fields that cosigner.pb.go has, with errors of the same texts, so the
    definitions of Wire stand for both. *)

From stdpp Require Import base list strings numbers.
From Stdlib Require Import ZArith Lia.
From S2P Require Import Prelude Errors Wire CosignerProto.

Open Scope string_scope.
Open Scope list_scope.
Open Scope Z_scope.
Open Scope wire_scope.

(** ** Definitions *)

Record protoPubKeyRequest := mkProtoPubKeyRequest {
  ppkq_ChainId : string
}.

Record protoPubKeyResponse := mkProtoPubKeyResponse {
  ppkp_PubKey : gobytes
}.

Definition PubKeyRequest_Size (m : protoPubKeyRequest) : Z := size_bytes (string_bytes (ppkq_ChainId m)).

Definition PubKeyRequest_MarshalToSizedBuffer (m : protoPubKeyRequest) : writer :=
  put_bytes 10 (string_bytes (ppkq_ChainId m)).

Definition PubKeyRequest_Unmarshal (m : protoPubKeyRequest) (dAtA : list Z) : result protoPubKeyRequest goerror :=
  unmarshal "PubKeyRequest" (λ l fieldNum wireType m,
    match fieldNum with
    | 1 => Some (get_string l "ChainId" wireType mkProtoPubKeyRequest)
    | _ => None
    end) m dAtA.

#[global] Instance PubKeyRequest_Message : Message protoPubKeyRequest :=
  {| zero := mkProtoPubKeyRequest ""; Size := PubKeyRequest_Size;
     MarshalToSizedBuffer := PubKeyRequest_MarshalToSizedBuffer; Unmarshal := PubKeyRequest_Unmarshal |}.

Definition PubKeyResponse_Size (m : protoPubKeyResponse) : Z := size_bytes (slice (ppkp_PubKey m)).

Definition PubKeyResponse_MarshalToSizedBuffer (m : protoPubKeyResponse) : writer := put_bytes 10 (slice (ppkp_PubKey m)).

Definition PubKeyResponse_Unmarshal (m : protoPubKeyResponse) (dAtA : list Z) : result protoPubKeyResponse goerror :=
  unmarshal "PubKeyResponse" (λ l fieldNum wireType m,
    match fieldNum with
    | 1 => Some (get_bytes l "PubKey" wireType (λ v, mkProtoPubKeyResponse (Some v)))
    | _ => None
    end) m dAtA.

#[global] Instance PubKeyResponse_Message : Message protoPubKeyResponse :=
  {| zero := mkProtoPubKeyResponse None; Size := PubKeyResponse_Size;
     MarshalToSizedBuffer := PubKeyResponse_MarshalToSizedBuffer; Unmarshal := PubKeyResponse_Unmarshal |}.

(** *** Specifications *)

Definition PubKeyRequest_encoding (m : protoPubKeyRequest) : list Z := enc_bytes 10 (string_bytes (ppkq_ChainId m)).

Definition PubKeyResponse_encoding (m : protoPubKeyResponse) : list Z := enc_bytes 10 (slice (ppkp_PubKey m)).

Definition PubKeyResponse_decoded (m : protoPubKeyResponse) : protoPubKeyResponse :=
  mkProtoPubKeyResponse (received (ppkp_PubKey m)).

(** ** Lemmas *)

Lemma PubKeyRequest_ok : encodes (λ _, True) PubKeyRequest_encoding id.
Proof.
  intros [s] _ Hl. destruct (part_bytes 10 (string_bytes s) Hl) as [W1 S1].
  split; [done|]. split; [done|]. apply unmarshal_ok. read_string 1 mkProtoPubKeyRequest.
Qed.

Lemma PubKeyRequest_no_panic m : no_panic (PubKeyRequest_Unmarshal m).
Proof. never_panics. Qed.

#[global] Instance PubKeyRequest_Spec : MessageSpec protoPubKeyRequest :=
  {| encoding_ok := PubKeyRequest_ok; Unmarshal_no_panic := PubKeyRequest_no_panic |}.

Lemma PubKeyResponse_ok : encodes (λ _, True) PubKeyResponse_encoding PubKeyResponse_decoded.
Proof.
  intros [b] _ Hl. destruct (part_bytes 10 (slice b) Hl) as [W1 S1].
  split; [done|]. split; [done|]. apply unmarshal_ok. read_bytes 1 mkProtoPubKeyResponse.
Qed.

Lemma PubKeyResponse_no_panic m : no_panic (PubKeyResponse_Unmarshal m).
Proof. never_panics. Qed.

#[global] Instance PubKeyResponse_Spec : MessageSpec protoPubKeyResponse :=
  {| encoding_ok := PubKeyResponse_ok; Unmarshal_no_panic := PubKeyResponse_no_panic |}.
