(* ===== verification/SignSafety.v ===== *)
(** * Safety of the local cosigner under concurrency

    Any number of requests, in any interleaving of their critical sections with each
    other, with the watermark updates raft delivers, the nonce pruner and the queued
    disk writes ([pool_step] of Conc.v over the handlers of LocalCosigner.v):
    - a cosigner never gives out signature shares for two different payloads at one
      height, round and step of a chain ([no_double_sign]);
    - a nonce round is consumed at most once per time it is generated
      ([nonce_consumed_once]);
    - the first of these needs the chain's state to be loaded: two first requests
      that race in [LoadSignStateIfNecessary] break it ([racing_loads_double_sign]). *)

From S2P Require Import Prelude Hrs Errors Comet SignState Config Cosigner Conc LocalCosigner.
From stdpp Require Import base gmap list strings numbers relations.
From Stdlib Require Import ZArith Lia.

Open Scope Z_scope.

(** ** Definitions *)

(** The height, round and step the bytes to sign stand for. *)
Definition payload_hrs `{Codec} (chainID : string) (signBytes : gobytes) : option HRSKey :=
  match verifySignPayload chainID signBytes None with
  | Ok (hrst, _) => Some (hrst_HRSKey hrst)
  | _ => None
  end.

(** What a handler returned: a sign request with its response, or something else. *)
Inductive reply : Type :=
| RSign (req : CosignerSetNoncesAndSignRequest) (r : result CosignerSignResponse goerror)
| ROther.

(** A nonce round is live from when it is generated until it is consumed. *)
Definition live_step (u : UUID) (b : bool) (ev : lc_event) : bool :=
  match ev with
  | EvGenerated v => if bool_decide (u = v) then true else b
  | EvConsumed v => if bool_decide (u = v) then false else b
  | _ => b
  end.

Definition live (u : UUID) (log : list lc_event) : bool := fold_left (live_step u) log false.

Section safety.
Context {S K R : Type} `{TS : !ThresholdSigner S} `{CS : !CosignerSecurity K} `{C : !Codec} `{J : !Json}.
Context (NewThresholdSigner : RuntimeConfig → Z → string → FileSystem → result S goerror).
Context (GenerateNonces : R → Z → Z → result Nonces goerror).
Context (cosigner : LocalCosigner K).

Local Abbreviation P A := (@prog (LCState S) lc_event A).
Local Abbreviation St := (LCState S).
Local Abbreviation LoadSignStateIfNecessary :=
  (LoadSignStateIfNecessary NewThresholdSigner cosigner).
Local Abbreviation SetNoncesAndSign := (SetNoncesAndSign NewThresholdSigner cosigner).

(** The handlers that run concurrently in a cosigner process. *)
Inductive handler : P reply → Prop :=
| HSign req : handler (do r <- SetNoncesAndSign req; Ret (RSign req r))
| HGetNonces now rnd uuids :
    handler (do _ <- GetNonces GenerateNonces cosigner now rnd uuids; Ret ROther)
| HSaveLastSignedState chainID ssc :
    handler (do _ <- SaveLastSignedState chainID ssc; Ret ROther)
| HPruneNonces now : handler (do _ <- pruneNonces now; Ret ROther)
| HFlush i : handler (do _ <- flush_pending i; Ret ROther)
| HGetPubKey chainID : handler (do _ <- GetPubKey NewThresholdSigner cosigner chainID; Ret ROther)
| HCombine chainID sigs : handler (do _ <- CombineSignatures chainID sigs; Ret ROther)
| HVerify verify chainID payload sig :
    handler (do _ <- VerifySignature NewThresholdSigner cosigner verify chainID payload sig;
             Ret ROther).

(** The state after [chainState.Store]. *)
Definition stored (chainID : string) (ccs : ChainState S) (s : St) : St :=
  mkLCState (<[chainID := length (lc_heap s)]> (lc_chainState s)) (lc_heap s ++ [ccs])
    (lc_nonces s) (lc_disk s).

(** *** What an invariant must survive

    The effects the sections of the handlers have on the shared state. *)
Record survives (I : St → list lc_event → Prop) (store_ok : string → Prop) : Prop := {
  sv_drop s log (f : gmap UUID NoncesWithExpiration) :
    f ⊆ lc_nonces s → I s log → I (set_nonces f s) log;
  sv_consume s log u n :
    lc_nonces s !! u = Some n → I s log →
    I (set_nonces (delete u (lc_nonces s)) s) (log ++ [EvConsumed u]);
  sv_generate s log u n :
    I s log → I (set_nonces (<[u := n]> (lc_nonces s)) s) (log ++ [EvGenerated u]);
  sv_update s log u n n' :
    lc_nonces s !! u = Some n → I s log → I (set_nonces (<[u := n']> (lc_nonces s)) s) log;
  sv_disk s log d : I s log → I (set_disk d s) log;
  sv_absent s log c : I s log → lc_chainState s !! c = None → store_ok c;
  sv_store s log c ccs : store_ok c → I s log → I (stored c ccs s) log;
  sv_save s log loc ssc s' ev r :
    I s log → save_section loc ssc s = (s', ev, r) → I s' (log ++ ev)
}.

(** *** The double-sign invariant of one loaded chain *)

Context (cid : string) (loc0 : nat).

(** The saves logged at [loc0] are unique per key, lie at or below the watermark, and
    include whatever the watermark and the cache hold. *)
Record saves_ok (ss : SignState) (log : list lc_event) : Prop := {
  so_below ssc : EvSaved loc0 ssc ∈ log → hrs_le (ssc_HRSKey ssc) (lockedHrsKey ss);
  so_unique a b :
    EvSaved loc0 a ∈ log → EvSaved loc0 b ∈ log → ssc_HRSKey a = ssc_HRSKey b → a = b;
  so_top :
    ss_SignBytes ss ≠ None →
    ∃ ssc, EvSaved loc0 ssc ∈ log ∧ ssc_HRSKey ssc = lockedHrsKey ss ∧
      ssc_SignBytes ssc = ss_SignBytes ss;
  so_same ssc : EvSaved loc0 ssc ∈ log → ssc_HRSKey ssc = lockedHrsKey ss → ssc_SignBytes ssc = ss_SignBytes ss;
  so_cache k e : ss_cache ss !! k = Some e → EvSaved loc0 e ∈ log ∧ ssc_HRSKey e = k;
  so_reached k : EvReached loc0 k ∈ log → hrs_le k (lockedHrsKey ss)
}.

Definition chain_inv (s : St) (log : list lc_event) : Prop :=
  lc_chainState s !! cid = Some loc0 ∧
  ∃ ccs, lc_heap s !! loc0 = Some ccs ∧ saves_ok (cs_lastSignState ccs) log.

(** A response of this chain is backed by the save of its key. *)
Definition backed (r : reply) (log : list lc_event) : Prop :=
  match r with
  | RSign req (Ok _) =>
      snr_ChainID req = cid →
      ∃ ssc, EvSaved loc0 ssc ∈ log ∧
        payload_hrs cid (snr_SignBytes req) = Some (ssc_HRSKey ssc) ∧
        acceptable (ssc_Step ssc) (ssc_SignBytes ssc) (snr_SignBytes req) = true
  | _ => True
  end.

(** *** The nonce invariant *)

Definition nonce_inv (s : St) (log : list lc_event) : Prop :=
  (∀ u, is_Some (lc_nonces s !! u) → live u log = true) ∧
  (∀ u l1 l2, log = l1 ++ EvConsumed u :: l2 → live u l1 = true).
End safety.

(** The saves a loaded state stands for: its cache, as ghost history. *)
Definition cached_saves (loc : nat) (ss : SignState) : list lc_event :=
  (λ kv, EvSaved loc kv.2) <$> map_to_list (ss_cache ss).

(** *** A concrete cosigner, to run the model

    Shares in the clear, and the payload itself as its signature. *)
Definition toy_signer : ThresholdSigner unit := {|
  ts_PubKey _ := Some [];
  ts_Sign _ _ payload := Ok payload;
  ts_CombineSignatures _ _ := Ok (Some [])
|}.

Definition toy_security : CosignerSecurity Z := {|
  sec_GetID k := k;
  EncryptAndSign k _ id pub share := Ok (mkCosignerNonce k id pub share (Some [k]));
  DecryptAndVerify _ _ pub share _ := Ok (pub, share)
|}.

Definition toy_cosigner : LocalCosigner Z :=
  mkLocalCosigner (mkRuntimeConfig "/h" "" "/s" "" (mkConfig None "" "threshold"
    (Some (mkThresholdModeConfig 2 (CosignersFromFlag ["a"; "b"; "c"]) "" "1s" "1s" false))
    [] "" "" 0)) 1 "".

Definition toy_new_signer : RuntimeConfig → Z → string → FileSystem → result unit goerror :=
  λ _ _ _ _, Ok ().

Definition toy_generate : unit → Z → Z → result Nonces goerror :=
  λ _ _ total, Ok (mkNonces (Some [1]) (Some (replicate (Z.to_nat total) (Some [7])))).

(** Two nonce rounds, each with the shares of two cosigners. *)
Definition toy_round : NoncesWithExpiration :=
  mkNoncesWithExpiration 100 [mkNonces (Some [1]) (Some [Some [7]; None; None]);
    mkNonces (Some [2]) (Some [Some [8]; None; None]); mkNonces None None].

Definition toy_nonces : gmap UUID NoncesWithExpiration := {[ [1] := toy_round; [2] := toy_round ]}.

(** A request to sign the precommit at height 5, round 0 for a block. *)
Definition toy_request (uuid timestamp block : Z) : CosignerSetNoncesAndSignRequest :=
  mkSetNoncesAndSignRequest "chain" (mkHRSTKey 5 0 3 timestamp)
    (Some (mkCosignerUUIDNonces [uuid] [])) (Some [1; 2; 5; 0; timestamp; block]) None None.

Definition toy_thread (req : CosignerSetNoncesAndSignRequest)
    : @prog (LCState unit) lc_event reply :=
  do r <- @SetNoncesAndSign unit Z toy_signer toy_security toy_codec toy_json
            toy_new_signer toy_cosigner req;
  Ret (RSign req r).

Definition toy_handler : @prog (LCState unit) lc_event reply → Prop :=
  @handler unit Z unit toy_signer toy_security toy_codec toy_json toy_new_signer toy_generate
    toy_cosigner.

(** The chain freshly loaded, and not loaded yet. *)
Definition toy_fresh : SignState :=
  mkSignState 0 0 0 None None None None "/s/chain_share_sign_state.json" ∅.

Definition toy_loaded : LCState unit :=
  mkLCState {[ "chain" := 0%nat ]} [mkChainState toy_fresh ()] toy_nonces (mkDisk empty_fs []).

Definition toy_unloaded : LCState unit := mkLCState ∅ [] toy_nonces (mkDisk empty_fs []).

(** A nonce request for round [[3]], then a sign request that uses it. *)
Definition toy_nonce_thread : @prog (LCState unit) lc_event reply :=
  do _ <- @GetNonces unit Z unit toy_security toy_generate toy_cosigner 0
            (mkRandomness (λ _, ()) (λ _ _, [])) [[3]];
  Ret ROther.

Definition toy_sign_thread : @prog (LCState unit) lc_event reply :=
  toy_thread (mkSetNoncesAndSignRequest "chain" (mkHRSTKey 5 0 3 9)
    (Some (mkCosignerUUIDNonces [3] [mkCosignerNonce 2 1 (Some [2]) (Some [8]) (Some [2])]))
    (Some [1; 2; 5; 0; 9; 42]) None None).

(** Thread [i] runs [n] steps. *)
Definition steps (i n : nat) : list (nat * nat) := replicate n (i, 0%nat).

(** ** Lemmas *)

Section generic.
Context {S K R : Type} `{TS : !ThresholdSigner S} `{CS : !CosignerSecurity K} `{C : !Codec} `{J : !Json}.
Context (NewThresholdSigner : RuntimeConfig → Z → string → FileSystem → result S goerror).
Context (GenerateNonces : R → Z → Z → result Nonces goerror).
Context (cosigner : LocalCosigner K).
Context (I : LCState S → list lc_event → Prop) (store_ok : string → Prop).
Context (HI : survives I store_ok).

(** A postcondition that holds of everything. *)
Local Abbreviation anything := (λ _ _, True).

Lemma wp_combinedNonces myID threshold u known :
  wp I (combinedNonces (S:=S) myID threshold u) known anything.
Proof.
  intros s log s' ev b Hs _ H. split; [|done].
  destruct (lc_nonces s !! u) as [n|] eqn:E; injection H as <- <- <-.
  - by eapply (sv_consume _ _ HI).
  - by rewrite app_nil_r.
Qed.

Lemma wp_reading_any {B} (f : LCState S → B) known : wp I (reading f) known anything.
Proof. intros s log s' ev b Hs _ [= <- <- <-]. by rewrite app_nil_r. Qed.

Lemma wp_Ret_any {B} (b : B) known : wp I (Ret b) known anything.
Proof. done. Qed.

Lemma wp_bind_any {A B} (p : @prog (LCState S) lc_event A) (g : A → @prog (LCState S) lc_event B) known :
  wp I p known anything → (∀ a l, wp I (g a) l anything) → wp I (prog_bind p g) known anything.
Proof. intros Hp Hg. apply wp_bind. eapply wp_impl; [|exact Hp]. cbn. intros a l _. apply Hg. Qed.

Lemma wp_try_any {A B} (p : @prog (LCState S) lc_event (result A goerror))
    (g : A → @prog (LCState S) lc_event (result B goerror)) known :
  wp I p known anything → (∀ a l, wp I (g a) l anything) → wp I (prog_try p g) known anything.
Proof. intros Hp Hg. apply wp_bind_any; [done|]. intros [a|e|m] l; [apply Hg|done|done]. Qed.

Lemma wp_drop_nonces req known : wp I (drop_nonces (S:=S) req) known anything.
Proof.
  intros s log s' ev b Hs _ [= <- <- <-]. rewrite app_nil_r. split; [|done].
  apply (sv_drop _ _ HI); [|done]. etransitivity; apply delete_subseteq.
Qed.

Lemma wp_setNonce u nonce known : wp I (setNonce (S:=S) cosigner u nonce) known anything.
Proof.
  unfold setNonce. case_match; [done|]. case_match; [|done|done]. case_match.
  intros s log s' ev b Hs _ Hf. split; [|done].
  destruct (set_slot _ _ _ _ _ s) as [s1 r1] eqn:E. injection Hf as <- <- <-. rewrite app_nil_r.
  unfold set_slot in E. destruct (lc_nonces s !! u) as [n|] eqn:En; [|by injection E as <- <-].
  destruct (zlookup _ _); [|by injection E as <- <-].
  match type of E with context [match ?x with Ok _ => _ | Err _ => _ | Panics _ => _ end] =>
    destruct x end; [|by injection E as <- <-|by injection E as <- <-].
  destruct (zinsert _ _ _); injection E as <- <-; by eapply (sv_update _ _ HI).
Qed.

Lemma wp_LoadSignStateIfNecessary chainID known :
  wp I (LoadSignStateIfNecessary NewThresholdSigner cosigner chainID) known anything.
Proof.
  unfold LoadSignStateIfNecessary. case_match; [|done|done].
  apply wp_reading. intros s log Hs _. case_bool_decide as Hf; [done|].
  assert (store_ok chainID) as Hok.
  { eapply (sv_absent _ _ HI); [exact Hs|]. by apply eq_None_not_Some. }
  apply wp_try_any.
  - intros s1 log1 s2 ev b Hs1 _ Hst. split; [|done].
    destruct (LoadOrCreateSignState _ _) as [[st fs]|e|m]; injection Hst as <- <- <-;
      rewrite app_nil_r; [by apply (sv_disk _ _ HI)|done|done].
  - intros st l. apply wp_try_any; [apply wp_reading_any|]. intros signer l'.
    intros s1 log1 s2 ev b Hs1 _ [= <- <- <-]. rewrite app_nil_r. split; [|done].
    by apply (sv_store _ _ HI).
Qed.

Lemma wp_save_section loc ssc known :
  wp I (atomically (save_section (S:=S) loc ssc)) known anything.
Proof.
  intros s log s' ev b Hs _ H. split; [|done]. by eapply (sv_save _ _ HI).
Qed.

Lemma wp_sign_both req loc ext n1 n2 known :
  wp I (sign_both (S:=S) req loc ext n1 n2) known anything.
Proof.
  unfold sign_both. apply wp_bind_any; [apply wp_reading_any|]. intros a l. case_match; [|done].
  apply wp_bind_any; [apply wp_reading_any|]. intros b l' i Hi. done.
Qed.

Lemma wp_sign_extension_only req loc t sig known :
  wp I (sign_extension_only (S:=S) cosigner req loc t sig) known anything.
Proof.
  apply wp_try_any; [apply wp_combinedNonces|]. intros n l.
  apply wp_try_any; [apply wp_reading_any|]. done.
Qed.

Lemma wp_sign_fresh req loc t hrst ext known :
  wp I (sign_fresh (S:=S) cosigner req loc t hrst ext) known anything.
Proof.
  apply wp_try_any; [apply wp_combinedNonces|]. intros n l.
  apply wp_try_any; [destruct ext; [apply wp_combinedNonces|done]|]. intros n' l'.
  apply wp_try_any; [apply wp_sign_both|]. intros sigs l2.
  apply wp_bind_any; [apply wp_save_section|]. intros [a|e|m] l3; [done| |done].
  case_match; [done|]. apply wp_try_any; [apply wp_reading_any|]. done.
Qed.

Lemma wp_sign_gated req loc hrst ext existing known :
  wp I (sign_gated (S:=S) cosigner req loc hrst ext existing) known anything.
Proof.
  apply wp_bind_any; [|intros; by apply wp_bind_any; [apply wp_drop_nonces|]].
  case_match; [|done|done]. destruct existing; [apply wp_sign_extension_only|apply wp_sign_fresh].
Qed.

Lemma wp_sign_gate req loc hrst ext known :
  wp I (sign_gate (S:=S) req loc hrst ext) known anything.
Proof.
  apply wp_bind_any; [apply wp_reading_any|]. intros [u|e|m] l; [done| |done].
  case_match; [|done]. by apply wp_try_any; [apply wp_reading_any|].
Qed.

Lemma wp_sign req known : wp I (sign (S:=S) cosigner req) known anything.
Proof.
  apply wp_try_any; [apply wp_reading_any|]. intros loc l. case_match; [|done|done]. case_match.
  case_match; [done|]. apply wp_try_any; [apply wp_sign_gate|]. intros. apply wp_sign_gated.
Qed.

(** The nonces of a request are set, whatever the order. *)
Lemma wp_set_all tasks known (Q : result unit goerror → list lc_event → Prop) :
  stable Q → (∀ t, t ∈ tasks → ∃ u n, t = setNonce (S:=S) cosigner u n) →
  (∀ r l, known ⊆ l → Q r l) → wp I (eg_Wait tasks) known Q.
Proof.
  intros HQ Ht Hq. apply wp_eg_Wait; [done| |done].
  intros t (u & n & ->)%Ht. apply wp_setNonce.
Qed.

Lemma set_tasks (nonces : CosignerUUIDNonces) (ext : option CosignerUUIDNonces) t :
  t ∈ ((λ secretPart, setNonce (S:=S) cosigner (un_UUID nonces) secretPart) <$> un_Nonces nonces) ++
      match ext with
      | Some e => (λ secretPart, setNonce (S:=S) cosigner (un_UUID e) secretPart) <$> un_Nonces e
      | None => []
      end →
  ∃ u n, t = setNonce (S:=S) cosigner u n.
Proof.
  rewrite elem_of_app. intros [H|H].
  - apply list_elem_of_fmap in H as (n & -> & _). eauto.
  - destruct ext as [e|]; [|by apply elem_of_nil in H].
    apply list_elem_of_fmap in H as (n & -> & _). eauto.
Qed.

Lemma wp_SetNoncesAndSign req known :
  wp I (SetNoncesAndSign NewThresholdSigner cosigner req) known anything.
Proof.
  apply wp_try_any; [apply wp_LoadSignStateIfNecessary|]. intros _ l. case_match; [|done].
  cbv zeta. case_match; [done|]. apply wp_try_any; [|intros; apply wp_sign].
  apply wp_set_all; [done| |done]. intros t. apply set_tasks.
Qed.

Lemma wp_generateNoncesIfNecessary now r u known :
  wp I (generateNoncesIfNecessary (S:=S) GenerateNonces cosigner now r u) known anything.
Proof.
  apply wp_bind_any; [apply wp_reading_any|]. intros [n|] l; [done|]. case_match; [|done|done].
  intros s log s' ev b Hs _ [= <- <- <-]. split; [|done]. by apply (sv_generate _ _ HI).
Qed.

Lemma wp_GetNonces_all now rnd total j uuids known :
  wp I (GetNonces_all (S:=S) GenerateNonces cosigner now rnd total j uuids) known anything.
Proof.
  revert j known. induction uuids as [|u l IH]; intros j known; [done|]. cbn [GetNonces_all].
  apply wp_bind_any; [|intros [[] []] ?; try done; by intros i _].
  eapply wp_impl; [|apply (wp_par _ _ _ _ anything anything); [done|done| |apply IH]]; [done|].
  apply wp_try_any; [apply wp_generateNoncesIfNecessary|]. done.
Qed.

(** Every other handler keeps the invariant and returns nothing of interest. *)
Lemma handler_cases p :
  handler NewThresholdSigner GenerateNonces cosigner p →
  (∃ req, p = (do r <- SetNoncesAndSign NewThresholdSigner cosigner req; Ret (RSign req r))) ∨
  (∃ A (q : @prog (LCState S) lc_event A), p = (do _ <- q; Ret ROther) ∧ wp I q [] anything).
Proof.
  destruct 1; [by left; eexists|..]; right; eexists _, _; (split; [reflexivity|]).
  - unfold GetNonces. case_match; [apply wp_GetNonces_all|done|done].
  - apply wp_try_any; [apply wp_reading_any|]. intros. apply wp_save_section.
  - intros s log s' ev b Hs _ [= <- <- <-]. rewrite app_nil_r. split; [|done].
    apply (sv_drop _ _ HI); [|done]. apply map_filter_subseteq.
  - intros s log s' ev b Hs _ Hf. split; [|done].
    destruct (flush_write i (lc_disk s)); injection Hf as <- <- <-; rewrite app_nil_r;
      [by apply (sv_disk _ _ HI)|done|done].
  - apply wp_try_any; [apply wp_LoadSignStateIfNecessary|]. intros.
    apply wp_try_any; [apply wp_reading_any|]. intros. apply wp_reading_any.
  - apply wp_try_any; [apply wp_reading_any|]. intros. apply wp_reading_any.
  - apply wp_bind_any; [apply wp_LoadSignStateIfNecessary|]. intros [a|e|m] l; [|done|done].
    apply wp_bind_any; [apply wp_reading_any|]. intros [a'|e'|m'] l'; [apply wp_reading_any|done|done].
Qed.

Lemma handler_any p : handler NewThresholdSigner GenerateNonces cosigner p → wp I p [] anything.
Proof.
  intros [[req ->]|(A & q & -> & Hq)]%handler_cases; apply wp_bind_any; try done.
  apply wp_SetNoncesAndSign.
Qed.
End generic.

(** ** The nonce invariant *)

Lemma live_snoc u log ev : live u (log ++ [ev]) = live_step u (live u log) ev.
Proof. unfold live. by rewrite fold_left_app. Qed.

Lemma live_app u l1 l2 : live u (l1 ++ l2) = fold_left (live_step u) l2 (live u l1).
Proof. unfold live. by rewrite fold_left_app. Qed.

(** A round that is dead is live again only after it is generated. *)
Lemma live_needs_generated u l : fold_left (live_step u) l false = true → EvGenerated u ∈ l.
Proof.
  induction l as [|ev l IH] using rev_ind; [done|]. rewrite fold_left_app. cbn.
  destruct ev as [v|v|loc ssc|loc k]; cbn; try case_bool_decide; intros Hf; subst;
    apply elem_of_app; auto; try done.
  right. by apply list_elem_of_singleton.
Qed.

(** A log extended by one event splits at a consumption in the old part or at it. *)
Lemma consumed_snoc u l1 l2 log ev :
  log ++ [ev] = l1 ++ EvConsumed u :: l2 →
  (log = l1 ∧ ev = EvConsumed u) ∨ ∃ l2', log = l1 ++ EvConsumed u :: l2'.
Proof.
  destruct l2 as [|x l2 _] using rev_ind; intros Hl.
  - left. by apply app_inj_2 in Hl as [-> [= ->]].
  - right. exists l2. rewrite app_comm_cons, app_assoc in Hl. by apply app_inj_2 in Hl as [-> _].
Qed.

Section nonces.
Context {S : Type} `{!Json}.

Lemma nonce_inv_events (s s' : LCState S) log ev :
  nonce_inv s log → lc_nonces s' = lc_nonces s →
  Forall (λ e, ∀ v, e ≠ EvGenerated v ∧ e ≠ EvConsumed v) ev →
  nonce_inv s' (log ++ ev).
Proof.
  intros [H1 H2] E Hev. split.
  - rewrite E. intros u Hu. rewrite live_app, (H1 u Hu). clear -Hev.
    induction Hev as [|e ev He _ IH]; [done|]. cbn.
    destruct e as [v|v| |]; cbn; try done; by destruct (He v).
  - clear E H1. revert log H2. induction Hev as [|e ev He _ IH]; intros log H2.
    + rewrite app_nil_r. done.
    + rewrite cons_middle, app_assoc. apply IH. intros u l1 l2 Hl.
      apply consumed_snoc in Hl as [[-> ->]|[l2' ->]]; [by destruct (He u)|]. by eapply H2.
Qed.

Lemma save_section_events (loc : nat) ssc (s : LCState S) s' ev r :
  save_section loc ssc s = (s', ev, r) →
  lc_nonces s' = lc_nonces s ∧ lc_chainState s' = lc_chainState s ∧
  Forall (λ e, ∀ v, e ≠ EvGenerated v ∧ e ≠ EvConsumed v) ev.
Proof.
  unfold save_section.
  destruct (deref loc s); [|intros [= <- <- <-]; auto|intros [= <- <- <-]; auto].
  destruct (Save _ _ _ _) as [[ss' d']|e|m]; intros [= <- <- <-]; cbn; repeat split; auto.
  case_match; auto.
Qed.

Lemma nonce_inv_survives : survives (S:=S) nonce_inv (λ _, True).
Proof.
  split.
  - intros s log f Hf [H1 H2]. split; [|done]. cbn. intros u [n Hn]. apply H1.
    exists n. by eapply lookup_weaken.
  - intros s log u n Hn [H1 H2]. split.
    + cbn. intros v [m Hm]. apply lookup_delete_Some in Hm as [Hne Hm]. rewrite live_snoc. cbn.
      rewrite bool_decide_eq_false_2 by done. apply H1. by exists m.
    + intros v l1 l2 Hl. apply consumed_snoc in Hl as [[-> [= ->]]|[l2' ->]]; [|by eapply H2].
      apply H1. by exists n.
  - intros s log u n [H1 H2]. split.
    + cbn. intros v [m Hm]. rewrite live_snoc. cbn. case_bool_decide as E; [done|].
      apply H1. rewrite lookup_insert_ne in Hm by done. by exists m.
    + intros v l1 l2 Hl. apply consumed_snoc in Hl as [[-> [=]]|[l2' ->]]. by eapply H2.
  - intros s log u n n' Hn [H1 H2]. split; [|done]. cbn. intros v [m Hm].
    destruct (decide (u = v)) as [<-|Hne]; [apply H1; by exists n|].
    rewrite lookup_insert_ne in Hm by done. apply H1. by exists m.
  - intros s log d [H1 H2]. by split.
  - done.
  - intros s log c ccs _ [H1 H2]. by split.
  - intros s log loc ssc s' ev r Hi Hs. apply save_section_events in Hs as (E & _ & Hev).
    by eapply nonce_inv_events.
Qed.
End nonces.

(** ** The double-sign invariant *)

Lemma payload_hrs_verify `{Codec} chainID b vb hrst ext :
  verifySignPayload chainID b vb = Ok (hrst, ext) → payload_hrs chainID b = Some (hrst_HRSKey hrst).
Proof.
  unfold payload_hrs, verifySignPayload.
  destruct (unmarshalVote (slice b)) as [v|e|m]; [| |done].
  - case_match.
    + destruct (CanonicalVoteToStep v) as [st| |]; [|done|done]. cbn. rewrite andb_false_r. cbn.
      case_match; [|by intros [= <- <-]]. by intros (-> & _ & _)%verify_extension_Ok.
    + unfold verify_proposal. destruct (unmarshalProposal _); [|done|done]. by intros [= <- <-].
  - unfold verify_proposal. destruct (unmarshalProposal _); [|done|done]. by intros [= <- <-].
Qed.

Section chain.
Context {S : Type} `{TS : !ThresholdSigner S} `{C : !Codec} `{J : !Json}.
Context (cid : string) (loc0 : nat).

Local Abbreviation inv := (chain_inv (S:=S) cid loc0).

(** Events that say nothing about saves at [loc0] change nothing. *)
Lemma saves_ok_events ss log ev :
  saves_ok loc0 ss log →
  Forall (λ e, ∀ ssc k, e ≠ EvSaved loc0 ssc ∧ e ≠ EvReached loc0 k) ev →
  saves_ok loc0 ss (log ++ ev).
Proof.
  intros [H1 H2 H3 Hm H4 H5] Hev. rewrite list.Forall_forall in Hev.
  assert (∀ ssc, EvSaved loc0 ssc ∈ log ++ ev → EvSaved loc0 ssc ∈ log) as Hs.
  { intros ssc [H|H]%elem_of_app; [done|]. by destruct (Hev _ H ssc (ssc_HRSKey ssc)). }
  split.
  - auto.
  - eauto.
  - intros Hb. destruct (H3 Hb) as (ssc & Hin & E). exists ssc. split; [|done]. apply elem_of_app; auto.
  - auto.
  - intros k e He. destruct (H4 k e He) as [Hin E]. split; [|done]. apply elem_of_app; auto.
  - intros k [H|H]%elem_of_app; [auto|]. by destruct (Hev _ H (mkSSC 0 0 0 None None None) k).
Qed.

Lemma saves_ok_save ss log ssc :
  hrs_lt (lockedHrsKey ss) (ssc_HRSKey ssc) → saves_ok loc0 ss log →
  saves_ok loc0 (saved_state ss ssc) (log ++ [EvSaved loc0 ssc]).
Proof.
  intros Hlt [H1 H2 H3 Hm H4 H5].
  assert (∀ a, EvSaved loc0 a ∈ log ++ [EvSaved loc0 ssc] → EvSaved loc0 a ∈ log ∨ a = ssc) as Hs.
  { intros a [H|H]%elem_of_app; [by left|]. apply list_elem_of_singleton in H as [= ->]. by right. }
  assert (∀ a, EvSaved loc0 a ∈ log → ssc_HRSKey a ≠ ssc_HRSKey ssc) as Hne.
  { intros a Ha E. apply H1 in Ha. rewrite E in Ha. by apply hrs_lt_not_le in Hlt. }
  split.
  - intros a [Ha| ->]%Hs; rewrite saved_state_key; [|by right].
    left. eapply hrs_le_lt_trans; [by apply H1|done].
  - intros a b [Ha| ->]%Hs [Hb| ->]%Hs E; [by apply H2| | |done].
    + by destruct (Hne a Ha).
    + by destruct (Hne b Hb).
  - intros _. exists ssc. split; [|done]. apply elem_of_app. right. by apply list_elem_of_singleton.
  - intros a [Ha| ->]%Hs E; [by destruct (Hne a Ha)|done].
  - intros k e [[-> ->]|He]%saved_state_cache.
    + split; [|done]. apply elem_of_app. right. by apply list_elem_of_singleton.
    + destruct (H4 k e He) as [Hin E]. split; [|done]. apply elem_of_app; auto.
  - intros k [H|H]%elem_of_app; rewrite saved_state_key.
    + left. eapply hrs_le_lt_trans; [by apply H5|done].
    + apply list_elem_of_singleton in H. discriminate.
Qed.

Lemma chain_inv_save (s : LCState S) log loc ssc s' ev r :
  inv s log → save_section loc ssc s = (s', ev, r) → inv s' (log ++ ev).
Proof.
  intros (Hc & ccs & Hl & Hok). unfold save_section, deref.
  destruct (lc_heap s !! loc) as [ccs'|] eqn:El;
    [|intros [= <- <- <-]; rewrite app_nil_r; split; [done|by exists ccs]].
  destruct (Save (cs_lastSignState ccs') ssc true (lc_disk s)) as [[ss' d']|e|m] eqn:Es;
    intros [= <- <- <-].
  - apply Save_async_Ok in Es as [Hlt ->]. split; [done|]. cbn.
    destruct (decide (loc = loc0)) as [->|Hne].
    + assert (ccs' = ccs) as -> by congruence. eexists.
      split; [apply list_lookup_insert_eq; by eapply lookup_lt_Some|]. by apply saves_ok_save.
    + exists ccs. split; [by rewrite list_lookup_insert_ne|]. apply saves_ok_events; [done|].
      constructor; [|constructor]. intros ? ?. split; congruence.
  - destruct (is_SameHRSError e) eqn:Ee; [|rewrite app_nil_r; split; [done|by exists ccs]].
    split; [done|]. exists ccs. split; [done|]. destruct (decide (loc = loc0)) as [->|Hne].
    + assert (ccs' = ccs) as -> by congruence. pose proof (Save_SameHRS _ _ _ _ Es Ee) as Ek.
      destruct Hok as [H1 H2 H3 Hm H4 H5].
      assert (∀ a, EvSaved loc0 a ∈ log ++ [EvReached loc0 (ssc_HRSKey ssc)] → EvSaved loc0 a ∈ log) as Hs.
      { intros a [H|H]%elem_of_app; [done|]. by apply list_elem_of_singleton in H. }
      split; eauto.
      * intros Hb. destruct (H3 Hb) as (a & Hin & E). exists a. split; [|done]. apply elem_of_app; auto.
      * intros k a Ha. destruct (H4 k a Ha) as [Hin E]. split; [|done]. apply elem_of_app; auto.
      * intros k [H|H]%elem_of_app; [auto|]. apply list_elem_of_singleton in H as [= ->]. by right.
    + apply saves_ok_events; [done|]. constructor; [|constructor]. intros ? ?. split; congruence.
  - rewrite app_nil_r. split; [done|by exists ccs].
Qed.

Lemma chain_inv_survives : survives (S:=S) inv (λ c, c ≠ cid).
Proof.
  split.
  - done.
  - intros s log u n _ (Hc & ccs & Hl & Hok). split; [done|]. exists ccs. split; [done|].
    apply saves_ok_events; [done|]. by repeat constructor.
  - intros s log u n (Hc & ccs & Hl & Hok). split; [done|]. exists ccs. split; [done|].
    apply saves_ok_events; [done|]. by repeat constructor.
  - done.
  - done.
  - intros s log c (Hc & _) Hn ->. congruence.
  - intros s log c ccs' Hne (Hc & ccs & Hl & Hok). split; cbn.
    + by rewrite lookup_insert_ne.
    + exists ccs. split; [by apply lookup_app_l_Some|done].
  - apply chain_inv_save.
Qed.

(** A sign request of this chain is backed by a save of its key. *)
Definition sign_post (req : CosignerSignRequest) (r : result CosignerSignResponse goerror)
    (log : list lc_event) : Prop :=
  match r with
  | Ok _ =>
      sr_ChainID req = cid →
      ∃ ssc, EvSaved loc0 ssc ∈ log ∧
        payload_hrs cid (sr_SignBytes req) = Some (ssc_HRSKey ssc) ∧
        acceptable (ssc_Step ssc) (ssc_SignBytes ssc) (sr_SignBytes req) = true
  | _ => True
  end.

Lemma sign_post_stable req : stable (sign_post req).
Proof.
  intros [res|e|m] l l' Hl; cbn; [|done|done]. intros H Hc.
  destruct (H Hc) as (ssc & Hin & Hr). exists ssc. split; [by apply Hl|done].
Qed.
End chain.

Section sign_chain.
Context {S K R : Type} `{TS : !ThresholdSigner S} `{CS : !CosignerSecurity K} `{C : !Codec} `{J : !Json}.
Context (NewThresholdSigner : RuntimeConfig → Z → string → FileSystem → result S goerror).
Context (GenerateNonces : R → Z → Z → result Nonces goerror).
Context (cosigner : LocalCosigner K).
Context (cid : string) (loc0 : nat).

Local Abbreviation inv := (chain_inv (S:=S) cid loc0).
Local Abbreviation post := (sign_post cid loc0).
Local Abbreviation surv := (chain_inv_survives (S:=S) cid loc0).

(** A payload found in the cache of the chain was saved there. *)
Lemma wp_cached_section hrst bytes known :
  wp inv (cached_section (S:=S) loc0 hrst bytes) known (λ r l,
    match r with
    | Ok (Some _) =>
        ∃ ssc, EvSaved loc0 ssc ∈ l ∧ ssc_HRSKey ssc = hrst_HRSKey hrst ∧
          acceptable (ssc_Step ssc) (ssc_SignBytes ssc) bytes = true
    | _ => True
    end).
Proof.
  intros s log s' ev b Hs _ [= <- <- <-]. rewrite app_nil_r. split; [done|].
  destruct Hs as (_ & ccs & Hl & Hok). unfold deref. rewrite Hl. cbn.
  destruct (ss_cache (cs_lastSignState ccs) !! hrst_HRSKey hrst) as [e|] eqn:Ec; [|done].
  destruct (_ && _) eqn:Eb; [|done].
  apply andb_true_iff in Eb as [_ Eb]. destruct (so_cache _ _ _ Hok _ _ Ec) as [Hin Hk].
  exists e. split; [done|]. split; [done|]. unfold acceptable, bytes_Equal in *.
  apply bool_decide_eq_true in Eb. by rewrite bool_decide_eq_true_2.
Qed.

(** The save of a fresh share, and the check when another got there first. *)
Lemma wp_save_and_check req hrst sigs known :
  sr_ChainID req = cid → payload_hrs cid (sr_SignBytes req) = Some (hrst_HRSKey hrst) →
  wp inv (do saved <- atomically (save_section (S:=S) loc0
      (mkSSC (hrst_Height hrst) (hrst_Round hrst) (hrst_Step hrst) sigs.1 sigs.2 (sr_SignBytes req)));
    match saved with
    | Ok _ => Ret (Ok (response sigs.1 sigs.2))
    | Panics m => Ret (Panics m)
    | Err err =>
        if negb (errors_As is_SameHRSError err) then Ret (Err err)
        else
          must _ <- check_section loc0 hrst (sr_SignBytes req);
          Ret (Ok (response sigs.1 sigs.2))
    end) known (post req).
Proof.
  intros Hcid Hhrs. set (ssc := mkSSC _ _ _ _ _ _). intros s log s' ev b Hs _ Hf.
  split; [by eapply chain_inv_save|]. destruct Hs as (_ & ccs & Hl & Hok).
  unfold save_section, deref in Hf. rewrite Hl in Hf.
  destruct (Save (cs_lastSignState ccs) ssc true (lc_disk s)) as [[ss' d']|e|m] eqn:Es;
    injection Hf as <- <- <-; cbn.
  - intros _. exists ssc. split; [apply elem_of_app; right; by apply list_elem_of_singleton|].
    split; [done|]. apply acceptable_refl.
  - assert (errors_As is_SameHRSError e = is_SameHRSError e) as ->.
    { unfold Save, blockDoubleSign, lockedGetErrorIfLessOrEqual in Es. cbv zeta in Es.
      repeat case_match; simplify_eq; cbn in *; by simplify_eq. }
    destruct (is_SameHRSError e); [|done]. cbn.
    intros s1 log1 s2 ev1 r1 Hs1 Hk [= <- <- <-]. rewrite app_nil_r. split; [done|].
    destruct Hs1 as (_ & ccs1 & Hl1 & Hok1). unfold deref. rewrite Hl1. cbn.
    destruct (errorIfConflictOrRegression _ hrst (sr_SignBytes req)) as [[]|e1|m1] eqn:Ee; [|done|done].
    cbn. intros _. apply errorIfConflictOrRegression_Ok in Ee as [Hlt|(Ek & Hb & _ & Ha)].
    + exfalso. apply hrs_lt_not_le in Hlt. apply Hlt. apply (so_reached _ _ _ Hok1).
      apply Hk. apply elem_of_app. right. by apply list_elem_of_singleton.
    + destruct (so_top _ _ _ Hok1 Hb) as (a & Hin & Ka & Ba). exists a. split; [done|].
      rewrite Ka, <- Ek. split; [done|]. rewrite Ba.
      assert (ssc_Step a = ss_Step (cs_lastSignState ccs1)) as ->; [|done].
      by injection Ka.
  - done.
Qed.

Lemma wp_sign_fresh_post req t hrst ext known :
  sr_ChainID req = cid → payload_hrs cid (sr_SignBytes req) = Some (hrst_HRSKey hrst) →
  wp inv (sign_fresh (S:=S) cosigner req loc0 t hrst ext) known (post req).
Proof.
  intros Hc Hh. unfold sign_fresh.
  apply wp_try. eapply wp_impl; [|apply (wp_combinedNonces _ _ surv)].
  intros [n|e|m] l _; [|done|done].
  apply wp_try. eapply wp_impl; [|destruct ext; [apply (wp_combinedNonces _ _ surv)|by cbn]].
  intros [n'|e|m] l' _; [|done|done].
  apply wp_try. eapply wp_impl; [|apply (wp_sign_both _)].
  intros [sigs|e|m] l2 _; [|done|done]. by apply wp_save_and_check.
Qed.

(** After the deferred function, the response is what it was. *)
Lemma wp_then_drop req (p : prog (result CosignerSignResponse goerror)) known :
  wp inv p known (post req) →
  wp inv (do res <- p; do _ <- drop_nonces (S:=S) req; Ret res) known (post req).
Proof.
  intros Hp. apply wp_bind. eapply wp_impl; [|exact Hp]. intros res l Hres.
  apply wp_bind. eapply wp_impl; [|apply wp_grow, (wp_drop_nonces _ _ surv)].
  cbn. intros _ l' [_ Hl]. by eapply sign_post_stable.
Qed.

Lemma wp_sign_extension_only_post req t sig hrst known ssc :
  EvSaved loc0 ssc ∈ known → ssc_HRSKey ssc = hrst_HRSKey hrst →
  payload_hrs cid (sr_SignBytes req) = Some (hrst_HRSKey hrst) →
  acceptable (ssc_Step ssc) (ssc_SignBytes ssc) (sr_SignBytes req) = true →
  wp inv (sign_extension_only (S:=S) cosigner req loc0 t sig) known (post req).
Proof.
  intros Hin Hk Hh Ha. eapply wp_impl; [|apply wp_grow, (wp_sign_extension_only _ _ _ surv)].
  intros [r|e|m] l [_ Hl]; [|done|done]. intros _. exists ssc. rewrite Hk. auto.
Qed.

(** The gate either lets a fresh request on, or found the payload in the cache. *)
Lemma wp_sign_gate_post req hrst ext known :
  wp inv (sign_gate (S:=S) req loc0 hrst ext) known (λ r l,
    match r with
    | Ok (Some _) =>
        ∃ ssc, EvSaved loc0 ssc ∈ l ∧ ssc_HRSKey ssc = hrst_HRSKey hrst ∧
          acceptable (ssc_Step ssc) (ssc_SignBytes ssc) (sr_SignBytes req) = true
    | _ => True
    end).
Proof.
  apply wp_bind. eapply wp_impl; [|apply wp_reading_any]. intros [u|e|m] l _; [done| |done].
  destruct ext; [|done]. apply wp_try. eapply wp_impl; [|apply wp_cached_section].
  intros [[sig|]|e'|m] l' Hl'; done.
Qed.

Lemma wp_sign_gated_post req hrst ext existing known :
  sr_ChainID req = cid → payload_hrs cid (sr_SignBytes req) = Some (hrst_HRSKey hrst) →
  match existing with
  | Some _ =>
      ∃ ssc, EvSaved loc0 ssc ∈ known ∧ ssc_HRSKey ssc = hrst_HRSKey hrst ∧
        acceptable (ssc_Step ssc) (ssc_SignBytes ssc) (sr_SignBytes req) = true
  | None => True
  end →
  wp inv (sign_gated (S:=S) cosigner req loc0 hrst ext existing) known (post req).
Proof.
  intros Hc Hh He. apply wp_then_drop. destruct (thresholdModeConfig cosigner); [|done|done]. destruct existing as [sig|].
  - destruct He as (ssc & Hin & Hk & Ha). by eapply wp_sign_extension_only_post.
  - by apply wp_sign_fresh_post.
Qed.

Lemma wp_sign_post req known : wp inv (sign (S:=S) cosigner req) known (post req).
Proof.
  destruct (decide (sr_ChainID req = cid)) as [Hc|Hc].
  2:{ eapply wp_impl; [|apply (wp_sign _ _ _ surv)].
      intros [r|e|m] l _; [|done|done]. by intros ?. }
  unfold sign. rewrite Hc. apply wp_try.
  intros s log s' ev b Hs _ [= <- <- <-]. rewrite app_nil_r. split; [done|].
  rewrite (proj1 Hs). clear s Hs.
  destruct (verifySignPayload cid _ _) as [[hrst ext]|e|m] eqn:Ev; [|done|done].
  pose proof (payload_hrs_verify _ _ _ _ _ Ev) as Hh. case_match; [done|].
  apply wp_try. eapply wp_impl; [|apply wp_sign_gate_post].
  intros [existing|e|m] l Hl; [|done|done]. apply wp_sign_gated_post; [done|done|].
  by destruct existing.
Qed.

Lemma wp_SetNoncesAndSign_post req known :
  wp inv (SetNoncesAndSign NewThresholdSigner cosigner req) known
    (λ r l, backed cid loc0 (RSign req r) l).
Proof.
  unfold SetNoncesAndSign. apply wp_try.
  eapply wp_impl; [|apply (wp_LoadSignStateIfNecessary _ _ _ _ surv)].
  intros [a|e|m] l _; [|done|done]. case_match; [|done]. cbv zeta. case_match; [done|].
  apply wp_try. apply (wp_set_all cosigner _ _ surv).
  - intros [x|e|m] l1 l2 Hl; [|done|done]. apply wp_mono; [|done].
    intros [r|e|m] l3 l4 Hl'; [|done|done]. intros Hb Hc.
    destruct (Hb Hc) as (ssc & Hin & Hr). exists ssc. split; [by apply Hl'|done].
  - intros t. apply set_tasks.
  - intros [x|e|m] l1 Hl; [|done|done].
    eapply wp_impl; [|apply wp_sign_post]. intros [r|e|m] l2; [|done|done]. cbn.
    by destruct (0 <? blen (snr_VoteExtensionSignBytes req)).
Qed.

Lemma handler_backed p :
  handler NewThresholdSigner GenerateNonces cosigner p → wp inv p [] (backed cid loc0).
Proof.
  intros [[req ->]|(A & q & -> & Hq)]%(handler_cases NewThresholdSigner GenerateNonces cosigner _ _ surv).
  - apply wp_bind. eapply wp_impl; [|apply wp_SetNoncesAndSign_post]. by intros r l.
  - apply wp_bind. eapply wp_impl; [|exact Hq]. done.
Qed.

Lemma backed_stable : stable (backed cid loc0).
Proof.
  intros [req [r|e|m]|] l l' Hl; [|done|done|done]. intros Hb Hc.
  destruct (Hb Hc) as (ssc & Hin & Hr). exists ssc. split; [by apply Hl|done].
Qed.

(** Two responses backed by saves of one key carry the same payload. *)
Lemma backed_same_payload `{!CodecLaws C} s log req1 req2 r1 r2 hrs :
  inv s log → backed cid loc0 (RSign req1 (Ok r1)) log → backed cid loc0 (RSign req2 (Ok r2)) log →
  snr_ChainID req1 = cid → snr_ChainID req2 = cid →
  payload_hrs cid (snr_SignBytes req1) = Some hrs → payload_hrs cid (snr_SignBytes req2) = Some hrs →
  same_payload (hrs_Step hrs) (slice (snr_SignBytes req1)) (slice (snr_SignBytes req2)).
Proof.
  intros (_ & ccs & _ & Hok) H1 H2 C1 C2 P1 P2.
  destruct (H1 C1) as (a & Ha & Ka & Aa). destruct (H2 C2) as (b & Hb & Kb & Ab).
  assert (a = b) as -> by (apply (so_unique _ _ _ Hok); congruence).
  assert (hrs = ssc_HRSKey b) as -> by congruence.
  by eapply acceptable_same_payload.
Qed.
End sign_chain.

Lemma LoadOrCreate_saves_ok `{Json} path fs ss fs' loc :
  LoadOrCreateSignState path fs = Ok (ss, fs') → saves_ok loc ss (cached_saves loc ss).
Proof.
  intros Hl.
  assert (cache_ok ss ∧ (ss_SignBytes ss ≠ None → top_cached ss)) as [Hc Ht] by (by eapply LoadOrCreate_ok).
  assert (∀ e, EvSaved loc e ∈ cached_saves loc ss ↔ ∃ k, ss_cache ss !! k = Some e) as Hin.
  { intros e. unfold cached_saves. rewrite list_elem_of_fmap. split.
    - intros ([k e'] & [= ->] & Hk%elem_of_map_to_list). by exists k.
    - intros [k Hk]. exists (k, e). split; [done|]. by apply elem_of_map_to_list. }
  split.
  - intros e [k He]%Hin. by destruct (Hc k e He) as [-> Hle].
  - intros a b [k Ha]%Hin [k' Hb]%Hin E.
    destruct (Hc k a Ha) as [Ka _]. destruct (Hc k' b Hb) as [Kb _]. congruence.
  - intros Hb. destruct (Ht Hb) as (e & He & Eb & _). exists e. split; [apply Hin; by eexists|].
    by destruct (Hc _ _ He) as [-> _].
  - intros e [k He]%Hin E. destruct (LoadOrCreate_cache _ _ _ _ Hl) as [E0|(e' & He' & Eb & _)]; [by rewrite E0 in He|].
    destruct (Hc k e He) as [Ek _]. rewrite <- Ek, E, He' in He. by injection He as <-.
  - intros k e He. split; [apply Hin; by eexists|]. by destruct (Hc k e He).
  - intros k Hk. unfold cached_saves in Hk. by apply list_elem_of_fmap in Hk as (? & ? & _).
Qed.

(** ** Properties *)

(** C2: a cosigner whose chain state is loaded never signs two different
    payloads at one height, round and step, in any interleaving of any number of sign
    requests with each other and with watermark updates from raft, nonce requests,
    pruning and disk writes: two requests it answered for the same key asked for the
    same payload up to the timestamp. *)
Theorem no_double_sign
    {S K R : Type} `{TS : !ThresholdSigner S} `{CS : !CosignerSecurity K} `{C : !Codec, !CodecLaws C}
    `{J : !Json} NewThresholdSigner (GenerateNonces : R → Z → Z → result Nonces goerror)
    (cosigner : LocalCosigner K) cid loc0 (s : LCState S) ccs path fs fs' pl i j req1 req2 r1 r2 hrs :
  lc_chainState s !! cid = Some loc0 → lc_heap s !! loc0 = Some ccs →
  LoadOrCreateSignState path fs = Ok (cs_lastSignState ccs, fs') →
  rtc (pool_step (handler NewThresholdSigner GenerateNonces cosigner))
    (mkPool s (cached_saves loc0 (cs_lastSignState ccs)) []) pl →
  pl_threads pl !! i = Some (Ret (RSign req1 (Ok r1))) →
  pl_threads pl !! j = Some (Ret (RSign req2 (Ok r2))) →
  snr_ChainID req1 = cid → snr_ChainID req2 = cid →
  payload_hrs cid (snr_SignBytes req1) = Some hrs →
  payload_hrs cid (snr_SignBytes req2) = Some hrs →
  same_payload (hrs_Step hrs) (slice (snr_SignBytes req1)) (slice (snr_SignBytes req2)).
Proof.
  intros Hc Hl Hld Hrtc Hi Hj C1 C2 P1 P2.
  assert (chain_inv cid loc0 s (cached_saves loc0 (cs_lastSignState ccs))) as Hinv.
  { split; [done|]. exists ccs. split; [done|]. by eapply LoadOrCreate_saves_ok. }
  destruct (pool_sound _ _ _ (backed_stable cid loc0)
    (handler_backed NewThresholdSigner GenerateNonces cosigner cid loc0) _ _ _ Hinv Hrtc) as [HI HQ].
  eapply backed_same_payload; [done|exact HI|by eapply HQ|by eapply HQ|done..].
Qed.

Lemma no_double_sign_witness :
  ∃ r1 r2, pl_threads (pool_exec (steps 0 4 ++ steps 1 20 ++ steps 0 20)
      (mkPool toy_loaded [] [toy_thread (toy_request 1 9 42); toy_thread (toy_request 2 10 42)]))
    = [Ret (RSign (toy_request 1 9 42) (Ok r1)); Ret (RSign (toy_request 2 10 42) (Ok r2))] ∧
  @same_payload toy_codec 3 [1; 2; 5; 0; 9; 42] [1; 2; 5; 0; 10; 42].
Proof.
  eexists _, _. split; [vm_compute; reflexivity|].
  refine (@no_double_sign unit Z unit toy_signer toy_security toy_codec toy_codec_laws toy_json
    toy_new_signer toy_generate toy_cosigner "chain" 0 toy_loaded (mkChainState toy_fresh ())
    "/s/chain_share_sign_state.json" empty_fs _
    (pool_exec (steps 0 4 ++ steps 1 20 ++ steps 0 20)
      (mkPool toy_loaded [] [toy_thread (toy_request 1 9 42); toy_thread (toy_request 2 10 42)]))
    0 1 (toy_request 1 9 42) (toy_request 2 10 42) _ _ (mkHRSKey 5 0 3)
    eq_refl eq_refl _ _ _ _ eq_refl eq_refl _ _);
    [vm_compute; reflexivity| |vm_compute; reflexivity..].
  etransitivity; [|apply pool_exec_rtc]. apply pool_spawn_all.
  repeat constructor.
Defined.

(** The guarantee needs the chain state to be in place.
    [LoadSignStateIfNecessary] checks the map and stores in it in separate steps, so
    two first requests for a chain can each load the state file; the second store
    replaces the watermark the first request has already moved, and the cosigner
    signs two different blocks at one height, round and step. *)
Theorem racing_loads_double_sign :
  ∃ pl r1 r2,
    rtc (pool_step toy_handler) (mkPool toy_unloaded [] []) pl ∧
    pl_threads pl = [Ret (RSign (toy_request 1 9 42) (Ok r1));
                     Ret (RSign (toy_request 2 9 43) (Ok r2))] ∧
    @payload_hrs toy_codec "chain" (snr_SignBytes (toy_request 1 9 42)) = Some (mkHRSKey 5 0 3) ∧
    @payload_hrs toy_codec "chain" (snr_SignBytes (toy_request 2 9 43)) = Some (mkHRSKey 5 0 3) ∧
    ¬ @same_payload toy_codec 3 [1; 2; 5; 0; 9; 42] [1; 2; 5; 0; 9; 43].
Proof.
  exists (pool_exec (steps 0 1 ++ steps 1 1 ++ steps 0 20 ++ steps 1 20)
      (mkPool toy_unloaded [] [toy_thread (toy_request 1 9 42); toy_thread (toy_request 2 9 43)])).
  eexists _, _. split.
  { etransitivity; [|apply pool_exec_rtc]. apply pool_spawn_all. repeat constructor. }
  split; [vm_compute; reflexivity|]. split; [reflexivity|]. split; [reflexivity|].
  intros [H|H]; [discriminate|].
  destruct H as (v & w & t & [= <-] & [= <-] & H). apply bool_decide_eq_true in H. discriminate.
Qed.

(** C9: in any interleaving, a nonce round a cosigner uses to sign was
    generated before, and is used again only if it was generated again in between:
    [combinedNonces] takes the round out of the table in the step that reads it. *)
Theorem nonce_consumed_once
    {S K R : Type} `{TS : !ThresholdSigner S} `{CS : !CosignerSecurity K} `{C : !Codec} `{J : !Json}
    NewThresholdSigner (GenerateNonces : R → Z → Z → result Nonces goerror)
    (cosigner : LocalCosigner K) (s : LCState S) pl u l1 l2 :
  lc_nonces s = ∅ →
  rtc (pool_step (handler NewThresholdSigner GenerateNonces cosigner)) (mkPool s [] []) pl →
  pl_log pl = l1 ++ EvConsumed u :: l2 →
  EvGenerated u ∈ l1 ∧
  ∀ l2' l3, l2 = l2' ++ EvConsumed u :: l3 → EvGenerated u ∈ l2'.
Proof.
  intros Hn Hrtc Hl.
  assert (nonce_inv s []) as Hinv.
  { split; [|by intros v [] l2'']. intros v. rewrite Hn, lookup_empty. by intros []. }
  destruct (pool_sound nonce_inv (λ _ _, True) _ ltac:(done)
    (handler_any NewThresholdSigner GenerateNonces cosigner _ _ nonce_inv_survives) _ _ _ Hinv Hrtc)
    as [[_ Hcons] _].
  split; [by apply live_needs_generated, (Hcons u l1 l2)|].
  intros l2' l3 ->. specialize (Hcons u (l1 ++ EvConsumed u :: l2') l3).
  rewrite Hl, <- app_assoc in Hcons. specialize (Hcons eq_refl).
  rewrite live_app in Hcons. cbn in Hcons. rewrite bool_decide_eq_true_2 in Hcons by done.
  by apply live_needs_generated.
Qed.

Lemma nonce_consumed_once_witness :
  ∃ l1 l2, pl_log (pool_exec (steps 0 9 ++ steps 1 20)
      (mkPool (set_nonces ∅ toy_loaded) [] [toy_nonce_thread; toy_sign_thread]))
    = l1 ++ EvConsumed [3] :: l2 ∧ EvGenerated [3] ∈ l1.
Proof.
  eexists [EvGenerated [3]], _. split; [vm_compute; reflexivity|].
  refine (proj1 (@nonce_consumed_once unit Z unit toy_signer toy_security toy_codec toy_json
    toy_new_signer toy_generate toy_cosigner (set_nonces ∅ toy_loaded)
    (pool_exec (steps 0 9 ++ steps 1 20)
      (mkPool (set_nonces ∅ toy_loaded) [] [toy_nonce_thread; toy_sign_thread]))
    [3] [EvGenerated [3]] _ eq_refl _ _)); [|vm_compute; reflexivity].
  etransitivity; [|apply pool_exec_rtc]. apply pool_spawn_all. repeat constructor.
Defined.

Section fresh.
Context {S K : Type} `{TS : !ThresholdSigner S} `{CS : !CosignerSecurity K} `{C : !Codec} `{J : !Json}.
Context (cosigner : LocalCosigner K) (sched : nat → nat).

Lemma run_reading {B} (f : LCState S → B) s :
  run sched (@reading _ lc_event _ f) s = (s, [], f s).
Proof. done. Qed.

Lemma run_combinedNonces threshold u (s : LCState S) round combined :
  lc_nonces s !! u = Some round → combine_slots (GetID cosigner) (ne_Nonces round) = Ok combined →
  threshold ≤ Z.of_nat (length combined) →
  run sched (combinedNonces (GetID cosigner) threshold u) s
  = (set_nonces (delete u (lc_nonces s)) s, [EvConsumed u], Ok combined).
Proof.
  intros Hu Hc Ht. cbn. rewrite Hu, Hc. cbn. by rewrite (proj2 (Z.ltb_ge _ _) Ht).
Qed.

(** The state after a fresh share was signed and saved. *)
Definition signed_state (loc : nat) (ccs : ChainState S) (ssc : SignStateConsensus) (u v : UUID)
    (s : LCState S) : LCState S :=
  mkLCState (lc_chainState s)
    (<[loc := mkChainState (saved_state (cs_lastSignState ccs) ssc) (cs_signer ccs)]> (lc_heap s))
    (delete v (delete u (delete u (lc_nonces s))))
    (mkDisk (d_fs (lc_disk s))
       (d_pending (lc_disk s) ++ [lockedCopy (saved_state (cs_lastSignState ccs) ssc)])).

Lemma run_save_section loc ccs ssc (s : LCState S) :
  lc_heap s !! loc = Some ccs → hrs_lt (lockedHrsKey (cs_lastSignState ccs)) (ssc_HRSKey ssc) →
  save_section loc ssc s =
    (set_disk (mkDisk (d_fs (lc_disk s))
       (d_pending (lc_disk s) ++ [lockedCopy (saved_state (cs_lastSignState ccs) ssc)]))
      (set_heap (<[loc := mkChainState (saved_state (cs_lastSignState ccs) ssc) (cs_signer ccs)]>
         (lc_heap s)) s), [EvSaved loc ssc], Ok ()).
Proof.
  intros Hl Hlt. unfold save_section, deref, Save. rewrite Hl.
  rewrite (proj2 (blockDoubleSign_Ok _ _ _ _) (conj Hlt (conj eq_refl eq_refl))). done.
Qed.

(** The signing of both payloads, whichever goroutine's error would be returned *)
Lemma run_sign_both (req : CosignerSignRequest) loc ccs (hasExt : bool) nonces extNonces sig extSig (s : LCState S) :
  lc_heap s !! loc = Some ccs → ts_Sign (cs_signer ccs) nonces (sr_SignBytes req) = Ok sig →
  (if hasExt then ts_Sign (cs_signer ccs) extNonces (sr_VoteExtensionSignBytes req) = Ok extSig else extSig = None) →
  run sched (sign_both req loc hasExt nonces extNonces) s = (s, [], Ok (sig, extSig)).
Proof.
  intros Hl Hsig Hext. unfold sign_both, sign_section. cbn. unfold deref. rewrite Hl. cbn. rewrite Hsig.
  destruct hasExt; cbn; [|by subst]. rewrite Hl. cbn. rewrite Hext. cbn. by destruct (sched 2%nat).
Qed.

(** C10: a request above the watermark whose nonce rounds are in place with at least threshold contributions each, one for the payload
    and, for a vote with an extension, another one for the extension, is signed when the threshold signer signs: run alone it
    returns the signer's shares over the requested bytes, moves the watermark to the request, queues the write of the new
    state, and leaves neither nonce round in the table. *)
Theorem sign_fresh_succeeds req (s : LCState S) loc ccs hrst hasExt tm round combined sig extRound extCombined extSig :
  lc_chainState s !! sr_ChainID req = Some loc → lc_heap s !! loc = Some ccs →
  verifySignPayload (sr_ChainID req) (sr_SignBytes req) (sr_VoteExtensionSignBytes req)
    = Ok (hrst, hasExt) →
  hrs_lt (lockedHrsKey (cs_lastSignState ccs)) (hrst_HRSKey hrst) →
  thresholdModeConfig cosigner = Ok tm →
  lc_nonces s !! sr_UUID req = Some round →
  combine_slots (GetID cosigner) (ne_Nonces round) = Ok combined →
  u8 (tm_Threshold tm) ≤ Z.of_nat (length combined) →
  ts_Sign (cs_signer ccs) combined (sr_SignBytes req) = Ok sig →
  (if hasExt then
     sr_UUID req ≠ sr_VoteExtUUID req ∧ lc_nonces s !! sr_VoteExtUUID req = Some extRound
     ∧ combine_slots (GetID cosigner) (ne_Nonces extRound) = Ok extCombined
     ∧ u8 (tm_Threshold tm) ≤ Z.of_nat (length extCombined)
     ∧ ts_Sign (cs_signer ccs) extCombined (sr_VoteExtensionSignBytes req) = Ok extSig
   else extSig = None) →
  let ssc := mkSSC (hrst_Height hrst) (hrst_Round hrst) (hrst_Step hrst) sig extSig (sr_SignBytes req) in
  run sched (sign cosigner req) s
  = (signed_state loc ccs ssc (sr_UUID req) (sr_VoteExtUUID req) s,
     EvConsumed (sr_UUID req) :: (if hasExt then [EvConsumed (sr_VoteExtUUID req)] else []) ++ [EvSaved loc ssc],
     Ok (response sig extSig)).
Proof.
  intros Hc Hl Hv Hlt Htm Hu Hcomb Ht Hsig Hext ssc. set (u := sr_UUID req) in *. set (v := sr_VoteExtUUID req) in *.
  unfold sign. eapply (run_try sched _ _ s _ []); [cbn; rewrite Hc; reflexivity|]. rewrite Hv.
  assert (hasExt && bool_decide (u = v) = false) as Hne.
  { destruct hasExt; [|done]. destruct Hext as [Hne _]. by apply bool_decide_eq_false. }
  fold u v. rewrite Hne. eapply (run_try sched _ _ s _ []).
  { eapply (run_bind sched _ _ s s []); [apply run_reading|]. unfold deref. rewrite Hl. cbn [result_bind].
    rewrite (proj2 (errorIfConflictOrRegression_Ok _ _ _) (or_introl Hlt)). reflexivity. }
  unfold sign_gated. rewrite Htm. cbv zeta.
  rewrite <- (app_nil_r (EvConsumed u :: _)). eapply run_bind.
  { unfold sign_fresh. fold u v. eapply (run_try sched _ _ s _ [EvConsumed u]); [by eapply run_combinedNonces|].
    eapply (run_try sched _ _ _ (set_nonces (if hasExt then delete v (delete u (lc_nonces s)) else delete u (lc_nonces s)) s)
      (if hasExt then [EvConsumed v] else []) (if hasExt then extCombined else [])).
    { destruct hasExt; [|done]. destruct Hext as (Huv & Hev & Hec & Het & _).
      rewrite (run_combinedNonces _ v _ extRound extCombined); [done| |done|done]. cbn. by rewrite lookup_delete_ne. }
    eapply (run_try sched _ _ _ _ []).
    { apply (run_sign_both _ _ ccs _ _ _ sig extSig); [done|done|]. destruct hasExt; [by destruct Hext as (_ & _ & _ & _ & ?)|done]. }
    cbn [fst snd]. fold ssc. rewrite <- (app_nil_r [EvSaved loc ssc]). eapply run_bind.
    - cbn. rewrite (run_save_section loc ccs ssc) by done. reflexivity.
    - reflexivity. }
  cbn. unfold signed_state. cbn. do 4 f_equal. destruct hasExt; [|done].
  rewrite (delete_delete _ u v), delete_delete_eq. done.
Qed.
End fresh.

Lemma sign_fresh_succeeds_witness :
  let req := mkCosignerSignRequest "chain" (Some [1; 2; 5; 0; 9; 42]) [1] (Some [3; 5; 0; 7]) [2] in
  (run (λ _, 0%nat)
     (@sign unit Z toy_signer toy_security toy_codec toy_json toy_cosigner req) toy_loaded).2
  = Ok (response (Some [1; 2; 5; 0; 9; 42]) (Some [3; 5; 0; 7])).
Proof.
  cbv zeta.
  rewrite (@sign_fresh_succeeds unit Z toy_signer toy_security toy_codec toy_json toy_cosigner
    (λ _, 0%nat) (mkCosignerSignRequest "chain" (Some [1; 2; 5; 0; 9; 42]) [1] (Some [3; 5; 0; 7]) [2])
    toy_loaded 0 (mkChainState toy_fresh ()) (mkHRSTKey 5 0 3 9) true
    (mkThresholdModeConfig 2 (CosignersFromFlag ["a"; "b"; "c"]) "" "1s" "1s" false) toy_round
    [mkNonce 0 (Some [7]) (Some [1]); mkNonce 0 (Some [8]) (Some [2])] (Some [1; 2; 5; 0; 9; 42]) toy_round
    [mkNonce 0 (Some [7]) (Some [1]); mkNonce 0 (Some [8]) (Some [2])] (Some [3; 5; 0; 7]));
    try reflexivity.
  - left. cbn. lia.
  - split; [discriminate|]. repeat split; reflexivity || (vm_compute; congruence).
Defined.
