(* ===== verification/Cluster.v ===== *)
(** * The cluster: quorum intersection

    A validator signature is assembled by the leader from the shares of at least
    [threshold] cosigners (threshold_validator.go), whichever process leads and
    however often the leadership changes.  The cosigners are processes of
    LocalCosigner.v, each running any interleaving of its handlers, and restarted any
    number of times from the state it last had.  The theorem lifts the safety of one
    cosigner to the cluster: the threshold of a validated configuration makes any two
    quorums overlap, so two signatures for one height, round and step cannot be over
    different payloads, even when as many cosigners as the overlap allows to spare are
    faulty. *)

From S2P Require Import Prelude Hrs Errors Comet SignState Config Cosigner Conc LocalCosigner SignSafety.
From stdpp Require Import base gmap fin_sets list strings numbers relations.
From Stdlib Require Import ZArith Lia.

Open Scope Z_scope.

(** ** Definitions *)

(** The shard IDs of a configuration. *)
Definition shard_ids (tm : ThresholdModeConfig) : gset Z :=
  list_to_set (cc_ShardID <$> tm_Cosigners tm).

Section cluster.
Context {S K R : Type} `{TS : !ThresholdSigner S} `{CS : !CosignerSecurity K} `{C : !Codec} `{J : !Json}.
Context (NewThresholdSigner : RuntimeConfig → Z → string → FileSystem → result S goerror).
Context (GenerateNonces : R → Z → Z → result Nonces goerror).

(** A process runs its handlers from when the chain is loaded with the state [ss]; its state is [st] at the end, or now. *)
Definition process (cid : string) (ss : SignState) (pl : @pool (LCState S) lc_event reply) (st : SignState) : Prop :=
  ∃ (cosigner : LocalCosigner K) (s : LCState S) loc ccs ccs',
    lc_chainState s !! cid = Some loc ∧ lc_heap s !! loc = Some ccs ∧ cs_lastSignState ccs = ss ∧
    rtc (pool_step (handler NewThresholdSigner GenerateNonces cosigner)) (mkPool s [] []) pl ∧
    lc_heap (pl_state pl) !! loc = Some ccs' ∧ cs_lastSignState ccs' = st.

(** A cosigner over its restarts: a list of processes and the last state.  Each one loads the chain once, before it serves; the first
    from any file, a later one from a file that holds the last state of the one before. *)
Inductive lives (cid : string) : list (@pool (LCState S) lc_event reply) → SignState → Prop :=
| LivesStart path fs ss fs' pl st :
    LoadOrCreateSignState path fs = Ok (ss, fs') → process cid ss pl st → lives cid [pl] st
| LivesRestart pls st fs0 fs ss fs' pl st' :
    lives cid pls st → ss_filePath st ≠ DevNull → saveSignState (lockedCopy st) fs0 = Ok fs →
    LoadOrCreateSignState (ss_filePath st) fs = Ok (ss, fs') → process cid ss pl st' → lives cid (pls ++ [pl]) st'.

(** One of the processes of a cosigner has answered a request for these bytes with a share. *)
Definition gave_share (cid : string) (signBytes : gobytes)
    (pls : list (@pool (LCState S) lc_event reply)) : Prop :=
  ∃ pl i req r, pl ∈ pls ∧ pl_threads pl !! i = Some (Ret (RSign req (Ok r))) ∧
    snr_ChainID req = cid ∧ snr_SignBytes req = signBytes.

(** A quorum for a payload: at least [threshold] distinct cosigners, of which those
    that are not faulty gave a share for it. *)
Record quorum (tm : ThresholdModeConfig) (cid : string) (faulty : gset Z)
    (cosigners : Z → list (@pool (LCState S) lc_event reply)) (signBytes : gobytes) (signers : gset Z) : Prop := {
  qr_members : signers ⊆ shard_ids tm;
  qr_size : tm_Threshold tm ≤ Z.of_nat (size signers);
  qr_shares i : i ∈ signers → i ∉ faulty → gave_share cid signBytes (cosigners i)
}.

(** The saves of a cosigner over its restarts: unique per key, at or below its state, and what its shares are backed by *)
Record history (cid : string) (pls : list (@pool (LCState S) lc_event reply)) (st : SignState) (H : list SignStateConsensus) : Prop := {
  hi_below ssc : ssc ∈ H → hrs_le (ssc_HRSKey ssc) (lockedHrsKey st);
  hi_unique a b : a ∈ H → b ∈ H → ssc_HRSKey a = ssc_HRSKey b → a = b;
  hi_same ssc : ssc ∈ H → ssc_HRSKey ssc = lockedHrsKey st → ssc_SignBytes ssc = ss_SignBytes st;
  hi_backed signBytes : gave_share cid signBytes pls →
    ∃ ssc, ssc ∈ H ∧ payload_hrs cid signBytes = Some (ssc_HRSKey ssc)
      ∧ acceptable (ssc_Step ssc) (ssc_SignBytes ssc) signBytes = true
}.
End cluster.

(** The entry that a loaded state is cached with *)
Definition loaded_entry (ss : SignState) : SignStateConsensus :=
  mkSSC (ss_Height ss) (ss_Round ss) (ss_Step ss) (ss_Signature ss) (ss_VoteExtensionSignature ss) (ss_SignBytes ss).

Definition saved_at (loc : nat) (ev : lc_event) : option SignStateConsensus :=
  match ev with
  | EvSaved l ssc => if (l =? loc)%nat then Some ssc else None
  | _ => None
  end.

(** *** A concrete cluster *)

Definition toy_config : Config :=
  mkConfig None "" "threshold" (Some (mkThresholdModeConfig 2 (CosignersFromFlag ["a"; "b"; "c"])
    "" "1s" "1s" false)) [] "" "" 0.

Definition toy_mode : ThresholdModeConfig :=
  mkThresholdModeConfig 2 (CosignersFromFlag ["a"; "b"; "c"]) "" "1s" "1s" false.

(** A process that serves these requests one after the other, from a loaded state *)
Definition toy_process (ss : SignState) (reqs : list CosignerSetNoncesAndSignRequest) : @pool (LCState unit) lc_event reply :=
  pool_exec (mjoin (imap (λ i _, steps i 24) reqs))
    (mkPool (mkLCState {[ "chain" := 0%nat ]} [mkChainState ss ()] toy_nonces (mkDisk empty_fs [])) [] (toy_thread <$> reqs)).

Definition toy_final (pl : @pool (LCState unit) lc_event reply) : SignState :=
  match lc_heap (pl_state pl) !! 0%nat with Some ccs => cs_lastSignState ccs | None => toy_fresh end.

(** Shards 1 and 3 answer one request each; shard 2 answers the first, restarts and answers the second. *)
Definition toy_first : @pool (LCState unit) lc_event reply := toy_process toy_fresh [toy_request 1 9 42].
Definition toy_second : @pool (LCState unit) lc_event reply := toy_process (recovered (toy_final toy_first)) [toy_request 2 10 42].

Definition toy_cosigners (i : Z) : list (@pool (LCState unit) lc_event reply) :=
  if i =? 1 then [toy_first]
  else if i =? 2 then [toy_first; toy_second]
  else [toy_process toy_fresh [toy_request 2 10 42]].

(** ** Lemmas *)

Lemma overlap_size (A B U : gset Z) :
  A ⊆ U → B ⊆ U → (size A + size B ≤ size U + size (A ∩ B))%nat.
Proof.
  intros HA HB.
  assert (size (A ∪ B ∖ A) = size A + size (B ∖ A))%nat as H1 by (apply size_union; set_solver).
  assert (size (B ∖ A) = size B - size (B ∩ A))%nat as H2 by apply size_difference_alt.
  assert (size (A ∪ B ∖ A) ≤ size U)%nat as H3 by (apply subseteq_size; set_solver).
  assert (size (B ∩ A) ≤ size B)%nat as H4 by (apply subseteq_size; set_solver).
  rewrite (intersection_comm_L B A) in *. lia.
Qed.

(** Two quorums share a member that is not faulty. *)
Lemma quorums_meet (A B U F : gset Z) t :
  A ⊆ U → B ⊆ U → t ≤ Z.of_nat (size A) → t ≤ Z.of_nat (size B) →
  Z.of_nat (size F) < 2 * t - Z.of_nat (size U) → ∃ i, i ∈ A ∧ i ∈ B ∧ i ∉ F.
Proof.
  intros HA HB Ht Ht' HF. pose proof (overlap_size A B U HA HB) as Ho.
  destruct (decide (A ∩ B ⊆ F)) as [Hs|Hs].
  - apply subseteq_size in Hs. lia.
  - assert (∃ i, i ∈ A ∩ B ∧ i ∉ F) as (i & Hi & Hf); [|exists i; set_solver].
    destruct (set_choose_or_empty ((A ∩ B) ∖ F)) as [[i Hi]|He]; [exists i; set_solver|].
    exfalso. apply Hs. intros i Hi. destruct (decide (i ∈ F)); [done|]. set_solver.
Qed.

Lemma shard_ids_size tm :
  NoDup (cc_ShardID <$> tm_Cosigners tm) → size (shard_ids tm) = length (tm_Cosigners tm).
Proof. intros H. unfold shard_ids. rewrite size_list_to_set by done. apply length_fmap. Qed.

Lemma elem_of_saved_at loc (log : list lc_event) ssc : ssc ∈ omap (saved_at loc) log ↔ EvSaved loc ssc ∈ log.
Proof.
  rewrite list_elem_of_omap. split.
  - intros (ev & Hin & E). destruct ev; cbn in E; try done. case_match eqn:El; [|done].
    apply Nat.eqb_eq in El as ->. by injection E as <-.
  - intros H. exists (EvSaved loc ssc). split; [done|]. cbn. by rewrite Nat.eqb_refl.
Qed.

Section lives.
Context {S K R : Type} `{TS : !ThresholdSigner S} `{CS : !CosignerSecurity K} `{C : !Codec} `{J : !Json}.
Context (NewThresholdSigner : RuntimeConfig → Z → string → FileSystem → result S goerror).
Context (GenerateNonces : R → Z → Z → result Nonces goerror).

(** A process adds to the saves that its loaded state stands for. *)
Lemma process_history cid ss pl st H :
  (∀ loc, saves_ok loc ss (EvSaved loc <$> H)) → process (K:=K) NewThresholdSigner GenerateNonces cid ss pl st →
  ∃ H', H ⊆ H' ∧ history cid [pl] st H'.
Proof.
  intros Hss (cosigner & s & loc & ccs & ccs' & Hc & Hl & <- & Hrtc & Hl' & <-).
  apply (pool_rtc_log_after _ (EvSaved loc <$> H)) in Hrtc. unfold log_after at 1 in Hrtc. cbn in Hrtc. rewrite app_nil_r in Hrtc.
  assert (chain_inv cid loc s (EvSaved loc <$> H)) as Hinv by (split; [done|]; by exists ccs).
  destruct (pool_sound _ _ _ (backed_stable cid loc) (handler_backed NewThresholdSigner GenerateNonces cosigner cid loc) _ _ _ Hinv Hrtc)
    as [(_ & ccs2 & Hl2 & Hok) HQ]. cbn [log_after pl_state pl_log pl_threads] in *.
  rewrite Hl' in Hl2. injection Hl2 as <-. set (log := (EvSaved loc <$> H) ++ pl_log pl) in *.
  exists (omap (saved_at loc) log). split.
  { intros ssc Hin. apply elem_of_saved_at, elem_of_app. left. by apply list_elem_of_fmap_2. }
  split.
  - intros ssc Hin%elem_of_saved_at. by apply (so_below _ _ _ Hok).
  - intros a b Ha%elem_of_saved_at Hb%elem_of_saved_at. by apply (so_unique _ _ _ Hok).
  - intros ssc Hin%elem_of_saved_at. by apply (so_same _ _ _ Hok).
  - intros signBytes (pl' & i & req & r & ->%list_elem_of_singleton & Hi & Hreq & <-).
    destruct (HQ i _ Hi Hreq) as (ssc & Hin & Hb). exists ssc. split; [by apply elem_of_saved_at|done].
Qed.

(** What a restarted process knows of the saves before: those below its state, and its state for the one at it *)
Lemma restart_history cid (pls : list (@pool (LCState S) lc_event reply)) st H :
  history cid pls st H →
  let H' := filter (λ ssc, ssc_HRSKey ssc ≠ lockedHrsKey st) H ++ [loaded_entry (recovered st)] in
  (∀ loc, saves_ok loc (recovered st) (EvSaved loc <$> H')) ∧
  ∀ ssc, ssc ∈ H → ∃ ssc', ssc' ∈ H' ∧ ssc_HRSKey ssc' = ssc_HRSKey ssc ∧ slice (ssc_SignBytes ssc') = slice (ssc_SignBytes ssc).
Proof.
  intros [Hb Hu Hm _] H'.
  assert (∀ loc ssc, EvSaved loc ssc ∈ EvSaved loc <$> H' ↔ (ssc ∈ H ∧ ssc_HRSKey ssc ≠ lockedHrsKey st) ∨ ssc = loaded_entry (recovered st)) as Hin.
  { intros loc ssc. unfold H'. rewrite list_elem_of_fmap. setoid_rewrite elem_of_app. setoid_rewrite list_elem_of_filter.
    setoid_rewrite list_elem_of_singleton. naive_solver. }
  split.
  - intros loc. split.
    + intros ssc [[Hs _]| ->]%Hin; [by apply Hb|by right].
    + intros a b [[Ha Na]| ->]%Hin [[Hb' Nb]| ->]%Hin E; [by apply Hu| | |done]; [by destruct Na|by destruct Nb].
    + intros _. exists (loaded_entry (recovered st)). split; [apply Hin; by right|done].
    + intros ssc [[_ Hn]| ->]%Hin E; [by destruct Hn|done].
    + intros k e He. cbn in He. apply lookup_singleton_Some in He as [<- <-]. split; [apply Hin; by right|done].
    + intros k Hk. by apply list_elem_of_fmap in Hk as (? & ? & _).
  - intros ssc Hs. destruct (decide (ssc_HRSKey ssc = lockedHrsKey st)) as [E|Hne].
    + exists (loaded_entry (recovered st)). split; [apply elem_of_app; right; by apply list_elem_of_singleton|]. split; [done|].
      cbn. by rewrite omitempty_slice, (Hm ssc Hs E).
    + exists ssc. split; [|done]. apply elem_of_app. left. by apply list_elem_of_filter.
Qed.

Lemma lives_history `{JL : !JsonLaws J} cid pls st :
  lives (K:=K) NewThresholdSigner GenerateNonces cid pls st → ∃ H, history cid pls st H.
Proof.
  induction 1 as [path fs ss fs' pl st Hl Hp|pls st fs0 fs ss fs' pl st' _ [H IH] Hn Hs Hl Hp].
  - destruct (process_history cid ss pl st (map_to_list (ss_cache ss)).*2) as (H & _ & HH); [|done|by exists H].
    intros loc. rewrite <- list_fmap_compose. by eapply LoadOrCreate_saves_ok.
  - rewrite (LoadOrCreate_saved st fs0 fs Hn Hs) in Hl. injection Hl as <- _. destruct (restart_history _ _ _ _ IH) as [Hok Hmap].
    destruct (process_history cid (recovered st) pl st' _ Hok Hp) as (H' & Hsub & [Hb Hu Hm Hk]). exists H'. split; [done..|].
    intros signBytes (pl' & i & req & r & [Hin|Hin%list_elem_of_singleton]%elem_of_app & Hi & Hreq & <-).
    + destruct (hi_backed _ _ _ _ IH (snr_SignBytes req)) as (ssc & Hs1 & Hkey & Hacc); [by exists pl', i, req, r|].
      destruct (Hmap ssc Hs1) as (ssc' & Hs2 & Ek & Eb). exists ssc'. split; [by apply Hsub|]. rewrite Ek. split; [done|].
      assert (ssc_Step ssc' = ssc_Step ssc) as -> by (by injection Ek). by eapply acceptable_slice.
    + subst pl'. apply Hk. exists pl, i, req, r. by rewrite list_elem_of_singleton.
Qed.
End lives.

(** ** Properties *)

(** C1: in a cluster with a validated configuration, two validator signatures for one chain, height, round and step, each
    assembled from the shares of at least [threshold] cosigners, are over the same payload up to its timestamp, as long as fewer
    than [2*threshold - n] cosigners are faulty: with none faulty, this holds for every configuration
    [ValidateThresholdModeConfig] accepts.  A cosigner that is not faulty may restart any number of times; each of its processes loads
    the chain once, before it serves it, and each but the first from a file that holds the last state of the one before. *)
Theorem cluster_no_double_sign
    {S K R : Type} `{TS : !ThresholdSigner S} `{CS : !CosignerSecurity K} `{C : !Codec, !CodecLaws C}
    `{J : !Json, !JsonLaws J} `{!NetParse} NewThresholdSigner (GenerateNonces : R → Z → Z → result Nonces goerror)
    c tm cid (faulty : gset Z) (cosigners : Z → list (@pool (LCState S) lc_event reply)) a b A B hrs :
  ValidateThresholdModeConfig c = Ok () → cfg_ThresholdModeConfig c = Some tm →
  Z.of_nat (size faulty) < 2 * tm_Threshold tm - Z.of_nat (length (tm_Cosigners tm)) →
  (∀ i, i ∈ shard_ids tm → i ∉ faulty →
     ∃ st, lives (K:=K) NewThresholdSigner GenerateNonces cid (cosigners i) st) →
  quorum tm cid faulty cosigners a A → quorum tm cid faulty cosigners b B →
  payload_hrs cid a = Some hrs → payload_hrs cid b = Some hrs →
  same_payload (hrs_Step hrs) (slice a) (slice b).
Proof.
  intros Hv Htm Hf Hlive [HA1 HA2 HA3] [HB1 HB2 HB3] Pa Pb.
  destruct (ValidateThresholdModeConfig_spec c Hv) as (tm' & Htm' & _ & _ & Hn & _).
  rewrite Htm in Htm'. injection Htm' as <-. rewrite <- (shard_ids_size tm Hn) in Hf.
  destruct (quorums_meet A B (shard_ids tm) faulty (tm_Threshold tm)) as (i & Hi1 & Hi2 & Hi3); try done.
  destruct (Hlive i (HA1 i Hi1) Hi3) as [st Hst]. destruct (lives_history _ _ _ _ _ Hst) as [hist [_ Hu _ Hk]].
  destruct (Hk a (HA3 i Hi1 Hi3)) as (x & Hx & Kx & Ax). destruct (Hk b (HB3 i Hi2 Hi3)) as (y & Hy & Ky & Ay).
  assert (x = y) as -> by (apply Hu; congruence). assert (hrs = ssc_HRSKey y) as -> by congruence.
  by eapply acceptable_same_payload.
Qed.

Lemma toy_process_runs ss reqs :
  process (K:=Z) (TS:=toy_signer) (CS:=toy_security) (C:=toy_codec) (J:=toy_json) toy_new_signer toy_generate "chain" ss (toy_process ss reqs)
    (toy_final (toy_process ss reqs)) ∨ lc_heap (pl_state (toy_process ss reqs)) !! 0%nat = None.
Proof.
  unfold toy_final. destruct (lc_heap (pl_state (toy_process ss reqs)) !! 0%nat) as [ccs|] eqn:E; [left|by right].
  exists toy_cosigner, (mkLCState {[ "chain" := 0%nat ]} [mkChainState ss ()] toy_nonces (mkDisk empty_fs [])), 0%nat, (mkChainState ss ()), ccs.
  split; [reflexivity|]. split; [reflexivity|]. split; [reflexivity|]. split; [|by split].
  etransitivity; [|apply pool_exec_rtc]. apply pool_spawn_all. apply Forall_fmap, Forall_true. intros req. apply HSign.
Qed.

Lemma toy_lives i : ∃ st, lives (K:=Z) (TS:=toy_signer) (CS:=toy_security) (C:=toy_codec) (J:=toy_json) toy_new_signer toy_generate "chain"
  (toy_cosigners i) st.
Proof.
  assert (∃ fs', @LoadOrCreateSignState toy_json "/s/chain_share_sign_state.json" empty_fs = Ok (toy_fresh, fs')) as [fs' Hl]
    by (eexists; vm_compute; reflexivity).
  assert (∀ ss reqs, (∃ ccs, lc_heap (pl_state (toy_process ss reqs)) !! 0%nat = Some ccs) →
    process (K:=Z) (TS:=toy_signer) (CS:=toy_security) (C:=toy_codec) (J:=toy_json) toy_new_signer toy_generate "chain" ss (toy_process ss reqs)
      (toy_final (toy_process ss reqs))) as Hp.
  { intros ss reqs [ccs Hc]. destruct (toy_process_runs ss reqs) as [H|H]; [done|congruence]. }
  assert (lives (K:=Z) (TS:=toy_signer) (CS:=toy_security) (C:=toy_codec) (J:=toy_json) toy_new_signer toy_generate "chain" [toy_first]
    (toy_final toy_first)) as H1 by (eapply LivesStart; [exact Hl|]; apply Hp; eexists; vm_compute; reflexivity).
  unfold toy_cosigners. destruct (i =? 1); [by exists (toy_final toy_first)|]. destruct (i =? 2).
  - exists (toy_final toy_second). eapply (LivesRestart _ _ _ [toy_first] _ empty_fs _ (recovered (toy_final toy_first)) _ toy_second);
      [exact H1|vm_compute; discriminate|vm_compute; reflexivity|vm_compute; reflexivity|]. apply Hp. eexists. vm_compute. reflexivity.
  - eexists. eapply LivesStart; [exact Hl|]. apply Hp. eexists. vm_compute. reflexivity.
Qed.

Lemma cluster_no_double_sign_witness :
  @ValidateThresholdModeConfig toy_net toy_config = Ok () ∧
  @same_payload toy_codec 3 [1; 2; 5; 0; 9; 42] [1; 2; 5; 0; 10; 42].
Proof.
  split; [vm_compute; reflexivity|].
  refine (@cluster_no_double_sign unit Z unit toy_signer toy_security toy_codec toy_codec_laws
    toy_json toy_json_laws toy_net toy_new_signer toy_generate toy_config toy_mode "chain" ∅ toy_cosigners
    (snr_SignBytes (toy_request 1 9 42)) (snr_SignBytes (toy_request 2 10 42)) {[1; 2]} {[2; 3]}
    (mkHRSKey 5 0 3) eq_refl eq_refl _ _ _ _ eq_refl eq_refl).
  - vm_compute; reflexivity.
  - intros i _ _. apply toy_lives.
  - split; [by apply (bool_decide_eq_true_1 _)|vm_compute; discriminate|].
    intros i [->%elem_of_singleton| ->%elem_of_singleton]%elem_of_union _;
      exists toy_first, 0%nat, (toy_request 1 9 42); eexists; (split; [by left|]); (split; [vm_compute; reflexivity|done]).
  - split; [by apply (bool_decide_eq_true_1 _)|vm_compute; discriminate|].
    intros i [->%elem_of_singleton| ->%elem_of_singleton]%elem_of_union _.
    + exists toy_second, 0%nat, (toy_request 2 10 42); eexists; (split; [right; by left|]); (split; [vm_compute; reflexivity|done]).
    + exists (toy_process toy_fresh [toy_request 2 10 42]), 0%nat, (toy_request 2 10 42); eexists; (split; [by left|]);
        (split; [vm_compute; reflexivity|done]).
Defined.
