(* ===== verification/LocalNet.v ===== *)
(** * A cluster of local cosigners behind the validator's interface

    [ClusterNet] of ThresholdValidator.v implemented by cosigners of LocalCosigner.v, one
    per shard: a call runs the cosigner's handler on its state.  The transport delivers
    every call, the leader does not change, and UUIDs are counted; with it the validator
    and its cosigners run together. *)

From S2P Require Import Prelude Hrs Errors Comet SignState Config Cosigner NonceCache CosignerHealth Conc LocalCosigner ThresholdValidator SignSafety.
From stdpp Require Import base gmap list strings numbers relations.
From Stdlib Require Import ZArith Lia.

Open Scope list_scope.
Open Scope Z_scope.

(** ** Definitions *)

Record LocalNet (S : Type) := mkLocalNet {
  ln_states : gmap Z (LCState S);
  ln_uuid : nat;
  ln_leader : Z;
  ln_shared : list ChainSignStateConsensus
}.
Arguments mkLocalNet {S} _ _ _ _.
Arguments ln_states {S} _.
Arguments ln_uuid {S} _.
Arguments ln_leader {S} _.
Arguments ln_shared {S} _.

Section local_net.
Context {S K R : Type} `{TS : !ThresholdSigner S} `{CS : !CosignerSecurity K} `{C : !Codec} `{J : !Json}.
Context (NewThresholdSigner : RuntimeConfig → Z → string → FileSystem → result S goerror).
Context (GenerateNonces : R → Z → Z → result Nonces goerror).
Context (verify : gobytes → gobytes → gobytes → bool).
Context (cosigner : Z → LocalCosigner K) (myID : Z) (now : Z) (rnd : Randomness R).

(** Runs a handler of one cosigner; an unknown shard is unavailable. *)
Definition on_cosigner {A} (id : Z) (p : @prog (LCState S) lc_event (result A goerror)) (w : LocalNet S)
    : LocalNet S * result A goerror :=
  match ln_states w !! id with
  | None => (w, Err (StatusError Unavailable "no such cosigner"))
  | Some s =>
      let '(s', _, r) := run (λ _, 0%nat) p s in
      (mkLocalNet (<[id := s']> (ln_states w)) (ln_uuid w) (ln_leader w) (ln_shared w), r)
  end.

(** UUIDs of sixteen bytes, from a counter. *)
Definition count_uuid (n : nat) : UUID := replicate 15 0 ++ [Z.of_nat n].

#[global] Instance local_net : ClusterNet (LocalNet S) := {|
  net_GetNonces id uuids := on_cosigner id (LocalCosigner.GetNonces GenerateNonces (cosigner id) now rnd uuids);
  net_SetNoncesAndSign id req := on_cosigner id (LocalCosigner.SetNoncesAndSign NewThresholdSigner (cosigner id) req);
  net_SignBlock id _ w := (w, Err (StatusError Unavailable "not the leader"));
  net_LoadSignState chainID := on_cosigner myID (LocalCosigner.LoadSignStateIfNecessary NewThresholdSigner (cosigner myID) chainID);
  net_CombineSignatures chainID sigs := on_cosigner myID (LocalCosigner.CombineSignatures chainID sigs);
  net_VerifySignature chainID payload sig w :=
    let '(w', r) := on_cosigner myID (do b <- LocalCosigner.VerifySignature NewThresholdSigner (cosigner myID) verify
                                        chainID payload sig; Ret (Ok b)) w in
    (w', match r with Ok b => b | _ => false end);
  net_IsLeader w := (w, ln_leader w =? myID);
  net_GetLeader w := (w, ln_leader w);
  net_ShareSigned lss w := (mkLocalNet (ln_states w) (ln_uuid w) (ln_leader w) (ln_shared w ++ [lss]), Ok ());
  net_uuids n w := (mkLocalNet (ln_states w) (ln_uuid w + n) (ln_leader w) (ln_shared w), count_uuid <$> seq (ln_uuid w) n)
|}.
End local_net.

(** *** Three cosigners *)

(** A share and the combined signature are the payload itself. *)
Definition echo_signer : ThresholdSigner unit := {|
  ts_PubKey _ := Some [];
  ts_Sign _ _ payload := Ok payload;
  ts_CombineSignatures _ sigs := match sigs with [] => Err (ErrorString "no shares") | p :: _ => Ok (ps_Signature p) end
|}.

Definition echo_verify (_ payload sig : gobytes) : bool := bytes_Equal payload sig.

Definition example_cosigner (id : Z) : LocalCosigner Z := mkLocalCosigner (lc_config toy_cosigner) id "".

Definition example_net : ClusterNet (LocalNet unit) :=
  @local_net unit Z unit echo_signer toy_security toy_codec toy_json toy_new_signer toy_generate echo_verify
    example_cosigner 1 0 (mkRandomness (λ _, ()) (λ _ _, [])).

Definition idle_cosigner : LCState unit := mkLCState ∅ [] ∅ (mkDisk empty_fs []).

(** The leader is shard 1, with a threshold of two of three. *)
Definition example_validator : ThresholdValidator * TVState (LocalNet unit) :=
  NewThresholdValidator (lc_config toy_cosigner) 2 1000000000 3 1 [PeerRemote 2; PeerRemote 3] 0 empty_fs
    (mkLocalNet {[ 1 := idle_cosigner; 2 := idle_cosigner; 3 := idle_cosigner ]} 0 1 []).

Definition example_Sign (block : Block) : @prog (TVState (LocalNet unit)) tv_event (result Signed goerror) :=
  @Sign (LocalNet unit) toy_codec toy_json example_net insertionSort example_validator.1 "chain" block.

(** A precommit with an extension at height 5, and one that differs by its timestamp. *)
Definition example_block (timestamp : Z) (ext : gobytes) : Block :=
  mkBlock 5 0 3 (Some [1; 2; 5; 0; timestamp; 42]) ext timestamp.

(** The choices of the runs: a cosigner answers before the timeout. *)
Definition answering (n : nat) : nat := if (2 <? n)%nat then 1 else 0.

(** The same cluster when every peer answers a request for nonces with none, and the two
    peers answer first. *)
Definition short_net : ClusterNet (LocalNet unit) := {|
  net_GetNonces id uuids w := if id =? 1 then @net_GetNonces _ example_net id uuids w else (w, Ok []);
  net_SetNoncesAndSign := @net_SetNoncesAndSign _ example_net;
  net_SignBlock := @net_SignBlock _ example_net;
  net_LoadSignState := @net_LoadSignState _ example_net;
  net_CombineSignatures := @net_CombineSignatures _ example_net;
  net_VerifySignature := @net_VerifySignature _ example_net;
  net_IsLeader := @net_IsLeader _ example_net;
  net_GetLeader := @net_GetLeader _ example_net;
  net_ShareSigned := @net_ShareSigned _ example_net;
  net_uuids := @net_uuids _ example_net
|}.

Definition peers_first (n : nat) : nat := if (2 <? n)%nat then 2 else 0.

(** ** Theorems *)

(** The leader signs a vote and its extension; asked again with another timestamp it gives
    the same signatures with the timestamp they were made over. *)
Example example_Sign_run :
  let '(s1, _, r1) := run answering (example_Sign (example_block 9 (Some [3; 5; 0; 77]))) example_validator.2 in
  let '(_, _, r2) := run answering (example_Sign (example_block 10 (Some [3; 5; 0; 77]))) s1 in
  r1 = Ok (mkSigned (Some [1; 2; 5; 0; 9; 42]) (Some [3; 5; 0; 77]) 9) ∧ r2 = r1
  ∧ length (ln_shared (tv_world s1)) = 1%nat.
Proof. vm_compute. repeat split. Qed.

(** Peers that answer a request for nonces with an empty list make [Sign] panic: the
    rounds of [getNoncesFallback] are indexed without a check of how many there are. *)
Theorem short_nonces_panic :
  (run peers_first (@Sign (LocalNet unit) toy_codec toy_json short_net insertionSort example_validator.1 "chain"
     (example_block 9 None)) example_validator.2).2 = Panics index_out_of_range.
Proof. vm_compute. reflexivity. Qed.
