(* ===== verification/ValidatorSafety.v ===== *)
(** * What the validator answers

    The handlers of ThresholdValidator.v, any number of them in any interleaving, with raft
    delivering the states other leaders shared, the background loops changing the nonce
    cache and the round-trip times, and queued writes reaching the disk.  Whatever [Sign]
    answers is justified by what happened before ([justified]): the signature was combined
    from the shares of at least threshold cosigners and verified, or it is an existing one
    for the same height, round and step whose payload differs in its timestamp only, given
    back with the timestamp it was made over; a signature of an extension was verified
    against the extension that was asked for. *)

From S2P Require Import Prelude Hrs Errors Comet SignState Config Cosigner NonceCache CosignerHealth Conc LocalCosigner ThresholdValidator SignSafety LocalNet.
From stdpp Require Import base gmap list strings numbers relations.
From Stdlib Require Import ZArith Lia.

Open Scope Z_scope.

(** ** Definitions *)

(** An entry was handed in with its signature, or the signature was verified here. *)
Definition vouched (chainID : string) (e : SignStateConsensus) (log : list tv_event) : Prop :=
  EvGiven chainID e ∈ log ∨ EvVerified chainID (ssc_SignBytes e) (ssc_Signature e) ∈ log.

(** An entry of a chain's cache: under its key, and without a signature or vouched. *)
Definition entry_ok (chainID : string) (log : list tv_event) (k : HRSKey) (e : SignStateConsensus) : Prop :=
  ssc_HRSKey e = k ∧ (ssc_Signature e = None ∨ vouched chainID e log).

Record tv_inv {W} (s : TVState W) (log : list tv_event) : Prop := {
  ti_stored chainID loc : tv_chainState s !! chainID = Some loc → EvStored chainID loc ∈ log;
  ti_unique c c' loc : EvStored c loc ∈ log → EvStored c' loc ∈ log → c = c';
  ti_heap c loc : EvStored c loc ∈ log → (loc < length (tv_heap s))%nat;
  ti_cache c loc css : EvStored c loc ∈ log → tv_heap s !! loc = Some css →
    map_Forall (entry_ok c log) (ss_cache (css_lastSignState css))
}.

(** The signature of an extension is there when, and only when, the request has one that is
    to be signed, and was verified. *)
Definition extension_ok `{Codec} (chainID : string) (block : Block) (sig : gobytes) (log : list tv_event) : Prop :=
  ∃ hrst hasVoteExtensions,
    verifySignPayload chainID (b_SignBytes block) (b_VoteExtensionSignBytes block) = Ok (hrst, hasVoteExtensions) ∧
    if hasVoteExtensions then EvVerified chainID (b_VoteExtensionSignBytes block) sig ∈ log else sig = None.

(** An existing signature, with its timestamp. *)
Definition reused `{Codec} (chainID : string) (block : Block) (sg : Signed) (log : list tv_event) : Prop :=
  ∃ e, vouched chainID e log ∧ ssc_HRSKey e = block_HRSKey block ∧ ssc_Signature e = sg_Signature sg
    ∧ signBytesTimestamp (ssc_Step e) (ssc_SignBytes e) = Ok (sg_Timestamp sg)
    ∧ (b_Step block = stepPropose ∨ acceptable (ssc_Step e) (ssc_SignBytes e) (b_SignBytes block) = true).

(** The cosigner [id] gave the share [sig] for these bytes. *)
Definition gave_part (chainID : string) (signBytes : gobytes) (log : list tv_event) (id : Z) (sig : gobytes) : Prop :=
  ∃ req res, EvShare id req res ∈ log ∧ snr_ChainID req = chainID ∧ snr_SignBytes req = signBytes
    ∧ slice (sp_Signature res) = slice sig.

(** The signature was combined from shares that at least [threshold] cosigners gave for
    these bytes. *)
Definition shared (threshold : Z) (chainID : string) (signBytes sig : gobytes) (log : list tv_event) : Prop :=
  ∃ shares, EvCombined chainID shares sig ∈ log ∧ NoDup (ps_ID <$> shares) ∧ threshold ≤ Z.of_nat (length shares) ∧
    Forall (λ p, gave_part chainID signBytes log (ps_ID p) (ps_Signature p)) shares.

Inductive justified `{Codec} (threshold : Z) (chainID : string) (block : Block) (log : list tv_event) : Signed → Prop :=
| JFresh sg :
    shared threshold chainID (b_SignBytes block) (sg_Signature sg) log →
    EvVerified chainID (b_SignBytes block) (sg_Signature sg) ∈ log →
    extension_ok chainID block (sg_VoteExtensionSignature sg) log →
    sg_Timestamp sg = b_Timestamp block → justified threshold chainID block log sg
| JExisting sg :
    sg_Signature sg ≠ None → reused chainID block sg log →
    extension_ok chainID block (sg_VoteExtensionSignature sg) log → justified threshold chainID block log sg
| JProxied leader r :
    EvProxied leader chainID block r ∈ log →
    justified threshold chainID block log
      (mkSigned (sbp_Signature r) (sbp_VoteExtensionSignature r) (sbp_Timestamp r)).

(** Events that do not store a chain. *)
Definition no_store (ev : list tv_event) : Prop := ∀ c loc, EvStored c loc ∉ ev.

(** The shares that are there were given for the payload. *)
Definition shares_ok (chainID : string) (signBytes : gobytes) (shares : list gobytes) (log : list tv_event) : Prop :=
  ∀ i sig, shares !! i = Some sig → blen sig ≠ 0 → gave_part chainID signBytes log (Z.of_nat i + 1) sig.

(** What a handler returned. *)
Inductive tv_reply : Type :=
| TSign (chainID : string) (block : Block) (r : result Signed goerror)
| TOther.

(** The handlers of a validator process; the background loops change the nonce cache, the
    round-trip times and the rest of the cluster in any way. *)
Inductive tv_handler {W} `{Codec, Json, !ClusterNet W} (sort_Slice : ∀ A, (A → A → bool) → list A → list A)
    (pv : ThresholdValidator) : @prog (TVState W) tv_event tv_reply → Prop :=
| TVSign chainID block : tv_handler sort_Slice pv (do r <- Sign sort_Slice pv chainID block; Ret (TSign chainID block r))
| TVSave chainID ssc : tv_handler sort_Slice pv (do _ <- SaveLastSignedState chainID ssc; Ret TOther)
| TVFlush i : tv_handler sort_Slice pv (do _ <- tv_flush i; Ret TOther)
| TVBackground (f : CosignerNonceCache → CosignerNonceCache) (g : CosignerHealth → CosignerHealth) (h : W → W) :
    tv_handler sort_Slice pv
      (do _ <- atomic (λ s, (tv_set_cache (f (tv_nonceCache s)) (tv_set_health (g (tv_health s))
                               (tv_set_world (h (tv_world s)) s)), ())); Ret TOther).

(** What a [Sign] answered is justified. *)
Definition reply_ok `{Codec} (pv : ThresholdValidator) (r : tv_reply) (log : list tv_event) : Prop :=
  match r with
  | TSign chainID block (Ok sg) => justified (tv_threshold pv) chainID block log sg
  | _ => True
  end.

(** *** A run of the cluster of LocalNet.v *)

Definition example_thread : @prog (TVState (LocalNet unit)) tv_event tv_reply :=
  do r <- example_Sign (example_block 9 (Some [3; 5; 0; 77])); Ret (TSign "chain" (example_block 9 (Some [3; 5; 0; 77])) r).

Definition example_pool : @pool (TVState (LocalNet unit)) tv_event tv_reply :=
  pool_exec (drive 200 answering example_thread example_validator.2) (mkPool example_validator.2 [] [example_thread]).

(** ** Lemmas *)

Lemma log_l (log ev : list tv_event) : log ⊆ log ++ ev.
Proof. intros x Hx. apply elem_of_app. by left. Qed.

Lemma log_r (log ev : list tv_event) : ev ⊆ log ++ ev.
Proof. intros x Hx. apply elem_of_app. by right. Qed.

Lemma vouched_mono c e log log' : log ⊆ log' → vouched c e log → vouched c e log'.
Proof. intros Hs [H|H]; [left|right]; by apply Hs. Qed.

Lemma entry_ok_mono c log log' k e : log ⊆ log' → entry_ok c log k e → entry_ok c log' k e.
Proof. intros Hs [H1 [H2|H2]]; split; try done; [by left|right]. by eapply vouched_mono. Qed.

Lemma extension_ok_mono `{Codec} c b sig log log' : log ⊆ log' → extension_ok c b sig log → extension_ok c b sig log'.
Proof. intros Hs (hrst & ext & H1 & H2). exists hrst, ext. split; [done|]. destruct ext; [by apply Hs|done]. Qed.

Lemma reused_mono `{Codec} c b sg log log' : log ⊆ log' → reused c b sg log → reused c b sg log'.
Proof. intros Hs (e & H1 & H2). exists e. split; [by eapply vouched_mono|done]. Qed.

Lemma gave_part_mono c b log log' id sig : log ⊆ log' → gave_part c b log id sig → gave_part c b log' id sig.
Proof. intros Hs (req & res & H & H'). exists req, res. split; [by apply Hs|done]. Qed.

Lemma shared_mono t c b sig log log' : log ⊆ log' → shared t c b sig log → shared t c b sig log'.
Proof.
  intros Hs (shares & H0 & H1 & H2 & H3). exists shares. split; [by apply Hs|]. do 2 (split; [done|]).
  eapply list.Forall_impl; [exact H3|]. intros p. by apply gave_part_mono.
Qed.

Lemma shares_ok_mono c b shares log log' : log ⊆ log' → shares_ok c b shares log → shares_ok c b shares log'.
Proof. intros Hs H i sig H1 H2. by eapply gave_part_mono, H. Qed.

Lemma justified_mono `{Codec} t c b sg log log' : log ⊆ log' → justified t c b log sg → justified t c b log' sg.
Proof.
  intros Hs [sg' H1 H2 H3 H4|sg' H0 H1 H2|l r H1].
  - apply JFresh; [by eapply shared_mono|by apply Hs|by eapply extension_ok_mono|done].
  - apply JExisting; [done|by eapply reused_mono|by eapply extension_ok_mono].
  - eapply JProxied. by apply Hs.
Qed.

Lemma no_store_nil : no_store [].
Proof. intros c loc. apply not_elem_of_nil. Qed.

Lemma stored_app c loc log ev : no_store ev → EvStored c loc ∈ log ++ ev → EvStored c loc ∈ log.
Proof. intros Hn [H|H]%elem_of_app; [done|]. by destruct (Hn c loc). Qed.

Section safety.
Context {W : Type} `{C : !Codec} `{J : !Json} `{N : !ClusterNet W}.
Context (sort_Slice : ∀ A, (A → A → bool) → list A → list A).
Context (pv : ThresholdValidator).

Local Abbreviation St := (TVState W).
Local Abbreviation P A := (@prog St tv_event A).
Local Abbreviation I := (tv_inv (W:=W)).

(** *** The invariant *)

(** A section that leaves the chains alone. *)
Lemma inv_same (s s' : St) log ev :
  I s log → tv_chainState s' = tv_chainState s → tv_heap s' = tv_heap s → no_store ev → I s' (log ++ ev).
Proof.
  intros [H1 H2 H3 H4] Ec Eh Hn. split.
  - intros c loc. rewrite Ec. intros H. apply elem_of_app. left. by apply H1.
  - intros c c' loc Ha%stored_app Hb%stored_app; [|done..]. by eapply H2.
  - intros c loc H%stored_app; [|done]. rewrite Eh. by eapply H3.
  - intros c loc css H%stored_app; [|done]. rewrite Eh. intros Hl. eapply map_Forall_impl; [by eapply H4|].
    intros k e. apply entry_ok_mono, log_l.
Qed.

(** A section that changes the state of the chain at [loc]; what its cache holds after is
    justified by the log after. *)
Lemma inv_insert (s s' : St) log ev loc css css' :
  I s log → tv_chainState s' = tv_chainState s → tv_heap s' = <[loc := css']> (tv_heap s) → no_store ev →
  tv_heap s !! loc = Some css →
  (∀ c k e, EvStored c loc ∈ log → map_Forall (entry_ok c log) (ss_cache (css_lastSignState css)) →
     ss_cache (css_lastSignState css') !! k = Some e → entry_ok c (log ++ ev) k e) →
  I s' (log ++ ev).
Proof.
  intros [H1 H2 H3 H4] Ec Eh Hn Hloc Hnew. split.
  - intros c l. rewrite Ec. intros H. apply elem_of_app. left. by apply H1.
  - intros c c' l Ha%stored_app Hb%stored_app; [|done..]. by eapply H2.
  - intros c l H%stored_app; [|done]. rewrite Eh, length_insert. by eapply H3.
  - intros c l css1 H%stored_app; [|done]. rewrite Eh.
    intros [(<- & <- & Hlt)|[Hne Hl]]%list_lookup_insert_Some.
    + intros k e He. eapply Hnew; [done| |done]. by eapply H4.
    + eapply map_Forall_impl; [by eapply H4|]. intros k e. apply entry_ok_mono, log_l.
Qed.

(** A chain is stored. *)
Lemma inv_store (s s' : St) log ev chainID css :
  I s log → tv_chainState s' = <[chainID := length (tv_heap s)]> (tv_chainState s) →
  tv_heap s' = tv_heap s ++ [css] → no_store ev →
  map_Forall (entry_ok chainID (EvStored chainID (length (tv_heap s)) :: ev)) (ss_cache (css_lastSignState css)) →
  I s' (log ++ EvStored chainID (length (tv_heap s)) :: ev).
Proof.
  intros [H1 H2 H3 H4] Ec Eh Hn Hnew.
  assert (∀ c l, EvStored c l ∈ log ++ EvStored chainID (length (tv_heap s)) :: ev →
    EvStored c l ∈ log ∨ (c = chainID ∧ l = length (tv_heap s))) as Hin.
  { intros c l [H|H]%elem_of_app; [by left|]. apply list.elem_of_cons in H as [[= -> ->]|H]; [by right|].
    by destruct (Hn c l). }
  split.
  - intros c l. rewrite Ec. intros [[<- <-]|[_ H]]%lookup_insert_Some; apply elem_of_app; [right; by left|left].
    by apply H1.
  - intros c c' l [Ha|[-> ->]]%Hin [Hb|[-> E]]%Hin; try done; [by eapply H2| |].
    + apply H3 in Ha. lia.
    + apply H3 in Hb. lia.
  - intros c l [H|[-> ->]]%Hin; rewrite Eh, length_app; cbn; [apply H3 in H|]; lia.
  - intros c l css1 H. rewrite Eh. intros Hl. destruct (Hin c l H) as [H'|[-> ->]].
    + pose proof (H3 c l H') as Hlt. rewrite lookup_app_l in Hl by done.
      eapply map_Forall_impl; [by eapply H4|]. intros k e. apply entry_ok_mono, log_l.
    + rewrite list_lookup_middle in Hl by done. injection Hl as <-.
      eapply map_Forall_impl; [exact Hnew|]. intros k e. apply entry_ok_mono, log_r.
Qed.

(** *** Sections *)

(** The postcondition that promises nothing. *)
Local Abbreviation anything := (λ _ _, True).

Lemma tv_wp_same {B} (f : St → St * list tv_event * B) known (Q : B → list tv_event → Prop) :
  (∀ s s' ev b, f s = (s', ev, b) →
     tv_chainState s' = tv_chainState s ∧ tv_heap s' = tv_heap s ∧ no_store ev ∧
     ∀ log, known ⊆ log → Q b (log ++ ev)) →
  wp I (atomically f) known Q.
Proof.
  intros H s log s' ev b HI Hk Hf. destruct (H _ _ _ _ Hf) as (E1 & E2 & Hn & HQ). split; [by eapply inv_same|].
  by apply HQ.
Qed.

Lemma tv_wp_atomic_same {B} (f : St → St * B) known (Q : B → list tv_event → Prop) :
  (∀ s s' b, f s = (s', b) → tv_chainState s' = tv_chainState s ∧ tv_heap s' = tv_heap s) →
  (∀ b log, Q b log) → wp I (atomic f) known Q.
Proof.
  intros H HQ. apply (tv_wp_same (λ s, let '(s', b) := f s in (s', [], b))). intros s s' ev b.
  destruct (f s) as [s1 b1] eqn:E. intros [= <- <- <-]. destruct (H _ _ _ E). repeat split; try done.
  apply no_store_nil.
Qed.

Lemma tv_wp_call {B} (f : W → W * B) known (Q : B → list tv_event → Prop) :
  (∀ b log, Q b log) → wp I (call f) known Q.
Proof.
  intros HQ. apply tv_wp_atomic_same; [|done]. intros s s' b. by destruct (f (tv_world s)) as [w b']; intros [= <- <-].
Qed.

Lemma tv_wp_call_logged {B} (f : W → W * B) ev known (Q : B → list tv_event → Prop) :
  (∀ b, no_store (ev b)) → (∀ b log, Q b (log ++ ev b)) → wp I (call_logged f ev) known Q.
Proof.
  intros Hn HQ. apply tv_wp_same. intros s s' ev' b. destruct (f (tv_world s)) as [w b']; intros [= <- <- <-]. auto.
Qed.

Lemma tv_wp_VerifySignature chainID payload sig known :
  wp I (VerifySignature chainID payload sig) known
    (λ b log, b = true → EvVerified chainID payload sig ∈ log).
Proof.
  apply tv_wp_call_logged.
  - intros [|] c loc; [|apply not_elem_of_nil]. intros H%list_elem_of_singleton. discriminate.
  - intros [|] log H; [|discriminate]. apply log_r. by left.
Qed.

Lemma tv_wp_SetNoncesAndSign id req known :
  wp I (SetNoncesAndSign id req) known (λ r log, ∀ res, r = Ok res → EvShare id req res ∈ log).
Proof.
  apply tv_wp_call_logged.
  - intros [res|e|m] c loc; [|apply not_elem_of_nil..]. intros H%list_elem_of_singleton. discriminate.
  - intros r log res ->. apply log_r. by left.
Qed.

Lemma tv_wp_CombineSignatures chainID sigs known :
  wp I (CombineSignatures chainID sigs) known (λ r log, ∀ sig, r = Ok sig → EvCombined chainID sigs sig ∈ log).
Proof.
  apply tv_wp_call_logged.
  - intros [sig|e|m] c loc; [|apply not_elem_of_nil..]. intros H%list_elem_of_singleton. discriminate.
  - intros r log sig ->. apply log_r. by left.
Qed.

(** A pointer that was loaded is that of the chain, and stays so. *)
Lemma tv_wp_mustLoadChainState chainID known :
  wp I (mustLoadChainState (W:=W) chainID) known
    (λ r log, ∀ loc, r = Ok loc → EvStored chainID loc ∈ log).
Proof.
  intros s log s' ev b HI Hk [= <- <- <-]. rewrite app_nil_r. split; [done|].
  destruct (tv_chainState s !! chainID) as [loc|] eqn:E; [|done]. intros loc' [= <-]. by apply (ti_stored _ _ HI).
Qed.

Lemma tv_wp_cache_section chainID loc hrs known :
  EvStored chainID loc ∈ known →
  wp I (cache_section (W:=W) loc hrs) known
    (λ r log, ∀ k e, r = Ok (k, Some e) → entry_ok chainID log hrs e).
Proof.
  intros Hs s log s' ev b HI Hk [= <- <- <-]. rewrite app_nil_r. split; [done|].
  intros k e. unfold deref. destruct (tv_heap s !! loc) as [css|] eqn:E; [|done]. cbn. intros [= <- He].
  eapply (ti_cache _ _ HI); [by apply Hk|done|done].
Qed.

Lemma tv_wp_reading_any {B} (f : St → B) known (Q : B → list tv_event → Prop) :
  (∀ b log, Q b log) → wp I (reading f) known Q.
Proof. intros HQ s log s' ev b HI Hk [= <- <- <-]. rewrite app_nil_r. split; [done|apply HQ]. Qed.

(** The watermark moves to an entry that is vouched for by the events of the section or before. *)
Lemma tv_wp_save_section chainID loc ssc ev known :
  EvStored chainID loc ∈ known → no_store ev → vouched chainID ssc (known ++ ev) →
  wp I (atomically (save_section (W:=W) loc ssc ev)) known anything.
Proof.
  intros Hs Hn Hb s log s' ev' b HI Hk Hf. split; [|done]. unfold save_section, deref in Hf.
  destruct (tv_heap s !! loc) as [css|] eqn:E; [|injection Hf as <- <- <-; by rewrite app_nil_r].
  destruct (Save (css_lastSignState css) ssc true (tv_disk s)) as [[ss' d']| |] eqn:ES;
    [|injection Hf as <- <- <-; by rewrite app_nil_r..].
  injection Hf as <- <- <-. apply Save_async_Ok in ES as [_ ->].
  eapply (inv_insert s _ log ev loc css); try done. intros c k e Hc Hold He. cbn [css_lastSignState] in He.
  assert (c = chainID) as -> by (eapply (ti_unique _ _ HI); [exact Hc|by apply Hk]).
  apply saved_state_lookup in He as [[-> ->]|He].
  - split; [done|]. right. eapply vouched_mono; [|exact Hb]. intros x [Hx|Hx]%elem_of_app; apply elem_of_app; auto.
  - eapply entry_ok_mono; [apply log_l|]. by apply Hold.
Qed.

Lemma tv_wp_initiate_section loc hrs known :
  wp I (atomic (initiate_section (W:=W) loc hrs)) known anything.
Proof.
  intros s log s' ev b HI Hk Hf. split; [|done]. unfold initiate_section, deref in Hf.
  destruct (tv_heap s !! loc) as [css|] eqn:E; [|injection Hf as <- <- <-; by rewrite app_nil_r].
  destruct (Save (css_lastSignStateInitiated css) _ true (tv_disk s)) as [[ss' d']| |];
    [|injection Hf as <- <- <-; by rewrite app_nil_r..].
  injection Hf as <- <- <-. eapply (inv_insert s _ log [] loc css); try done; [apply no_store_nil|].
  intros c k e Hc Hold He. eapply entry_ok_mono; [apply log_l|]. by apply Hold.
Qed.

Lemma tv_wp_notify chainID hrs signBytes known :
  wp I (notifyBlockSignError (W:=W) chainID hrs signBytes) known anything.
Proof.
  eapply wp_seq_try; [apply tv_wp_mustLoadChainState| |done|done]. intros loc l _ _ s log s' ev b HI Hk Hf.
  split; [|done]. unfold notify_section, deref in Hf.
  destruct (tv_heap s !! loc) as [css|] eqn:E; [|injection Hf as <- <- <-; by rewrite app_nil_r].
  injection Hf as <- <- <-. eapply (inv_insert s _ log [] loc css); try done; [apply no_store_nil|].
  intros c k e Hc Hold He. cbn in He. apply lookup_insert_Some in He as [[<- <-]|[_ He]].
  - destruct hrs. by split; [|left].
  - eapply entry_ok_mono; [apply log_l|]. by apply Hold.
Qed.

Lemma tv_wp_fail_block {A} chainID block e known (Q : result A goerror → list tv_event → Prop) :
  (∀ e l, Q (Err e) l) → (∀ m l, Q (Panics m) l) → wp I (fail_block (W:=W) chainID block e) known Q.
Proof. intros H1 H2. eapply wp_seq_try; [apply tv_wp_notify| |done|done]. intros a l _ _. apply H1. Qed.

(** *** Existing signatures *)

(** There is no signature, or one that may be given back. *)
Local Abbreviation reusable chainID block := (λ r log, ∀ sg, r = Ok sg → sg_Signature sg = None ∨ reused chainID block sg log).

Lemma reuse_signature_ok chainID block e sg log :
  entry_ok chainID log (block_HRSKey block) e → reuse_signature block e = Ok sg →
  sg_Signature sg = None ∨ reused chainID block sg log.
Proof.
  intros [Hk [Hn|Hb]]; unfold reuse_signature; destruct (signBytesTimestamp _ _) as [ts| |] eqn:Et; cbn [result_bind];
    try done.
  - intros H. left. revert H. case_match; [by intros [= <-]|]. destruct (ssc_OnlyDifferByTimestamp _ _); try done.
    by intros [= <-].
  - intros H. right. exists e. destruct (_ || _) eqn:E.
    + injection H as <-. repeat split; try done. apply orb_true_iff in E as [E%Z.eqb_eq|E]; [by left|right].
      unfold acceptable. by rewrite E.
    + unfold ssc_OnlyDifferByTimestamp in H.
      destruct (onlyDifferByTimestamp _ _ _) as [[]| |] eqn:Eo; cbn in H; try done. injection H as <-.
      repeat split; try done. right. unfold acceptable. rewrite Eo. by rewrite orb_true_r.
Qed.

Lemma tv_wp_newBeyondBlockError chainID hrs known (Q : result goerror goerror → list tv_event → Prop) :
  (∀ r l, Q r l) → wp I (newBeyondBlockError (W:=W) chainID hrs) known Q.
Proof.
  intros HQ. eapply wp_seq_try; [apply tv_wp_mustLoadChainState| |intros; apply HQ..]. intros loc l _ _.
  by apply tv_wp_reading_any.
Qed.

Lemma tv_wp_compareHRS chainID block hrs known (Q : result unit goerror → list tv_event → Prop) :
  (∀ r l, Q r l) → wp I (compareBlockSignatureAgainstHRS (W:=W) chainID block hrs) known Q.
Proof.
  intros HQ. unfold compareBlockSignatureAgainstHRS. case_match; [|case_bool_decide; apply HQ].
  eapply wp_seq_try; [by apply (tv_wp_newBeyondBlockError _ _ _ anything)|intros; apply HQ..].
Qed.

Lemma tv_wp_compareSSC chainID block e known :
  entry_ok chainID known (block_HRSKey block) e →
  wp I (compareBlockSignatureAgainstSSC (W:=W) chainID block e) known (reusable chainID block).
Proof.
  intros He. eapply wp_seq; [by apply (tv_wp_compareHRS _ _ _ _ anything)|]. intros r l Hl _.
  assert (wp I (Ret (reuse_signature block e) : P _) l (reusable chainID block)) as Hr.
  { intros sg. apply reuse_signature_ok. by eapply entry_ok_mono. }
  destruct r as [u|err|m]; [exact Hr| |done]. destruct (is_SameBlockError err); [exact Hr|done].
Qed.

Lemma tv_wp_getExisting chainID block known :
  wp I (getExistingBlockSignature (W:=W) chainID block) known (reusable chainID block).
Proof.
  eapply wp_seq_try; [apply tv_wp_mustLoadChainState| |done|done]. intros loc l _ Hs. specialize (Hs loc eq_refl).
  eapply wp_seq_try; [by apply (tv_wp_cache_section chainID)| |done|done]. intros [k [e|]] l' Hl' He; cbn [snd].
  - apply tv_wp_compareSSC. by eapply He.
  - eapply wp_seq_try; [by apply (tv_wp_compareHRS _ _ _ _ anything)| |done|done]. intros _ l'' _ _ sg [= <-]. by left.
Qed.

Lemma tv_wp_wait_for_block attempts loc chainID block known :
  EvStored chainID loc ∈ known →
  wp I (wait_for_block (W:=W) attempts loc chainID block) known (reusable chainID block).
Proof.
  revert known. induction attempts as [|n IH]; intros known Hs; cbn [wait_for_block]; [done|].
  eapply wp_seq_try; [by apply (tv_wp_cache_section chainID)| |done|done]. intros [k [e|]] l Hl He; cbn [snd].
  - eapply wp_seq; [apply tv_wp_compareSSC; by eapply He|]. intros [sg|err|m] l' Hl' Hr; [exact Hr| |done].
    case_match; [done|]. apply IH. by apply Hl', Hl.
  - apply IH. by apply Hl.
Qed.

Lemma tv_wp_SaveLastSignedStateInitiated chainID block known :
  wp I (SaveLastSignedStateInitiated (W:=W) pv chainID block) known (reusable chainID block).
Proof.
  eapply wp_seq_try; [apply tv_wp_mustLoadChainState| |done|done]. intros loc l _ Hs. specialize (Hs loc eq_refl).
  eapply wp_seq; [apply tv_wp_initiate_section|]. intros [u|err|m] l1 Hl1 _; [intros sg [= <-]; by left| |done].
  eapply wp_seq; [apply tv_wp_getExisting|]. intros [sg|e|m] l2 Hl2 Hr; [| |done].
  - case_match; [exact Hr|]. case_match; [exact Hr|]. intros sg' [= <-]. by left.
  - case_match.
    + eapply wp_seq_try; [by apply (tv_wp_newBeyondBlockError _ _ _ anything)|done..].
    + case_match; [done|]. apply tv_wp_wait_for_block. by apply Hl2, Hl1.
Qed.

(** *** Loading and nonces *)

Lemma tv_wp_LoadSignStateIfNecessary chainID known :
  wp I (LoadSignStateIfNecessary (W:=W) pv chainID) known anything.
Proof.
  unfold LoadSignStateIfNecessary. destruct (ValidateChainID chainID); [|done|done].
  eapply wp_seq; [by apply (tv_wp_reading_any _ _ anything)|]. intros [|] l _ _; [done|].
  apply (wp_seq_try I _ _ _ (λ r _, ∀ st, r = Ok st → cache_ok st)); [| |done|done].
  - intros s log s' ev b HI Hk Hf. destruct (LoadOrCreateSignState _ _) as [[st fs]| |] eqn:E;
      injection Hf as <- <- <-; rewrite app_nil_r; (split; [|]); try done.
    + rewrite <- (app_nil_r log). eapply inv_same; try done. apply no_store_nil.
    + intros st' [= <-]. by apply LoadOrCreate_ok in E as [? _].
  - intros st l' _ Hok. specialize (Hok st eq_refl). cbv zeta. eapply (wp_seq I _ _ _ anything); [|intros; by apply tv_wp_call].
    intros s log s' ev b HI Hk [= <- <- <-]. split; [|done]. eapply inv_store; try done.
    + intros c loc (? & ? & _)%list_elem_of_fmap. discriminate.
    + intros k e He. cbn [css_lastSignState] in He. split; [by apply (Hok k e)|]. right. left. right.
      apply list_elem_of_fmap. exists e. split; [done|]. apply list_elem_of_fmap. exists (k, e). split; [done|].
      by apply elem_of_map_to_list.
Qed.

Lemma tv_wp_cached_nonces cosigners known (Q : result CosignerUUIDNonces goerror → list tv_event → Prop) :
  (∀ r l, Q r l) → wp I (cached_nonces (W:=W) cosigners) known Q.
Proof.
  intros HQ. apply tv_wp_atomic_same; [|done]. intros s s' b. by destruct (NonceCache.GetNonces _ _); intros [= <- <-].
Qed.

Lemma tv_wp_clear_nonces id known : wp I (clear_nonces (W:=W) pv id) known anything.
Proof. apply tv_wp_atomic_same; [|done]. intros s s' b. by destruct (ClearNonces _ _ _); intros [= <-]. Qed.

Lemma tv_wp_mark_unhealthy id known : wp I (mark_unhealthy (W:=W) id) known anything.
Proof. apply tv_wp_atomic_same; [|done]. by intros s s' b [= <-]. Qed.

Lemma tv_wp_fallback_loop n uuids tasks acc reached known (Q : result CosignersAndNonces goerror → list tv_event → Prop) :
  (∀ r l, Q r l) → wp I (fallback_loop (W:=W) pv n uuids tasks acc reached) known Q.
Proof.
  intros HQ. revert tasks acc reached known.
  induction n as [|n IH]; intros tasks acc reached known; cbn [fallback_loop]; [apply HQ|].
  intros [|j] Hi; [case_match; [intros b _|]; apply HQ|]. destruct (tasks !! j) as [[id|id ns]|]; [| |apply HQ].
  - eapply (wp_seq I _ _ _ anything); [by apply tv_wp_call|]. intros [ns|e|m] l _ _; [apply IH|apply IH|apply HQ].
  - destruct (add_peer_nonces pv id ns acc) as [acc' closed]. apply IH.
Qed.

Lemma tv_wp_getNoncesFallback count known (Q : result CosignersAndNonces goerror → list tv_event → Prop) :
  (∀ r l, Q r l) → wp I (getNoncesFallback (W:=W) pv count) known Q.
Proof.
  intros HQ. eapply (wp_seq I _ _ _ anything); [by apply tv_wp_call|]. intros uuids l _ _. by apply tv_wp_fallback_loop.
Qed.

Lemma tv_wp_voteExtensionNonces known : wp I (voteExtensionNonces (W:=W) sort_Slice pv) known anything.
Proof.
  eapply (wp_seq I _ _ _ anything); [by apply tv_wp_reading_any|]. intros fastest l _ _. cbv beta.
  case_match; [|by apply tv_wp_getNoncesFallback]. destruct (cosigners_for_block _ _ _) as [cs| |]; [|done|done].
  eapply (wp_seq I _ _ _ anything); [by apply tv_wp_cached_nonces|]. intros [v|e|m] l' _ _; [|by apply tv_wp_getNoncesFallback|done].
  eapply (wp_seq I _ _ _ anything); [by apply tv_wp_cached_nonces|]. intros [w|e|m] l'' _ _; [done|by apply tv_wp_getNoncesFallback|done].
Qed.

(** *** Goroutines *)

Lemma tv_wp_ext_worker chainID block stamp b n1 n2 t (l : ExtShares) known :
  wp I (ext_worker (W:=W) chainID block stamp b n1 n2 t l) known
    (λ r _, True ∧ match r.2 with Some t' => True ∧ (0 < 0)%nat | None => (0 ≤ 0)%nat end).
Proof.
  destruct t as [i id]. eapply wp_seq; [apply tv_wp_SetNoncesAndSign|]. intros res l' _ _. cbn.
  repeat case_match; cbn in *; try done; simplify_eq.
Qed.

Lemma tv_wp_signVoteExtension chainID block stamp known :
  wp I (signVoteExtension (W:=W) sort_Slice pv chainID block stamp) known
    (λ r log, ∀ sig, r = Ok sig → EvVerified chainID (b_VoteExtensionSignBytes block) sig ∈ log).
Proof.
  unfold signVoteExtension. destruct (try vote <- _; _) as [b| |]; [|done|done].
  eapply wp_seq; [apply tv_wp_voteExtensionNonces|]. intros [n|e|m] l1 _ _; [|done|done].
  destruct (can_Nonces n) as [|n1 [|n2 ns]]; [done|done|].
  eapply wp_seq.
  { apply (wp_eg_run I _ (λ _, True) (λ _ _, True) (λ _, 0%nat)); [done| | |done|].
    - intros t l k _ _. apply tv_wp_ext_worker.
    - by apply list.Forall_forall.
    - rewrite length_imap. lia. }
  intros res l2 _ (l & -> & _). destruct (es_err l); [|done|done]. cbn [prog_try prog_bind].
  eapply wp_seq; [apply tv_wp_CombineSignatures|]. intros [sig|e|m] l3 _ _; [|done|done].
  eapply wp_seq; [apply tv_wp_VerifySignature|]. intros [|] l4 _ Hv; [|done]. intros sig' [= <-]. by apply Hv.
Qed.

Lemma store_share_ok chainID b id r (l : Shares) log req :
  shares_ok chainID b (sh_Signatures l) log → EvShare id req r ∈ log → snr_ChainID req = chainID →
  snr_SignBytes req = b → shares_ok chainID b (sh_Signatures (store_share id r l)) log.
Proof.
  intros Hs Hin Hc Hb. unfold store_share. case_match eqn:E; [|exact Hs]. cbn [sh_Signatures].
  apply andb_true_iff in E as [E1%Z.ltb_lt E2%Z.leb_le]. intros i sig.
  intros [(<- & <- & _)|[_ Hl]]%list_lookup_insert_Some Hn; [|by eapply Hs].
  exists req, r. replace (Z.of_nat (Z.to_nat (id - 1)) + 1) with id by lia. done.
Qed.

Lemma store_share_next id r l : sh_next (store_share id r l) = sh_next l.
Proof. unfold store_share, shares_fail. by case_match. Qed.

Lemma tv_wp_sign_worker chainID block fastest r id (l : Shares) known :
  shares_ok chainID (b_SignBytes block) (sh_Signatures l) known →
  wp I (sign_worker (W:=W) pv chainID block fastest r id l) known
    (λ x k, shares_ok chainID (b_SignBytes block) (sh_Signatures x.1) k ∧
       match x.2 with
       | Some _ => True ∧ (length fastest - sh_next x.1 < length fastest - sh_next l)%nat
       | None => (length fastest - sh_next x.1 ≤ length fastest - sh_next l)%nat
       end).
Proof.
  intros Hs. assert (∀ k, known ⊆ k → shares_ok chainID (b_SignBytes block) (sh_Signatures l) k) as Hs'.
  { intros k Hk. by eapply shares_ok_mono. }
  eapply wp_seq; [apply tv_wp_SetNoncesAndSign|]. intros [res|e|m] k1 Hk1 Hsh.
  - split; cbn [fst snd]; [|rewrite store_share_next; lia].
    eapply store_share_ok; [by apply Hs'|by apply Hsh|done|done].
  - eapply (wp_seq I _ _ _ anything); [case_match; [apply tv_wp_clear_nonces|done]|]. intros _ k2 Hk2 _. cbv beta.
    case_match; [split; [apply Hs'; by etrans|cbn; lia]|].
    eapply (wp_seq I _ _ _ anything).
    { case_match; [|done]. eapply (wp_seq I _ _ _ anything); [apply tv_wp_mark_unhealthy|]. intros. apply tv_wp_clear_nonces. }
    intros _ k3 Hk3 _. unfold next_cosigner.
    assert (known ⊆ k3) as Hk by (etrans; [exact Hk1|]; etrans; [exact Hk2|exact Hk3]).
    destruct (if r_dontIterateFastestCosigners r then None else fastest !! sh_next l) as [p|] eqn:Ep; cbn.
    + split; [by apply Hs'|]. split; [done|]. destruct (r_dontIterateFastestCosigners r); [done|].
      apply lookup_lt_Some in Ep. lia.
    + split; [by apply Hs'|lia].
  - split; [by apply Hs'|cbn; lia].
Qed.

(** The goroutines end, and leave shares that were given for the payload. *)
Lemma tv_wp_collect_shares chainID block fastest r known :
  wp I (collect_shares (W:=W) pv chainID block fastest r) known
    (λ x k, ∀ l, x = Ok l → shares_ok chainID (b_SignBytes block) (sh_Signatures l) k).
Proof.
  unfold collect_shares. cbv zeta. eapply wp_seq.
  { apply (wp_eg_run I _ (λ _, True) (λ l k, shares_ok chainID (b_SignBytes block) (sh_Signatures l) k)
      (λ l, (length fastest - sh_next l)%nat)).
    - intros l k k'. apply shares_ok_mono.
    - intros t l k _ Hl. by apply tv_wp_sign_worker.
    - by apply list.Forall_forall.
    - intros i sig H. cbn in H. apply lookup_replicate in H as [-> _]. done.
    - done. }
  intros res k _ (l & -> & Hl). destruct (sh_err l); [|by apply tv_wp_fail_block|done]. by intros l' [= <-].
Qed.

(** *** Assembling *)

Lemma share_signatures_spec shares k :
  let f := λ idx s, if blen s =? 0 then None else Some (mkPartialSignature (Z.of_nat (k + idx) + 1) (Some (slice s))) in
  NoDup (ps_ID <$> omap id (imap f shares)) ∧
  Forall (λ p, ∃ i sig, shares !! i = Some sig ∧ blen sig ≠ 0 ∧ ps_ID p = Z.of_nat (k + i) + 1
    ∧ ps_Signature p = Some (slice sig)) (omap id (imap f shares)).
Proof.
  revert k. induction shares as [|s shares IH]; intros k; [by split; constructor|]. cbv zeta. rewrite imap_cons.
  destruct (IH (S k)) as [IH1 IH2].
  assert (imap ((λ idx s, if blen s =? 0 then None else Some (mkPartialSignature (Z.of_nat (k + idx) + 1) (Some (slice s)))) ∘ S) shares
    = imap (λ idx s, if blen s =? 0 then None else Some (mkPartialSignature (Z.of_nat (S k + idx) + 1) (Some (slice s)))) shares) as ->.
  { apply imap_ext. intros i x _. cbn. by rewrite Nat.add_succ_r. }
  assert (Forall (λ p, ∃ i sig, (s :: shares) !! i = Some sig ∧ blen sig ≠ 0 ∧ ps_ID p = Z.of_nat (k + i) + 1
      ∧ ps_Signature p = Some (slice sig))
    (omap id (imap (λ idx s, if blen s =? 0 then None else Some (mkPartialSignature (Z.of_nat (S k + idx) + 1) (Some (slice s)))) shares))) as IH2'.
  { eapply list.Forall_impl; [exact IH2|]. intros p (i & sig & H1 & H2 & H3 & H4). exists (S i), sig.
    do 2 (split; [done|]). split; [rewrite H3; lia|done]. }
  destruct (Z.eqb_spec (blen s) 0) as [Ez|Ez]; cbn [omap list_omap id]; [by split|]. split.
  - cbn [fmap list_fmap ps_ID]. apply list.NoDup_cons. split; [|done].
    intros (p & Hp & Hin)%list_elem_of_fmap. rewrite list.Forall_forall in IH2.
    destruct (IH2 p Hin) as (i & sig & _ & _ & E & _). lia.
  - constructor; [|done]. exists 0%nat, s. by repeat split.
Qed.

Lemma shares_quorum threshold chainID b sig shares log :
  shares_ok chainID b shares log → threshold ≤ Z.of_nat (length (share_signatures shares)) →
  EvCombined chainID (share_signatures shares) sig ∈ log → shared threshold chainID b sig log.
Proof.
  intros Hs Ht Hc. destruct (share_signatures_spec shares 0) as [H1 H2]. cbn [Nat.add] in *.
  exists (share_signatures shares). split; [done|]. split; [exact H1|]. split; [done|].
  eapply list.Forall_impl; [exact H2|]. intros p (i & s & Hi & Hn & -> & ->).
  exact (Hs i s Hi Hn).
Qed.

Lemma tv_wp_assemble chainID block ext payload shares known :
  wp I (assemble (W:=W) pv chainID block ext payload shares) known
    (λ r log, ∀ sig, r = Ok sig → EvVerified chainID payload sig ∈ log
       ∧ EvCombined chainID (share_signatures shares) sig ∈ log
       ∧ tv_threshold pv ≤ Z.of_nat (length (share_signatures shares))).
Proof.
  unfold assemble. cbv zeta. destruct (Z.ltb_spec (Z.of_nat (length (share_signatures shares))) (tv_threshold pv)) as [Ht|Ht];
    [by apply tv_wp_fail_block|].
  eapply wp_seq; [apply tv_wp_CombineSignatures|]. intros [sig|e|m] l _ Hc; [|by apply tv_wp_fail_block|done].
  eapply wp_seq; [apply tv_wp_VerifySignature|]. intros [|] l' Hl Hv; [|by apply tv_wp_fail_block].
  intros sig' [= <-]. split; [by apply Hv|]. split; [by apply Hl, Hc|done].
Qed.

Lemma tv_wp_finish_block chainID block sig ext known :
  EvVerified chainID (b_SignBytes block) sig ∈ known →
  wp I (finish_block (W:=W) chainID block sig ext) known
    (λ r log, ∀ sg, r = Ok sg → sg = mkSigned sig ext (b_Timestamp block)).
Proof.
  intros Hv. unfold finish_block. cbv zeta. eapply wp_seq_try; [apply tv_wp_mustLoadChainState| |done|done].
  intros loc l Hl Hs. specialize (Hs loc eq_refl).
  assert (∀ k, wp (A:=result Signed goerror) I (do _ <- call (net_ShareSigned (mkChainSSC chainID
    (mkSSC (b_Height block) (b_Round block) (b_Step block) sig ext (b_SignBytes block))));
    Ret (Ok (mkSigned sig ext (b_Timestamp block)))) k
    (λ r log, ∀ sg, r = Ok sg → sg = mkSigned sig ext (b_Timestamp block))) as Hshare.
  { intros k. eapply (wp_seq I _ _ _ anything); [by apply tv_wp_call|]. by intros _ l' _ _ sg [= <-]. }
  eapply wp_seq; [apply (tv_wp_save_section chainID); [done|apply no_store_nil|]|].
  { right. apply elem_of_app. left. by apply Hl. }
  intros [u|e|m] l' _ _; [apply Hshare| |done]. case_match; [by apply tv_wp_fail_block|apply Hshare].
Qed.

(** *** [Sign] *)

(** The answer, if it is one, is justified. *)
Local Abbreviation justifies chainID block :=
  (λ r log, ∀ sg, r = Ok sg → justified (tv_threshold pv) chainID block log sg).

Lemma tv_wp_sign_existing chainID block existing known :
  sg_Signature existing ≠ None → reused chainID block existing known →
  wp I (sign_existing (W:=W) sort_Slice pv chainID block existing) known (justifies chainID block).
Proof.
  intros Hn Hr. unfold sign_existing.
  destruct (verifySignPayload _ _ _) as [[hrst ext]| |] eqn:Ev; cbn [map_err]; [|done|done].
  assert (∀ sg k, known ⊆ k → sg_Signature sg = sg_Signature existing → sg_Timestamp sg = sg_Timestamp existing →
    (if ext then EvVerified chainID (b_VoteExtensionSignBytes block) (sg_VoteExtensionSignature sg) ∈ k
     else sg_VoteExtensionSignature sg = None) → justified (tv_threshold pv) chainID block k sg) as Hj.
  { intros sg k Hk E1 E2 He. apply JExisting; [by rewrite E1| |by exists hrst, ext].
    apply (reused_mono _ _ _ _ k Hk) in Hr as (e & Hb & H1 & H2 & H3 & H4). exists e. by rewrite E1, E2. }
  destruct ext; cbn [negb].
  2: { intros sg [= <-]. by apply Hj. }
  eapply wp_seq; [apply tv_wp_VerifySignature|]. intros [|] l1 Hl1 Hv; [intros sg [= <-]; apply Hj; try done; by apply Hv|].
  eapply wp_seq_try; [apply tv_wp_mustLoadChainState| |done|done]. intros loc l2 Hl2 _.
  eapply (wp_seq_try I _ _ _ anything); [by apply tv_wp_reading_any| |done|done]. intros latest l3 Hl3 _.
  case_match; [done|]. eapply wp_seq_try; [apply tv_wp_signVoteExtension| |done|done].
  intros sig l4 Hl4 Hsig sg [= <-]. apply Hj; [|done|done|by apply Hsig].
  etrans; [exact Hl1|]. etrans; [exact Hl2|]. etrans; [exact Hl3|exact Hl4].
Qed.

Lemma tv_wp_ext_nonces_worker u id l known :
  wp I (ext_nonces_worker (W:=W) u id l) known
    (λ r _, True ∧ match r.2 with Some _ => True ∧ (0 < 0)%nat | None => (0 ≤ 0)%nat end).
Proof.
  eapply (wp_seq I _ _ _ anything); [by apply tv_wp_call|]. intros res l' _ _. cbn. repeat case_match; cbn in *; simplify_eq; done.
Qed.

Lemma tv_wp_get_round chainID block ext cosigners known :
  wp I (get_round (W:=W) pv chainID block ext cosigners) known anything.
Proof.
  eapply (wp_seq I _ _ _ anything); [by apply tv_wp_cached_nonces|]. intros [n|e|m] l _ _; [| |done].
  - case_match; [done|]. eapply (wp_seq I _ _ _ anything); [by apply tv_wp_cached_nonces|].
    intros [x|e|m] l' _ _; [done| |done]. eapply (wp_seq I _ _ _ anything); [by apply tv_wp_call|]. intros us l2 _ _.
    eapply wp_seq.
    { apply (wp_eg_run I _ (λ _, True) (λ _ _, True) (λ _, 0%nat)); [done| | |done|lia].
      - intros t x k _ _. apply tv_wp_ext_nonces_worker.
      - by apply list.Forall_forall. }
    intros res l3 _ ([v [[]|e'|m]] & -> & _); [done|by apply tv_wp_fail_block|done].
  - unfold fallback_round. eapply (wp_seq I _ _ _ anything); [by apply tv_wp_getNoncesFallback|].
    intros [res|e'|m] l' _ _; [|by apply tv_wp_fail_block|done]. repeat case_match; done.
Qed.

Lemma tv_wp_sign_new chainID block known :
  wp I (sign_new (W:=W) sort_Slice pv chainID block) known (justifies chainID block).
Proof.
  eapply (wp_seq I _ _ _ anything); [by apply tv_wp_reading_any|]. intros fastest l0 _ _.
  destruct (cosigners_for_block _ _ _) as [cs| |]; [|done|done]. cbn [prog_try prog_bind].
  destruct (verifySignPayload _ _ _) as [[hrst ext]| |] eqn:Ev; [|by apply tv_wp_fail_block|done].
  eapply wp_seq_try; [apply tv_wp_get_round| |done|done]. intros r l1 _ _.
  eapply wp_seq_try; [apply tv_wp_collect_shares| |done|done]. intros shares l2 _ Hs. specialize (Hs shares eq_refl).
  eapply wp_seq_try; [apply tv_wp_assemble| |done|done]. intros sig l3 Hl3 Hsig. destruct (Hsig sig eq_refl) as (Hv & Hc & Ht).
  apply (wp_seq_try I _ _ _ (λ x k, ∀ s, x = Ok s →
    if ext then EvVerified chainID (b_VoteExtensionSignBytes block) s ∈ k else s = None)); [| |done|done].
  { destruct ext; [|by intros s [= <-]]. eapply wp_impl; [|apply tv_wp_assemble]. cbv beta. intros x k H s Es. by apply (H s). }
  intros extSig l4 Hl4 Hext. specialize (Hext extSig eq_refl).
  eapply wp_impl; [|apply wp_grow, tv_wp_finish_block; by apply Hl4]. cbv beta. intros x k [Hx Hk] sg Esg.
  rewrite (Hx sg Esg). apply JFresh; cbn [sg_Signature sg_VoteExtensionSignature sg_Timestamp]; [| | |done].
  - eapply shared_mono; [|eapply shares_quorum; [exact (shares_ok_mono _ _ _ _ _ Hl3 Hs)|exact Ht|exact Hc]]. etrans; [exact Hl4|exact Hk].
  - by apply Hk, Hl4.
  - exists hrst, ext. split; [done|]. destruct ext; [by apply Hk|done].
Qed.

Lemma tv_wp_poll_leader n leader known : wp I (poll_leader (W:=W) n leader) known anything.
Proof.
  revert leader known. induction n as [|n IH]; intros leader known; cbn [poll_leader]; [done|].
  case_match; [|done]. eapply (wp_seq I _ _ _ anything); [by apply tv_wp_call|]. intros l k _ _. apply IH.
Qed.

Lemma tv_wp_proxyIfNecessary chainID block known :
  wp I (proxyIfNecessary (W:=W) pv chainID block) known
    (λ r log, ∀ x, r = Some x → ∀ sg, x = Ok sg → justified (tv_threshold pv) chainID block log sg).
Proof.
  eapply (wp_seq I _ _ _ anything); [by apply tv_wp_call|]. intros [|] l _ _; [done|].
  eapply (wp_seq I _ _ _ anything); [by apply tv_wp_call|]. intros leader l1 _ _.
  eapply (wp_seq I _ _ _ anything); [by apply tv_wp_poll_leader|]. intros leader' l2 _ _. cbv beta.
  case_match; [by intros x [= <-]|]. case_match; [done|].
  destruct (GetByID _ _ _) as [[id|id]|]; [|by intros x [= <-]..].
  apply (wp_seq I _ _ _ (λ r k, ∀ a, r = Ok a → EvProxied id chainID block a ∈ k)).
  - apply tv_wp_call_logged.
    + intros [a|e|m] c loc; [|apply not_elem_of_nil..]. intros H'%list_elem_of_singleton. discriminate.
    + intros r log a ->. apply log_r. by left.
  - intros [a|e|m] k _ Ha x [= <-]; [|done|done]. intros sg [= <-]. eapply JProxied. by apply Ha.
Qed.

Lemma tv_wp_Sign chainID block known :
  wp I (Sign (W:=W) sort_Slice pv chainID block) known (justifies chainID block).
Proof.
  eapply wp_seq_try; [apply tv_wp_LoadSignStateIfNecessary| |done|done]. intros _ l _ _.
  eapply wp_seq; [apply tv_wp_proxyIfNecessary|]. intros [x|] l1 _ Hx; [exact (Hx x eq_refl)|].
  eapply wp_seq; [apply tv_wp_SaveLastSignedStateInitiated|]. intros [sg|e|m] l2 _ Hr; [|done|done].
  destruct (Hr sg eq_refl) as [Hn|Hr'].
  - rewrite Hn. cbn [is_nil negb]. apply tv_wp_sign_new.
  - case_match eqn:En; [|apply tv_wp_sign_new]. apply tv_wp_sign_existing; [|done]. by destruct (sg_Signature sg).
Qed.

Lemma handler_justified p : tv_handler sort_Slice pv p → wp I p [] (reply_ok pv).
Proof.
  intros [chainID block|chainID ssc|i|f g h].
  - eapply wp_seq; [apply tv_wp_Sign|]. intros [sg|e|m] l _ Hj; [by apply Hj|done|done].
  - eapply (wp_seq I _ _ _ anything); [|done]. eapply wp_seq_try; [apply tv_wp_mustLoadChainState| |done|done].
    intros loc l _ Hs. apply (tv_wp_save_section chainID); [by apply Hs| |].
    + intros c loc' H%list_elem_of_singleton. discriminate.
    + left. apply elem_of_app. right. by left.
  - eapply (wp_seq I _ _ _ anything); [|done]. apply tv_wp_atomic_same; [|done]. intros s s' b.
    by destruct (flush_write _ _); intros [= <- <-].
  - eapply (wp_seq I _ _ _ anything); [|done]. apply tv_wp_atomic_same; [|done]. by intros s s' b [= <-].
Qed.

Lemma reply_ok_stable : stable (reply_ok pv).
Proof. intros [c b [sg|e|m]|] l l' Hl; cbn; try done. by apply justified_mono. Qed.
End safety.

(** An iteration of a signing goroutine ends it or uses up a peer. *)
Lemma sign_worker_measure {W} `{C : !Codec, N : !ClusterNet W} pv chainID block fastest r id (l : Shares) known :
  wp (λ (_ : TVState W) _, True) (sign_worker pv chainID block fastest r id l) known
    (λ x _, True ∧ match x.2 with
       | Some _ => True ∧ (length fastest - sh_next x.1 < length fastest - sh_next l)%nat
       | None => (length fastest - sh_next x.1 ≤ length fastest - sh_next l)%nat
       end).
Proof.
  eapply wp_seq; [apply wp_no_invariant|]. intros [res|e|m] k _ _; cbn; [rewrite store_share_next; lia| |lia].
  eapply wp_seq; [apply wp_no_invariant|]. intros _ k1 _ _. case_match; [cbn; lia|].
  eapply wp_seq; [apply wp_no_invariant|]. intros _ k2 _ _. unfold next_cosigner.
  destruct (if r_dontIterateFastestCosigners r then None else fastest !! sh_next l) as [p|] eqn:Ep; cbn; [|lia].
  destruct (r_dontIterateFastestCosigners r); [done|]. apply lookup_lt_Some in Ep. lia.
Qed.

Lemma tv_inv_empty {W} (s : TVState W) : tv_chainState s = ∅ → tv_inv s [].
Proof.
  intros Hs. split; [by intros c loc; rewrite Hs, lookup_empty|..]; intros;
    by match goal with H : _ ∈ [] |- _ => apply not_elem_of_nil in H end.
Qed.

(** ** Theorems *)

(** The signing goroutines of a request end: whatever the cosigners answer and other
    requests do, each call either ends a goroutine or moves on to a peer that was not asked
    yet, so there are no more calls than cosigners for the block and peers left. *)
Theorem sign_goroutines_end {W} `{C : !Codec, N : !ClusterNet W} pv chainID block fastest r (l : Shares) :
  wp (λ (_ : TVState W) _, True)
    (eg_run (sign_worker pv chainID block fastest r)
       (length (r_Cosigners r) + (length fastest - sh_next l)) (r_Cosigners r) l) []
    (λ res _, is_Some res).
Proof.
  eapply wp_impl; [|apply (wp_eg_run _ _ (λ _, True) (λ _ _, True) (λ l, (length fastest - sh_next l)%nat))]; try done.
  - intros res k (l' & -> & _). done.
  - intros id l1 k _ _. by apply sign_worker_measure.
  - by apply list.Forall_forall.
Qed.

(** C3: in every interleaving of a validator process, started with no chain loaded, a
    signature that [Sign] answers with is justified: combined from shares that at least
    threshold different cosigners gave for the bytes of the request and verified over them; or
    an existing signature for the same height, round and step, over a payload that differs
    in its timestamp only unless the request is a proposal, returned with the timestamp of
    that payload; or the answer of the leader.  The signature of a vote extension was
    verified against the extension of the request. *)
Theorem Sign_justified {W} `{C : !Codec, J : !Json, N : !ClusterNet W} sort_Slice pv (s : TVState W)
    (pl : @pool (TVState W) tv_event tv_reply) i chainID block sg :
  tv_chainState s = ∅ → rtc (pool_step (tv_handler sort_Slice pv)) (mkPool s [] []) pl →
  pl_threads pl !! i = Some (Ret (TSign chainID block (Ok sg))) →
  justified (tv_threshold pv) chainID block (pl_log pl) sg.
Proof.
  intros Hs%tv_inv_empty Hr Hi.
  destruct (pool_sound tv_inv (reply_ok pv) _ (reply_ok_stable pv) (handler_justified sort_Slice pv) _ _ _ Hs Hr) as [_ HQ].
  apply (HQ i _ Hi).
Qed.

Lemma Sign_justified_witness :
  @justified toy_codec 2 "chain" (example_block 9 (Some [3; 5; 0; 77])) (pl_log example_pool)
    (mkSigned (Some [1; 2; 5; 0; 9; 42]) (Some [3; 5; 0; 77]) 9).
Proof.
  refine (@Sign_justified (LocalNet unit) toy_codec toy_json example_net insertionSort example_validator.1
    example_validator.2 example_pool 0 "chain" _ _ eq_refl _ _).
  - etransitivity; [|apply pool_exec_rtc]. apply pool_spawn_all. repeat constructor.
  - vm_compute. reflexivity.
Defined.
