(* ===== verification/Rpc.v ===== *)
(** * Calls between cosigners

    A process calls a cosigner of another process through [RemoteCosigner]
    (signer/remote_cosigner.go), which turns the call into a message; the generated client
    and handler (signer/proto/cosigner.pb.go) carry the message; [CosignerGRPCServer]
    (signer/cosigner_grpc_server.go) turns it into a call of the local cosigner or
    validator, behind the interceptor of signer/grpc_recovery.go.

    The connection is a parameter, [Invoke]; what the development relies on is [delivers]:
    the bytes that [Marshal] makes of a request reach the handler, and the bytes of its
    reply, or its error as a status, come back.  The theorems show that a remote call then
    does what the local call does, and which messages of a peer can make a process panic.

    The interceptor recovers panics of the goroutine it runs on.  A panic of a goroutine
    that a handler started ends the process; the theorems on remote calls are about calls
    that do not panic. *)

From S2P Require Import Prelude Hrs Errors Wire Comet SignState Config Cosigner Conc CosignerHealth LocalCosigner ThresholdValidator CosignerProto SignSafety LocalNet.
From stdpp Require Import base gmap list strings numbers.
From Stdlib Require Import ZArith Lia.

Open Scope string_scope.
Open Scope list_scope.
Open Scope Z_scope.

(** ** Definitions *)

Definition uuidLen : Z := 16.

(** [uuid.UUID(b)], the conversion of a slice to an array *)
Definition uuid_UUID (b : gobytes) : result UUID goerror :=
  if blen b <? 16 then
    Panics ("runtime error: cannot convert slice with length " +:+ fmt_d (blen b) +:+ " to array or pointer to array with length 16")
  else Ok (take 16 (slice b)).

Definition bad_uuid_length (b : gobytes) : goerror :=
  ErrorString ("uuid must be " +:+ fmt_d uuidLen +:+ " bytes, got " +:+ fmt_d (blen b)).

(** *** The generated handlers and the interceptor *)

Section unary.
Context {S E : Type}.
Local Abbreviation P A := (@prog S E (result A goerror)).

Definition UnaryServerInterceptor : Type := ∀ Req Resp, Req → (Req → P Resp) → P Resp.

Definition codes_Internal : Z := 13.

Definition recoveryUnaryInterceptor : UnaryServerInterceptor := λ Req Resp req handler,
  do r <- handler req;
  Ret (match r with
       | Panics _ => Err (StatusError codes_Internal "internal error")
       | r => r
       end).

(** The handler of a method, from the method: [dec] reads the request. *)
Definition unary_handler {Req Resp} `{Message Req} (method : Req → P Resp) (dec : Req → result Req goerror)
    (interceptor : option UnaryServerInterceptor) : P Resp :=
  match dec zero with
  | Err e => Ret (Err e)
  | Panics m => Ret (Panics m)
  | Ok req =>
      match interceptor with
      | None => method req
      | Some intercept => intercept Req Resp req method
      end
  end.

(** What is relied on of a connection to a server that serves [method].  The request is
    written by [Marshal] and read by [Unmarshal]; so is the reply, and an error comes back
    as a status. *)
Definition delivers {Req Resp} `{Message Req} `{Message Resp} (decode_error to_status : goerror → goerror)
    (handler : (Req → result Req goerror) → P Resp) (Invoke : Req → P Resp) : Prop :=
  ∀ sched req bs s s' ev r, Marshal req = Ok bs →
    run sched (handler (λ m, map_err decode_error (Unmarshal m bs))) s = (s', ev, r) →
    (∀ resp bs' out, r = Ok resp → Marshal resp = Ok bs' → Unmarshal zero bs' = Ok out →
       run sched (Invoke req) s = (s', ev, Ok out))
    ∧ (∀ e, r = Err e → run sched (Invoke req) s = (s', ev, Err (to_status e))).

End unary.

(** *** The server over a local cosigner *)

Section cosigner_server.
Context {S K R : Type} `{TS : !ThresholdSigner S} `{CS : !CosignerSecurity K} `{C : !Codec} `{J : !Json}.
Context (NewThresholdSigner : RuntimeConfig → Z → string → FileSystem → result S goerror).
Context (GenerateNonces : R → Z → Z → result Nonces goerror).
Context (cosigner : LocalCosigner K).
Local Abbreviation P A := (@prog (LCState S) lc_event (result A goerror)).

(** The request of the cosigner that a message asks for. *)
Definition sign_request (req : protoSetNoncesAndSignRequest) : result CosignerSetNoncesAndSignRequest goerror :=
  if bool_decide (psnq_Hrst req = None) then Err (ErrorString "hrst is required")
  else if negb (blen (psnq_Uuid req) =? uuidLen) then Err (bad_uuid_length (psnq_Uuid req))
  else
    try uuid <- uuid_UUID (psnq_Uuid req);
    let nonces := mkCosignerUUIDNonces uuid (CosignerNoncesFromProto (psnq_Nonces req)) in
    let cosignerReq := mkSetNoncesAndSignRequest (psnq_ChainID req) (HRSTKeyFromProto (psnq_Hrst req)) (Some nonces)
                         (psnq_SignBytes req) in
    if (0 <? blen (psnq_VoteExtSignBytes req)) && (blen (psnq_VoteExtUuid req) =? uuidLen) then
      try veUuid <- uuid_UUID (psnq_VoteExtUuid req);
      Ok (cosignerReq (Some (mkCosignerUUIDNonces veUuid (CosignerNoncesFromProto (psnq_VoteExtNonces req))))
            (psnq_VoteExtSignBytes req))
    else Ok (cosignerReq None None).

(** The message of a response *)
Definition sign_response (res : CosignerSignResponse) : protoSetNoncesAndSignResponse :=
  mkProtoSetNoncesAndSignResponse (UnixNano (sp_Timestamp res)) (sp_NoncePublic res) (sp_Signature res)
    (sp_VoteExtensionNoncePublic res) (sp_VoteExtensionSignature res).

Definition CosignerGRPCServer_SetNoncesAndSign (req : protoSetNoncesAndSignRequest) : P protoSetNoncesAndSignResponse :=
  must cosignerReq <- Ret (sign_request req);
  must res <- LocalCosigner.SetNoncesAndSign NewThresholdSigner cosigner cosignerReq;
  Ret (Ok (sign_response res)).

(** The loop of [GetNonces] over the UUIDs of the request. *)
Fixpoint request_uuids (uuids : list gobytes) : result (list UUID) goerror :=
  match uuids with
  | [] => Ok []
  | b :: l =>
      if negb (blen b =? uuidLen) then Err (bad_uuid_length b)
      else try u <- uuid_UUID b; try us <- request_uuids l; Ok (u :: us)
  end.

Definition CosignerGRPCServer_GetNonces (now : Z) (rnd : Randomness R) (req : protoGetNoncesRequest)
    : P protoGetNoncesResponse :=
  must uuids <- Ret (request_uuids (pgnq_Uuids req));
  must res <- LocalCosigner.GetNonces GenerateNonces cosigner now rnd uuids;
  Ret (Ok (mkProtoGetNoncesResponse (CosignerUUIDNoncesMultiple_toProto res))).

Definition Cosigner_SetNoncesAndSign_Handler := unary_handler CosignerGRPCServer_SetNoncesAndSign.
Definition Cosigner_GetNonces_Handler now rnd := unary_handler (CosignerGRPCServer_GetNonces now rnd).
End cosigner_server.

(** *** The server over a validator *)

Section validator_server.
Context {W : Type} `{C : !Codec} `{J : !Json} `{N : !ClusterNet W}.
Context (sort_Slice : ∀ A, (A → A → bool) → list A → list A).
Context (pv : ThresholdValidator).
Local Abbreviation P A := (@prog (TVState W) tv_event (result A goerror)).

(** The message of a signature: a zero time is left out. *)
Definition block_response (signed : Signed) : protoSignBlockResponse :=
  mkProtoSignBlockResponse (sg_Signature signed) (sg_VoteExtensionSignature signed)
    (if negb (IsZero (sg_Timestamp signed)) then UnixNano (sg_Timestamp signed) else 0).

Definition CosignerGRPCServer_SignBlock (req : protoSignBlockRequest) : P protoSignBlockResponse :=
  match psbq_Block req with
  | None => Ret (Err (ErrorString "block is required"))
  | Some block =>
      must signed <- ThresholdValidator.Sign sort_Slice pv (psbq_ChainID req) (BlockFromProto block);
      Ret (Ok (block_response signed))
  end.

Definition Cosigner_SignBlock_Handler := unary_handler CosignerGRPCServer_SignBlock.
End validator_server.

(** *** The client *)

Section client.
Context {S E : Type}.
Local Abbreviation P A := (@prog S E (result A goerror)).

(** [us[i] = make([]byte, 16); copy(us[i], u[:])] *)
Definition uuid_bytes (u : UUID) : gobytes := Some u.

(** The loop of [RemoteCosigner.GetNonces] over the response. *)
Fixpoint response_nonces (id : Z) (l : list protoUUIDNonce) : result (list CosignerUUIDNonces) goerror :=
  match l with
  | [] => Ok []
  | n :: l' =>
      if negb (blen (pun_Uuid n) =? uuidLen) then
        Err (ErrorString ("nonce uuid from cosigner " +:+ fmt_d id +:+ " must be " +:+ fmt_d uuidLen +:+ " bytes, got "
               +:+ fmt_d (blen (pun_Uuid n))))
      else
        try u <- uuid_UUID (pun_Uuid n);
        try rest <- response_nonces id l';
        Ok (mkCosignerUUIDNonces u (CosignerNoncesFromProto (pun_Nonces n)) :: rest)
  end.

Definition RemoteCosigner_GetNonces (Invoke : protoGetNoncesRequest → P protoGetNoncesResponse) (id : Z) (uuids : list UUID)
    : P (list CosignerUUIDNonces) :=
  must res <- Invoke (mkProtoGetNoncesRequest (uuid_bytes <$> uuids));
  Ret (response_nonces id (pgnp_Nonces res)).

(** The message of a request; the nonces are a pointer the code follows. *)
Definition sign_message (req : CosignerSetNoncesAndSignRequest) : result protoSetNoncesAndSignRequest goerror :=
  match snr_Nonces req with
  | None => Panics nil_dereference
  | Some nonces =>
      let cosignerReq := mkProtoSetNoncesAndSignRequest (Some (un_UUID nonces)) (CosignerNonces_toProto (un_Nonces nonces))
                           (Some (hrst_toProto (snr_HRST req))) (snr_SignBytes req) in
      match snr_VoteExtensionNonces req with
      | Some ve =>
          if 0 <? blen (snr_VoteExtensionSignBytes req) then
            Ok (cosignerReq (Some (un_UUID ve)) (CosignerNonces_toProto (un_Nonces ve)) (snr_VoteExtensionSignBytes req)
                  (snr_ChainID req))
          else Ok (cosignerReq None [] None (snr_ChainID req))
      | None => Ok (cosignerReq None [] None (snr_ChainID req))
      end
  end.

(** The response of a message *)
Definition receive_sign_response (res : protoSetNoncesAndSignResponse) : CosignerSignResponse :=
  mkCosignerSignResponse (psnp_Timestamp res) (psnp_NoncePublic res) (psnp_Signature res) (psnp_VoteExtNoncePublic res)
    (psnp_VoteExtSignature res).

Definition RemoteCosigner_SetNoncesAndSign (Invoke : protoSetNoncesAndSignRequest → P protoSetNoncesAndSignResponse)
    (req : CosignerSetNoncesAndSignRequest) : P CosignerSignResponse :=
  must cosignerReq <- Ret (sign_message req);
  must res <- Invoke cosignerReq;
  Ret (Ok (receive_sign_response res)).

Definition RemoteCosigner_Sign (Invoke : protoSignBlockRequest → P protoSignBlockResponse) (req : CosignerSignBlockRequest)
    : P CosignerSignBlockResponse :=
  must res <- Invoke (mkProtoSignBlockRequest (sbr_ChainID req) (Some (block_ToProto (sbr_Block req))));
  let timestamp := if negb (psbp_Timestamp res =? 0) then psbp_Timestamp res else b_Timestamp (sbr_Block req) in
  Ret (Ok (mkCosignerSignBlockResponse (psbp_Signature res) (psbp_VoteExtSignature res) timestamp)).

End client.

(** *** Specifications *)

(** What comes of a nonce: an int32 is sent of an ID, and nothing of an empty slice. *)
Definition wire_nonce (n : CosignerNonce) : CosignerNonce :=
  mkCosignerNonce (i32 (cn_SourceID n)) (i32 (cn_DestinationID n)) (received (cn_PubKey n)) (received (cn_Share n))
    (received (cn_Signature n)).

Definition wire_nonces (n : CosignerUUIDNonces) : CosignerUUIDNonces :=
  mkCosignerUUIDNonces (un_UUID n) (wire_nonce <$> un_Nonces n).

(** An extension is asked for with its bytes and its nonces, or not at all. *)
Definition asks_extension (req : CosignerSetNoncesAndSignRequest) : bool :=
  (0 <? blen (snr_VoteExtensionSignBytes req)) && bool_decide (is_Some (snr_VoteExtensionNonces req)).

Definition wire_request (req : CosignerSetNoncesAndSignRequest) : CosignerSetNoncesAndSignRequest :=
  mkSetNoncesAndSignRequest (snr_ChainID req) (snr_HRST req) (wire_nonces <$> snr_Nonces req) (received (snr_SignBytes req))
    (if asks_extension req then wire_nonces <$> snr_VoteExtensionNonces req else None)
    (if asks_extension req then snr_VoteExtensionSignBytes req else None).

Definition wire_response (res : CosignerSignResponse) : CosignerSignResponse :=
  mkCosignerSignResponse (UnixNano (sp_Timestamp res)) (received (sp_NoncePublic res)) (received (sp_Signature res))
    (received (sp_VoteExtensionNoncePublic res)) (received (sp_VoteExtensionSignature res)).

(** The epoch and the zero time are both sent as no timestamp. *)
Definition wire_block (b : Block) : Block :=
  mkBlock (b_Height b) (b_Round b) (b_Step b) (received (b_SignBytes b)) (received (b_VoteExtensionSignBytes b))
    (if b_Timestamp b =? 0 then zero_time else b_Timestamp b).

(** A signature keeps the timestamp it was made over, or that of the request when none was
    sent. *)
Definition wire_signed (b : Block) (signed : Signed) : CosignerSignBlockResponse :=
  mkCosignerSignBlockResponse (received (sg_Signature signed)) (received (sg_VoteExtensionSignature signed))
    (if IsZero (sg_Timestamp signed) || (UnixNano (sg_Timestamp signed) =? 0) then b_Timestamp b
     else UnixNano (sg_Timestamp signed)).

Definition wire_result {A B} (to_status : goerror → goerror) (f : A → B) (r : result A goerror) : result B goerror :=
  match r with
  | Ok a => Ok (f a)
  | Err e => Err (to_status e)
  | Panics m => Panics m
  end.

(** A UUID is an array of sixteen bytes, and the fields of a key are of their types. *)
Definition uuid_fits (u : UUID) : Prop := length u = 16%nat.

Definition key_fits (hrst : HRSTKey) : Prop :=
  in_sint 64 (hrst_Height hrst) ∧ in_sint 64 (hrst_Round hrst) ∧ in_sint 8 (hrst_Step hrst) ∧ in_sint 64 (hrst_Timestamp hrst).

Definition request_fits (req : CosignerSetNoncesAndSignRequest) : Prop :=
  key_fits (snr_HRST req) ∧ (∃ n, snr_Nonces req = Some n ∧ uuid_fits (un_UUID n))
  ∧ (∀ n, snr_VoteExtensionNonces req = Some n → uuid_fits (un_UUID n))
  ∧ ∀ m, sign_message req = Ok m → Z.of_nat (length (SetNoncesAndSignRequest_encoding m)) < 2 ^ 63.

(** A connection within one process *)
Definition loopback {S E Req Resp} `{Message Req} `{Message Resp} (decode_error to_status : goerror → goerror)
    (handler : (Req → result Req goerror) → @prog S E (result Resp goerror)) (req : Req)
    : @prog S E (result Resp goerror) :=
  must bs <- Ret (Marshal req);
  do r <- handler (λ m, map_err decode_error (Unmarshal m bs));
  Ret (match r with
       | Ok resp => try bs' <- Marshal resp; Unmarshal zero bs'
       | Err e => Err (to_status e)
       | Panics m => Panics m
       end).

(** *** Examples *)

Section example.
#[local] Existing Instance echo_signer.
#[local] Existing Instance toy_security.
#[local] Existing Instance toy_codec.
#[local] Existing Instance toy_json.
#[local] Existing Instance example_net.

Definition example_rnd : Randomness unit := mkRandomness (λ _, ()) (λ _ _, []).

Definition example_sign_handler dec :=
  Cosigner_SetNoncesAndSign_Handler toy_new_signer (example_cosigner 2) dec (Some recoveryUnaryInterceptor).

Definition example_nonces_handler dec : @prog (LCState unit) lc_event (result protoGetNoncesResponse goerror) :=
  Cosigner_GetNonces_Handler toy_generate (example_cosigner 2) 0 example_rnd dec (Some recoveryUnaryInterceptor).

Definition example_block_handler dec :=
  Cosigner_SignBlock_Handler insertionSort example_validator.1 dec (Some recoveryUnaryInterceptor).

(** A nonce round of a cosigner, and a request to the second with the nonces of the first *)
Definition example_nonces (id : Z) : LCState unit * list lc_event * result (list CosignerUUIDNonces) goerror :=
  run (λ _, 0%nat) (LocalCosigner.GetNonces toy_generate (example_cosigner id) 0 example_rnd [count_uuid 0]) idle_cosigner.

Definition example_request : CosignerSetNoncesAndSignRequest :=
  mkSetNoncesAndSignRequest "chain" (mkHRSTKey 5 0 3 9)
    (match (example_nonces 1).2 with Ok [n] => Some (For n 2) | _ => None end) (Some [1; 2; 5; 0; 9; 42]) None None.

Definition example_signed : LCState unit * list lc_event * result CosignerSignResponse goerror :=
  run (λ _, 0%nat) (LocalCosigner.SetNoncesAndSign toy_new_signer (example_cosigner 2) (wire_request example_request))
    (example_nonces 2).1.1.

Definition example_block_signed : TVState (LocalNet unit) * list tv_event * result Signed goerror :=
  run answering (example_Sign (wire_block (example_block 9 (Some [3; 5; 0; 77])))) example_validator.2.
End example.

(** ** Lemmas *)

Section run_lemmas.
Context {S E : Type} (sched : nat → nat).

Lemma run_recovery {Req Resp} (req : Req) (handler : Req → @prog S E (result Resp goerror)) s s' ev r :
  run sched (handler req) s = (s', ev, r) → (∀ m, r ≠ Panics m) →
  run sched (recoveryUnaryInterceptor Req Resp req handler) s = (s', ev, r).
Proof.
  intros Hr Hm. unfold recoveryUnaryInterceptor. rewrite run_bind_eq, Hr. cbn. rewrite app_nil_r. destruct r; [done|done|].
  by destruct (Hm msg).
Qed.

(** A call over a connection that delivers does what the method does with what comes of the
    request. *)
Lemma run_Invoke {Req Resp} `{MessageSpec Req} `{MessageSpec Resp} decode_error to_status
    (method : Req → @prog S E (result Resp goerror)) Invoke req s s' ev r :
  delivers decode_error to_status (λ dec, unary_handler method dec (Some recoveryUnaryInterceptor)) Invoke →
  fits req → Z.of_nat (length (encoding req)) < 2 ^ 63 →
  run sched (method (decoded req)) s = (s', ev, r) → (∀ m, r ≠ Panics m) →
  (∀ resp, r = Ok resp → fits resp ∧ Z.of_nat (length (encoding resp)) < 2 ^ 63) →
  run sched (Invoke req) s = (s', ev, wire_result to_status decoded r).
Proof.
  intros Hd Hf Hl Hr Hm Hresp. destruct (encodes_roundtrips _ _ _ encoding_ok req Hf Hl) as (Hq & _ & Uq).
  destruct (Hd sched req (encoding req) s s' ev r Hq) as [Hok Herr].
  { unfold unary_handler. rewrite Uq. cbn [map_err]. by apply run_recovery. }
  destruct r as [resp|e|m]; [|by apply Herr|by destruct (Hm m)]. destruct (Hresp resp eq_refl) as [Hrf Hrl].
  destruct (encodes_roundtrips _ _ _ encoding_ok resp Hrf Hrl) as (Hp & _ & Up). by eapply Hok.
Qed.
End run_lemmas.

(** *** Conversions *)

Lemma uuid_length u : uuid_fits u → blen (Some u) = 16.
Proof. unfold blen, uuid_fits. cbn. intros ->. done. Qed.

Lemma uuid_received u : uuid_fits u → received (Some u) = Some u.
Proof. unfold received, uuid_fits. by destruct u. Qed.

Lemma uuid_converts u : uuid_fits u → uuid_UUID (Some u) = Ok u.
Proof.
  intros Hu. unfold uuid_UUID. rewrite uuid_length by done. cbn. f_equal. apply take_ge. unfold uuid_fits in Hu. lia.
Qed.

(** A slice of sixteen bytes converts. *)
Lemma uuid_UUID_ok b : blen b = uuidLen → uuid_UUID b = Ok (slice b).
Proof.
  unfold uuid_UUID, uuidLen. intros H. rewrite H. cbn. f_equal. apply take_ge. unfold blen in H. lia.
Qed.

Lemma blen_received b : blen (received b) = blen b.
Proof. unfold blen, received. by destruct (slice b). Qed.

Lemma received_nonempty b : 0 < blen b → received b = b.
Proof. unfold blen, received. destruct b as [[|x bs]|]; cbn; [lia|done|lia]. Qed.

Lemma nonces_fit l : Forall Nonce_fits (CosignerNonces_toProto l).
Proof.
  unfold CosignerNonces_toProto. apply list.Forall_forall. intros n Hn. apply list_elem_of_fmap in Hn as (c & -> & _).
  split; apply sint_range; lia.
Qed.

Lemma nonces_received l :
  CosignerNoncesFromProto (Nonce_decoded <$> CosignerNonces_toProto l) = wire_nonce <$> l.
Proof. unfold CosignerNoncesFromProto, CosignerNonces_toProto. rewrite <- !list_fmap_compose. done. Qed.

Lemma key_received h : key_fits h → HRST_fits (hrst_toProto h) ∧ HRSTKeyFromProto (Some (hrst_toProto h)) = h.
Proof.
  intros (Hh & Hr & Hs & Ht). split; [|apply HRST_proto_roundtrip; done].
  split; [done|]. split; [done|]. split; [|done]. cbn. apply sint_range. lia.
Qed.

Lemma sign_message_fits req m :
  key_fits (snr_HRST req) → sign_message req = Ok m → SetNoncesAndSignRequest_fits m.
Proof.
  intros Hk. unfold sign_message. destruct (snr_Nonces req) as [n|]; [|done].
  assert (∀ h, Some (hrst_toProto (snr_HRST req)) = Some h → HRST_fits h) as Hh by (intros h [= <-]; by apply key_received).
  destruct (snr_VoteExtensionNonces req) as [ve|]; [destruct (_ <? _)|]; intros [= <-];
    (split; [apply nonces_fit|]; split; [done|]); [apply nonces_fit|constructor..].
Qed.

(** The request that the server makes of the message of a request *)
Lemma sign_request_message req m :
  request_fits req → sign_message req = Ok m →
  sign_request (SetNoncesAndSignRequest_decoded m) = Ok (wire_request req).
Proof.
  intros (Hk & (n & Hn & Hu) & Hve & _) Hm. unfold sign_message in Hm. rewrite Hn in Hm.
  destruct (key_received _ Hk) as [_ Hkr]. unfold wire_request, asks_extension. rewrite Hn.
  destruct (snr_VoteExtensionNonces req) as [ve|] eqn:Ev; [destruct (Z.ltb_spec 0 (blen (snr_VoteExtensionSignBytes req)))|];
    injection Hm as <-; unfold sign_request; cbn [SetNoncesAndSignRequest_decoded psnq_Hrst psnq_Uuid psnq_Nonces psnq_ChainID
      psnq_SignBytes psnq_VoteExtSignBytes psnq_VoteExtUuid psnq_VoteExtNonces];
    rewrite bool_decide_eq_false_2 by done; rewrite uuid_received, uuid_length, uuid_converts, Hkr, nonces_received by done;
    cbn [negb Z.eqb uuidLen Pos.eqb result_bind].
  - specialize (Hve ve eq_refl). rewrite blen_received, (proj2 (Z.ltb_lt _ _)) by done.
    rewrite uuid_received, uuid_length, uuid_converts, nonces_received, (received_nonempty (snr_VoteExtensionSignBytes req)) by done.
    rewrite bool_decide_eq_true_2 by done. done.
  - rewrite andb_false_l. done.
  - rewrite (bool_decide_eq_false_2 (is_Some None)), !andb_false_r by (by intros [? ?]). done.
Qed.

(** *** Calls of a cosigner *)

Section cosigner_calls.
Context {S K R : Type} `{TS : !ThresholdSigner S} `{CS : !CosignerSecurity K} `{C : !Codec} `{J : !Json}.
Context (NewThresholdSigner : RuntimeConfig → Z → string → FileSystem → result S goerror).
Context (GenerateNonces : R → Z → Z → result Nonces goerror).
Context (cosigner : LocalCosigner K) (decode_error to_status : goerror → goerror) (sched : nat → nat).

(** C26: a call of a cosigner over a connection that delivers does what the cosigner does when
    it is called directly.  RemoteCosigner.SetNoncesAndSign leaves the cosigner in the state,
    with the events and with the answer that LocalCosigner.SetNoncesAndSign leaves, for the
    same chain, key and UUIDs, with empty byte slices turned to nil and an extension passed
    only with both its bytes and its nonces; an error comes back as a status. *)
Theorem remote_SetNoncesAndSign Invoke req s s' ev r :
  delivers decode_error to_status
    (λ dec, Cosigner_SetNoncesAndSign_Handler NewThresholdSigner cosigner dec (Some recoveryUnaryInterceptor)) Invoke →
  request_fits req →
  run sched (LocalCosigner.SetNoncesAndSign NewThresholdSigner cosigner (wire_request req)) s = (s', ev, r) →
  (∀ m, r ≠ Panics m) →
  (∀ res, r = Ok res → Z.of_nat (length (SetNoncesAndSignResponse_encoding (sign_response res))) < 2 ^ 63) →
  run sched (RemoteCosigner_SetNoncesAndSign Invoke req) s = (s', ev, wire_result to_status wire_response r).
Proof.
  intros Hd Hf Hr Hm Hl. pose proof Hf as (Hk & (n & Hn & Hu) & _ & Hlen).
  destruct (sign_message req) as [m|e|p] eqn:Em; [|unfold sign_message in Em; rewrite Hn in Em; by repeat case_match..].
  unfold RemoteCosigner_SetNoncesAndSign. rewrite Em. cbn [prog_try prog_bind].
  change (do r0 <- Invoke m; _) with (must res <- Invoke m; Ret (Ok (receive_sign_response res))).
  rewrite run_map, (run_Invoke sched decode_error to_status _ Invoke m s s' ev
    (result_bind r (λ res, Ok (sign_response res))) Hd).
  - by destruct r.
  - by eapply sign_message_fits.
  - by apply Hlen.
  - unfold CosignerGRPCServer_SetNoncesAndSign. change (decoded m) with (SetNoncesAndSignRequest_decoded m).
    rewrite (sign_request_message req m) by done.
    cbn [prog_try prog_bind]. rewrite run_map, Hr. done.
  - intros p. destruct r; [done|done|]. by destruct (Hm msg).
  - intros resp E. destruct r as [res| |]; [|done|done]. injection E as <-. split; [|by apply Hl].
    apply sint_range. lia.
Qed.

Lemma GetNonces_all_uuids now rnd total uuids : ∀ j,
  returns (λ r, ∀ l, r = Ok l → un_UUID <$> l = uuids)
    (GetNonces_all (S:=S) GenerateNonces cosigner now rnd total j uuids).
Proof.
  induction uuids as [|u us IH]; intros j; cbn [GetNonces_all]; [by intros l [= <-]|].
  eapply returns_bind.
  - apply (returns_par _ _ (λ r, ∀ n, r = Ok n → un_UUID n = u)); [|apply IH].
    eapply returns_bind; [apply returns_all|]. intros [meta|e|m] _; [|done|done]. intros n.
    destruct (getNonces_for _ _ _ _); [|done|done]. by intros [= <-].
  - intros [[n| |] [ns| |]] [Hn Hns]; cbn in *; try done. intros l [= <-]. cbn. by rewrite (Hn n), (Hns ns).
Qed.

Lemma GetNonces_uuids now rnd uuids (s : LCState S) s' ev l :
  run sched (LocalCosigner.GetNonces GenerateNonces cosigner now rnd uuids) s = (s', ev, Ok l) → un_UUID <$> l = uuids.
Proof.
  unfold LocalCosigner.GetNonces. destruct (thresholdModeConfig cosigner); [|done|done].
  intros Hr. by apply (returns_run _ _ _ _ _ _ _ (GetNonces_all_uuids _ _ _ _ _) Hr).
Qed.

Lemma request_uuids_sent uuids :
  Forall uuid_fits uuids → request_uuids (bytes_copy <$> (uuid_bytes <$> uuids)) = Ok uuids.
Proof.
  induction 1 as [|u us Hu _ IH]; [done|]. cbn [fmap list_fmap request_uuids]. unfold bytes_copy at 1 2, uuid_bytes at 1 2.
  cbn [slice default]. rewrite uuid_length by done. cbn [uuidLen negb Z.eqb Pos.eqb].
  unfold bytes_copy at 1, uuid_bytes at 1. cbn [slice default]. rewrite uuid_converts by done. cbn [result_bind].
  change (list_fmap _ _ bytes_copy ?x) with (bytes_copy <$> x). by rewrite IH.
Qed.

Lemma response_nonces_sent id l :
  Forall uuid_fits (un_UUID <$> l) →
  response_nonces id (UUIDNonce_decoded <$> CosignerUUIDNoncesMultiple_toProto l) = Ok (wire_nonces <$> l).
Proof.
  intros Hf. apply Forall_fmap in Hf. induction l as [|n l' IH]; [done|]. apply list.Forall_cons in Hf as [Hu Hf]. specialize (IH Hf).
  unfold CosignerUUIDNoncesMultiple_toProto in *. cbn [fmap list_fmap response_nonces UUIDNonce_decoded pun_Uuid pun_Nonces] in *.
  rewrite uuid_received, uuid_length, uuid_converts by done. cbn [uuidLen negb Z.eqb Pos.eqb result_bind].
  rewrite IH. cbn [result_bind]. by rewrite nonces_received.
Qed.

(** A call for nonces over a connection that delivers draws the nonces of the cosigner that
    is called: RemoteCosigner.GetNonces returns the rounds that LocalCosigner.GetNonces
    returns, under the UUIDs asked for and in their order. *)
Theorem remote_GetNonces now rnd id Invoke uuids (s : LCState S) s' ev r :
  delivers decode_error to_status
    (λ dec, Cosigner_GetNonces_Handler GenerateNonces cosigner now rnd dec (Some recoveryUnaryInterceptor)) Invoke →
  Forall uuid_fits uuids →
  Z.of_nat (length (GetNoncesRequest_encoding (mkProtoGetNoncesRequest (uuid_bytes <$> uuids)))) < 2 ^ 63 →
  run sched (LocalCosigner.GetNonces GenerateNonces cosigner now rnd uuids) s = (s', ev, r) →
  (∀ m, r ≠ Panics m) →
  (∀ l, r = Ok l → Z.of_nat (length (GetNoncesResponse_encoding
     (mkProtoGetNoncesResponse (CosignerUUIDNoncesMultiple_toProto l)))) < 2 ^ 63) →
  run sched (RemoteCosigner_GetNonces Invoke id uuids) s = (s', ev, wire_result to_status (fmap wire_nonces) r).
Proof.
  intros Hd Hu Hq Hr Hm Hl. unfold RemoteCosigner_GetNonces.
  set (toProto l := mkProtoGetNoncesResponse (CosignerUUIDNoncesMultiple_toProto l)).
  rewrite run_map, (run_Invoke sched decode_error to_status _ Invoke _ s s' ev (result_bind r (λ l, Ok (toProto l))) Hd).
  - destruct r as [l|e|m]; [|done|done]. cbn [result_bind wire_result]. f_equal. cbn. apply response_nonces_sent.
    by rewrite (GetNonces_uuids _ _ _ _ _ _ _ Hr).
  - done.
  - done.
  - unfold CosignerGRPCServer_GetNonces. cbn [decoded GetNoncesRequest_Spec GetNoncesRequest_decoded pgnq_Uuids].
    rewrite request_uuids_sent by done. cbn [prog_try prog_bind]. rewrite run_map, Hr. done.
  - intros p. destruct r; [done|done|]. by destruct (Hm msg).
  - intros resp E. destruct r as [l| |]; [|done|done]. injection E as <-. split; [|by apply Hl].
    cbn. unfold GetNoncesResponse_fits, CosignerUUIDNoncesMultiple_toProto. cbn. apply Forall_fmap.
    apply list.Forall_forall. intros n _. apply nonces_fit.
Qed.
End cosigner_calls.

(** *** Calls of the leader *)

Lemma block_received b :
  in_sint 64 (b_Height b) → in_sint 64 (b_Round b) → in_sint 8 (b_Step b) →
  b_Timestamp b = zero_time ∨ in_sint 64 (b_Timestamp b) →
  Block_fits (block_ToProto b) ∧ BlockFromProto (Block_decoded (block_ToProto b)) = wire_block b.
Proof.
  intros Hh Hr Hs Ht. unfold Block_fits, BlockFromProto, wire_block, block_ToProto, Block_decoded. cbn.
  assert (i8 (i32 (b_Step b)) = b_Step b) as ->.
  { unfold in_sint in Hs. cbn in Hs. rewrite (sint_small 32), (sint_small 8) by (unfold in_sint; cbn; lia). done. }
  split.
  - split; [done|]. split; [done|]. split; [apply sint_range; lia|].
    destruct (IsZero _); cbn; [unfold in_sint; cbn; lia|apply sint_range; lia].
  - f_equal. unfold IsZero. destruct (Z.eqb_spec (b_Timestamp b) zero_time) as [E|E]; cbn [negb].
    + rewrite E. done.
    + destruct Ht as [|Ht]; [done|]. unfold UnixNano. rewrite sint_small by (lia || done).
      by destruct (b_Timestamp b =? 0).
Qed.

Section leader_calls.
Context {W : Type} `{C : !Codec} `{J : !Json} `{N : !ClusterNet W}.
Context (sort_Slice : ∀ A, (A → A → bool) → list A → list A).
Context (pv : ThresholdValidator) (decode_error to_status : goerror → goerror) (sched : nat → nat).

(** A block passed on to the leader is signed as the leader signs it: RemoteCosigner.Sign
    leaves the leader in the state and with the events that Sign of the validator leaves,
    and returns its signatures with the timestamp they were made over.  A leader that signed
    over the zero time or the epoch sends no timestamp, and that of the request is kept. *)
Theorem remote_Sign Invoke req (s : TVState W) s' ev r :
  delivers decode_error to_status
    (λ dec, Cosigner_SignBlock_Handler sort_Slice pv dec (Some recoveryUnaryInterceptor)) Invoke →
  in_sint 64 (b_Height (sbr_Block req)) → in_sint 64 (b_Round (sbr_Block req)) → in_sint 8 (b_Step (sbr_Block req)) →
  b_Timestamp (sbr_Block req) = zero_time ∨ in_sint 64 (b_Timestamp (sbr_Block req)) →
  Z.of_nat (length (SignBlockRequest_encoding
    (mkProtoSignBlockRequest (sbr_ChainID req) (Some (block_ToProto (sbr_Block req)))))) < 2 ^ 63 →
  run sched (ThresholdValidator.Sign sort_Slice pv (sbr_ChainID req) (wire_block (sbr_Block req))) s = (s', ev, r) →
  (∀ m, r ≠ Panics m) →
  (∀ signed, r = Ok signed → Z.of_nat (length (SignBlockResponse_encoding (block_response signed))) < 2 ^ 63) →
  run sched (RemoteCosigner_Sign Invoke req) s = (s', ev, wire_result to_status (wire_signed (sbr_Block req)) r).
Proof.
  intros Hd Hh Hr Hs Ht Hq Hrun Hm Hl. destruct (block_received _ Hh Hr Hs Ht) as [Hf Hb].
  unfold RemoteCosigner_Sign. rewrite run_map, (run_Invoke sched decode_error to_status _ Invoke _ s s' ev
    (result_bind r (λ signed, Ok (block_response signed))) Hd).
  - destruct r as [signed|e|m]; [|done|done]. cbn [result_bind wire_result]. do 3 f_equal. unfold block_response. cbn.
    unfold wire_signed, IsZero. destruct (_ =? zero_time); cbn; [done|]. by destruct (_ =? 0).
  - intros b [= <-]. done.
  - done.
  - unfold CosignerGRPCServer_SignBlock. cbn [decoded SignBlockRequest_Spec SignBlockRequest_decoded psbq_Block psbq_ChainID
      fmap option_fmap option_map]. rewrite Hb, run_map, Hrun. done.
  - intros p. destruct r; [done|done|]. by destruct (Hm msg).
  - intros resp E. destruct r as [signed| |]; [|done|done]. injection E as <-. split; [|by apply Hl].
    cbn. unfold SignBlockResponse_fits. cbn. destruct (IsZero _); cbn; [unfold in_sint; cbn; lia|apply sint_range; lia].
Qed.
End leader_calls.

(** *** Messages of a peer *)

Lemma sign_request_no_panic req m : sign_request req ≠ Panics m.
Proof.
  unfold sign_request. case_bool_decide; [done|]. destruct (Z.eqb_spec (blen (psnq_Uuid req)) uuidLen) as [Hu|]; [|done].
  cbn [negb]. rewrite uuid_UUID_ok by done. cbn [result_bind].
  destruct (Z.eqb_spec (blen (psnq_VoteExtUuid req)) uuidLen) as [Hv|]; [|by rewrite andb_false_r].
  destruct (0 <? _); cbn [andb]; [|done]. by rewrite uuid_UUID_ok by done.
Qed.

Lemma request_uuids_no_panic uuids m : request_uuids uuids ≠ Panics m.
Proof.
  induction uuids as [|b l IH]; [done|]. cbn [request_uuids]. destruct (Z.eqb_spec (blen b) uuidLen) as [Hb|]; [|done].
  cbn [negb]. rewrite uuid_UUID_ok by done. cbn [result_bind]. by destruct (request_uuids l).
Qed.

Lemma response_nonces_no_panic id l m : response_nonces id l ≠ Panics m.
Proof.
  induction l as [|n l IH]; [done|]. cbn [response_nonces].
  destruct (Z.eqb_spec (blen (pun_Uuid n)) uuidLen) as [Hb|]; [|done].
  cbn [negb]. rewrite uuid_UUID_ok by done. cbn [result_bind]. by destruct (response_nonces id l).
Qed.

Lemma request_uuids_fit l uuids : request_uuids l = Ok uuids → Forall uuid_fits uuids.
Proof.
  revert uuids. induction l as [|b l IH]; intros uuids; cbn [request_uuids]; [by intros [= <-]|].
  destruct (Z.eqb_spec (blen b) uuidLen) as [Hb|]; [|done]. cbn [negb]. rewrite uuid_UUID_ok by done. cbn [result_bind].
  destruct (request_uuids l) as [us| |]; cbn [result_bind]; [|done|done]. intros [= <-]. constructor; [|by apply IH].
  unfold uuid_fits, blen, uuidLen in *. lia.
Qed.

(** What a method of the server does after it converted its request *)
Lemma converted_panics {S E A B D} (sched : nat → nat) (conv : result A goerror) (p : A → @prog S E (result B goerror))
    (g : B → D) s s' ev m :
  (∀ m', conv ≠ Panics m') →
  run sched (must a <- Ret conv; must b <- p a; Ret (Ok (g b))) s = (s', ev, Panics m) →
  ∃ a, conv = Ok a ∧ run sched (p a) s = (s', ev, Panics m).
Proof.
  intros Hc. destruct conv as [a|e|p']; cbn [prog_try prog_bind]; [|done|by destruct (Hc p')].
  rewrite run_map. destruct (run sched (p a) s) as [[s1 ev1] [b|e|p']] eqn:Er; [done|done|].
  intros [= <- <- <-]. by exists a.
Qed.

(** The handler of a method panics when the method does. *)
Lemma handler_panics {S E Req Resp} `{MessageSpec Req} (sched : nat → nat) decode_error
    (method : Req → @prog S E (result Resp goerror)) dAtA s s' ev m :
  Z.of_nat (length dAtA) < 2 ^ 63 →
  run sched (unary_handler method (λ r, map_err decode_error (Unmarshal r dAtA)) None) s = (s', ev, Panics m) →
  ∃ req, Unmarshal zero dAtA = Ok req ∧ run sched (method req) s = (s', ev, Panics m).
Proof.
  intros Hl. unfold unary_handler. pose proof (Unmarshal_no_panic zero dAtA) as Hu.
  destruct (Unmarshal zero dAtA) as [req|e|p]; cbn [map_err]; [by exists req|done|]. by destruct (Hu p Hl).
Qed.

Section peer_messages.
Context {S K R W : Type} `{TS : !ThresholdSigner S} `{CS : !CosignerSecurity K} `{C : !Codec} `{J : !Json} `{N : !ClusterNet W}.
Context (NewThresholdSigner : RuntimeConfig → Z → string → FileSystem → result S goerror).
Context (GenerateNonces : R → Z → Z → result Nonces goerror).
Context (sort_Slice : ∀ A, (A → A → bool) → list A → list A).
Context (cosigner : LocalCosigner K) (pv : ThresholdValidator) (decode_error : goerror → goerror) (sched : nat → nat).

(** C27: what a peer sends does not make a process panic by itself.  Whatever the bytes of a
    request, the handlers of the server, without the interceptor, panic only when the local
    cosigner or validator panics on the request they make of it; and whatever a peer answers,
    RemoteCosigner.GetNonces panics only when the connection does. *)
Theorem peer_messages_no_panic dAtA m :
  Z.of_nat (length dAtA) < 2 ^ 63 →
  (∀ s s' ev,
     run sched (Cosigner_SetNoncesAndSign_Handler NewThresholdSigner cosigner
                  (λ r, map_err decode_error (Unmarshal r dAtA)) None) s = (s', ev, Panics m) →
     ∃ req, run sched (LocalCosigner.SetNoncesAndSign NewThresholdSigner cosigner req) s = (s', ev, Panics m))
  ∧ (∀ now rnd (s : LCState S) s' ev,
     run sched (Cosigner_GetNonces_Handler GenerateNonces cosigner now rnd
                  (λ r, map_err decode_error (Unmarshal r dAtA)) None) s = (s', ev, Panics m) →
     ∃ uuids, Forall uuid_fits uuids
       ∧ run sched (LocalCosigner.GetNonces GenerateNonces cosigner now rnd uuids) s = (s', ev, Panics m))
  ∧ (∀ (s : TVState W) s' ev,
     run sched (Cosigner_SignBlock_Handler sort_Slice pv (λ r, map_err decode_error (Unmarshal r dAtA)) None) s
       = (s', ev, Panics m) →
     ∃ chainID block, run sched (ThresholdValidator.Sign sort_Slice pv chainID block) s = (s', ev, Panics m))
  ∧ (∀ Invoke id uuids (s : TVState W) s' ev,
     run sched (@RemoteCosigner_GetNonces _ tv_event Invoke id uuids) s = (s', ev, Panics m) →
     run sched (Invoke (mkProtoGetNoncesRequest (uuid_bytes <$> uuids))) s = (s', ev, Panics m)).
Proof.
  intros Hl. split_and!.
  - intros s s' ev Hr. apply handler_panics in Hr as (req & _ & Hr); [|done].
    apply converted_panics in Hr as (a & _ & Hr); [by exists a|]. apply sign_request_no_panic.
  - intros now rnd s s' ev Hr. apply handler_panics in Hr as (req & _ & Hr); [|done].
    apply converted_panics in Hr as (a & Ha & Hr); [|apply request_uuids_no_panic].
    exists a. split; [by eapply request_uuids_fit|done].
  - intros s s' ev Hr. apply handler_panics in Hr as (req & _ & Hr); [|done].
    unfold CosignerGRPCServer_SignBlock in Hr. destruct (psbq_Block req) as [block|]; [|done].
    apply (converted_panics sched (Ok ()) (λ _, ThresholdValidator.Sign sort_Slice pv _ _)) in Hr as (_ & _ & Hr); [|done].
    by eexists _, _.
  - intros Invoke id uuids s s' ev. unfold RemoteCosigner_GetNonces. rewrite run_map.
    destruct (run sched (Invoke _) s) as [[s1 ev1] [res|e|p]]; cbn [result_bind]; [|done|by intros [= <- <- <-]].
    intros [= <- <- E]. by apply response_nonces_no_panic in E.
Qed.
End peer_messages.

(** *** Witnesses *)

Lemma loopback_delivers {S E Req Resp} `{Message Req} `{Message Resp} decode_error to_status
    (handler : (Req → result Req goerror) → @prog S E (result Resp goerror)) :
  delivers decode_error to_status handler (loopback decode_error to_status handler).
Proof.
  intros sched req bs s s' ev r Hq Hr. unfold loopback. rewrite Hq. cbn [prog_try prog_bind].
  rewrite run_bind_eq, Hr. cbn [run]. rewrite app_nil_r. split; [|by intros e ->].
  intros resp bs' out -> -> Hu. cbn [result_bind]. by rewrite Hu.
Qed.

Lemma remote_SetNoncesAndSign_witness :
  (run (λ _, 0%nat) (RemoteCosigner_SetNoncesAndSign (loopback id id example_sign_handler) example_request)
     (example_nonces 2).1.1).2
  = Ok (mkCosignerSignResponse (-6795364578871345152) None (Some [1; 2; 5; 0; 9; 42]) None None).
Proof.
  rewrite (remote_SetNoncesAndSign (TS := echo_signer) (CS := toy_security) (C := toy_codec) (J := toy_json) toy_new_signer
    (example_cosigner 2) id id (λ _, 0%nat) (loopback id id example_sign_handler) example_request (example_nonces 2).1.1
    example_signed.1.1 example_signed.1.2 example_signed.2).
  - vm_compute. reflexivity.
  - apply loopback_delivers.
  - split; [vm_compute; repeat split; discriminate|]. split; [eexists; split; vm_compute; reflexivity|].
    split; [discriminate|]. intros m E. vm_compute in E. injection E as <-. vm_compute. reflexivity.
  - vm_compute. reflexivity.
  - intros m. vm_compute. discriminate.
  - intros res E. vm_compute in E. injection E as <-. vm_compute. reflexivity.
Defined.

Lemma remote_GetNonces_witness :
  (run (λ _, 0%nat) (RemoteCosigner_GetNonces (loopback id id example_nonces_handler) 2 [count_uuid 0]) idle_cosigner).2
  = wire_result id (fmap wire_nonces) (example_nonces 2).2.
Proof.
  rewrite (remote_GetNonces (S := unit) (CS := toy_security) toy_generate (example_cosigner 2)
    id id (λ _, 0%nat) 0 example_rnd 2 (loopback id id example_nonces_handler) [count_uuid 0] idle_cosigner
    (example_nonces 2).1.1 (example_nonces 2).1.2 (example_nonces 2).2).
  - reflexivity.
  - apply loopback_delivers.
  - repeat constructor.
  - vm_compute. reflexivity.
  - vm_compute. reflexivity.
  - intros m. vm_compute. discriminate.
  - intros l E. vm_compute in E. injection E as <-. vm_compute. reflexivity.
Defined.

Lemma remote_Sign_witness :
  (run answering (RemoteCosigner_Sign (loopback id id example_block_handler)
     (mkCosignerSignBlockRequest "chain" (example_block 9 (Some [3; 5; 0; 77])))) example_validator.2).2
  = Ok (mkCosignerSignBlockResponse (Some [1; 2; 5; 0; 9; 42]) (Some [3; 5; 0; 77]) 9).
Proof.
  rewrite (remote_Sign (C := toy_codec) (J := toy_json) (N := example_net) insertionSort example_validator.1 id id answering
    (loopback id id example_block_handler) (mkCosignerSignBlockRequest "chain" (example_block 9 (Some [3; 5; 0; 77])))
    example_validator.2 example_block_signed.1.1 example_block_signed.1.2 example_block_signed.2).
  - vm_compute. reflexivity.
  - apply loopback_delivers.
  - vm_compute. split; [discriminate|reflexivity].
  - vm_compute. split; [discriminate|reflexivity].
  - vm_compute. split; [discriminate|reflexivity].
  - right. vm_compute. split; [discriminate|reflexivity].
  - vm_compute. reflexivity.
  - vm_compute. reflexivity.
  - intros m. vm_compute. discriminate.
  - intros signed E. vm_compute in E. injection E as <-. vm_compute. reflexivity.
Defined.

(** A request for nonces with a UUID of three bytes, and the error it gets *)
Lemma peer_messages_no_panic_witness :
  (∀ m s' ev, run (λ _, 0%nat) (example_nonces_handler (λ r, Unmarshal r [10; 3; 1; 2; 3])) idle_cosigner ≠ (s', ev, Panics m))
  ∧ ∀ m s' ev,
      run (λ _, 0%nat) (Cosigner_GetNonces_Handler (CS := toy_security) toy_generate (example_cosigner 2) 0 example_rnd
        (λ r, map_err id (Unmarshal r [10; 3; 1; 2; 3])) None) idle_cosigner = (s', ev, Panics m) →
      ∃ uuids, Forall uuid_fits uuids.
Proof.
  split; [intros m s' ev; vm_compute; discriminate|]. intros m s' ev Hr.
  destruct (peer_messages_no_panic (TS := echo_signer) (CS := toy_security) (C := toy_codec) (J := toy_json) (N := example_net)
    toy_new_signer toy_generate insertionSort (example_cosigner 2) example_validator.1 id (λ _, 0%nat) [10; 3; 1; 2; 3] m)
    as (_ & H & _); [vm_compute; reflexivity|].
  destruct (H _ _ _ _ _ Hr) as (uuids & Hu & _). by exists uuids.
Defined.
