(* ===== verification/SingleSigner.v ===== *)
(** * The single signer

    One process with the whole key: [FilePV] of signer/file.go, which keeps the last
    height, round and step it signed in a file, and [SingleSignerValidator] of
    signer/single_signer_validator.go, which loads one [FilePV] per chain and lets one
    request at a time sign with it.

    [ss_heap] holds the [SingleSignerChainState] objects and [ss_chainState] the pointers,
    as a request keeps the pointer it loaded.  The section under a chain's mutex is one
    step.  The private key and the JSON encodings are behind the classes [PrivKey] and
    [PVJson].  [EvSigned] is a ghost: a use of the key on the bytes of a vote or proposal. *)

From S2P Require Import Prelude Hrs Errors Comet SignState Config Cosigner Conc NonceCache CosignerHealth LocalCosigner ThresholdValidator SignSafety.
From stdpp Require Import base gmap list strings numbers relations.
From Stdlib Require Import ZArith Lia.

Open Scope string_scope.
Open Scope list_scope.
Open Scope Z_scope.

(** ** Definitions *)

Record FilePVLastSignState := mkLastSignState {
  lss_Height : Z;
  lss_Round : Z;
  lss_Step : Z;
  lss_Signature : gobytes;
  lss_SignBytes : gobytes;
  lss_filePath : string
}.

(** [crypto.PrivKey] *)
Class PrivKey (K : Type) := {
  pk_PubKey : K → gobytes;
  pk_Address : K → gobytes;
  pk_Sign : K → gobytes → result gobytes goerror
}.

(** [cometjson.MarshalIndent] and [cometjson.Unmarshal] at the two types; the private key of
    a file that has none is nil. *)
Class PVJson (K : Type) := {
  marshal_key : gobytes * gobytes * K → result (list Z) goerror;
  unmarshal_key : list Z → result (option K) goerror;
  marshal_lss : FilePVLastSignState → result (list Z) goerror;
  unmarshal_lss : list Z → result FilePVLastSignState goerror
}.

(** The fields of a state file: the path is not among them, and empty slices are left out. *)
Definition lss_decoded (lss : FilePVLastSignState) : FilePVLastSignState :=
  mkLastSignState (lss_Height lss) (lss_Round lss) (lss_Step lss) (omitempty (lss_Signature lss))
    (omitempty (lss_SignBytes lss)) "".

Class PVJsonLaws (K : Type) (J : PVJson K) := {
  key_roundtrip a p k bs : marshal_key (a, p, k) = Ok bs → unmarshal_key bs = Ok (Some k);
  lss_roundtrip lss bs : marshal_lss lss = Ok bs → unmarshal_lss bs = Ok (lss_decoded lss)
}.

Record FilePVKey (K : Type) := mkFilePVKey {
  fk_Address : gobytes;
  fk_PubKey : gobytes;
  fk_PrivKey : K;
  fk_filePath : string
}.
Arguments mkFilePVKey {K} _ _ _ _.
Arguments fk_Address {K} _.
Arguments fk_PubKey {K} _.
Arguments fk_PrivKey {K} _.
Arguments fk_filePath {K} _.

Record FilePV (K : Type) := mkFilePV {
  pv_Key : FilePVKey K;
  pv_LastSignState : FilePVLastSignState
}.
Arguments mkFilePV {K} _ _.
Arguments pv_Key {K} _.
Arguments pv_LastSignState {K} _.

(** [lss.CheckHRS] *)
Definition pv_CheckHRS (lss : FilePVLastSignState) (height round step : Z) : result bool goerror :=
  if height <? lss_Height lss then
    Err (ErrorString ("height regression. Got " +:+ fmt_d height +:+ ", last height " +:+ fmt_d (lss_Height lss)))
  else if lss_Height lss =? height then
    if round <? lss_Round lss then
      Err (ErrorString ("round regression at height " +:+ fmt_d height +:+ ". Got " +:+ fmt_d round +:+ ", last round "
             +:+ fmt_d (lss_Round lss)))
    else if lss_Round lss =? round then
      if step <? lss_Step lss then
        Err (ErrorString ("step regression at height " +:+ fmt_d height +:+ " round " +:+ fmt_d round +:+ ". Got "
               +:+ fmt_d step +:+ ", last step " +:+ fmt_d (lss_Step lss)))
      else if lss_Step lss =? step then
        if negb (is_nil (lss_SignBytes lss)) then
          if is_nil (lss_Signature lss) then Panics "pv: Signature is nil but SignBytes is not!" else Ok true
        else Err (ErrorString "no SignBytes found")
      else Ok false
    else Ok false
  else Ok false.

(** [panic(err)] *)
Definition or_panic {A} (r : result A goerror) : result A goerror :=
  match r with
  | Err e => Panics (Error e)
  | r => r
  end.

(** [lss.Save()] and [pvKey.Save()] *)
Definition lss_Save `{PVJson K} (lss : FilePVLastSignState) (fs : FileSystem) : result FileSystem goerror :=
  if String.eqb (lss_filePath lss) "" then Panics "cannot save FilePVLastSignState: filePath not set"
  else
    try jsonBytes <- or_panic (marshal_lss lss);
    or_panic (WriteFileAtomic fs (lss_filePath lss) jsonBytes).

Definition key_Save `{PVJson K} (key : FilePVKey K) (fs : FileSystem) : result FileSystem goerror :=
  if String.eqb (fk_filePath key) "" then Panics "cannot save PrivValidator key: filePath not set"
  else
    try jsonBytes <- or_panic (marshal_key (fk_Address key, fk_PubKey key, fk_PrivKey key));
    or_panic (WriteFileAtomic fs (fk_filePath key) jsonBytes).

Definition NewFilePV `{PrivKey K} (privKey : K) (keyFilePath stateFilePath : string) : FilePV K :=
  mkFilePV (mkFilePVKey (pk_Address privKey) (pk_PubKey privKey) privKey keyFilePath)
    (mkLastSignState 0 0 0 None None stateFilePath).

(** The private key of a key file, and the rest of the key from it. *)
Definition load_key `{PrivKey K} `{PVJson K} (keyFilePath : string) (fs : FileSystem) : result (FilePVKey K) goerror :=
  try keyJSONBytes <- ReadFile fs keyFilePath;
  try privKey <- map_err (WrapError ("error reading PrivValidator key from " +:+ keyFilePath +:+ ": "))
                   (unmarshal_key keyJSONBytes);
  match privKey with
  | None => Panics nil_dereference
  | Some k => Ok (mkFilePVKey (pk_Address k) (pk_PubKey k) k keyFilePath)
  end.

Definition with_path (path : string) (lss : FilePVLastSignState) : FilePVLastSignState :=
  mkLastSignState (lss_Height lss) (lss_Round lss) (lss_Step lss) (lss_Signature lss) (lss_SignBytes lss) path.

Definition load_state `{PVJson K} (stateFilePath : string) (loadState : bool) (fs : FileSystem)
    : result FilePVLastSignState goerror :=
  if loadState then
    try stateJSONBytes <- ReadFile fs stateFilePath;
    try pvState <- map_err (WrapError ("error reading PrivValidator state from " +:+ stateFilePath +:+ ": "))
                     (unmarshal_lss stateJSONBytes);
    Ok (with_path stateFilePath pvState)
  else Ok (mkLastSignState 0 0 0 None None stateFilePath).

Definition LoadFilePV `{PrivKey K} `{PVJson K} (keyFilePath stateFilePath : string) (loadState : bool) (fs : FileSystem)
    : result (FilePV K) goerror :=
  try pvKey <- load_key keyFilePath fs;
  try pvState <- load_state stateFilePath loadState fs;
  Ok (mkFilePV pvKey pvState).

(** The timestamp of the last payload, and whether only the timestamps differ; both are set to [now]. *)
Definition checkVotesOnlyDifferByTimestamp `{Codec} (now : Z) (lastSignBytes newSignBytes : gobytes) : result (Z * bool) goerror :=
  match unmarshalVote (slice lastSignBytes) with
  | Err err => Panics ("LastSignBytes cannot be unmarshalled into vote: " +:+ Error err)
  | Panics m => Panics m
  | Ok lastVote =>
      match unmarshalVote (slice newSignBytes) with
      | Err err => Panics ("signBytes cannot be unmarshalled into vote: " +:+ Error err)
      | Panics m => Panics m
      | Ok newVote =>
          Ok (cv_Timestamp lastVote, voteEqual (vote_set_Timestamp now newVote) (vote_set_Timestamp now lastVote))
      end
  end.

Definition checkProposalsOnlyDifferByTimestamp `{Codec} (now : Z) (lastSignBytes newSignBytes : gobytes)
    : result (Z * bool) goerror :=
  match unmarshalProposal (slice lastSignBytes) with
  | Err err => Panics ("LastSignBytes cannot be unmarshalled into proposal: " +:+ Error err)
  | Panics m => Panics m
  | Ok lastProposal =>
      match unmarshalProposal (slice newSignBytes) with
      | Err err => Panics ("signBytes cannot be unmarshalled into proposal: " +:+ Error err)
      | Panics m => Panics m
      | Ok newProposal =>
          Ok (cp_Timestamp lastProposal,
              proposalEqual (proposal_set_Timestamp now newProposal) (proposal_set_Timestamp now lastProposal))
      end
  end.

(** The switch of [FilePV.Sign] at a key that was signed before *)
Definition sign_again `{Codec} (now : Z) (lss : FilePVLastSignState) (block : Block) (extSig : gobytes)
    : result Signed goerror :=
  if bytes_Equal (b_SignBytes block) (lss_SignBytes lss) then Ok (mkSigned (lss_Signature lss) None (b_Timestamp block))
  else if b_Step block =? stepPropose then
    try c <- checkProposalsOnlyDifferByTimestamp now (lss_SignBytes lss) (b_SignBytes block);
    if (c.2 : bool) then Ok (mkSigned (lss_Signature lss) None c.1) else Err (ErrorString "conflicting data")
  else if (b_Step block =? stepPrevote) || (b_Step block =? stepPrecommit) then
    try c <- checkVotesOnlyDifferByTimestamp now (lss_SignBytes lss) (b_SignBytes block);
    if (c.2 : bool) then Ok (mkSigned (lss_Signature lss) extSig c.1) else Err (ErrorString "conflicting data")
  else Err (ErrorString "conflicting data").

(** A use of the key: the chain state, the key it was used at, the bytes and the signature. *)
Inductive pv_event : Type :=
| EvSigned (loc : nat) (hrs : HRSKey) (signBytes sig : gobytes).

(** [pv.Sign], with the file system and what it signed; a block's round is cut to an int32. *)
Definition block_key (block : Block) : HRSKey := mkHRSKey (b_Height block) (i32 (b_Round block)) (b_Step block).

Definition FilePV_Sign `{PrivKey K} `{PVJson K} `{Codec} (now : Z) (chainID : string) (block : Block) (pv : FilePV K)
    (fs : FileSystem) : FilePV K * FileSystem * option gobytes * result Signed goerror :=
  let lss := pv_LastSignState pv in
  let fails (r : result Signed goerror) := (pv, fs, None, r) in
  match pv_CheckHRS lss (b_Height block) (i32 (b_Round block)) (b_Step block) with
  | Err e => fails (Err e)
  | Panics m => fails (Panics m)
  | Ok sameHRS =>
      match verifySignPayload chainID (b_SignBytes block) (b_VoteExtensionSignBytes block) with
      | Err e => fails (Err e)
      | Panics m => fails (Panics m)
      | Ok (_, hasVoteExtensions) =>
          match (if (hasVoteExtensions : bool) then pk_Sign (fk_PrivKey (pv_Key pv)) (b_VoteExtensionSignBytes block)
                 else Ok None) with
          | Err e => fails (Err e)
          | Panics m => fails (Panics m)
          | Ok extSig =>
              if (sameHRS : bool) then fails (sign_again now lss block extSig)
              else
                match pk_Sign (fk_PrivKey (pv_Key pv)) (b_SignBytes block) with
                | Err e => fails (Err e)
                | Panics m => fails (Panics m)
                | Ok sig =>
                    let lss' := mkLastSignState (b_Height block) (i32 (b_Round block)) (b_Step block) sig
                                  (b_SignBytes block) (lss_filePath lss) in
                    let pv' := mkFilePV (pv_Key pv) lss' in
                    match lss_Save lss' fs with
                    | Ok fs' => (pv', fs', Some sig, Ok (mkSigned sig extSig (b_Timestamp block)))
                    | Err e => (pv', fs, Some sig, Err e)
                    | Panics m => (pv', fs, Some sig, Panics m)
                    end
                end
          end
      end
  end.

(** [pv.Reset()] and [pv.Save()] *)
Definition FilePV_Save `{PVJson K} (pv : FilePV K) (fs : FileSystem) : result FileSystem goerror :=
  try fs' <- key_Save (pv_Key pv) fs; lss_Save (pv_LastSignState pv) fs'.

Definition FilePV_Reset `{PVJson K} (pv : FilePV K) (fs : FileSystem) : FilePV K * result FileSystem goerror :=
  let pv' := mkFilePV (pv_Key pv) (mkLastSignState 0 0 0 None None (lss_filePath (pv_LastSignState pv))) in
  (pv', FilePV_Save pv' fs).

(** *** The validator *)

Record SSState (K : Type) := mkSSState {
  ss_chainState : gmap string nat;
  ss_heap : list (FilePV K);
  ss_fs : FileSystem
}.
Arguments mkSSState {K} _ _ _.
Arguments ss_chainState {K} _.
Arguments ss_heap {K} _.
Arguments ss_fs {K} _.

Section validator.
Context {K : Type} `{PK : !PrivKey K} `{PJ : !PVJson K} `{C : !Codec}.
Context (config : RuntimeConfig).
Local Abbreviation P A := (@prog (SSState K) pv_event A).

Definition NewSingleSignerValidator (fs : FileSystem) : SSState K := mkSSState ∅ [] fs.

(** [os.Stat] of the key file *)
Definition stat_key (keyFile : string) (fs : FileSystem) : result unit goerror :=
  match fs_files fs !! keyFile with
  | Some (Content _) | Some (ReadFails _) => Ok ()
  | Some (StatFails err) => Err (WrapError ("failed to load key file (" +:+ keyFile +:+ ") - ") err)
  | None => Err (WrapError ("failed to load key file (" +:+ keyFile +:+ ") - ")
                   (ErrorString ("stat " +:+ keyFile +:+ ": no such file or directory")))
  end.

(** [os.Stat] of the state file: whether there is a state to load *)
Definition stat_state (stateFile : string) (fs : FileSystem) : result bool goerror :=
  match fs_files fs !! stateFile with
  | None => Ok false
  | Some (StatFails err) => Panics ("failed to load state file (" +:+ stateFile +:+ ") - " +:+ Error err)
  | Some _ => Ok true
  end.

Definition loadChainStateIfNecessary (chainID : string) : P (result nat goerror) :=
  match ValidateChainID chainID with
  | Err e => Ret (Err e)
  | Panics m => Ret (Panics m)
  | Ok _ =>
      do cached <- reading (λ s, ss_chainState s !! chainID);
      match cached with
      | Some loc => Ret (Ok loc)
      | None =>
          let keyFile := KeyFilePathSingleSigner config chainID in
          let stateFile := PrivValStateFile config chainID in
          must _ <- reading (λ s, stat_key keyFile (ss_fs s));
          must loadState <- reading (λ s, stat_state stateFile (ss_fs s));
          must pvKey <- reading (λ s, load_key keyFile (ss_fs s));
          must pvState <- reading (λ s, load_state stateFile loadState (ss_fs s));
          atomic (λ s,
            (mkSSState (<[chainID := length (ss_heap s)]> (ss_chainState s)) (ss_heap s ++ [mkFilePV pvKey pvState]) (ss_fs s),
             Ok (length (ss_heap s))))
      end
  end.

(** The section of [Sign] under the mutex of the chain state *)
Definition locked_Sign (now : Z) (chainID : string) (block : Block) (loc : nat) : P (result Signed goerror) :=
  atomically (λ s,
    match ss_heap s !! loc with
    | None => (s, [], Panics nil_dereference)
    | Some pv =>
        let '(pv', fs', signed, r) := FilePV_Sign now chainID block pv (ss_fs s) in
        (mkSSState (ss_chainState s) (<[loc := pv']> (ss_heap s)) fs',
         match signed with
         | Some sig => [EvSigned loc (block_key block) (b_SignBytes block) sig]
         | None => []
         end, r)
    end).

Definition SingleSigner_Sign (now : Z) (chainID : string) (block : Block) : P (result Signed goerror) :=
  must loc <- loadChainStateIfNecessary chainID;
  locked_Sign now chainID block loc.

Definition SingleSigner_GetPubKey (chainID : string) : P (result gobytes goerror) :=
  must loc <- loadChainStateIfNecessary chainID;
  reading (λ s,
    match ss_heap s !! loc with
    | None => Panics nil_dereference
    | Some pv => Ok (fk_PubKey (pv_Key pv))
    end).

(** *** Specifications *)

(** What a handler returned: a request with its answer, or something else. *)
Inductive pv_reply : Type :=
| PSign (chainID : string) (block : Block) (r : result Signed goerror)
| POther.

Inductive ss_handler : P pv_reply → Prop :=
| HSign now chainID block : ss_handler (do r <- SingleSigner_Sign now chainID block; Ret (PSign chainID block r))
| HGetPubKey chainID : ss_handler (do _ <- SingleSigner_GetPubKey chainID; Ret POther).

Definition lss_key (lss : FilePVLastSignState) : HRSKey := mkHRSKey (lss_Height lss) (lss_Round lss) (lss_Step lss).

(** The signature a loaded state stands for, as ghost history *)
Definition loaded_signature (loc : nat) (lss : FilePVLastSignState) : list pv_event :=
  if is_nil (lss_SignBytes lss) then [] else [EvSigned loc (lss_key lss) (lss_SignBytes lss) (lss_Signature lss)].

(** The state of a chain against the uses of its key: it stands at the last of them, the others
    are below, and no two are at one key. *)
Definition pv_inv (cid : string) (loc : nat) (s : SSState K) (log : list pv_event) : Prop :=
  ss_chainState s !! cid = Some loc ∧ ∃ pv, ss_heap s !! loc = Some pv ∧
    let lss := pv_LastSignState pv in
    (is_nil (lss_SignBytes lss) = false → EvSigned loc (lss_key lss) (lss_SignBytes lss) (lss_Signature lss) ∈ log) ∧
    (∀ hrs bs sig, EvSigned loc hrs bs sig ∈ log → hrs_le hrs (lss_key lss)) ∧
    (∀ hrs bs sig bs' sig', EvSigned loc hrs bs sig ∈ log → EvSigned loc hrs bs' sig' ∈ log → bs = bs' ∧ sig = sig').

(** An answer for the chain is a signature that was made at the key of the request, over a
    payload that differs from the requested one by its timestamp at most. *)
Definition pv_backed (cid : string) (loc : nat) (r : pv_reply) (log : list pv_event) : Prop :=
  match r with
  | PSign chainID block (Ok signed) =>
      chainID = cid →
      ∃ bs, EvSigned loc (block_key block) bs (sg_Signature signed) ∈ log
        ∧ same_payload (b_Step block) (slice (b_SignBytes block)) (slice bs)
  | _ => True
  end.
End validator.

(** *** A concrete key and file format, to run the model

    A signature is the payload itself. *)
Definition toy_priv : PrivKey unit := {|
  pk_PubKey _ := Some [1];
  pk_Address _ := Some [2];
  pk_Sign _ bs := Ok (Some (slice bs))
|}.

Definition toy_marshal_lss (lss : FilePVLastSignState) : result (list Z) goerror :=
  Ok ([lss_Height lss; lss_Round lss; lss_Step lss] ++ toy_put (omitempty (lss_Signature lss))
        ++ toy_put (omitempty (lss_SignBytes lss))).

Definition toy_unmarshal_lss (bs : list Z) : result FilePVLastSignState goerror :=
  match bs with
  | h :: r :: st :: bs =>
      let '(sg, bs) := toy_get bs in
      let '(sb, bs) := toy_get bs in
      Ok (mkLastSignState h r st sg sb "")
  | _ => Err (ErrorString "unexpected end of JSON input")
  end.

Definition toy_pv_json : PVJson unit := {|
  marshal_key _ := Ok [];
  unmarshal_key _ := Ok (Some ());
  marshal_lss := toy_marshal_lss;
  unmarshal_lss := toy_unmarshal_lss
|}.

Definition toy_pv_config : RuntimeConfig := mkRuntimeConfig "/h" "" "/s" "" (mkConfig None "" "single" None [] "" "" 0).

Definition toy_key_file : string := KeyFilePathSingleSigner toy_pv_config "chain".
Definition toy_state_file : string := PrivValStateFile toy_pv_config "chain".

Definition toy_pv_fs : FileSystem := mkFS {[ toy_key_file := Content [] ]} (λ _, None).

Definition toy_file_pv : FilePV unit := @NewFilePV unit toy_priv () toy_key_file toy_state_file.

Definition toy_FilePV_Sign := @FilePV_Sign unit toy_priv toy_pv_json toy_codec 0 "chain".

(** A precommit: its key as the request says, and its bytes *)
Definition toy_pv_block (height timestamp : Z) (bytes : list Z) (ext : gobytes) : Block :=
  mkBlock height 0 3 (Some bytes) ext timestamp.

Definition toy_ss_handler := @ss_handler unit toy_priv toy_pv_json toy_codec toy_pv_config.

Definition toy_ss_thread (block : Block) : @prog (SSState unit) pv_event pv_reply :=
  do r <- @SingleSigner_Sign unit toy_priv toy_pv_json toy_codec toy_pv_config 0 "chain" block; Ret (PSign "chain" block r).

(** Two requests that differ in their timestamps, one after the other *)
Definition toy_ss_pool : @pool (SSState unit) pv_event pv_reply :=
  pool_exec (steps 0 9 ++ steps 1 9)
    (mkPool (mkSSState {[ "chain" := 0%nat ]} [toy_file_pv] toy_pv_fs) []
       [toy_ss_thread (toy_pv_block 5 9 [1; 2; 5; 0; 9; 42] None);
        toy_ss_thread (toy_pv_block 5 10 [1; 2; 5; 0; 10; 42] None)]).

(** ** Lemmas *)

(** What the check of the key means. *)
Lemma pv_CheckHRS_cases lss h r s :
  match pv_CheckHRS lss h r s with
  | Ok true => lss_key lss = mkHRSKey h r s ∧ is_nil (lss_SignBytes lss) = false ∧ is_nil (lss_Signature lss) = false
  | Ok false => hrs_lt (lss_key lss) (mkHRSKey h r s)
  | _ => True
  end.
Proof.
  unfold pv_CheckHRS, hrs_lt, lss_key. cbn.
  destruct (Z.ltb_spec h (lss_Height lss)); [done|]. destruct (Z.eqb_spec (lss_Height lss) h) as [<-|]; [|lia].
  destruct (Z.ltb_spec r (lss_Round lss)); [done|]. destruct (Z.eqb_spec (lss_Round lss) r) as [<-|]; [|lia].
  destruct (Z.ltb_spec s (lss_Step lss)); [done|]. destruct (Z.eqb_spec (lss_Step lss) s) as [<-|]; [|lia].
  destruct (is_nil (lss_SignBytes lss)); cbn; [done|]. by destruct (is_nil (lss_Signature lss)).
Qed.

Section sign.
Context {K : Type} `{PK : !PrivKey K} `{PJ : !PVJson K} `{C : !Codec}.

Lemma sign_again_Ok now lss block extSig signed :
  sign_again now lss block extSig = Ok signed →
  sg_Signature signed = lss_Signature lss
  ∧ same_payload (b_Step block) (slice (b_SignBytes block)) (slice (lss_SignBytes lss)).
Proof.
  unfold sign_again, same_payload. unfold bytes_Equal. case_bool_decide as E; [intros [= <-]; split; [done|by left]|].
  destruct (b_Step block =? stepPropose).
  - unfold checkProposalsOnlyDifferByTimestamp.
    destruct (unmarshalProposal (slice (lss_SignBytes lss))) as [p| |]; [|done|done].
    destruct (unmarshalProposal (slice (b_SignBytes block))) as [q| |]; [|done|done]. cbn [result_bind fst snd].
    destruct (proposalEqual _ _) eqn:Eq; [|done]. intros [= <-]. split; [done|]. right. by exists q, p, now.
  - destruct (_ || _); [|done]. unfold checkVotesOnlyDifferByTimestamp.
    destruct (unmarshalVote (slice (lss_SignBytes lss))) as [p| |]; [|done|done].
    destruct (unmarshalVote (slice (b_SignBytes block))) as [q| |]; [|done|done]. cbn [result_bind fst snd].
    destruct (voteEqual _ _) eqn:Eq; [|done]. intros [= <-]. split; [done|]. right. by exists q, p, now.
Qed.

(** A request either leaves everything and may be answered with the last signature, or it
    raises the watermark to its key with a new one. *)
Lemma FilePV_Sign_cases now chainID block (pv : FilePV K) fs pv' fs' signed r :
  FilePV_Sign now chainID block pv fs = (pv', fs', signed, r) →
  let lss := pv_LastSignState pv in
  match signed with
  | None =>
      pv' = pv ∧ fs' = fs
      ∧ ∀ sg, r = Ok sg →
          lss_key lss = block_key block ∧ is_nil (lss_SignBytes lss) = false ∧ sg_Signature sg = lss_Signature lss
          ∧ same_payload (b_Step block) (slice (b_SignBytes block)) (slice (lss_SignBytes lss))
  | Some sig =>
      let lss' := mkLastSignState (b_Height block) (i32 (b_Round block)) (b_Step block) sig (b_SignBytes block)
                    (lss_filePath lss) in
      hrs_lt (lss_key lss) (block_key block) ∧ pk_Sign (fk_PrivKey (pv_Key pv)) (b_SignBytes block) = Ok sig
      ∧ pv' = mkFilePV (pv_Key pv) lss'
      ∧ ∀ sg, r = Ok sg → sg_Signature sg = sig ∧ sg_Timestamp sg = b_Timestamp block ∧ lss_Save lss' fs = Ok fs'
  end.
Proof.
  unfold FilePV_Sign. pose proof (pv_CheckHRS_cases (pv_LastSignState pv) (b_Height block) (i32 (b_Round block)) (b_Step block)) as Hc.
  destruct (pv_CheckHRS _ _ _ _) as [same|e|m]; [|intros [= <- <- <- <-]; split; [done|]; by split..].
  destruct (verifySignPayload _ _ _) as [[k hasExt]|e|m]; [|intros [= <- <- <- <-]; split; [done|]; by split..].
  destruct (if hasExt then _ else _) as [ext|e|m]; [|intros [= <- <- <- <-]; split; [done|]; by split..].
  destruct same.
  - intros [= <- <- <- <-]. split; [done|]. split; [done|]. intros sg Hs. apply sign_again_Ok in Hs as [E1 E2].
    by destruct Hc as (? & ? & ?).
  - destruct (pk_Sign _ (b_SignBytes block)) as [sig|e|m] eqn:Es; [|intros [= <- <- <- <-]; split; [done|]; by split..].
    destruct (lss_Save _ fs) as [fs1|e|m] eqn:Ev; intros [= <- <- <- <-]; (split; [done|]); (split; [done|]); (split; [done|]);
      [|done|done]. by intros sg [= <-].
Qed.
End sign.

(** *** In every interleaving *)

Section safety.
Context {K : Type} `{PK : !PrivKey K} `{PJ : !PVJson K} `{C : !Codec}.
Context (config : RuntimeConfig) (cid : string) (loc0 : nat).
Local Abbreviation inv := (pv_inv (K := K) cid loc0).

Lemma pv_backed_stable : stable (pv_backed cid loc0).
Proof.
  intros r l l' Hl. destruct r as [chainID block [signed| |]|]; [|done..]. cbn. intros H Hc.
  destruct (H Hc) as (bs & Hb & Hs). exists bs. split; [by apply Hl|done].
Qed.

(** Loading another chain keeps the state of this one. *)
Lemma ss_inv_store chainID pv s log :
  inv s log → chainID ≠ cid →
  inv (mkSSState (<[chainID := length (ss_heap s)]> (ss_chainState s)) (ss_heap s ++ [pv]) (ss_fs s)) log.
Proof.
  intros (Hc & pv0 & Hp & H) Hn. split; [cbn; by rewrite lookup_insert_ne|]. exists pv0. split; [|done].
  cbn. by rewrite lookup_app_l by (by eapply lookup_lt_Some).
Qed.

Lemma wp_load chainID known :
  wp inv (loadChainStateIfNecessary config chainID) known
    (λ r _, chainID = cid → ∀ loc, r = Ok loc → loc = loc0).
Proof.
  unfold loadChainStateIfNecessary. destruct (ValidateChainID chainID); [|done|done].
  apply wp_reading. intros s log HI _. destruct (ss_chainState s !! chainID) as [loc|] eqn:El.
  - cbn. intros -> loc' [= <-]. destruct HI as [Hc _]. rewrite Hc in El. by injection El.
  - assert (chainID ≠ cid) as Hn by (intros ->; destruct HI as [Hc _]; by rewrite Hc in El).
    assert (∀ A (f : SSState K → result A goerror) (k : A → prog (result nat goerror)) known',
      (∀ a l, wp inv (k a) l (λ r _, chainID = cid → ∀ loc, r = Ok loc → loc = loc0)) →
      wp inv (prog_try (reading f) k) known' (λ r _, chainID = cid → ∀ loc, r = Ok loc → loc = loc0)) as Hstep.
    { intros A f k known' Hk. apply wp_reading. intros s' log' _ _. by destruct (f s'). }
    do 4 (apply Hstep; intros ? ?). intros s' log' s'' ev b HI' _ [= <- <- <-]. rewrite app_nil_r.
    split; [by apply ss_inv_store|]. cbn. done.
Qed.

(** A new signature of this chain, and one of another *)
Lemma inv_signed pv s log block sig fs' :
  inv s log → ss_heap s !! loc0 = Some pv → hrs_lt (lss_key (pv_LastSignState pv)) (block_key block) →
  let lss' := mkLastSignState (b_Height block) (i32 (b_Round block)) (b_Step block) sig (b_SignBytes block)
                (lss_filePath (pv_LastSignState pv)) in
  inv (mkSSState (ss_chainState s) (<[loc0 := mkFilePV (pv_Key pv) lss']> (ss_heap s)) fs')
    (log ++ [EvSigned loc0 (block_key block) (b_SignBytes block) sig]).
Proof.
  intros (Hc & pv0 & Hp & Hlast & Hle & Huniq) Hpv Hlt lss'. rewrite Hp in Hpv. injection Hpv as <-. split; [done|].
  eexists. split; [apply list_lookup_insert_eq; by eapply lookup_lt_Some|]. cbn.
  assert (∀ hrs bs sig', EvSigned loc0 hrs bs sig' ∈ log → hrs_lt hrs (block_key block)) as Hnew.
  { intros hrs bs sig' Hin. destruct (Hle _ _ _ Hin) as [Hl| ->]; [by etransitivity|done]. }
  split; [intros _; apply elem_of_app; right; by apply list_elem_of_singleton|]. split.
  - intros hrs bs sig' [Hin|Hin]%elem_of_app; [left; by eapply Hnew|].
    apply list_elem_of_singleton in Hin as [= -> _ _]. by right.
  - intros hrs bs s1 bs' s2 [H1|H1]%elem_of_app [H2|H2]%elem_of_app;
      try apply list_elem_of_singleton in H1; try apply list_elem_of_singleton in H2; simplify_eq; [by eapply Huniq| | |done];
      [apply Hnew in H1|apply Hnew in H2]; by edestruct hrs_lt_irrefl.
Qed.

Lemma inv_signed_other loc pv s log hrs bs sig fs' :
  inv s log → loc ≠ loc0 →
  inv (mkSSState (ss_chainState s) (<[loc := pv]> (ss_heap s)) fs') (log ++ [EvSigned loc hrs bs sig]).
Proof.
  intros (Hc & pv0 & Hp & Hlast & Hle & Huniq) Hne. split; [done|]. exists pv0. split; [cbn; by rewrite list_lookup_insert_ne|].
  assert (∀ hrs' bs' s', EvSigned loc0 hrs' bs' s' ∈ log ++ [EvSigned loc hrs bs sig] → EvSigned loc0 hrs' bs' s' ∈ log) as Hold.
  { intros hrs' bs' s' [H|H]%elem_of_app; [done|]. apply list_elem_of_singleton in H. by injection H. }
  split; [intros Hn; apply elem_of_app; left; by apply Hlast|]. split.
  - intros hrs' bs' s' H. eapply Hle. by eapply Hold.
  - intros hrs' bs1 s1 bs2 s2 H1 H2. eapply Huniq; by eapply Hold.
Qed.

(** The section under the mutex *)
Lemma inv_sign now chainID block loc s log pv pv' fs' signed r :
  inv s log → ss_heap s !! loc = Some pv → FilePV_Sign now chainID block pv (ss_fs s) = (pv', fs', signed, r) →
  let ev := match signed with
            | Some sig => [EvSigned loc (block_key block) (b_SignBytes block) sig]
            | None => []
            end in
  inv (mkSSState (ss_chainState s) (<[loc := pv']> (ss_heap s)) fs') (log ++ ev)
  ∧ (chainID = cid → loc = loc0 → pv_backed cid loc0 (PSign chainID block r) (log ++ ev)).
Proof.
  intros HI Hpv Hsign ev. pose proof (FilePV_Sign_cases _ _ _ _ _ _ _ _ _ Hsign) as Hcases.
  destruct signed as [sig|]; subst ev.
  - destruct Hcases as (Hlt & _ & -> & Hr). split.
    + destruct (decide (loc = loc0)) as [->|Hne]; [by apply inv_signed|by apply inv_signed_other].
    + intros -> ->. destruct r as [sg| |]; [|done|done]. intros _. destruct (Hr sg eq_refl) as (-> & _).
      exists (b_SignBytes block). split; [apply elem_of_app; right; by apply list_elem_of_singleton|by left].
  - destruct Hcases as (-> & -> & Hr). rewrite app_nil_r, list_insert_id by done. split; [by destruct s|].
    intros -> ->. destruct r as [sg| |]; [|done|done]. intros _. destruct HI as (_ & pv0 & Hp & Hlast & _).
    rewrite Hp in Hpv. injection Hpv as <-. destruct (Hr sg eq_refl) as (Hk & Hn & Hsg & Hsame).
    exists (lss_SignBytes (pv_LastSignState pv0)). split; [|done]. rewrite Hsg, <- Hk. by apply Hlast.
Qed.

Lemma ss_handler_backed p : ss_handler config p → wp inv p [] (pv_backed cid loc0).
Proof.
  destruct 1 as [now chainID block|chainID].
  - eapply wp_seq with (R := λ r l, pv_backed cid loc0 (PSign chainID block r) l); [|by intros a l _ H].
    eapply wp_seq_try; [apply wp_load| |done|done]. intros loc l _ Hloc s log s' ev r HI _.
    destruct (ss_heap s !! loc) as [pv|] eqn:Ep; [|intros [= <- <- <-]; rewrite app_nil_r; by split].
    destruct (FilePV_Sign now chainID block pv (ss_fs s)) as [[[pv' fs'] signed] r'] eqn:Es. intros [= <- <- <-].
    destruct (inv_sign _ _ _ _ _ _ _ _ _ _ _ HI Ep Es) as [HI' Hb]. split; [done|]. cbn [wp].
    destruct (decide (chainID = cid)) as [->|Hne]; [apply Hb; [done|by eapply Hloc]|].
    destruct r'; [|done|done]. by intros ->.
  - eapply wp_seq with (R := λ _ _, True); [|by intros]. eapply wp_seq_try; [apply wp_load| |done|done].
    intros loc l _ _ s log s' ev r HI _ [= <- <- <-]. rewrite app_nil_r. by split.
Qed.
End safety.

(** *** Files *)

Section files.
Context {K : Type} `{PK : !PrivKey K} `{PJ : !PVJson K} `{PL : !PVJsonLaws K PJ}.

Lemma or_panic_Ok {A} (r : result A goerror) a : or_panic r = Ok a → r = Ok a.
Proof. by destruct r. Qed.

Lemma lss_Save_Ok lss fs fs' :
  lss_Save lss fs = Ok fs' →
  ∃ bs, marshal_lss lss = Ok bs ∧ fs' = mkFS (<[lss_filePath lss := Content bs]> (fs_files fs)) (fs_write_error fs).
Proof.
  unfold lss_Save. destruct (String.eqb _ _); [done|]. destruct (marshal_lss lss) as [bs| |]; [|done|done].
  cbn [or_panic result_bind]. unfold WriteFileAtomic. destruct (fs_write_error fs _); [done|]. intros [= <-]. by exists bs.
Qed.

(** What was saved is loaded. *)
Lemma load_saved lss fs fs' :
  lss_Save lss fs = Ok fs' →
  load_state (lss_filePath lss) true fs' = Ok (with_path (lss_filePath lss) (lss_decoded lss)).
Proof using PL.
  intros (bs & Hm & ->)%lss_Save_Ok. unfold load_state, ReadFile. cbn [fs_files]. rewrite lookup_insert_eq. cbn [result_bind].
  by rewrite (lss_roundtrip _ _ Hm).
Qed.

Lemma load_key_unchanged lss fs fs' keyFile :
  lss_Save lss fs = Ok fs' → keyFile ≠ lss_filePath lss → load_key keyFile fs' = load_key keyFile fs.
Proof.
  intros (bs & _ & ->)%lss_Save_Ok Hne. unfold load_key, ReadFile. cbn [fs_files]. by rewrite lookup_insert_ne.
Qed.

Lemma omitempty_id b : 0 < blen b → omitempty b = b.
Proof. intros H. unfold omitempty. by rewrite (proj2 (Z.eqb_neq _ _)) by lia. Qed.
End files.

Lemma toy_pv_json_laws : PVJsonLaws unit toy_pv_json.
Proof.
  split; [by intros ? ? [] ?|]. intros lss bs [= <-]. cbn [unmarshal_lss toy_pv_json]. unfold toy_unmarshal_lss. cbn [app].
  rewrite toy_get_put. rewrite <- (app_nil_r (toy_put (omitempty (lss_SignBytes lss)))). by rewrite toy_get_put.
Qed.

(** ** Theorems *)

(** C6: a single signer whose chain is loaded signs at most one payload at a height, round and
    step of the chain, in any interleaving of its requests.  Whatever it answers is the
    signature made at the key of the request, over a payload that differs from the requested
    one by its timestamp at most. *)
Theorem single_signer_no_double_sign
    {K : Type} `{PK : !PrivKey K} `{PJ : !PVJson K} `{C : !Codec} config cid loc (s : SSState K) pv pl :
  ss_chainState s !! cid = Some loc → ss_heap s !! loc = Some pv →
  rtc (pool_step (ss_handler config)) (mkPool s (loaded_signature loc (pv_LastSignState pv)) []) pl →
  (∀ hrs bs sig bs' sig', EvSigned loc hrs bs sig ∈ pl_log pl → EvSigned loc hrs bs' sig' ∈ pl_log pl → bs = bs' ∧ sig = sig')
  ∧ ∀ i block signed, pl_threads pl !! i = Some (Ret (PSign cid block (Ok signed))) →
      ∃ bs, EvSigned loc (block_key block) bs (sg_Signature signed) ∈ pl_log pl
        ∧ same_payload (b_Step block) (slice (b_SignBytes block)) (slice bs).
Proof.
  intros Hc Hp Hrtc. assert (pv_inv cid loc s (loaded_signature loc (pv_LastSignState pv))) as Hinv.
  { split; [done|]. exists pv. split; [done|]. cbn. unfold loaded_signature. destruct (is_nil _) eqn:E.
    - split; [done|]. split; [by intros ? ? ? H%elem_of_nil|by intros ? ? ? ? ? H%elem_of_nil].
    - split; [intros _; by apply list_elem_of_singleton|].
      split; intros *; rewrite ?list_elem_of_singleton; intros; simplify_eq; [by right|done]. }
  destruct (pool_sound _ _ _ (pv_backed_stable cid loc) (ss_handler_backed config cid loc) _ _ _ Hinv Hrtc)
    as [(_ & ? & _ & _ & _ & Hu) HQ].
  split; [done|]. intros i block signed Hi. by apply (HQ _ _ Hi).
Qed.

Lemma single_signer_no_double_sign_witness :
  ∃ bs, EvSigned 0 (mkHRSKey 5 0 3) bs (Some [1; 2; 5; 0; 9; 42]) ∈ pl_log toy_ss_pool
    ∧ @same_payload toy_codec 3 [1; 2; 5; 0; 10; 42] (slice bs).
Proof.
  refine (proj2 (@single_signer_no_double_sign unit toy_priv toy_pv_json toy_codec toy_pv_config "chain" 0
    (mkSSState {[ "chain" := 0%nat ]} [toy_file_pv] toy_pv_fs) toy_file_pv toy_ss_pool eq_refl eq_refl _)
    1%nat (toy_pv_block 5 10 [1; 2; 5; 0; 10; 42] None) (mkSigned (Some [1; 2; 5; 0; 9; 42]) None 9) _);
    [|vm_compute; reflexivity].
  etransitivity; [|apply pool_exec_rtc]. apply pool_spawn_all. repeat constructor.
Defined.

(** A process that restarts after it answered with a new signature loads the validator it
    was before: the same key, watermark, payload and signature. *)
Theorem single_signer_restart
    {K : Type} `{PK : !PrivKey K} `{PJ : !PVJson K} `{PL : !PVJsonLaws K PJ} `{C : !Codec}
    now chainID block (pv : FilePV K) fs pv' fs' sig signed keyFile :
  FilePV_Sign now chainID block pv fs = (pv', fs', Some sig, Ok signed) →
  load_key keyFile fs = Ok (pv_Key pv) → keyFile ≠ lss_filePath (pv_LastSignState pv) →
  0 < blen sig → 0 < blen (b_SignBytes block) →
  LoadFilePV keyFile (lss_filePath (pv_LastSignState pv)) true fs' = Ok pv'.
Proof.
  intros Hs Hk Hne Hsig Hbs. destruct (FilePV_Sign_cases _ _ _ _ _ _ _ _ _ Hs) as (_ & _ & -> & Hr).
  destruct (Hr signed eq_refl) as (_ & _ & Hsave). unfold LoadFilePV.
  rewrite (load_key_unchanged _ _ _ keyFile Hsave) by done. rewrite Hk. cbn [result_bind].
  pose proof (load_saved _ _ _ Hsave) as Hl. cbn [lss_filePath] in Hl. rewrite Hl. cbn [result_bind].
  unfold with_path, lss_decoded. cbn. by rewrite !omitempty_id.
Qed.

Lemma single_signer_restart_witness :
  let '(pv', fs', _, _) := toy_FilePV_Sign (toy_pv_block 5 9 [1; 2; 5; 0; 9; 42] None) toy_file_pv toy_pv_fs in
  @LoadFilePV unit toy_priv toy_pv_json toy_key_file toy_state_file true fs' = Ok pv'.
Proof.
  refine (@single_signer_restart unit toy_priv toy_pv_json toy_pv_json_laws toy_codec 0 "chain"
    (toy_pv_block 5 9 [1; 2; 5; 0; 9; 42] None) toy_file_pv toy_pv_fs _ _ (Some [1; 2; 5; 0; 9; 42])
    (mkSigned (Some [1; 2; 5; 0; 9; 42]) None 9) toy_key_file _ _ _ _ _); vm_compute; (reflexivity || discriminate).
Defined.

(** The single signer takes the key of a request at its word.  [FilePV.Sign] decodes the
    payload but drops the height, round and step it finds there; two requests that name
    growing heights get two blocks of one height signed. *)
Theorem single_signer_trusts_key :
  let b1 := toy_pv_block 10 9 [1; 2; 5; 0; 9; 42] None in
  let b2 := toy_pv_block 11 9 [1; 2; 5; 0; 9; 43] None in
  let '(pv1, fs1, _, r1) := toy_FilePV_Sign b1 toy_file_pv toy_pv_fs in
  let '(_, _, _, r2) := toy_FilePV_Sign b2 pv1 fs1 in
  r1 = Ok (mkSigned (Some [1; 2; 5; 0; 9; 42]) None 9) ∧ r2 = Ok (mkSigned (Some [1; 2; 5; 0; 9; 43]) None 9)
  ∧ @verifySignPayload toy_codec "chain" (b_SignBytes b1) None = Ok (mkHRSTKey 5 0 3 9, false)
  ∧ @verifySignPayload toy_codec "chain" (b_SignBytes b2) None = Ok (mkHRSTKey 5 0 3 9, false).
Proof. vm_compute. repeat split. Qed.

(** The same request again gets the same signature, but none for its extension. *)
Theorem repeat_drops_extension :
  let block := toy_pv_block 5 9 [1; 2; 5; 0; 9; 42] (Some [3; 5; 0; 77]) in
  let '(pv1, fs1, _, r1) := toy_FilePV_Sign block toy_file_pv toy_pv_fs in
  let '(_, _, _, r2) := toy_FilePV_Sign block pv1 fs1 in
  r1 = Ok (mkSigned (Some [1; 2; 5; 0; 9; 42]) (Some [3; 5; 0; 77]) 9)
  ∧ r2 = Ok (mkSigned (Some [1; 2; 5; 0; 9; 42]) None 9).
Proof. vm_compute. repeat split. Qed.

(** Two first requests that race in [loadChainStateIfNecessary] each get a state with a mutex
    of its own, and two different blocks of one height are signed. *)
Theorem racing_loads_single_signer :
  let b1 := toy_pv_block 5 9 [1; 2; 5; 0; 9; 42] None in
  let b2 := toy_pv_block 5 9 [1; 2; 5; 0; 9; 43] None in
  ∃ pl r1 r2,
    rtc (pool_step toy_ss_handler) (mkPool (NewSingleSignerValidator toy_pv_fs) [] []) pl
    ∧ pl_threads pl = [Ret (PSign "chain" b1 (Ok r1)); Ret (PSign "chain" b2 (Ok r2))]
    ∧ sg_Signature r1 = b_SignBytes b1 ∧ sg_Signature r2 = b_SignBytes b2.
Proof.
  intros b1 b2. exists (pool_exec (steps 0 5 ++ steps 1 9 ++ steps 0 9)
    (mkPool (NewSingleSignerValidator toy_pv_fs) [] [toy_ss_thread b1; toy_ss_thread b2])).
  eexists _, _. split; [|split; [vm_compute; reflexivity|by split]].
  etransitivity; [|apply pool_exec_rtc]. apply pool_spawn_all. repeat constructor.
Qed.
