(* ===== verification/RemoteSigner.v ===== *)
(** * The remote signer

    What a process does for its chain nodes.  It dials each node and answers the node's
    requests ([ReconnRemoteSigner] of signer/remote_signer.go; the loop over a connection is
    in SignerLoop.v), and it serves the same requests over gRPC
    (signer/remote_signer_grpc_server.go).  Both call a [PrivValidator], which is the
    threshold validator or the single signer.

    The interface is the class [PrivValidator]; [PrivValidatorSpec] is what a validator
    promises: an invariant its calls keep in any interleaving, and what a signature it
    returns is backed by.  The theorems on the handlers are proved from the promise, and
    SingleSigner.v and ValidatorSafety.v discharge it.

    A sign request that runs out of time is answered while its goroutine still runs: the
    request is then one thread and the goroutine, [signAndTrack], another.  Metrics are
    events of the log, with the integer a float is made of. *)

From S2P Require Import Prelude Hrs Errors Comet SignState Config Cosigner Conc NonceCache CosignerHealth LocalCosigner ThresholdValidator CosignerProto RemoteProto SignSafety LocalNet ValidatorSafety Rpc SingleSigner.
From stdpp Require Import base gmap list strings numbers relations.
From Stdlib Require Import ZArith Lia.

Open Scope string_scope.
Open Scope list_scope.
Open Scope Z_scope.

(** ** Definitions *)

(** *** The interface of a validator *)

(** [PV_Env] is what a call reads of its surroundings, such as the clock. *)
Class PrivValidator (S E : Type) := {
  PV_Env : Type;
  PV_Sign : PV_Env → string → Block → @prog S E (result Signed goerror);
  PV_GetPubKey : string → @prog S E (result gobytes goerror)
}.

Class PrivValidatorSpec {S E : Type} (V : PrivValidator S E) := {
  pvs_inv : S → list E → Prop;
  pvs_backed : string → Block → Signed → list E → Prop;
  pvs_stable chainID block : stable (pvs_backed chainID block);
  pvs_Sign env chainID block :
    wp pvs_inv (PV_Sign env chainID block) [] (λ r log, ∀ sg, r = Ok sg → pvs_backed chainID block sg log);
  pvs_GetPubKey chainID : wp pvs_inv (PV_GetPubKey chainID) [] (λ _ _, True)
}.

(** *** The requests of a chain node *)

Record RemoteSignerError := mkRemoteSignerError {
  rse_Code : Z;
  rse_Description : string
}.

Record SignVoteRequest := mkSignVoteRequest {
  svr_Vote : option Vote;
  svr_ChainId : string
}.

Record SignProposalRequest := mkSignProposalRequest {
  spr_Proposal : option Proposal;
  spr_ChainId : string
}.

(** [crypto.PublicKey] *)
Inductive PublicKey : Type :=
| NoPublicKey
| PublicKey_Ed25519 (bs : gobytes)
| PublicKey_Secp256K1 (bs : gobytes).

(** [privval.Message]: its [Sum] is nil or one of the messages; a request is a pointer. *)
Inductive Message : Type :=
| NoSum
| Message_SignVoteRequest (req : option SignVoteRequest)
| Message_SignProposalRequest (req : option SignProposalRequest)
| Message_PubKeyRequest (chainID : option string)
| Message_PingRequest
| Message_SignedVoteResponse (vote : Vote) (err : option RemoteSignerError)
| Message_SignedProposalResponse (proposal : Proposal) (err : option RemoteSignerError)
| Message_PubKeyResponse (pubKey : PublicKey) (err : option RemoteSignerError)
| Message_PingResponse.

(** [SignedMsgType.String] *)
Definition type_String (t : Z) : string :=
  if t =? UnknownType then "SIGNED_MSG_TYPE_UNKNOWN"
  else if t =? PrevoteType then "SIGNED_MSG_TYPE_PREVOTE"
  else if t =? PrecommitType then "SIGNED_MSG_TYPE_PRECOMMIT"
  else if t =? ProposalType then "SIGNED_MSG_TYPE_PROPOSAL"
  else fmt_d t.

Definition zero_block_id : BlockID := mkBlockID None 0 None.
Definition zero_vote : Vote := mkVote 0 0 0 zero_block_id zero_time None 0 None None None.
Definition zero_proposal : Proposal := mkProposal 0 0 0 0 zero_block_id zero_time None.

(** The fields the signer owns *)
Definition signed_vote (vote : Vote) (sg : Signed) : Vote :=
  mkVote (v_Type vote) (v_Height vote) (v_Round vote) (v_BlockID vote) (sg_Timestamp sg) (v_ValidatorAddress vote)
    (v_ValidatorIndex vote) (sg_Signature sg) (v_Extension vote) (sg_VoteExtensionSignature sg).

Definition signed_proposal (p : Proposal) (sg : Signed) : Proposal :=
  mkProposal (p_Type p) (p_Height p) (p_Round p) (p_PolRound p) (p_BlockID p) (sg_Timestamp sg) (sg_Signature sg).

Definition getRemoteSignerError (err : goerror) : option RemoteSignerError :=
  Some (mkRemoteSignerError 0 (Error err)).

(** *** Refusals *)

Definition signRefusalMessages : list string :=
  ["height regression. Got "; "round regression at height "; "step regression at height "; "conflicting data";
   "differing block IDs - last Vote: "; "already signed vote with "; "HRS is the same as current: ";
   "Progress already started on block "; "no SignBytes found"].

(** The targets of [errors.As] *)
Definition is_refusal (e : goerror) : bool :=
  match e with
  | BeyondBlockError _ | HeightRegressionError _ _ | RoundRegressionError _ _ _ | StepRegressionError _ _ _ _
  | ConflictingDataError _ | DiffBlockIDsError _ _ | AlreadySignedVoteError _ | SameHRSError _ => true
  | _ => false
  end.

Definition signRefusal (err : goerror) : bool :=
  errors_As is_refusal err || existsb (strings_Contains (Error err)) signRefusalMessages.

(** An error that shows in its text that it is a refusal *)
Definition refusal_text (e : goerror) : Prop :=
  ∃ msg, msg ∈ signRefusalMessages ∧ strings_Contains (Error e) msg = true.

(** *** Metrics *)

Inductive metric : Type :=
| MInc (name : string) (labels : list string)
| MAdd (name : string) (labels : list string) (v : Z)
| MSet (name : string) (labels : list string) (v : Z).

(** The variables of signer/metrics.go: the heights last voted at, and the times of the last votes. *)
Record RSState (S : Type) := mkRSState {
  rs_validator : S;
  previousPrevoteHeight : Z;
  previousPrecommitHeight : Z;
  previousPrevote : Z;
  previousPrecommit : Z
}.
Arguments mkRSState {S} _ _ _ _ _.
Arguments rs_validator {S} _.
Arguments previousPrevoteHeight {S} _.
Arguments previousPrecommitHeight {S} _.
Arguments previousPrevote {S} _.
Arguments previousPrecommit {S} _.

Definition set_validator {S} (v : S) (s : RSState S) : RSState S :=
  mkRSState v (previousPrevoteHeight s) (previousPrecommitHeight s) (previousPrevote s) (previousPrecommit s).

Inductive rs_event (E : Type) : Type :=
| EvValidator (e : E)
| EvMetric (m : metric).
Arguments EvValidator {E} e.
Arguments EvMetric {E} m.

Definition validator_event {E} (e : rs_event E) : option E :=
  match e with EvValidator e => Some e | EvMetric _ => None end.

Definition is_BeyondBlockError (e : goerror) : bool :=
  match e with BeyondBlockError _ => true | _ => false end.

Section signer.
Context {S E : Type} `{V : !PrivValidator S E} `{C : !Codec}.
Local Abbreviation P A := (@prog (RSState S) (rs_event E) A).

(** What one request reads of its surroundings: what its call of the validator does, and the clock. *)
Record request_env := mkRequestEnv {
  re_call : PV_Env;
  re_now : Z
}.

Definition lift {A} (p : @prog S E A) : P A := prog_lift rs_validator set_validator EvValidator p.

Definition emit (ms : list metric) : P unit := atomically (λ s, (s, EvMetric <$> ms, ())).

(** The counters of the missed votes; [prev] and [prev'] are two reads of one variable. *)
Definition missed (gauge total chainID : string) (height prev prev' : Z) : list metric :=
  let stepSize := i64 (height - prev) in
  if negb (prev' =? 0) && (1 <? stepSize) then [MAdd gauge [chainID] stepSize; MAdd total [chainID] stepSize]
  else [MSet gauge [chainID] 0].

(** The switch of [signAndTrack] on the step of what was signed *)
Definition track (now : Z) (chainID : string) (block : Block) : P unit :=
  if b_Step block =? stepPropose then
    emit [MSet "lastProposalHeight" [chainID] (b_Height block); MSet "lastProposalRound" [chainID] (b_Round block);
          MInc "totalProposalsSigned" [chainID]]
  else if b_Step block =? stepPrevote then
    do prev <- reading previousPrevoteHeight;
    do prev' <- reading previousPrevoteHeight;
    do _ <- emit (missed "missedPrevotes" "totalMissedPrevotes" chainID (b_Height block) prev prev');
    do _ <- atomic (λ s, (mkRSState (rs_validator s) (b_Height block) (previousPrecommitHeight s) (previousPrevote s) (previousPrecommit s), ()));
    do _ <- atomic (λ s, (mkRSState (rs_validator s) (previousPrevoteHeight s) (previousPrecommitHeight s) now (previousPrecommit s), ()));
    emit [MSet "lastPrevoteHeight" [chainID] (b_Height block); MSet "lastPrevoteRound" [chainID] (b_Round block);
          MInc "totalPrevotesSigned" [chainID]]
  else if b_Step block =? stepPrecommit then
    do prev <- reading previousPrecommitHeight;
    do prev' <- reading previousPrecommitHeight;
    do _ <- emit (missed "missedPrecommits" "totalMissedPrecommits" chainID (b_Height block) prev prev');
    do _ <- atomic (λ s, (mkRSState (rs_validator s) (previousPrevoteHeight s) (b_Height block) (previousPrevote s) (previousPrecommit s), ()));
    do _ <- atomic (λ s, (mkRSState (rs_validator s) (previousPrevoteHeight s) (previousPrecommitHeight s) (previousPrevote s) now, ()));
    emit [MSet "lastPrecommitHeight" [chainID] (b_Height block); MSet "lastPrecommitRound" [chainID] (b_Round block);
          MInc "totalPrecommitsSigned" [chainID]]
  else Ret ().

Definition signAndTrack (env : request_env) (chainID : string) (block : Block) : P (result Signed goerror) :=
  do r <- lift (PV_Sign (re_call env) chainID block);
  match r with
  | Panics m => Ret (Panics m)
  | Err err =>
      do _ <- emit [MInc (if is_BeyondBlockError err then "beyondBlockErrors" else "failedSignVote") [chainID]];
      Ret (Err err)
  | Ok sg => do _ <- track (re_now env) chainID block; Ret (Ok sg)
  end.

(** *** Over the connection to a chain node *)

Context (PubKeyToProto : gobytes → result PublicKey goerror).
Context (address : string).

(** The timeout prints as 3.5s. *)
Definition abandoned (deadline : bool) : goerror :=
  WrapError "sign request abandoned (timeout 3.5s): " (ContextError deadline).

(** The answer of the goroutine when it comes first, or the end of the context: its deadline, or a stop of the
    signer. *)
Definition signWithTimeout (env : request_env) (chainID : string) (block : Block) : P (result Signed goerror) :=
  Pick 3 (λ i,
    match i with
    | 0%nat =>
        do r <- signAndTrack env chainID block;
        Ret (match r with
             | Panics m => Err (ErrorString ("panic in sign path: " +:+ m))
             | r => r
             end)
    | 1%nat => Ret (Err (abandoned true))
    | _ => Ret (Err (abandoned false))
    end).

(** What follows the sign call in both handlers: the response, and whether to drop the connection *)
Definition answer_signed (chainID : string) (r : result Signed goerror) (ok : Signed → Message)
    (refused : option RemoteSignerError → Message) : P (result (Message * bool) goerror) :=
  match r with
  | Panics m => Ret (Panics m)
  | Err err =>
      if signRefusal err then
        do _ <- emit [MInc "chainNodeSignResults" [chainID; address; "refused"]];
        Ret (Ok (refused (getRemoteSignerError err), false))
      else
        do _ <- emit [MInc "totalAbandonedSignRequests" [chainID]; MInc "chainNodeSignResults" [chainID; address; "dropped"]];
        Ret (Ok (NoSum, true))
  | Ok sg =>
      do _ <- emit [MInc "chainNodeSignResults" [chainID; address; "signed"]];
      Ret (Ok (ok sg, false))
  end.

Definition handleSignVoteRequest (env : request_env) (chainID : string) (vote : option Vote)
    : P (result (Message * bool) goerror) :=
  let refused := Message_SignedVoteResponse zero_vote in
  match ValidateChainID chainID with
  | Panics m => Ret (Panics m)
  | Err err => Ret (Ok (refused (getRemoteSignerError err), false))
  | Ok _ =>
      match vote with
      | None => Ret (Ok (refused (getRemoteSignerError (ErrorString "vote is required")), false))
      | Some vote =>
          if negb (v_Type vote =? PrevoteType) && negb (v_Type vote =? PrecommitType) then
            Ret (Ok (refused (getRemoteSignerError (ErrorString ("unexpected vote type: " +:+ type_String (v_Type vote)))), false))
          else
            must block <- Ret (VoteToBlock chainID vote);
            do r <- signWithTimeout env chainID block;
            answer_signed chainID r (λ sg, Message_SignedVoteResponse (signed_vote vote sg) None) refused
      end
  end.

Definition handleSignProposalRequest (env : request_env) (chainID : string) (proposal : option Proposal)
    : P (result (Message * bool) goerror) :=
  let refused := Message_SignedProposalResponse zero_proposal in
  match ValidateChainID chainID with
  | Panics m => Ret (Panics m)
  | Err err => Ret (Ok (refused (getRemoteSignerError err), false))
  | Ok _ =>
      match proposal with
      | None => Ret (Ok (refused (getRemoteSignerError (ErrorString "proposal is required")), false))
      | Some proposal =>
          do r <- signWithTimeout env chainID (ProposalToBlock chainID proposal);
          answer_signed chainID r (λ sg, Message_SignedProposalResponse (signed_proposal proposal sg) None) refused
      end
  end.

Definition handlePubKeyRequest (chainID : string) : P (result Message goerror) :=
  let failed err := Message_PubKeyResponse NoPublicKey (getRemoteSignerError err) in
  match ValidateChainID chainID with
  | Panics m => Ret (Panics m)
  | Err err => Ret (Ok (failed err))
  | Ok _ =>
      do _ <- emit [MInc "totalPubKeyRequests" [chainID]];
      do r <- lift (PV_GetPubKey chainID);
      match r with
      | Panics m => Ret (Panics m)
      | Err err => Ret (Ok (failed err))
      | Ok pubKey =>
          match PubKeyToProto pubKey with
          | Panics m => Ret (Panics m)
          | Err err => Ret (Ok (failed err))
          | Ok pk => Ret (Ok (Message_PubKeyResponse pk None))
          end
      end
  end.

Definition handlePingRequest : Message := Message_PingResponse.

Definition handleRequest (env : request_env) (req : Message) : P (result (Message * bool) goerror) :=
  match req with
  | Message_SignVoteRequest None | Message_SignProposalRequest None | Message_PubKeyRequest None => Ret (Panics nil_dereference)
  | Message_SignVoteRequest (Some req) => handleSignVoteRequest env (svr_ChainId req) (svr_Vote req)
  | Message_SignProposalRequest (Some req) => handleSignProposalRequest env (spr_ChainId req) (spr_Proposal req)
  | Message_PubKeyRequest (Some chainID) => must m <- handlePubKeyRequest chainID; Ret (Ok (m, false))
  | Message_PingRequest => Ret (Ok (handlePingRequest, false))
  | _ => Ret (Ok (NoSum, false))
  end.

(** The response, whether to drop the connection, and whether a panic was recovered; [handleRequest] has no
    error to return. *)
Definition handleRequestSafely (env : request_env) (req : Message) : P (Message * bool * bool) :=
  do r <- handleRequest env req;
  Ret (match r with
       | Ok (res, dropReq) => (res, dropReq, false)
       | Err _ => (NoSum, false, false)
       | Panics _ => (NoSum, false, true)
       end).

(** *** Over gRPC *)

Definition RemoteSignerGRPCServer_PubKey (req : protoPubKeyRequest) : P (result protoPubKeyResponse goerror) :=
  let chainID := ppkq_ChainId req in
  match ValidateChainID chainID with
  | Panics m => Ret (Panics m)
  | Err err => Ret (Err err)
  | Ok _ =>
      do _ <- emit [MInc "totalPubKeyRequests" [chainID]];
      must pubKey <- lift (PV_GetPubKey chainID);
      Ret (Ok (mkProtoPubKeyResponse pubKey))
  end.

Definition RemoteSignerGRPCServer_Sign (env : request_env) (req : protoSignBlockRequest)
    : P (result protoSignBlockResponse goerror) :=
  match ValidateChainID (psbq_ChainID req) with
  | Panics m => Ret (Panics m)
  | Err err => Ret (Err err)
  | Ok _ =>
      match psbq_Block req with
      | None => Ret (Err (ErrorString "block is required"))
      | Some block =>
          must sg <- signAndTrack env (psbq_ChainID req) (BlockFromProto block);
          Ret (Ok (mkProtoSignBlockResponse (sg_Signature sg) (sg_VoteExtensionSignature sg) (UnixNano (sg_Timestamp sg))))
      end
  end.

(** *** All that runs in the process *)

Inductive rs_reply : Type :=
| RReply (req : Message) (out : Message * bool * bool)
| RGrpc (req : protoSignBlockRequest) (r : result protoSignBlockResponse goerror)
| RIdle.

(** A request of a node, a goroutine whose request ran out of time, a call over gRPC, or another program of the
    validator. *)
Inductive rs_handler (background : @prog S E unit → Prop) : P rs_reply → Prop :=
| RSRequest env req :
    rs_handler background (do out <- handleRequestSafely env req; Ret (RReply req out))
| RSAbandoned env chainID block :
    rs_handler background (do _ <- signAndTrack env chainID block; Ret RIdle)
| RSGrpcPubKey req :
    rs_handler background
      (do _ <- recoveryUnaryInterceptor _ _ req RemoteSignerGRPCServer_PubKey; Ret RIdle)
| RSGrpcSign env req :
    rs_handler background
      (do r <- recoveryUnaryInterceptor _ _ req (RemoteSignerGRPCServer_Sign env); Ret (RGrpc req r))
| RSBackground p : background p → rs_handler background (do _ <- lift p; Ret RIdle).

(** *** Specifications *)

(** A response fits its request, and an error in it is a refusal or an objection to the request itself. *)
Definition fits (req : Message) (out : Message * bool * bool) : Prop :=
  match req, out with
  | _, (_, _, true) => True
  | Message_SignVoteRequest (Some _), (NoSum, true, _) => True
  | Message_SignVoteRequest (Some req), (Message_SignedVoteResponse vote' err, false, _) =>
      match err with
      | None => ∃ vote sg, svr_Vote req = Some vote ∧ vote' = signed_vote vote sg
      | Some e =>
          vote' = zero_vote ∧ rse_Code e = 0
          ∧ (ValidateChainID (svr_ChainId req) ≠ Ok () ∨ svr_Vote req = None
             ∨ (∃ vote, svr_Vote req = Some vote ∧ v_Type vote ≠ PrevoteType ∧ v_Type vote ≠ PrecommitType)
             ∨ ∃ err, signRefusal err = true ∧ rse_Description e = Error err)
      end
  | Message_SignProposalRequest (Some _), (NoSum, true, _) => True
  | Message_SignProposalRequest (Some req), (Message_SignedProposalResponse p' err, false, _) =>
      match err with
      | None => ∃ p sg, spr_Proposal req = Some p ∧ p' = signed_proposal p sg
      | Some e =>
          p' = zero_proposal ∧ rse_Code e = 0
          ∧ (ValidateChainID (spr_ChainId req) ≠ Ok () ∨ spr_Proposal req = None
             ∨ ∃ err, signRefusal err = true ∧ rse_Description e = Error err)
      end
  | Message_PubKeyRequest (Some _), (Message_PubKeyResponse _ _, false, _) => True
  | Message_PingRequest, (Message_PingResponse, false, _) => True
  | (NoSum | Message_SignedVoteResponse _ _ | Message_SignedProposalResponse _ _ | Message_PubKeyResponse _ _
     | Message_PingResponse), (NoSum, false, _) => True
  | _, _ => False
  end.

(** A signature that is returned is backed. *)
Definition signed_ok `{PS : !PrivValidatorSpec V} (chainID : string) (block : Block) (r : result Signed goerror)
    (log : list (rs_event E)) : Prop :=
  ∀ sg, r = Ok sg → pvs_backed chainID block sg (omap validator_event log).

(** The answers of a validator that keeps its promise: a response that carries a signature is the request with what
    the validator returned for it. *)
Definition rs_backed `{PS : !PrivValidatorSpec V} (r : rs_reply) (log : list (rs_event E)) : Prop :=
  let backed chainID block sg := pvs_backed chainID block sg (omap validator_event log) in
  match r with
  | RReply (Message_SignVoteRequest (Some req)) (Message_SignedVoteResponse vote' None, _, _) =>
      ∃ vote block sg, svr_Vote req = Some vote ∧ VoteToBlock (svr_ChainId req) vote = Ok block
        ∧ vote' = signed_vote vote sg ∧ backed (svr_ChainId req) block sg
  | RReply (Message_SignProposalRequest (Some req)) (Message_SignedProposalResponse p' None, _, _) =>
      ∃ p sg, spr_Proposal req = Some p ∧ p' = signed_proposal p sg
        ∧ backed (spr_ChainId req) (ProposalToBlock (spr_ChainId req) p) sg
  | RGrpc req (Ok resp) =>
      ∃ block sg, psbq_Block req = Some block ∧ psbp_Signature resp = sg_Signature sg
        ∧ backed (psbq_ChainID req) (BlockFromProto block) sg
  | _ => True
  end.
End signer.

(** ** Validators *)

Section single_signer.
Context {K : Type} `{PK : !PrivKey K} `{PJ : !PVJson K} `{C : !Codec} (config : RuntimeConfig).

#[export] Instance SingleSignerValidator : PrivValidator (SSState K) pv_event := {|
  PV_Env := Z;
  PV_Sign now chainID block := SingleSigner_Sign config now chainID block;
  PV_GetPubKey := SingleSigner_GetPubKey config
|}.

#[export] Program Instance single_signer_spec (cid : string) (loc : nat) : PrivValidatorSpec SingleSignerValidator := {|
  pvs_inv := pv_inv cid loc;
  pvs_backed chainID block sg := pv_backed cid loc (PSign chainID block (Ok sg))
|}.
Next Obligation. intros cid loc chainID block sg l l' Hl. by apply pv_backed_stable. Qed.
Next Obligation.
  intros cid loc now chainID block. eapply wp_impl; [|apply wp_bind_inv, (ss_handler_backed config), HSign].
  intros r l H sg ->. exact H.
Qed.
Next Obligation.
  intros cid loc chainID. eapply wp_impl; [|apply wp_bind_inv, (ss_handler_backed config), HGetPubKey]. done.
Qed.
End single_signer.

Section threshold.
Context {W : Type} `{C : !Codec} `{J : !Json} `{N : !ClusterNet W}.
Context (sort_Slice : ∀ A, (A → A → bool) → list A → list A) (pv : ThresholdValidator).
Context (get_pub_key : string → W → W * result gobytes goerror).

(** [GetPubKey] asks the local cosigner. *)
#[export] Instance ThresholdSignerValidator : PrivValidator (TVState W) tv_event := {|
  PV_Env := unit;
  PV_Sign _ chainID block := ThresholdValidator.Sign sort_Slice pv chainID block;
  PV_GetPubKey chainID :=
    atomic (λ s, let '(w, r) := get_pub_key chainID (tv_world s) in (tv_set_world w s, r))
|}.

#[export] Program Instance threshold_spec : PrivValidatorSpec ThresholdSignerValidator := {|
  pvs_inv := tv_inv;
  pvs_backed chainID block sg log := justified (tv_threshold pv) chainID block log sg
|}.
Next Obligation. intros chainID block sg l l' Hl. by apply justified_mono. Qed.
Next Obligation.
  intros env chainID block. eapply wp_impl; [|apply wp_bind_inv, (handler_justified sort_Slice pv), TVSign].
  intros r l H sg ->. exact H.
Qed.
Next Obligation.
  intros chainID. apply tv_wp_atomic_same; [|done]. intros s s' b. destruct (get_pub_key _ _). by intros [= <- <-].
Qed.
End threshold.

(** *** Runs *)

Definition toy_signer : PrivValidator (SSState unit) pv_event :=
  @SingleSignerValidator unit toy_priv toy_pv_json toy_codec toy_pv_config.

Definition toy_rs_state (v : SSState unit) : RSState (SSState unit) := mkRSState v 0 0 0 0.

Definition toy_loaded : SSState unit := mkSSState {[ "chain" := 0%nat ]} [toy_file_pv] toy_pv_fs.

Definition toy_vote (height timestamp : Z) : Vote :=
  mkVote PrecommitType height 0 (mkBlockID (Some [42]) 1 (Some [7])) timestamp (Some [2]) 0 None None None.

Definition toy_vote_request (vote : Vote) : Message := Message_SignVoteRequest (Some (mkSignVoteRequest (Some vote) "chain")).

Definition ed25519_proto (bs : gobytes) : result PublicKey goerror := Ok (PublicKey_Ed25519 bs).

Definition toy_env : @request_env _ _ toy_signer := @mkRequestEnv _ _ toy_signer 0 0.

Definition toy_rs_handler := @rs_handler _ _ toy_signer toy_codec ed25519_proto "node" (λ _, False).

Definition toy_rs_thread (req : Message) : @prog (RSState (SSState unit)) (rs_event pv_event) rs_reply :=
  do out <- @handleRequestSafely _ _ toy_signer toy_codec ed25519_proto "node" toy_env req; Ret (RReply req out).

(** Two requests that differ in their timestamps *)
Definition toy_rs_pool : @pool (RSState (SSState unit)) (rs_event pv_event) rs_reply :=
  pool_exec (steps 0 15 ++ steps 1 15)
    (mkPool (toy_rs_state toy_loaded) [] [toy_rs_thread (toy_vote_request (toy_vote 5 9)); toy_rs_thread (toy_vote_request (toy_vote 5 10))]).

(** The vote with the signature both are answered with *)
Definition toy_signed_vote (timestamp : Z) : Vote :=
  signed_vote (toy_vote 5 timestamp) (mkSigned (Some [1; 2; 5; 0; 9; 42]) (Some [3; 5; 0]) 9).

Definition toy_prevote (height : Z) : Block := mkBlock height 0 stepPrevote None None 0.

(** A request over gRPC for a payload without a timestamp *)
Definition toy_grpc_request : protoSignBlockRequest :=
  mkProtoSignBlockRequest "chain" (Some (mkProtoBlock 5 0 3 (Some [1; 2; 5; 0; 9; 42]) None 0)).

(** The cluster of LocalNet.v behind a remote signer *)
Definition example_signer : PrivValidator (TVState (LocalNet unit)) tv_event :=
  @ThresholdSignerValidator _ toy_codec toy_json example_net insertionSort example_validator.1 (λ _ w, (w, Ok (Some [1]))).

Definition example_background (q : @prog (TVState (LocalNet unit)) tv_event unit) : Prop :=
  ∃ h, @tv_handler _ toy_codec toy_json example_net insertionSort example_validator.1 h ∧ q = (do _ <- h; Ret ()).

Definition example_rs_thread : @prog (RSState (TVState (LocalNet unit))) (rs_event tv_event) rs_reply :=
  do out <- @handleRequestSafely _ _ example_signer toy_codec ed25519_proto "node" (@mkRequestEnv _ _ example_signer () 0)
              (toy_vote_request (toy_vote 5 9));
  Ret (RReply (toy_vote_request (toy_vote 5 9)) out).

(** The request, answered in time: the choice of [signWithTimeout], then those of the cluster *)
Definition example_rs_pool : @pool (RSState (TVState (LocalNet unit))) (rs_event tv_event) rs_reply :=
  let s := mkRSState example_validator.2 0 0 0 0 in
  match thread_step 0 example_rs_thread s with
  | None => mkPool s [] []
  | Some (p, _, _) => pool_exec ((0%nat, 0%nat) :: drive 300 answering p s) (mkPool s [] [example_rs_thread])
  end.

(** ** Lemmas *)

Section wp_signer.
Context {S E : Type} `{V : !PrivValidator S E} `{C : !Codec} `{PS : !PrivValidatorSpec V}.
Context (PubKeyToProto : gobytes → result PublicKey goerror) (address : string).
Local Abbreviation Inv := (λ (s : RSState S) log, pvs_inv (rs_validator s) (omap validator_event log)).
Local Abbreviation anything := (λ _ _, True).

Lemma metrics_only (ms : list metric) : omap validator_event (EvMetric (E := E) <$> ms) = [].
Proof. by induction ms. Qed.

(** A section that leaves the validator alone *)
Lemma wp_aside {A} (f : RSState S → RSState S * list (rs_event E) * A) known Q :
  (∀ s s' ev a, f s = (s', ev, a) → rs_validator s' = rs_validator s ∧ omap validator_event ev = []) →
  (∀ a log, known ⊆ log → Q a log) → wp Inv (atomically f) known Q.
Proof.
  intros Hf HQ s log s' ev a HI Hk He. destruct (Hf _ _ _ _ He) as [Hv Hm].
  rewrite Hv, omap_app, Hm, app_nil_r. split; [done|]. cbn. apply HQ. intros x Hx. apply elem_of_app. left. by apply Hk.
Qed.

Lemma wp_emit ms known Q : (∀ log, known ⊆ log → Q () log) → wp Inv (emit ms) known Q.
Proof.
  intros HQ. apply wp_aside; [|by intros []]. intros s s' ev a [= <- <- <-]. split; [done|apply metrics_only].
Qed.

Lemma wp_set (f : RSState S → RSState S) known Q :
  (∀ s, rs_validator (f s) = rs_validator s) → (∀ log, known ⊆ log → Q () log) →
  wp Inv (atomic (λ s, (f s, ()))) known Q.
Proof. intros Hf HQ. apply (wp_aside (λ s, (f s, [], ()))); [|by intros []]. intros s s' ev a [= <- <- <-]. by rewrite Hf. Qed.

Lemma wp_track now chainID block known : wp Inv (track now chainID block) known anything.
Proof.
  unfold track. repeat case_match; [by apply wp_emit| | |done].
  all: do 2 (apply wp_reading; intros ? ? _ _).
  all: eapply (wp_seq _ _ _ _ anything); [by apply wp_emit|intros _ ? _ _].
  all: do 2 (eapply (wp_seq _ _ _ _ anything); [by apply wp_set|intros _ ? _ _]); by apply wp_emit.
Qed.

Lemma signed_ok_mono chainID block r l l' : l ⊆ l' → signed_ok chainID block r l → signed_ok chainID block r l'.
Proof.
  intros Hl H sg Hr. eapply pvs_stable; [|by apply H]. by apply omap_subseteq.
Qed.

Lemma wp_signAndTrack env chainID block known :
  wp Inv (signAndTrack env chainID block) known (signed_ok chainID block).
Proof.
  unfold signAndTrack. eapply wp_seq.
  - eapply (wp_lift rs_validator set_validator EvValidator validator_event (λ s' s, eq_refl) (λ e, eq_refl) pvs_inv); [|apply pvs_Sign|by intros x Hx%elem_of_nil].
    intros r l l' Hl H sg Hr. by eapply pvs_stable; [|apply H].
  - intros [sg|err|m] l _ H; [| |done].
    + eapply (wp_seq _ _ _ _ anything); [apply wp_track|]. intros _ l' Hl _. cbn. by eapply signed_ok_mono.
    + eapply (wp_seq _ _ _ _ anything); [by apply wp_emit|done].
Qed.

Lemma wp_signWithTimeout env chainID block known :
  wp Inv (signWithTimeout env chainID block) known (signed_ok chainID block).
Proof.
  intros [|[|i]] _; [|done|done]. eapply wp_seq; [apply wp_signAndTrack|]. by intros [sg|err|m] l _ H.
Qed.

(** The response to a signed request *)
Lemma wp_answer_signed chainID r ok refused known (Q : result (Message * bool) goerror → list (rs_event E) → Prop) :
  (∀ sg log, r = Ok sg → known ⊆ log → Q (Ok (ok sg, false)) log) →
  (∀ err log, Q (Ok (refused (getRemoteSignerError err), false)) log) → (∀ log, Q (Ok (NoSum, true)) log) →
  (∀ m log, Q (Panics m) log) →
  wp Inv (answer_signed address chainID r ok refused) known Q.
Proof.
  intros Hok Href Hdrop Hp. unfold answer_signed. destruct r as [sg|err|m]; [| |by apply Hp].
  - eapply (wp_seq _ _ _ _ anything); [by apply wp_emit|]. intros _ l Hl _. by apply Hok.
  - destruct (signRefusal err); (eapply (wp_seq _ _ _ _ anything); [by apply wp_emit|]); intros _ l Hl _; [apply Href|apply Hdrop].
Qed.

Lemma rs_backed_stable : stable rs_backed.
Proof.
  intros r l l' Hl. assert (∀ chainID block sg, pvs_backed chainID block sg (omap validator_event l) →
    pvs_backed chainID block sg (omap validator_event l')) as Hb.
  { intros. eapply pvs_stable; [|done]. by apply omap_subseteq. }
  destruct r as [req out|req [resp| |]|]; cbn; try done.
  - destruct req as [|[req|]|[req|]| | | | | |]; try done; destruct out as [[[] d] pn]; try done.
    + destruct err; [done|]. intros (v & block & sg & ? & ? & ? & ?). exists v, block, sg. auto.
    + destruct err; [done|]. intros (p & sg & ? & ? & ?). exists p, sg. auto.
  - intros (block & sg & ? & ? & ?). exists block, sg. auto.
Qed.

Local Abbreviation reply req r :=
  (RReply req (match r with
               | Ok (res, dropReq) => (res, dropReq, false)
               | Err _ => (NoSum, false, false)
               | Panics _ => (NoSum, false, true)
               end)).

Lemma wp_handleSignVoteRequest env req :
  wp Inv (handleSignVoteRequest address env (svr_ChainId req) (svr_Vote req)) []
    (λ r log, rs_backed (reply (Message_SignVoteRequest (Some req)) r) log).
Proof.
  unfold handleSignVoteRequest. destruct (ValidateChainID _); [|done|done].
  destruct (svr_Vote req) as [vote|] eqn:Ev; [|done]. destruct (negb _ && negb _); [done|].
  destruct (VoteToBlock (svr_ChainId req) vote) as [block|err|m] eqn:Eb; [|done|done]. cbn [prog_try prog_bind].
  eapply wp_seq; [apply wp_signWithTimeout|]. intros r l _ Hr. apply wp_answer_signed; [|done|done|done].
  intros sg log -> Hl. exists vote, block, sg. repeat split; [done..|]. eapply signed_ok_mono; [done|exact Hr|done].
Qed.

Lemma wp_handleSignProposalRequest env req :
  wp Inv (handleSignProposalRequest address env (spr_ChainId req) (spr_Proposal req)) []
    (λ r log, rs_backed (reply (Message_SignProposalRequest (Some req)) r) log).
Proof.
  unfold handleSignProposalRequest. destruct (ValidateChainID _); [|done|done].
  destruct (spr_Proposal req) as [p|] eqn:Ep; [|done].
  eapply wp_seq; [apply wp_signWithTimeout|]. intros r l _ Hr. apply wp_answer_signed; [|done|done|done].
  intros sg log -> Hl. exists p, sg. repeat split; [done..|]. eapply signed_ok_mono; [done|exact Hr|done].
Qed.

Lemma wp_lift_GetPubKey chainID known : wp Inv (lift (PV_GetPubKey chainID)) known anything.
Proof.
  eapply (wp_lift rs_validator set_validator EvValidator validator_event (λ s' s, eq_refl) (λ e, eq_refl) pvs_inv _ _ _ anything);
    [done|apply pvs_GetPubKey|by intros x Hx%elem_of_nil].
Qed.

Lemma wp_handleRequestSafely env req :
  wp Inv (handleRequestSafely PubKeyToProto address env req) [] (λ out log, rs_backed (RReply req out) log).
Proof.
  unfold handleRequestSafely. eapply wp_seq with (R := λ r log, rs_backed (reply req r) log); [|by intros r l _ H].
  destruct req as [|[req|]|[req|]|[chainID|]| | | | |]; try done.
  - apply wp_handleSignVoteRequest.
  - apply wp_handleSignProposalRequest.
  - cbn [handleRequest]. eapply (wp_seq_try _ _ _ _ anything); [|done..]. unfold handlePubKeyRequest.
    destruct (ValidateChainID chainID); [|done|done]. eapply (wp_seq _ _ _ _ anything); [by apply wp_emit|]. intros _ l _ _.
    eapply (wp_seq _ _ _ _ anything); [apply wp_lift_GetPubKey|]. intros [pk| |] l' _ _; [|done|done].
    by destruct (PubKeyToProto pk).
Qed.

Lemma wp_grpc_Sign env req :
  wp Inv (RemoteSignerGRPCServer_Sign env req) [] (λ r log, rs_backed (RGrpc req r) log).
Proof.
  unfold RemoteSignerGRPCServer_Sign. destruct (ValidateChainID _); [|done|done].
  destruct (psbq_Block req) as [block|] eqn:Eb; [|done].
  eapply wp_seq_try; [apply wp_signAndTrack| |done|done]. intros sg l _ H. exists block, sg. repeat split; [done..|]. by apply H.
Qed.

Lemma rs_handler_backed background p :
  (∀ q, background q → wp pvs_inv q [] (λ _ _, True)) →
  rs_handler PubKeyToProto address background p → wp Inv p [] rs_backed.
Proof.
  intros Hbg [env req|env chainID block|req|env req|q Hq].
  - eapply wp_seq; [apply wp_handleRequestSafely|]. by intros out l _ H.
  - eapply wp_seq; [apply wp_signAndTrack|done].
  - eapply (wp_seq _ _ _ _ anything); [|done]. unfold recoveryUnaryInterceptor. eapply (wp_seq _ _ _ _ anything); [|done].
    unfold RemoteSignerGRPCServer_PubKey. destruct (ValidateChainID _); [|done|done].
    eapply (wp_seq _ _ _ _ anything); [by apply wp_emit|]. intros _ l _ _.
    eapply (wp_seq_try _ _ _ _ anything); [apply wp_lift_GetPubKey|done..].
  - eapply wp_seq with (R := λ r log, rs_backed (RGrpc req r) log); [|by intros r l _ H].
    eapply wp_seq; [apply wp_grpc_Sign|]. by intros [resp| |] l _ H.
  - eapply (wp_seq _ _ _ _ anything); [|done].
    eapply (wp_lift rs_validator set_validator EvValidator validator_event (λ s' s, eq_refl) (λ e, eq_refl) pvs_inv _ _ _ anything);
      [done|by apply Hbg|by intros x Hx%elem_of_nil].
Qed.
End wp_signer.

(** *** Refusals *)

Ltac refusal_is n :=
  exists (nth n signRefusalMessages ""); split; [apply list_elem_of_In, nth_In; cbn; lia|];
  first [apply strings_Contains_app_r; reflexivity|reflexivity].

Lemma signRefusal_text e : refusal_text e → signRefusal e = true.
Proof.
  intros (msg & Hin & Hc). unfold signRefusal. apply orb_true_iff. right. apply existsb_exists. exists msg.
  split; [by apply list_elem_of_In|done].
Qed.

(** A refusal that another process or an aggregated error quotes *)
Lemma refusal_quoted e pre post : refusal_text e → signRefusal (ErrorString (pre +:+ (Error e +:+ post))) = true.
Proof.
  intros (msg & Hin & Hc). apply signRefusal_text. exists msg. split; [done|].
  cbn [Error]. by apply strings_Contains_app, strings_Contains_app_r.
Qed.

Lemma CheckHRS_refusal s hrst e : CheckHRS s hrst = Err e → refusal_text e.
Proof.
  unfold CheckHRS. repeat case_match; intros [= <-]; [refusal_is 0%nat|refusal_is 1%nat|refusal_is 2%nat|refusal_is 8%nat].
Qed.

Lemma pv_CheckHRS_refusal lss h r st e : pv_CheckHRS lss h r st = Err e → refusal_text e.
Proof.
  unfold pv_CheckHRS. repeat case_match; intros [= <-]; [refusal_is 0%nat|refusal_is 1%nat|refusal_is 2%nat|refusal_is 8%nat].
Qed.

Lemma checkVote_refusal `{Codec} last new e :
  checkVoteOnlyDifferByTimestamp last new = Err e → (∃ name t err, e = UnmarshalError name t err) ∨ refusal_text e.
Proof.
  unfold checkVoteOnlyDifferByTimestamp.
  destruct (unmarshalVote (slice last)) as [v| |]; cbn [map_err result_bind]; [|intros [= <-]; left; by eexists _, _, _|done].
  destruct (unmarshalVote (slice new)) as [w| |]; cbn [map_err result_bind]; [|intros [= <-]; left; by eexists _, _, _|done].
  repeat case_match; intros [= <-]; right; first [refusal_is 5%nat|refusal_is 4%nat|refusal_is 3%nat].
Qed.

Lemma checkProposal_refusal `{Codec} last new e :
  checkProposalOnlyDifferByTimestamp last new = Err e → (∃ name t err, e = UnmarshalError name t err) ∨ refusal_text e.
Proof.
  unfold checkProposalOnlyDifferByTimestamp.
  destruct (unmarshalProposal (slice last)) as [v| |]; cbn [map_err result_bind]; [|intros [= <-]; left; by eexists _, _, _|done].
  destruct (unmarshalProposal (slice new)) as [w| |]; cbn [map_err result_bind]; [|intros [= <-]; left; by eexists _, _, _|done].
  repeat case_match; intros [= <-]; right; refusal_is 3%nat.
Qed.

Lemma gate_refusal `{Codec} s hrst signBytes e :
  errorIfConflictOrRegression s hrst signBytes = Err e → (∃ name t err, e = UnmarshalError name t err) ∨ refusal_text e.
Proof.
  unfold errorIfConflictOrRegression. destruct (CheckHRS s hrst) as [b|e'|] eqn:Ec; cbn [result_bind]; [|intros [= <-]; right; by eapply CheckHRS_refusal|done].
  destruct (negb b); [done|]. destruct (bytes_Equal _ _); [done|]. unfold ss_OnlyDifferByTimestamp, onlyDifferByTimestamp.
  destruct (_ =? _); [apply checkProposal_refusal|]. destruct (_ || _); [apply checkVote_refusal|done].
Qed.

Lemma beyond_refusal chainID lss hrs : refusal_text (BeyondBlockError (beyondBlockMsg chainID lss hrs)).
Proof.
  exists (nth 7 signRefusalMessages ""). split; [apply list_elem_of_In, nth_In; cbn; lia|].
  cbn [Error]. unfold beyondBlockMsg. do 2 apply strings_Contains_app. apply strings_Contains_app_r. reflexivity.
Qed.

(** *** The shape of a response *)

Section shape.
Context {S E : Type} `{V : !PrivValidator S E} `{C : !Codec}.
Context (PubKeyToProto : gobytes → result PublicKey goerror) (address : string).
Local Abbreviation reply r :=
  (match r with
   | Ok (res, dropReq) => (res, dropReq, false)
   | Err _ => (NoSum, false, false)
   | Panics _ => (NoSum, false, true)
   end).

Lemma answer_signed_returns chainID r ok refused out :
  may_return (answer_signed (S := S) (E := E) address chainID r ok refused) out →
  (∃ sg, r = Ok sg ∧ out = Ok (ok sg, false))
  ∨ (∃ err, signRefusal err = true ∧ out = Ok (refused (getRemoteSignerError err), false))
  ∨ out = Ok (NoSum, true) ∨ ∃ m, out = Panics m.
Proof.
  unfold answer_signed. destruct r as [sg|err|m]; [| |intros ->; eauto].
  - intros (_ & _ & ->)%may_return_bind. left. eauto.
  - destruct (signRefusal err) eqn:Er; intros (_ & _ & ->)%may_return_bind; eauto 6.
Qed.

Lemma vote_type_of t :
  negb (t =? PrevoteType) && negb (t =? PrecommitType) = true → t ≠ PrevoteType ∧ t ≠ PrecommitType.
Proof. intros [H1%negb_true_iff%Z.eqb_neq H2%negb_true_iff%Z.eqb_neq]%andb_true_iff. by split. Qed.

Lemma vote_fits env req r :
  may_return (handleSignVoteRequest (S := S) (E := E) address env (svr_ChainId req) (svr_Vote req)) r →
  fits (Message_SignVoteRequest (Some req)) (reply r).
Proof.
  unfold handleSignVoteRequest. destruct (ValidateChainID _) eqn:Ec; [|intros ->; cbn; rewrite Ec; repeat split; by left|by intros ->].
  destruct (svr_Vote req) as [vote|] eqn:Ev; [|intros ->; cbn; rewrite Ev; repeat split; right; by left].
  destruct (negb _ && negb _) eqn:Et.
  { intros ->. apply vote_type_of in Et. cbn. rewrite Ev. repeat split. right. right. left. by exists vote. }
  destruct (VoteToBlock _ _) as [block|err|m] eqn:Eb; [| |by intros ->].
  2: { unfold VoteToBlock, VoteToStep in Eb. by repeat case_match. }
  unfold prog_try. cbn [prog_bind]. intros (x & _ & Hr)%may_return_bind. apply answer_signed_returns in Hr as [(sg & -> & ->)|[(err & Hs & ->)|[->|(m & ->)]]]; cbn; try done.
  - exists vote, sg. by rewrite Ev.
  - repeat split. do 3 right. by exists err.
Qed.

Lemma proposal_fits env req r :
  may_return (handleSignProposalRequest (S := S) (E := E) address env (spr_ChainId req) (spr_Proposal req)) r →
  fits (Message_SignProposalRequest (Some req)) (reply r).
Proof.
  unfold handleSignProposalRequest. destruct (ValidateChainID _) eqn:Ec; [|intros ->; cbn; rewrite Ec; repeat split; by left|by intros ->].
  destruct (spr_Proposal req) as [p|] eqn:Ep; [|intros ->; cbn; rewrite Ep; repeat split; right; by left].
  intros (x & _ & Hr)%may_return_bind. apply answer_signed_returns in Hr as [(sg & -> & ->)|[(err & Hs & ->)|[->|(m & ->)]]]; cbn; try done.
  - exists p, sg. by rewrite Ep.
  - repeat split. do 2 right. by exists err.
Qed.

Lemma pubkey_fits env chainID r :
  may_return (handleRequest (S := S) (E := E) PubKeyToProto address env (Message_PubKeyRequest (Some chainID))) r →
  fits (Message_PubKeyRequest (Some chainID)) (reply r).
Proof.
  cbn [handleRequest]. intros (x & Hx & Hr)%may_return_bind. destruct x as [m|e|m]; [| |by rewrite Hr].
  - assert (∃ pk err, m = Message_PubKeyResponse pk err) as (pk & err & ->); [|by rewrite Hr].
    unfold handlePubKeyRequest in Hx. destruct (ValidateChainID chainID); [|injection Hx as ->; by eexists _, _|done].
    apply may_return_bind in Hx as (_ & _ & ([pk|e|] & _ & Hx)%may_return_bind); [|injection Hx as ->; by eexists _, _|done].
    destruct (PubKeyToProto pk); [injection Hx as ->; by eexists _, _..|done].
  - exfalso. unfold handlePubKeyRequest in Hx. destruct (ValidateChainID chainID); [|done|done].
    apply may_return_bind in Hx as (_ & _ & ([pk|e'|] & _ & Hx)%may_return_bind); [|done|done]. by destruct (PubKeyToProto pk).
Qed.

Lemma outcome_fits env req out :
  may_return (handleRequestSafely (S := S) (E := E) PubKeyToProto address env req) out → fits req out.
Proof.
  intros (r & Hr & ->)%may_return_bind. destruct req as [|[req|]|[req|]|[chainID|]| | | | |];
    [| |by rewrite Hr| |by rewrite Hr| |by rewrite Hr|by rewrite Hr..]; [by rewrite Hr|..].
  - by apply (vote_fits env).
  - by apply (proposal_fits env).
  - by apply (pubkey_fits env).
Qed.
End shape.

(** ** Theorems *)


Lemma toy_inv : pv_inv "chain" 0 toy_loaded [].
Proof.
  split; [done|]. exists toy_file_pv. split; [done|]. split; [done|]. by split; intros * ?%elem_of_nil.
Qed.

Lemma toy_rs_reachable : rtc (pool_step toy_rs_handler) (mkPool (toy_rs_state toy_loaded) [] []) toy_rs_pool.
Proof. etransitivity; [|apply pool_exec_rtc]. apply pool_spawn_all. repeat constructor. Qed.






(** C25: a refusal of the double-sign gate, of the single signer's watermark or of a started
    block is answered as such also when it comes as the text of another cosigner's error;
    the only errors of the gate that are not are those of payloads that do not decode.  A
    request that ran out of time is never answered as refused. *)
Theorem refusals_terminal `{C : !Codec} pre post :
  (∀ s hrst signBytes e, errorIfConflictOrRegression s hrst signBytes = Err e →
     (∃ name t err, e = UnmarshalError name t err) ∨ signRefusal (ErrorString (pre +:+ (Error e +:+ post))) = true)
  ∧ (∀ lss height round step e, pv_CheckHRS lss height round step = Err e →
       signRefusal (ErrorString (pre +:+ (Error e +:+ post))) = true)
  ∧ (∀ chainID lss hrs, signRefusal (ErrorString (pre +:+ (beyondBlockMsg chainID lss hrs +:+ post))) = true)
  ∧ (∀ deadline, signRefusal (abandoned deadline) = false).
Proof.
  split; [|split; [|split]].
  - intros s hrst signBytes e [H|H]%gate_refusal; [by left|right]. by apply refusal_quoted.
  - intros lss height round step e H%pv_CheckHRS_refusal. by apply refusal_quoted.
  - intros chainID lss hrs. apply (refusal_quoted (BeyondBlockError _)), beyond_refusal.
  - by intros [].
Qed.

(** The refusal of [Save] below the watermark is not among the texts: the connection is dropped
    and the node asks again. *)
Theorem save_refusal_dropped s height round step :
  GreaterThan (lockedHrsKey s) (mkHRSKey height round step) = true →
  ∃ e, lockedGetErrorIfLessOrEqual s height round step = Some e ∧ signRefusal e = false.
Proof. unfold lockedGetErrorIfLessOrEqual. intros ->. by eexists. Qed.

(** The heights of the missed votes are those of the process, not of a chain: prevotes at 10 of
    one chain between those at 100 and 101 of another count as 91 missed. *)
Theorem missed_votes_mix_chains :
  let p : @prog (RSState unit) (rs_event unit) unit :=
    (do _ <- track 0 "a" (toy_prevote 100); do _ <- track 0 "b" (toy_prevote 10); track 0 "a" (toy_prevote 101)) in
  EvMetric (MAdd "totalMissedPrevotes" ["a"] 91) ∈ (run (λ _, 0%nat) p (mkRSState () 0 0 0 0)).1.2.
Proof. apply (list_elem_of_lookup_2 _ 9). vm_compute. reflexivity. Qed.

(** A payload without a timestamp is answered over gRPC with that of the year 1754. *)
Theorem grpc_zero_timestamp :
  (run (λ _, 0%nat) (@RemoteSignerGRPCServer_Sign _ _ toy_signer toy_env toy_grpc_request) (toy_rs_state toy_loaded)).2
  = Ok (mkProtoSignBlockResponse (Some [1; 2; 5; 0; 9; 42]) None (-6795364578871345152)).
Proof. vm_compute. reflexivity. Qed.

(** C5: a vote that a threshold validator gives its nodes carries the signature that [Sign]
    returned for the vote, and that signature is justified, with the other requests, the
    saves of the cluster's events and the background loops running. *)
Theorem node_votes_justified {W} `{C : !Codec, J : !Json, N : !ClusterNet W} sort_Slice pv get_pub_key PubKeyToProto address
    (s : TVState W) heights i req vote' d p pl :
  tv_chainState s = ∅ →
  rtc (pool_step (@rs_handler _ _ (ThresholdSignerValidator sort_Slice pv get_pub_key) C PubKeyToProto address
                    (λ q, ∃ h, tv_handler sort_Slice pv h ∧ q = (do _ <- h; Ret ()))))
    (mkPool (set_validator s heights) [] []) pl →
  pl_threads pl !! i = Some (Ret (RReply (Message_SignVoteRequest (Some req)) (Message_SignedVoteResponse vote' None, d, p))) →
  ∃ vote block sg, svr_Vote req = Some vote ∧ VoteToBlock (svr_ChainId req) vote = Ok block
    ∧ vote' = signed_vote vote sg
    ∧ justified (tv_threshold pv) (svr_ChainId req) block (omap validator_event (pl_log pl)) sg.
Proof.
  intros HI%tv_inv_empty Hr Hi.
  assert (∀ q, (∃ h, tv_handler sort_Slice pv h ∧ q = (do _ <- h; Ret ())) → wp tv_inv q [] (λ _ _, True)) as Hbg.
  { intros ? (h & Hh & ->). eapply wp_seq; [by apply (handler_justified sort_Slice pv)|done]. }
  destruct (pool_sound _ _ _ rs_backed_stable
    (λ q, rs_handler_backed (PS := threshold_spec sort_Slice pv get_pub_key) PubKeyToProto address _ q Hbg)
    (set_validator s heights) [] pl HI Hr) as [_ HQ].
  by apply (HQ i _ Hi).
Qed.

Lemma node_votes_justified_witness :
  ∃ vote block sg, Some (toy_vote 5 9) = Some vote ∧ @VoteToBlock toy_codec "chain" vote = Ok block
    ∧ toy_signed_vote 9 = signed_vote vote sg
    ∧ @justified toy_codec 2 "chain" block (omap validator_event (pl_log example_rs_pool)) sg.
Proof.
  refine (@node_votes_justified (LocalNet unit) toy_codec toy_json example_net insertionSort example_validator.1
    (λ _ w, (w, Ok (Some [1]))) ed25519_proto "node" example_validator.2 (mkRSState example_validator.2 0 0 0 0) 0
    (mkSignVoteRequest (Some (toy_vote 5 9)) "chain") (toy_signed_vote 9) false false example_rs_pool eq_refl _ _).
  - etransitivity; [|apply pool_exec_rtc]. apply pool_spawn_all. repeat constructor.
  - vm_compute. reflexivity.
Defined.
