(* ===== verification/RemoteRpc.v ===== *)
(** * The remote signer over gRPC

    The generated client and handlers of signer/proto/remote_signer.pb.go around the server of
    signer/remote_signer_grpc_server.go.  A client that asks over a connection that delivers
    has its block signed, and tracked, as the process does it for a node. *)

From stdpp Require Import base gmap list strings numbers.
From Stdlib Require Import ZArith Lia.
From S2P Require Import Prelude Hrs Errors Wire Comet SignState Config Cosigner Conc ThresholdValidator CosignerProto RemoteProto Rpc SingleSigner RemoteSigner.

Open Scope string_scope.
Open Scope list_scope.
Open Scope Z_scope.

(** ** Definitions *)

Section handlers.
Context {S E : Type} `{V : !PrivValidator S E}.

Definition RemoteSigner_PubKey_Handler := unary_handler RemoteSignerGRPCServer_PubKey.
Definition RemoteSigner_Sign_Handler (env : request_env) := unary_handler (RemoteSignerGRPCServer_Sign env).
End handlers.

Section client.
Context {S E : Type}.
Local Abbreviation P A := (@prog S E (result A goerror)).

Definition remoteSignerClient_PubKey (Invoke : protoPubKeyRequest → P protoPubKeyResponse) (in_ : protoPubKeyRequest)
    : P protoPubKeyResponse :=
  must out <- Invoke in_; Ret (Ok out).

Definition remoteSignerClient_Sign (Invoke : protoSignBlockRequest → P protoSignBlockResponse) (in_ : protoSignBlockRequest)
    : P protoSignBlockResponse :=
  must out <- Invoke in_; Ret (Ok out).
End client.

(** *** Specifications *)

(** What a client gets of a signature; the time is sent whether or not it is zero. *)
Definition grpc_signed (sg : Signed) : protoSignBlockResponse :=
  mkProtoSignBlockResponse (received (sg_Signature sg)) (received (sg_VoteExtensionSignature sg)) (UnixNano (sg_Timestamp sg)).

Definition grpc_request (chainID : string) (block : Block) : protoSignBlockRequest :=
  mkProtoSignBlockRequest chainID (Some (block_ToProto block)).

(** *** Examples *)

Definition toy_sign_handler dec := @RemoteSigner_Sign_Handler _ _ toy_signer toy_env dec (Some recoveryUnaryInterceptor).

Definition toy_pubkey_handler dec := @RemoteSigner_PubKey_Handler _ _ toy_signer dec (Some recoveryUnaryInterceptor).

Definition toy_grpc_signed : RSState (SSState unit) * list (rs_event pv_event) * result Signed goerror :=
  run (λ _, 0%nat) (@signAndTrack _ _ toy_signer toy_env "chain" (wire_block (toy_pv_block 5 9 [1; 2; 5; 0; 9; 42] None)))
    (toy_rs_state toy_loaded).

(** ** Theorems *)

Section theorems.
Context {S E : Type} `{V : !PrivValidator S E}.
Context (decode_error to_status : goerror → goerror) (sched : nat → nat).

(** A client that has a block signed over a connection that delivers leaves the process in the state, with the
    metrics, that signing the block for a node leaves it in, and gets the signatures. *)
Theorem remote_signer_Sign env chainID block Invoke (s : RSState S) s' ev r :
  delivers decode_error to_status (λ dec, RemoteSigner_Sign_Handler env dec (Some recoveryUnaryInterceptor)) Invoke →
  ValidateChainID chainID = Ok () →
  in_sint 64 (b_Height block) → in_sint 64 (b_Round block) → in_sint 8 (b_Step block) →
  b_Timestamp block = zero_time ∨ in_sint 64 (b_Timestamp block) →
  Z.of_nat (length (SignBlockRequest_encoding (grpc_request chainID block))) < 2 ^ 63 →
  run sched (signAndTrack env chainID (wire_block block)) s = (s', ev, r) → (∀ m, r ≠ Panics m) →
  (∀ sg, r = Ok sg → Z.of_nat (length (SignBlockResponse_encoding (grpc_signed sg))) < 2 ^ 63) →
  run sched (remoteSignerClient_Sign Invoke (grpc_request chainID block)) s = (s', ev, wire_result to_status grpc_signed r).
Proof.
  intros Hd Hc Hh Hr Hs Ht Hq Hrun Hm Hl. destruct (block_received _ Hh Hr Hs Ht) as [Hf Hb].
  unfold remoteSignerClient_Sign. rewrite run_map.
  rewrite (run_Invoke sched decode_error to_status _ Invoke _ s s' ev
    (result_bind r (λ sg, Ok (mkProtoSignBlockResponse (sg_Signature sg) (sg_VoteExtensionSignature sg) (UnixNano (sg_Timestamp sg))))) Hd).
  - by destruct r.
  - intros b [= <-]. done.
  - done.
  - unfold RemoteSignerGRPCServer_Sign. cbn [decoded SignBlockRequest_Spec SignBlockRequest_decoded grpc_request psbq_Block
      psbq_ChainID fmap option_fmap option_map]. by rewrite Hc, Hb, run_map, Hrun.
  - intros p. destruct r; [done|done|]. by destruct (Hm msg).
  - intros resp Er. destruct r as [sg| |]; [|done|done]. injection Er as <-. split; [apply sint_range; lia|].
    specialize (Hl sg eq_refl). revert Hl. unfold SignBlockResponse_encoding. cbn. unfold received.
    by destruct (sg_Signature sg) as [[]|], (sg_VoteExtensionSignature sg) as [[]|].
Qed.

(** A client that asks for the public key of a chain gets the validator's. *)
Theorem remote_signer_PubKey chainID Invoke (s : RSState S) v' ev r :
  delivers decode_error to_status (λ dec, RemoteSigner_PubKey_Handler dec (Some recoveryUnaryInterceptor)) Invoke →
  ValidateChainID chainID = Ok () → Z.of_nat (length (PubKeyRequest_encoding (mkProtoPubKeyRequest chainID))) < 2 ^ 63 →
  run sched (PV_GetPubKey chainID) (rs_validator s) = (v', ev, r) → (∀ m, r ≠ Panics m) →
  (∀ pub, r = Ok pub → Z.of_nat (length (PubKeyResponse_encoding (mkProtoPubKeyResponse pub))) < 2 ^ 63) →
  run sched (remoteSignerClient_PubKey Invoke (mkProtoPubKeyRequest chainID)) s
  = (set_validator v' s, EvMetric (MInc "totalPubKeyRequests" [chainID]) :: (EvValidator <$> ev),
     wire_result to_status (λ pub, mkProtoPubKeyResponse (received pub)) r).
Proof.
  intros Hd Hc Hq Hrun Hm Hl. unfold remoteSignerClient_PubKey. rewrite run_map.
  rewrite (run_Invoke sched decode_error to_status _ Invoke _ s (set_validator v' s)
    (EvMetric (MInc "totalPubKeyRequests" [chainID]) :: (EvValidator <$> ev)) (result_bind r (λ pub, Ok (mkProtoPubKeyResponse pub))) Hd).
  - by destruct r.
  - done.
  - done.
  - unfold RemoteSignerGRPCServer_PubKey. cbn [decoded PubKeyRequest_Spec id ppkq_ChainId]. rewrite Hc.
    rewrite run_bind_eq.
    assert (run sched (emit [MInc "totalPubKeyRequests" [chainID]]) s = (s, [EvMetric (MInc "totalPubKeyRequests" [chainID])], ())) as ->
      by done.
    rewrite run_map. unfold lift. rewrite run_lift by (intros; by try destruct s0). by rewrite Hrun.
  - intros p. destruct r; [done|done|]. by destruct (Hm msg).
  - intros resp Er. destruct r as [pub| |]; [|done|done]. injection Er as <-. split; [done|by apply Hl].
Qed.
End theorems.

Lemma remote_signer_Sign_witness :
  (run (λ _, 0%nat) (remoteSignerClient_Sign (loopback id id toy_sign_handler)
     (grpc_request "chain" (toy_pv_block 5 9 [1; 2; 5; 0; 9; 42] None))) (toy_rs_state toy_loaded)).2
  = Ok (mkProtoSignBlockResponse (Some [1; 2; 5; 0; 9; 42]) None 9).
Proof.
  rewrite (@remote_signer_Sign _ _ toy_signer id id (λ _, 0%nat) toy_env "chain" (toy_pv_block 5 9 [1; 2; 5; 0; 9; 42] None)
    (loopback id id toy_sign_handler) (toy_rs_state toy_loaded) toy_grpc_signed.1.1 toy_grpc_signed.1.2 toy_grpc_signed.2);
    [vm_compute; reflexivity|apply loopback_delivers|vm_compute; reflexivity|..].
  1-3: vm_compute; split; [discriminate|reflexivity].
  - right. vm_compute. split; [discriminate|reflexivity].
  - vm_compute. reflexivity.
  - vm_compute. reflexivity.
  - intros m. vm_compute. discriminate.
  - intros sg E. vm_compute in E. injection E as <-. vm_compute. reflexivity.
Defined.
