(* ===== verification/SignerLoop.v ===== *)
(** * The connections to the chain nodes

    The loop of [ReconnRemoteSigner] (signer/remote_signer.go) over one chain node: it waits
    to lead the cluster, dials, authenticates the node, and answers the node's requests one
    at a time until the connection is dropped.  While it holds a connection, another
    goroutine watches the leadership and closes the connection when it is lost.

    [loop_state] is the loop's program counter and variables, the connections and watchers
    there have been, and the surroundings: whether the service runs, its context and the
    leadership.  [loop_step] is one step of the loop, of a watcher or of the surroundings;
    what the network does is in the label.  The log is a ghost.  The file also has the keys
    of connections (signer/conn_key.go) and [StartRemoteSigners]. *)

From S2P Require Import Prelude Errors Comet SignState Config Conc ThresholdValidator SingleSigner RemoteSigner.
From stdpp Require Import base list strings numbers relations.
From Stdlib Require Import ZArith Lia.

Open Scope string_scope.
Open Scope list_scope.
Open Scope Z_scope.

(** ** Definitions *)

(** *** Connection keys *)

Definition ErrConnPubKeyMismatch : goerror := ErrorString "connection public key mismatch".

(** A nil [expected] accepts any node. *)
Definition verifyNodePubKey (expected : gobytes) (presented : list Z) : result unit goerror :=
  match expected with
  | None => Ok ()
  | Some expected =>
      if negb (bool_decide (expected = presented)) then
        Err (WrapSuffixError ErrConnPubKeyMismatch
               (": expected " +:+ hex_EncodeToString expected +:+ ", got " +:+ hex_EncodeToString presented))
      else Ok ()
  end.

(** The key of a node key file, by its type *)
Inductive node_key : Type :=
| Ed25519PrivKey (bs : list Z)
| OtherPrivKey (type : string).

Definition PrivateKeySize : Z := 64.

Section node_keys.
(** [cometp2p.LoadNodeKey] and [NodeKey.SaveAs] *)
Context (LoadNodeKey : string → FileSystem → result node_key goerror).
Context (SaveAs : list Z → string → FileSystem → result FileSystem goerror).

Definition LoadConnKey (path : string) (fs : FileSystem) : result (list Z) goerror :=
  try nodeKey <- map_err (WrapError ("failed to load connection key " +:+ path +:+ ": ")) (LoadNodeKey path fs);
  match nodeKey with
  | OtherPrivKey type => Err (ErrorString ("connection key " +:+ path +:+ " must be ed25519, got " +:+ type))
  | Ed25519PrivKey privKey =>
      let n := Z.of_nat (length privKey) in
      if negb (n =? PrivateKeySize) then
        Err (ErrorString ("connection key " +:+ path +:+ " must be " +:+ fmt_d PrivateKeySize +:+ " bytes, got " +:+ fmt_d n))
      else Ok privKey
  end.

(** [privKey] is the generated key. *)
Definition CreateConnKey (privKey : list Z) (path : string) (fs : FileSystem) : result (list Z * FileSystem) goerror :=
  try fs' <- map_err (WrapError ("failed to write connection key " +:+ path +:+ ": ")) (SaveAs privKey path fs);
  Ok (privKey, fs').
End node_keys.

Definition ConnPubKeyHex (PubKey : list Z → list Z) (privKey : list Z) : string := hex_EncodeToString (PubKey privKey).

(** *** The signers of the chain nodes *)

Record ConnAuth := mkConnAuth {
  ca_PrivKey : gobytes;
  ca_NodePubKey : gobytes
}.

(** [isLeader] is a function or nil: [rr_gated] is whether it is there. *)
Record ReconnRemoteSigner := mkReconnRemoteSigner {
  rr_address : string;
  rr_privKey : gobytes;
  rr_nodePubKey : gobytes;
  rr_maxReadSize : Z;
  rr_gated : bool
}.

(** [genPrivKey] is what [GenPrivKey] returns. *)
Definition NewReconnRemoteSigner (genPrivKey : gobytes) (address : string) (maxReadSize : Z) (connAuth : ConnAuth) (gated : bool)
    : ReconnRemoteSigner :=
  mkReconnRemoteSigner address (if is_nil (ca_PrivKey connAuth) then genPrivKey else ca_PrivKey connAuth)
    (ca_NodePubKey connAuth) maxReadSize gated.

(** The first loop of [StartRemoteSigners] *)
Fixpoint node_auths (connKey : gobytes) (nodes : list ChainNode) : result (list ConnAuth) goerror :=
  match nodes with
  | [] => Ok []
  | node :: nodes' =>
      try nodePubKey <- ConnPubKey node;
      try auths <- node_auths connKey nodes';
      Ok (mkConnAuth connKey nodePubKey :: auths)
  end.

(** The second: the signers that were started, and the services or the error of a [Start]. *)
Fixpoint start_signers (Start : ReconnRemoteSigner → option goerror) (genPrivKey : nat → gobytes) (maxReadSize : Z) (gated : bool)
    (services : list ReconnRemoteSigner) (l : list (ChainNode * ConnAuth))
    : list ReconnRemoteSigner * result (list ReconnRemoteSigner) goerror :=
  match l with
  | [] => ([], Ok services)
  | (node, auth) :: l' =>
      let s := NewReconnRemoteSigner (genPrivKey (length l')) (cn_PrivValAddr node) maxReadSize auth gated in
      match Start s with
      | Some err => ([], Err err)
      | None =>
          let '(started, r) := start_signers Start genPrivKey maxReadSize gated (services ++ [s]) l' in
          (s :: started, r)
      end
  end.

Definition StartRemoteSigners (Start : ReconnRemoteSigner → option goerror) (genPrivKey : nat → gobytes)
    (services : list ReconnRemoteSigner) (nodes : list ChainNode) (maxReadSize : Z) (connKey : gobytes) (gated : bool)
    : list ReconnRemoteSigner * result (list ReconnRemoteSigner) goerror :=
  match node_auths connKey nodes with
  | Err err => ([], Err err)
  | Panics m => ([], Panics m)
  | Ok auths => start_signers Start genPrivKey maxReadSize gated services (zip nodes auths)
  end.

(** *** The loop *)

Inductive loop_pc : Type :=
| AtTop
| AtGate
| Parked
| Dialing
| Waiting
| Connected
| Reading
| Handling (req : Message)
| Writing (res : Message)
| Exited.

(** A connection: the key the node presented, once the handshake is done, and whether it is open *)
Record conn := mkConn {
  c_peer : gobytes;
  c_open : bool
}.

(** A goroutine of [releaseConnOnLeadershipLoss]: its connection, whether its channel [stop] is closed, and whether
    it still runs *)
Record watcher := mkWatcher {
  w_conn : nat;
  w_stop : bool;
  w_running : bool
}.

Inductive loop_event : Type :=
| EvDial (leader : bool)
| EvRead (c : nat) (req : Message)
| EvWrite (c : nat) (res : Message).

(** [l_conn] and [l_watchStop] are the variables of the loop, as numbers of a connection and of a watcher. *)
Record loop_state := mkLoopState {
  l_pc : loop_pc;
  l_conn : option nat;
  l_watchStop : option nat;
  l_conns : list conn;
  l_watchers : list watcher;
  l_IsRunning : bool;
  l_done : bool;
  l_isLeader : bool;
  l_log : list loop_event
}.

(** The loop as [OnStart] starts it *)
Definition OnStart (leader : bool) : loop_state := mkLoopState AtTop None None [] [] true false leader [].

Definition goto (pc : loop_pc) (s : loop_state) : loop_state :=
  mkLoopState pc (l_conn s) (l_watchStop s) (l_conns s) (l_watchers s) (l_IsRunning s) (l_done s) (l_isLeader s) (l_log s).

Definition log_event (e : loop_event) (s : loop_state) : loop_state :=
  mkLoopState (l_pc s) (l_conn s) (l_watchStop s) (l_conns s) (l_watchers s) (l_IsRunning s) (l_done s) (l_isLeader s)
    (l_log s ++ [e]).

(** [rs.closeConn(conn)]; a second close does nothing. *)
Definition closed (c : conn) : conn := mkConn (c_peer c) false.
Definition stopped (w : watcher) : watcher := mkWatcher (w_conn w) true (w_running w).
Definition ended (w : watcher) : watcher := mkWatcher (w_conn w) (w_stop w) false.

Definition closeConn (c : option nat) (conns : list conn) : list conn :=
  match c with None => conns | Some c => alter closed c conns end.

Definition dropConn (s : loop_state) : loop_state :=
  mkLoopState (l_pc s) None None (closeConn (l_conn s) (l_conns s))
    (match l_watchStop s with None => l_watchers s | Some w => alter stopped w (l_watchers s) end)
    (l_IsRunning s) (l_done s) (l_isLeader s) (l_log s).

(** What a dial comes to: an error of the dialer or of the handshake, or a node with its key *)
Inductive dial_result : Type :=
| DialError
| SecretConnectionError
| Presented (key : list Z).

(** Whose step it is, and what the step meets *)
Inductive label : Type :=
| LLoop
| LDial (r : dial_result)
| LTimer
| LFail
| LRead (req : Message)
| LHandled (out : Message * bool * bool)
| LWatchStop (w : nat)
| LWatchTick (w : nat)
| LLeader (leader : bool)
| LStop
| LCancel.

Section loop.
Context (rs : ReconnRemoteSigner).

(** The connections there have been after it, and the one it returns *)
Definition establishConnection (r : dial_result) (conns : list conn) : list conn * option nat :=
  let c := length conns in
  match r with
  | DialError => (conns, None)
  | SecretConnectionError => (closeConn (Some c) (conns ++ [mkConn None true]), None)
  | Presented key =>
      let conns := conns ++ [mkConn (Some key) true] in
      match verifyNodePubKey (rr_nodePubKey rs) key with
      | Ok _ => (conns, Some c)
      | _ => (closeConn (Some c) conns, None)
      end
  end.

(** The start of the leadership watch, [conn] being there *)
Definition start_watch (s : loop_state) : loop_state :=
  match rr_gated rs, l_watchStop s, l_conn s with
  | true, None, Some c =>
      mkLoopState (l_pc s) (l_conn s) (Some (length (l_watchers s))) (l_conns s) (l_watchers s ++ [mkWatcher c false true])
        (l_IsRunning s) (l_done s) (l_isLeader s) (l_log s)
  | _, _, _ => s
  end.

(** A step of the loop that nothing outside decides *)
Definition step_loop (s : loop_state) : option loop_state :=
  match l_pc s with
  | AtTop =>
      if negb (l_IsRunning s) then Some (goto Exited (dropConn s))
      else Some (goto (match l_conn s with None => AtGate | Some _ => Connected end) s)
  | AtGate => Some (goto (if negb (rr_gated rs) || l_isLeader s then Dialing else Parked) s)
  | Connected =>
      if negb (l_IsRunning s) then Some (goto Exited (dropConn s))
      else Some (goto Reading (start_watch s))
  | Parked | Waiting => if l_done s then Some (goto Exited s) else None
  | _ => None
  end.

Definition step_dial (r : dial_result) (s : loop_state) : option loop_state :=
  match l_pc s with
  | Dialing =>
      let '(conns, c) := establishConnection r (l_conns s) in
      Some (mkLoopState (match c with Some _ => Connected | None => Waiting end) c (l_watchStop s) conns (l_watchers s)
              (l_IsRunning s) (l_done s) (l_isLeader s) (l_log s ++ [EvDial (l_isLeader s)]))
  | _ => None
  end.

(** The ticker of [waitForLeadership] and the timer between two dials *)
Definition step_timer (s : loop_state) : option loop_state :=
  match l_pc s with
  | Parked =>
      if negb (l_IsRunning s) then Some (goto Exited s)
      else if l_isLeader s then Some (goto Dialing s)
      else Some s
  | Waiting => Some (goto Dialing s)
  | _ => None
  end.

(** A deadline that cannot be set, a read or a write that fails *)
Definition step_fail (s : loop_state) : option loop_state :=
  match l_pc s with
  | Reading | Writing _ => Some (goto AtTop (dropConn s))
  | _ => None
  end.

Definition is_open (conns : list conn) (c : nat) : bool :=
  match conns !! c with Some c => c_open c | None => false end.

Definition step_read (req : Message) (s : loop_state) : option loop_state :=
  match l_pc s, l_conn s with
  | Reading, Some c => if is_open (l_conns s) c then Some (goto (Handling req) (log_event (EvRead c req) s)) else None
  | _, _ => None
  end.

Definition step_handled (out : Message * bool * bool) (s : loop_state) : option loop_state :=
  match l_pc s with
  | Handling _ =>
      let '(res, dropReq, panicked) := out in
      if (dropReq || panicked)%bool then Some (goto AtTop (dropConn s)) else Some (goto (Writing res) s)
  | _ => None
  end.

(** A write that succeeds *)
Definition step_write (s : loop_state) : option loop_state :=
  match l_pc s, l_conn s with
  | Writing res, Some c => if is_open (l_conns s) c then Some (goto AtTop (log_event (EvWrite c res) s)) else None
  | _, _ => None
  end.

(** The two cases of the watcher's select; a tick while it leads changes nothing. *)
Definition with_watchers (watchers : list watcher) (conns : list conn) (s : loop_state) : loop_state :=
  mkLoopState (l_pc s) (l_conn s) (l_watchStop s) conns watchers (l_IsRunning s) (l_done s) (l_isLeader s) (l_log s).

Definition step_watch_stop (i : nat) (s : loop_state) : option loop_state :=
  match l_watchers s !! i with
  | Some w => if w_running w && w_stop w then Some (with_watchers (alter ended i (l_watchers s)) (l_conns s) s) else None
  | None => None
  end.

Definition step_watch_tick (i : nat) (s : loop_state) : option loop_state :=
  match l_watchers s !! i with
  | Some w =>
      if w_running w then
        if negb (l_isLeader s) then
          Some (with_watchers (alter ended i (l_watchers s)) (closeConn (Some (w_conn w)) (l_conns s)) s)
        else Some s
      else None
  | None => None
  end.

(** The surroundings: an election, [Stop] of the service, and the [cancel] of its [OnStop] *)
Definition surrounded (running done leader : bool) (s : loop_state) : loop_state :=
  mkLoopState (l_pc s) (l_conn s) (l_watchStop s) (l_conns s) (l_watchers s) running done leader (l_log s).

Definition loop_step (l : label) (s : loop_state) : option loop_state :=
  match l with
  | LLoop => match l_pc s with Writing _ => step_write s | _ => step_loop s end
  | LDial r => step_dial r s
  | LTimer => step_timer s
  | LFail => step_fail s
  | LRead req => step_read req s
  | LHandled out => step_handled out s
  | LWatchStop i => step_watch_stop i s
  | LWatchTick i => step_watch_tick i s
  | LLeader leader => Some (surrounded (l_IsRunning s) (l_done s) leader s)
  | LStop => Some (surrounded false (l_done s) (l_isLeader s) s)
  | LCancel => if negb (l_IsRunning s) then Some (surrounded (l_IsRunning s) true (l_isLeader s) s) else None
  end.

(** [handled req out]: a request may come to this outcome. *)
Context (handled : Message → Message * bool * bool → Prop).

Inductive loop_run : loop_state → loop_state → Prop :=
| LoopRun l s s' :
    loop_step l s = Some s' →
    (∀ req out, l = LHandled out → l_pc s = Handling req → handled req out) →
    loop_run s s'.

(** *** Specifications *)

Definition serving (pc : loop_pc) : bool :=
  match pc with Connected | Reading | Handling _ | Writing _ => true | _ => false end.

Definition idle (pc : loop_pc) : bool :=
  match pc with AtGate | Parked | Dialing | Waiting | Exited => true | _ => false end.

(** The node of a connection has presented a key that is accepted. *)
Definition authenticated (conns : list conn) (c : nat) : Prop :=
  ∃ cn key, conns !! c = Some cn ∧ c_peer cn = Some key ∧ verifyNodePubKey (rr_nodePubKey rs) key = Ok ().

(** The connection that was read from or written to *)
Definition event_conn (e : loop_event) : option nat :=
  match e with EvDial _ => None | EvRead c _ | EvWrite c _ => Some c end.

(** The variables against the connections and watchers *)
Record loop_inv (s : loop_state) : Prop := {
  li_open c : is_open (l_conns s) c = true → l_conn s = Some c;
  li_serving : serving (l_pc s) = true → l_conn s ≠ None;
  li_idle : idle (l_pc s) = true → l_conn s = None;
  li_watch : l_conn s = None → l_watchStop s = None;
  li_watcher i w : l_watchers s !! i = Some w → w_stop w = false → l_watchStop s = Some i;
  li_watching i : l_watchStop s = Some i →
    ∃ w, l_watchers s !! i = Some w ∧ w_stop w = false ∧ l_conn s = Some (w_conn w) ∧ (w_running w = false → is_open (l_conns s) (w_conn w) = false);
  li_watched : rr_gated rs = true → l_conn s ≠ None → l_pc s ≠ Connected → l_watchStop s ≠ None;
  li_auth c : l_conn s = Some c → authenticated (l_conns s) c;
  li_used e c : e ∈ l_log s → event_conn e = Some c → authenticated (l_conns s) c
}.

(** Every response was made for the request that was read before it, from the connection it is written to. *)
Definition answered (log : list loop_event) : Prop :=
  ∀ l1 c res l2, log = l1 ++ EvWrite c res :: l2 → ∃ l0 req, l1 = l0 ++ [EvRead c req] ∧ handled req (res, false, false).

Definition answering_inv (s : loop_state) : Prop :=
  answered (l_log s) ∧
  match l_pc s with
  | Handling req => ∃ l0 c, l_conn s = Some c ∧ l_log s = l0 ++ [EvRead c req]
  | Writing res => ∃ l0 c req, l_conn s = Some c ∧ l_log s = l0 ++ [EvRead c req] ∧ handled req (res, false, false)
  | _ => True
  end.
End loop.

(** The outcomes of the requests of a signer *)
Definition outcomes {S E} `{V : !PrivValidator S E} `{C : !Codec} PubKeyToProto address (req : Message)
    (out : Message * bool * bool) : Prop :=
  ∃ env, may_return (handleRequestSafely (S := S) (E := E) PubKeyToProto address env req) out.

(** *** Runs *)

Definition toy_node_key : list Z := repeat 7 32.

(** A signer of a node with a known key, which serves it only as the leader *)
Definition toy_remote_signer : ReconnRemoteSigner := mkReconnRemoteSigner "node" (Some []) (Some toy_node_key) 0 true.

Definition toy_outcomes := @outcomes _ _ toy_signer toy_codec ed25519_proto "node".

(** After a ping was answered *)
Definition toy_loop (pc : loop_pc) (leader : bool) : loop_state :=
  mkLoopState pc (Some 0%nat) (Some 0%nat) [mkConn (Some toy_node_key) true] [mkWatcher 0 false true] true false leader
    [EvDial true; EvRead 0 Message_PingRequest; EvWrite 0 Message_PingResponse].

(** ** Lemmas *)

Lemma is_open_close c conns c' : is_open (alter closed c conns) c' = is_open conns c' && negb (bool_decide (c = c')).
Proof.
  unfold is_open. destruct (decide (c = c')) as [->|Hne].
  - rewrite bool_decide_eq_true_2, andb_false_r by done. rewrite list_lookup_alter_eq. by destruct (conns !! c').
  - rewrite bool_decide_eq_false_2, andb_true_r by done. by rewrite list_lookup_alter_ne.
Qed.

Lemma is_open_lt conns c : is_open conns c = true → (c < length conns)%nat.
Proof. unfold is_open. destruct (conns !! c) eqn:E; [|done]. intros _. by eapply lookup_lt_Some. Qed.

Lemma is_open_app conns cn c :
  is_open (conns ++ [cn]) c = is_open conns c || bool_decide (c = length conns) && c_open cn.
Proof.
  unfold is_open. destruct (decide (c < length conns)%nat) as [Hlt|Hge].
  - rewrite lookup_app_l, bool_decide_eq_false_2, orb_false_r by (done || lia). done.
  - rewrite lookup_app_r, (lookup_ge_None_2 conns) by lia. destruct (decide (c = length conns)) as [->|Hne].
    + by rewrite Nat.sub_diag, bool_decide_eq_true_2.
    + rewrite bool_decide_eq_false_2 by done. by destruct (c - length conns)%nat eqn:E; [lia|].
Qed.

(** A connection that is opened and closed again *)
Lemma is_open_refused conns peer c : is_open (alter closed (length conns) (conns ++ [mkConn peer true])) c = is_open conns c.
Proof.
  rewrite is_open_close, is_open_app. destruct (decide (c = length conns)) as [->|Hne].
  - rewrite (bool_decide_eq_true_2 (length conns = length conns)), andb_false_r by done.
    unfold is_open. by rewrite lookup_ge_None_2.
  - by rewrite !bool_decide_eq_false_2, orb_false_r, andb_true_r by congruence.
Qed.

Lemma authenticated_close rs c conns c' : authenticated rs conns c' → authenticated rs (alter closed c conns) c'.
Proof.
  intros (cn & key & Hc & Hk & Hv). destruct (decide (c = c')) as [->|Hne].
  - exists (closed cn), key. by rewrite list_lookup_alter_eq, Hc.
  - exists cn, key. by rewrite list_lookup_alter_ne.
Qed.

Lemma authenticated_app rs conns cn c : authenticated rs conns c → authenticated rs (conns ++ [cn]) c.
Proof. intros (x & key & Hc & H). exists x, key. by rewrite lookup_app_l by (by eapply lookup_lt_Some). Qed.

Lemma authenticated_new rs conns key :
  verifyNodePubKey (rr_nodePubKey rs) key = Ok () → authenticated rs (conns ++ [mkConn (Some key) true]) (length conns).
Proof. intros Hv. exists (mkConn (Some key) true), key. by rewrite lookup_app_r, Nat.sub_diag by done. Qed.

Section invariant.
Context (rs : ReconnRemoteSigner) (handled : Message → Message * bool * bool → Prop).
Local Abbreviation Inv := (loop_inv rs).

Lemma inv_goto s pc :
  Inv s → (serving pc = true → l_conn s ≠ None) → (idle pc = true → l_conn s = None) →
  (rr_gated rs = true → l_conn s ≠ None → pc ≠ Connected → l_watchStop s ≠ None) → Inv (goto pc s).
Proof. intros [] Hs Hi Hw. by split. Qed.

(** What is read or written goes over the connection of the loop. *)
Lemma inv_log s e c : Inv s → l_conn s = Some c → event_conn e = Some c → Inv (log_event e s).
Proof.
  intros [] Hc He. split; cbn; try done. intros e' c' [Hin|Hin]%elem_of_app He'; [by eauto|].
  apply list_elem_of_singleton in Hin as ->. assert (c' = c) as -> by congruence. eauto.
Qed.

Lemma inv_surrounded s r d l : Inv s → Inv (surrounded r d l s).
Proof. intros []. by split. Qed.

Lemma inv_drop s pc : Inv s → serving pc = false → Inv (goto pc (dropConn s)).
Proof.
  intros HI Hs. split; cbn; try done; try congruence.
  - intros c Ho. exfalso. destruct (l_conn s) as [c0|] eqn:Ec; cbn in Ho.
    + rewrite is_open_close in Ho. apply andb_true_iff in Ho as [Ho%(li_open _ _ HI) Hne]. rewrite Ec in Ho. injection Ho as ->.
      by rewrite bool_decide_eq_true_2 in Hne.
    + apply (li_open _ _ HI) in Ho. congruence.
  - intros i w Hi Hw. exfalso. destruct (l_watchStop s) as [j|] eqn:Ej.
    + destruct (decide (j = i)) as [->|Hne].
      * rewrite list_lookup_alter_eq in Hi. destruct (l_watchers s !! i); [|done]. by injection Hi as <-.
      * rewrite list_lookup_alter_ne in Hi by done. pose proof (li_watcher _ _ HI _ _ Hi Hw). congruence.
    + pose proof (li_watcher _ _ HI _ _ Hi Hw). congruence.
  - intros e c He Hc. pose proof (li_used _ _ HI e c He Hc). destruct (l_conn s); [by apply authenticated_close|done].
Qed.

Lemma inv_dialed s conns c e :
  Inv s → l_pc s = Dialing → event_conn e = None →
  (∀ c', is_open conns c' = true → is_open (l_conns s) c' = true ∨ c = Some c') →
  (∀ c', authenticated rs (l_conns s) c' → authenticated rs conns c') → (∀ c', c = Some c' → authenticated rs conns c') →
  Inv (mkLoopState (match c with Some _ => Connected | None => Waiting end) c (l_watchStop s) conns (l_watchers s)
         (l_IsRunning s) (l_done s) (l_isLeader s) (l_log s ++ [e])).
Proof.
  intros HI Hpc He Ho Ha Hn. assert (l_conn s = None) as Hc by (apply (li_idle _ _ HI); by rewrite Hpc).
  pose proof (li_watch _ _ HI Hc) as Hw. rewrite Hw. split; cbn; try (by destruct c); try done.
  - intros c' [H|H]%Ho; [|done]. pose proof (li_open _ _ HI c' H). congruence.
  - intros i w Hi Hs. pose proof (li_watcher _ _ HI _ _ Hi Hs). congruence.
  - intros e' c' [Hin|Hin]%elem_of_app He'; [by eapply Ha, (li_used _ _ HI)|].
    apply list_elem_of_singleton in Hin as ->. congruence.
Qed.

Lemma inv_step_dial s r s' : Inv s → step_dial rs r s = Some s' → Inv s'.
Proof.
  intros HI. unfold step_dial. destruct (l_pc s) eqn:Epc; try done.
  assert (∀ peer, Inv (mkLoopState Waiting None (l_watchStop s) (closeConn (Some (length (l_conns s))) (l_conns s ++ [mkConn peer true]))
    (l_watchers s) (l_IsRunning s) (l_done s) (l_isLeader s) (l_log s ++ [EvDial (l_isLeader s)]))) as Hclosed.
  { intros peer. apply (inv_dialed s _ None); try done.
    - intros c'. cbn. rewrite is_open_refused. by left.
    - intros c' H. by apply authenticated_close, authenticated_app. }
  destruct r as [| |key]; cbn [establishConnection].
  - intros [= <-]. apply (inv_dialed s _ None); try done. by left.
  - intros [= <-]. apply Hclosed.
  - destruct (verifyNodePubKey _ key) as [[]| |] eqn:Ev; intros [= <-]; [|apply Hclosed..].
    apply (inv_dialed s _ (Some _)); try done.
    + intros c'. rewrite is_open_app, orb_true_iff, andb_true_iff, bool_decide_eq_true. intros [H|[-> _]]; auto.
    + intros c'. apply authenticated_app.
    + intros c' [= <-]. by apply authenticated_new.
Qed.

Lemma inv_start_watch s : Inv s → l_pc s = Connected → Inv (goto Reading (start_watch rs s)).
Proof.
  intros HI Hpc. pose proof (li_serving _ _ HI) as Hc. rewrite Hpc in Hc. specialize (Hc eq_refl).
  unfold start_watch. destruct (rr_gated rs) eqn:Eg; [|by apply inv_goto; rewrite ?Eg].
  destruct (l_watchStop s) as [i|] eqn:Ew; [by apply inv_goto; rewrite ?Ew|].
  destruct (l_conn s) as [c|] eqn:Ec; [|done]. split; cbn; try rewrite Ec; try done; try apply HI.
  - intros c'. rewrite <- Ec. apply (li_open _ _ HI).
  - intros i w Hi Hs. destruct (decide (i < length (l_watchers s))%nat) as [Hlt|Hge].
    + rewrite lookup_app_l in Hi by done. pose proof (li_watcher _ _ HI _ _ Hi Hs). congruence.
    + rewrite lookup_app_r in Hi by lia. destruct (i - length (l_watchers s))%nat eqn:E; [|done]. f_equal. lia.
  - intros i [= <-]. exists (mkWatcher c false true). rewrite lookup_app_r, Nat.sub_diag by done. by repeat split.
  - intros c' [= <-]. by apply (li_auth _ _ HI).
Qed.

(** A watcher that ends, with its connection closed or its channel *)
Lemma inv_watch_stop s i w : Inv s → l_watchers s !! i = Some w → w_stop w = true →
  Inv (with_watchers (alter ended i (l_watchers s)) (l_conns s) s).
Proof.
  intros HI Hi Hw. split; cbn; try apply HI.
  - intros j w' Hj Hs. destruct (decide (i = j)) as [->|Hne].
    + rewrite list_lookup_alter_eq, Hi in Hj. injection Hj as <-. cbn in Hs. congruence.
    + rewrite list_lookup_alter_ne in Hj by done. by eapply (li_watcher _ _ HI).
  - intros j Hj. destruct (li_watching _ _ HI _ Hj) as (w' & Hw' & Hstop & Hc & Ho). destruct (decide (i = j)) as [->|Hne].
    + congruence.
    + exists w'. by rewrite list_lookup_alter_ne.
Qed.

Lemma inv_watch_tick s i w : Inv s → l_watchers s !! i = Some w →
  Inv (with_watchers (alter ended i (l_watchers s)) (closeConn (Some (w_conn w)) (l_conns s)) s).
Proof.
  intros HI Hi. split; cbn; try apply HI.
  - intros c. rewrite is_open_close. intros [Ho _]%andb_true_iff. by apply (li_open _ _ HI).
  - intros j w' Hj Hs. destruct (decide (i = j)) as [->|Hne].
    + rewrite list_lookup_alter_eq, Hi in Hj. injection Hj as <-. by eapply (li_watcher _ _ HI).
    + rewrite list_lookup_alter_ne in Hj by done. by eapply (li_watcher _ _ HI).
  - intros j Hj. destruct (li_watching _ _ HI _ Hj) as (w' & Hw' & Hstop & Hc & Ho). destruct (decide (i = j)) as [->|Hne].
    + exists (ended w'). rewrite list_lookup_alter_eq, Hw'. repeat split; [done..|]. intros _. cbn.
      rewrite Hi in Hw'. injection Hw' as <-. by rewrite is_open_close, bool_decide_eq_true_2, andb_false_r.
    + exists w'. rewrite list_lookup_alter_ne by done. repeat split; [done..|]. intros Hr. by rewrite is_open_close, (Ho Hr).
  - intros c Hc. by apply authenticated_close, (li_auth _ _ HI).
  - intros e c He Hc. by eapply authenticated_close, (li_used _ _ HI).
Qed.

Lemma inv_step_loop s s' : Inv s → step_loop rs s = Some s' → Inv s'.
Proof.
  intros HI. unfold step_loop. destruct (l_pc s) eqn:Epc; try done.
  - destruct (negb _); intros [= <-]; [by apply inv_drop|]. destruct (l_conn s) eqn:Ec.
    + apply inv_goto; [done| |done|done]. by rewrite Ec.
    + apply inv_goto; [done|done|done|]. by rewrite Ec.
  - intros [= <-]. assert (l_conn s = None) as Hc by (apply (li_idle _ _ HI); by rewrite Epc).
    destruct (_ || _); apply inv_goto; rewrite ?Hc; done.
  - assert (l_conn s = None) as Hc by (apply (li_idle _ _ HI); by rewrite Epc).
    destruct (l_done s); intros [= <-]. apply inv_goto; rewrite ?Hc; done.
  - assert (l_conn s = None) as Hc by (apply (li_idle _ _ HI); by rewrite Epc).
    destruct (l_done s); intros [= <-]. apply inv_goto; rewrite ?Hc; done.
  - destruct (negb _); intros [= <-]; [by apply inv_drop|]. by apply inv_start_watch.
Qed.

(** Steps that keep the connection and the watcher *)
Lemma inv_move s pc :
  Inv s → serving pc = serving (l_pc s) ∨ serving pc = false → idle pc = idle (l_pc s) ∨ idle pc = false →
  l_pc s ≠ Connected → pc ≠ Connected → Inv (goto pc s).
Proof.
  intros HI Hs Hi Hn Hn'. apply inv_goto; [done|..].
  - intros H. apply (li_serving _ _ HI). destruct Hs; congruence.
  - intros H. apply (li_idle _ _ HI). destruct Hi; congruence.
  - intros Hg Hc _. by apply (li_watched _ _ HI).
Qed.

Lemma inv_step l s s' : Inv s → loop_step rs l s = Some s' → Inv s'.
Proof.
  intros HI. destruct l as [|r| | |req|[[res dropReq] panicked]|i|i|leader| |]; cbn [loop_step].
  - destruct (l_pc s) eqn:Epc; try (by apply inv_step_loop). unfold step_write. rewrite Epc.
    destruct (l_conn s) eqn:Ec; [|done]. destruct (is_open _ _); intros [= <-].
    apply inv_move; cbn; rewrite ?Epc; auto. by eapply inv_log.
  - by apply inv_step_dial.
  - unfold step_timer. destruct (l_pc s) eqn:Epc; try done.
    + destruct (negb _); [intros [= <-]; apply inv_move; rewrite ?Epc; auto|].
      destruct (l_isLeader s); intros [= <-]; [|done]. apply inv_move; rewrite ?Epc; auto.
    + intros [= <-]. apply inv_move; rewrite ?Epc; auto.
  - unfold step_fail. destruct (l_pc s); try done; intros [= <-]; by apply inv_drop.
  - unfold step_read. destruct (l_pc s) eqn:Epc; try done. destruct (l_conn s) eqn:Ec; [|done].
    destruct (is_open _ _); intros [= <-]. apply inv_move; cbn; rewrite ?Epc; auto. by eapply inv_log.
  - unfold step_handled. destruct (l_pc s) eqn:Epc; try done. destruct (_ || _); intros [= <-]; [by apply inv_drop|].
    apply inv_move; rewrite ?Epc; auto.
  - unfold step_watch_stop. destruct (l_watchers s !! i) as [w|] eqn:Ew; [|done].
    destruct (w_running w && w_stop w) eqn:E; intros [= <-]. apply andb_true_iff in E as [_ E]. by eapply inv_watch_stop.
  - unfold step_watch_tick. destruct (l_watchers s !! i) as [w|] eqn:Ew; [|done].
    destruct (w_running w); [|done]. destruct (negb _); intros [= <-]; [|done]. by apply inv_watch_tick.
  - intros [= <-]. by apply inv_surrounded.
  - intros [= <-]. by apply inv_surrounded.
  - destruct (negb _); intros [= <-]. by apply inv_surrounded.
Qed.

Lemma inv_start leader : Inv (OnStart leader).
Proof. split; cbn; try done. by intros e c ?%elem_of_nil. Qed.

Lemma inv_reachable leader s : rtc (loop_run rs handled) (OnStart leader) s → Inv s.
Proof.
  intros Hr. pose proof (inv_start leader) as HI. induction Hr as [|s0 s1 s2 [l ? ? Hs _] _ IH]; [done|].
  apply IH. by eapply inv_step.
Qed.
End invariant.

Section answers.
Context (rs : ReconnRemoteSigner) (handled : Message → Message * bool * bool → Prop).

Lemma answered_snoc log e :
  answered handled log →
  (∀ c res, e = EvWrite c res → ∃ l0 req, log = l0 ++ [EvRead c req] ∧ handled req (res, false, false)) →
  answered handled (log ++ [e]).
Proof.
  intros Ha He l1 c res l2 Hl. destruct l2 as [|x l2 _] using rev_ind.
  - apply app_inj_tail in Hl as [-> ->]. by apply He.
  - rewrite app_comm_cons, app_assoc in Hl. apply app_inj_tail in Hl as [-> _]. by eapply Ha.
Qed.

Lemma answered_other log e : answered handled log → (∀ c res, e ≠ EvWrite c res) → answered handled (log ++ [e]).
Proof. intros Ha He. apply answered_snoc; [done|]. intros c res ->. by destruct (He c res). Qed.

Lemma start_watch_log s : l_log (start_watch rs s) = l_log s.
Proof. unfold start_watch. by repeat case_match. Qed.

Lemma answering_quiet s s' :
  answered handled (l_log s) → l_log s' = l_log s → match l_pc s' with Handling _ | Writing _ => False | _ => True end →
  answering_inv handled s'.
Proof. intros Ha Hl Hpc. split; [by rewrite Hl|]. by destruct (l_pc s'). Qed.

Lemma answering_step s s' : answering_inv handled s → loop_run rs handled s s' → answering_inv handled s'.
Proof.
  intros HI Hrun. revert HI. destruct Hrun as [l s s' Hs Hh]. intros [Ha Hpc].
  destruct l as [|r| | |req|[[res dropReq] panicked]|i|i|leader| |]; cbn [loop_step] in Hs.
  - destruct (l_pc s) eqn:Epc; unfold step_loop, step_write in Hs; rewrite Epc in Hs; try done.
    + destruct (negb _); simplify_eq; apply (answering_quiet s); try done. cbn. by destruct (l_conn s).
    + simplify_eq. apply (answering_quiet s); try done. cbn. by destruct (_ || _).
    + destruct (l_done s); simplify_eq. by apply (answering_quiet s).
    + destruct (l_done s); simplify_eq. by apply (answering_quiet s).
    + destruct (negb _); simplify_eq; apply (answering_quiet s); try done. apply start_watch_log.
    + destruct (l_conn s) as [c|]; [|done]. destruct (is_open _ _); simplify_eq. split; [|done]. cbn.
      destruct Hpc as (l0 & c' & req & [= <-] & Hl & Hr). apply answered_snoc; [done|]. intros c' res' [= <- <-]. by exists l0, req.
  - unfold step_dial in Hs. destruct (l_pc s); try done. destruct (establishConnection rs r (l_conns s)) as [conns c]; simplify_eq.
    split; [by apply answered_other|]. by destruct c.
  - unfold step_timer in Hs. destruct (l_pc s) eqn:Epc; try done; [|simplify_eq; by apply (answering_quiet s)].
    destruct (negb _); [simplify_eq; by apply (answering_quiet s)|].
    destruct (l_isLeader s); injection Hs as <-; apply (answering_quiet s); try done. by rewrite Epc.
  - unfold step_fail in Hs. destruct (l_pc s); simplify_eq; by split.
  - unfold step_read in Hs. destruct (l_pc s); try done. destruct (l_conn s) as [c|] eqn:Ec; [|done].
    destruct (is_open _ _); simplify_eq. split; [by apply answered_other|]. cbn. by exists (l_log s), c.
  - unfold step_handled in Hs. destruct (l_pc s) as [| | | | | | |req| |] eqn:Epc; try done.
    destruct dropReq, panicked; cbn in Hs; simplify_eq; try by split. split; [done|]. cbn.
    destruct Hpc as (l0 & c & Hc & Hl). exists l0, c, req. repeat split; [done..|]. by apply Hh.
  - unfold step_watch_stop in Hs. destruct (l_watchers s !! i) as [w|]; [|done]. destruct (_ && _); simplify_eq. by split.
  - unfold step_watch_tick in Hs. destruct (l_watchers s !! i) as [w|]; [|done]. destruct (w_running w); [|done].
    destruct (negb _); injection Hs as <-; by split.
  - simplify_eq. by split.
  - simplify_eq. by split.
  - destruct (negb _); simplify_eq. by split.
Qed.

Lemma answering_reachable leader s : rtc (loop_run rs handled) (OnStart leader) s → answered handled (l_log s).
Proof.
  intros Hr. assert (answering_inv handled (OnStart leader)) as HI.
  { split; [|done]. intros l1 c res l2 H. by destruct l1. }
  induction Hr as [|s0 s1 s2 Hs _ IH]; [by destruct HI|]. apply IH. by eapply answering_step.
Qed.
End answers.

(** A step of a run, by its label *)
Ltac loop_go l := eapply rtc_l; [apply (LoopRun _ _ l); [reflexivity|try discriminate]|].

Lemma toy_loop_reachable : rtc (loop_run toy_remote_signer toy_outcomes) (OnStart true) (toy_loop AtTop true).
Proof.
  loop_go LLoop. loop_go LLoop. loop_go (LDial (Presented toy_node_key)). loop_go LLoop. loop_go (LRead Message_PingRequest).
  loop_go (LHandled (Message_PingResponse, false, false)); [|by loop_go LLoop].
  intros req out [= <-] [= <-]. exists toy_env. done.
Qed.

Lemma toy_loop_follower : rtc (loop_run toy_remote_signer toy_outcomes) (OnStart true) (toy_loop Reading false).
Proof.
  etransitivity; [exact toy_loop_reachable|]. loop_go LLoop. loop_go LLoop. by loop_go (LLeader false).
Qed.

(** ** Theorems *)

(** C20: the loop of a signer has at most one connection to its node open.  A connection that is
    open, that the loop holds, or that it ever read from or wrote to is to a node that
    presented the key it is required to present.  When the loop has ended no connection is
    open, and every watcher it started is told to stop. *)
Theorem loop_connections rs handled leader s :
  rtc (loop_run rs handled) (OnStart leader) s →
  (∀ c c', is_open (l_conns s) c = true → is_open (l_conns s) c' = true → c = c')
  ∧ (∀ c key, is_open (l_conns s) c = true ∨ l_conn s = Some c ∨ (∃ e, e ∈ l_log s ∧ event_conn e = Some c) →
       rr_nodePubKey rs = Some key → ∃ cn, l_conns s !! c = Some cn ∧ c_peer cn = Some key)
  ∧ (l_pc s = Exited → (∀ c, is_open (l_conns s) c = false) ∧ ∀ w, w ∈ l_watchers s → w_stop w = true).
Proof.
  intros HI%inv_reachable. split; [|split].
  - intros c c' H%(li_open _ _ HI) H'%(li_open _ _ HI). congruence.
  - intros c key Hc Hk. assert (authenticated rs (l_conns s) c) as (cn & k & Hcn & Hp & Hv).
    { destruct Hc as [Hc%(li_open _ _ HI)|[Hc|(e & He & Hc)]]; [by apply (li_auth _ _ HI)..|by eapply (li_used _ _ HI)]. }
    exists cn. split; [done|]. rewrite Hk in Hv. cbn in Hv. destruct (bool_decide_reflect (key = k)); [by subst|done].
  - intros He. assert (l_conn s = None) as Hn by (apply (li_idle _ _ HI); by rewrite He). split.
    + intros c. destruct (is_open _ c) eqn:E; [|done]. apply (li_open _ _ HI) in E. congruence.
    + intros w (i & Hi)%list_elem_of_lookup. destruct (w_stop w) eqn:E; [done|].
      pose proof (li_watcher _ _ HI _ _ Hi E). pose proof (li_watch _ _ HI Hn). congruence.
Qed.

Lemma loop_connections_witness : ∃ cn, l_conns (toy_loop AtTop true) !! 0%nat = Some cn ∧ c_peer cn = Some toy_node_key.
Proof.
  apply (proj1 (proj2 (loop_connections toy_remote_signer toy_outcomes true _ toy_loop_reachable))); [|reflexivity].
  right. left. reflexivity.
Defined.

(** C21: every response that the loop writes answers the request it read last, on the connection
    it read it from, and is of the kind the request asks for. *)
Theorem loop_answers {S E} `{V : !PrivValidator S E} `{C : !Codec} rs PubKeyToProto leader s l1 c res l2 :
  rtc (loop_run rs (outcomes PubKeyToProto (rr_address rs))) (OnStart leader) s →
  l_log s = l1 ++ EvWrite c res :: l2 →
  ∃ l0 req, l1 = l0 ++ [EvRead c req] ∧ outcomes PubKeyToProto (rr_address rs) req (res, false, false)
    ∧ fits req (res, false, false).
Proof.
  intros Hr%answering_reachable Hl. destruct (Hr _ _ _ _ Hl) as (l0 & req & Hl0 & Ho). exists l0, req.
  repeat split; [done..|]. destruct Ho as [env Ho]. by eapply outcome_fits.
Qed.

Lemma loop_answers_witness :
  ∃ l0 req, [EvDial true; EvRead 0 Message_PingRequest] = l0 ++ [EvRead 0 req]
    ∧ toy_outcomes req (Message_PingResponse, false, false) ∧ fits req (Message_PingResponse, false, false).
Proof.
  exact (@loop_answers _ _ toy_signer toy_codec toy_remote_signer ed25519_proto true (toy_loop AtTop true)
    [EvDial true; EvRead 0 Message_PingRequest] 0%nat Message_PingResponse [] toy_loop_reachable eq_refl).
Defined.

(** C22: a signer that serves its node only as the leader releases the node when it is not: the
    watcher of the connection still runs, and its next look at the leadership closes it. *)
Theorem leadership_release rs handled leader s c :
  rtc (loop_run rs handled) (OnStart leader) s → rr_gated rs = true → l_isLeader s = false →
  l_pc s ≠ Connected → is_open (l_conns s) c = true →
  ∃ i s', loop_step rs (LWatchTick i) s = Some s' ∧ ∀ c', is_open (l_conns s') c' = false.
Proof.
  intros HI%inv_reachable Hg Hl Hpc Ho. pose proof (li_open _ _ HI _ Ho) as Hc.
  destruct (l_watchStop s) as [i|] eqn:Ew; [|by destruct (li_watched _ _ HI Hg ltac:(congruence) Hpc)].
  destruct (li_watching _ _ HI _ Ew) as (w & Hw & _ & Hwc & Hr). assert (w_conn w = c) as Hcw by congruence.
  destruct (w_running w) eqn:Er; [|rewrite Hcw in Hr; by rewrite Hr in Ho]. eexists i, _. split.
  - cbn [loop_step]. unfold step_watch_tick. by rewrite Hw, Er, Hl.
  - cbn. intros c'. rewrite is_open_close. destruct (is_open _ c') eqn:E'; [|done]. apply (li_open _ _ HI) in E'.
    by rewrite bool_decide_eq_true_2 by congruence.
Qed.

Lemma leadership_release_witness :
  ∃ i s', loop_step toy_remote_signer (LWatchTick i) (toy_loop Reading false) = Some s' ∧ ∀ c', is_open (l_conns s') c' = false.
Proof.
  refine (leadership_release toy_remote_signer toy_outcomes true (toy_loop Reading false) 0 toy_loop_follower _ _ _ _);
    (reflexivity || discriminate).
Defined.

(** A signer that lost the leadership between two attempts goes on dialing. *)
Theorem dials_as_follower :
  ∃ s, rtc (loop_run toy_remote_signer toy_outcomes) (OnStart true) s ∧ EvDial false ∈ l_log s.
Proof.
  eexists. split; [|apply (list_elem_of_lookup_2 _ 1)].
  - loop_go LLoop. loop_go LLoop. loop_go (LDial DialError). loop_go (LLeader false). loop_go LTimer.
    loop_go (LDial DialError). reflexivity.
  - reflexivity.
Qed.

(** A malformed key of any node starts none of them. *)
Theorem start_all_or_none Start genPrivKey services nodes maxReadSize connKey gated :
  (∃ node, node ∈ nodes ∧ ∀ key, ConnPubKey node ≠ Ok key) →
  (StartRemoteSigners Start genPrivKey services nodes maxReadSize connKey gated).1 = [].
Proof.
  intros (node & Hn & Hk). assert (∀ auths, node_auths connKey nodes ≠ Ok auths) as H.
  { induction nodes as [|n nodes IH]; [by apply elem_of_nil in Hn|]. intros auths. cbn.
    apply elem_of_cons in Hn as [->|Hn].
    - destruct (ConnPubKey n) as [k| |]; [by destruct (Hk k)|done|done].
    - destruct (ConnPubKey n); [|done|done]. cbn. specialize (IH Hn). by destruct (node_auths connKey nodes) as [a| |]; [destruct (IH a)|..]. }
  unfold StartRemoteSigners. destruct (node_auths connKey nodes) as [a| |]; [by destruct (H a)|done|done].
Qed.
