(* ===== verification/ClusterTls.v ===== *)
(** * Mutual TLS between cosigners

    The TLS configuration of the cluster (signer/cluster_tls.go): every cosigner presents a
    self-signed certificate of its key, and accepts the keys that the configuration lists.
    Certificates are behind a class, [X509]; [verify_peer] is what Go's [crypto/tls] does with
    the fields of the configuration when a peer presents its certificates; that the peer has
    the private key is checked elsewhere in the handshake, and is not modelled. *)

From S2P Require Import Prelude Errors SignState Config SignerLoop.
From stdpp Require Import base list strings numbers.
From Stdlib Require Import ZArith Lia.

Open Scope string_scope.
Open Scope list_scope.
Open Scope Z_scope.

(** ** Definitions *)

(** *** Certificates *)

(** The public key of a certificate, by its type *)
Inductive cert_key : Type :=
| CertEd25519 (key : list Z)
| CertOther (type : string).

(** The fields of the template; times are in seconds since the epoch. *)
Record x509_template := mkTemplate {
  t_SerialNumber : Z;
  t_CommonName : string;
  t_NotBefore : Z;
  t_NotAfter : Z;
  t_KeyUsage : Z;
  t_ExtKeyUsage : list Z
}.

(** [x509.ParseCertificate], which is used for the key, [x509.CreateCertificate] with a template that is its own
    parent, and the verification of a chain by the roots of the system. *)
Class X509 := {
  ParseCertificate : list Z → result cert_key goerror;
  CreateCertificate : list Z → x509_template → list Z → list Z → result (list Z) goerror;
  verify_chain : list (list Z) → result unit goerror
}.

(** A certificate that was created parses, and holds the key it was created for. *)
Class X509Laws (X : X509) := {
  created_key rnd template pub priv der : CreateCertificate rnd template pub priv = Ok der → ParseCertificate der = Ok (CertEd25519 pub)
}.

(** *** The configuration *)

Definition VersionTLS13 : Z := 772.
Definition NoClientCert : Z := 0.
Definition RequireAnyClientCert : Z := 2.
Definition VerifyClientCertIfGiven : Z := 3.
Definition RequireAndVerifyClientCert : Z := 4.

Record Certificate := mkCertificate {
  crt_Certificate : list (list Z);
  crt_PrivateKey : list Z
}.

Record tls_Config := mkTlsConfig {
  tls_Certificates : list Certificate;
  tls_MinVersion : Z;
  tls_ClientAuth : Z;
  tls_InsecureSkipVerify : bool;
  tls_SessionTicketsDisabled : bool;
  tls_VerifyPeerCertificate : list (list Z) → result unit goerror
}.

Definition ErrClusterPeerNotAllowed : goerror := ErrorString "cluster peer public key not in allowlist".

Section tls.
Context `{X : !X509}.

Fixpoint key_allowed (allowed : list (list Z)) (peer : list Z) : result unit goerror :=
  match allowed with
  | [] => Err ErrClusterPeerNotAllowed
  | a :: l => if bool_decide (a = peer) then Ok () else key_allowed l peer
  end.

Definition pinnedPeerVerifier (allowed : list (list Z)) (rawCerts : list (list Z)) : result unit goerror :=
  match rawCerts with
  | [] => Err ErrClusterPeerNotAllowed
  | raw :: _ =>
      try cert <- map_err (WrapError "parse peer certificate: ") (ParseCertificate raw);
      match cert with
      | CertOther type => Err (ErrorString ("peer certificate is not ed25519: " +:+ type))
      | CertEd25519 peer => key_allowed allowed peer
      end
  end.

Definition cert_template : x509_template :=
  mkTemplate 1 "horcrux-cosigner" 0 253370764800 1 [1; 2].

(** [ed25519.PrivateKey.Public] copies the second half of the key. *)
Definition ed25519_Public (priv : list Z) : result (list Z) goerror :=
  if (length priv <? 32)%nat then Panics "runtime error: slice bounds out of range"
  else Ok (take 32 (drop 32 priv ++ replicate 32 0)).

Definition selfSignedCert (rnd : list Z) (identity : list Z) : result Certificate goerror :=
  try pub <- ed25519_Public identity;
  try der <- map_err (WrapError "create self-signed certificate: ") (CreateCertificate rnd cert_template pub identity);
  Ok (mkCertificate [der] identity).

Definition clusterTLSConfig (rnd : list Z) (identity : list Z) (allowed : list (list Z)) : result tls_Config goerror :=
  try cert <- selfSignedCert rnd identity;
  Ok (mkTlsConfig [cert] VersionTLS13 RequireAnyClientCert true true (pinnedPeerVerifier allowed)).

(** None is the nil configuration of the insecure transport. *)
Definition ClusterTLSConfig (LoadNodeKey : string → FileSystem → result node_key goerror) (rnd : list Z) (cfg : RuntimeConfig)
    (fs : FileSystem) : result (option tls_Config) goerror :=
  let keyFile := ClusterKeyFilePath cfg in
  if String.eqb keyFile "" then Ok None
  else
    try identity <- map_err (WrapError "failed to load cluster key: ") (LoadConnKey LoadNodeKey keyFile fs);
    match cfg_ThresholdModeConfig (rc_Config cfg) with
    | None => Panics nil_dereference
    | Some tm =>
        try allowed <- ClusterPeerPubKeys tm;
        try tls <- clusterTLSConfig rnd identity allowed;
        Ok (Some tls)
    end.

(** *** What TLS does with it *)

Inductive tls_role := TLSClient | TLSServer.

Definition requiresClientCert (auth : Z) : bool := (auth =? RequireAnyClientCert) || (auth =? RequireAndVerifyClientCert).

Fixpoint parse_all (rawCerts : list (list Z)) : result unit goerror :=
  match rawCerts with
  | [] => Ok ()
  | raw :: l => try _ <- ParseCertificate raw; parse_all l
  end.

(** The check of the peer's certificates in a handshake, of a client or of a server.  A server accepts a session ticket
    instead of a certificate ([resumed]) unless tickets are disabled.  That the peer has the key of its first certificate
    (the signature of CertificateVerify), and the limits on the types and sizes of the keys of certificates, are checked by
    [crypto/tls] apart from the configuration, and are left out. *)
Definition verify_peer (role : tls_role) (resumed : bool) (cfg : tls_Config) (rawCerts : list (list Z)) : result unit goerror :=
  match role with
  | TLSClient =>
      if bool_decide (rawCerts = []) then Err (ErrorString "tls: received empty certificates message")
      else
        try _ <- parse_all rawCerts;
        try _ <- (if tls_InsecureSkipVerify cfg then Ok () else verify_chain rawCerts);
        tls_VerifyPeerCertificate cfg rawCerts
  | TLSServer =>
      if resumed && negb (tls_SessionTicketsDisabled cfg) then Ok ()
      else if tls_ClientAuth cfg =? NoClientCert then Ok ()
      else
        try _ <- parse_all rawCerts;
        if bool_decide (rawCerts = []) && requiresClientCert (tls_ClientAuth cfg) then
          Err (ErrorString "tls: client didn't provide a certificate")
        else
          try _ <- (if (VerifyClientCertIfGiven <=? tls_ClientAuth cfg) && negb (bool_decide (rawCerts = []))
                    then verify_chain rawCerts else Ok ());
          tls_VerifyPeerCertificate cfg rawCerts
  end.

(** *** Specifications *)

(** The certificates that a configuration presents *)
Definition presented (cfg : tls_Config) : list (list Z) := mjoin (crt_Certificate <$> tls_Certificates cfg).

(** The peer showed a certificate of one of the keys. *)
Definition peer_among (keys : list (list Z)) (rawCerts : list (list Z)) : Prop :=
  ∃ leaf rest key, rawCerts = leaf :: rest ∧ ParseCertificate leaf = Ok (CertEd25519 key) ∧ key ∈ keys ∧ parse_all rawCerts = Ok ().
End tls.

(** *** Example *)

(** Certificates that are the key itself, after a byte for its type *)
Definition toy_x509 : X509 := {|
  ParseCertificate raw := match raw with 1 :: key => Ok (CertEd25519 key) | _ => Ok (CertOther "*rsa.PublicKey") end;
  CreateCertificate _ _ pub _ := Ok (1 :: pub);
  verify_chain _ := Err (ErrorString "x509: certificate signed by unknown authority")
|}.

Definition toy_identity (i : Z) : list Z := replicate 32 0 ++ replicate 32 i.

Definition toy_tls_pub (hex : string) : string := String.concat "" (replicate 32 hex).

Definition toy_tls_config (i : Z) : RuntimeConfig :=
  mkRuntimeConfig "/h" "/h/config.yaml" "/h/state" "/h/horcrux.pid"
    (mkConfig None "" "threshold"
       (Some (mkThresholdModeConfig 2
                [mkCosignerConfig 1 "tcp://a:1" (toy_tls_pub "01"); mkCosignerConfig 2 "tcp://b:1" (toy_tls_pub "02")]
                "cluster.json" "1s" "1s" false)) [] "" "" 0).

Definition toy_tls (i : Z) : result (option tls_Config) goerror :=
  @ClusterTLSConfig toy_x509 (λ _ _, Ok (Ed25519PrivKey (toy_identity i))) [] (toy_tls_config i) empty_fs.

(** ** Lemmas *)

Section lemmas.
Context `{X : !X509} `{XL : !X509Laws X}.

Lemma key_allowed_iff allowed peer : key_allowed allowed peer = Ok () ↔ peer ∈ allowed.
Proof.
  induction allowed as [|a l IH]; cbn; [by rewrite elem_of_nil|]. rewrite elem_of_cons. case_bool_decide; [naive_solver|].
  rewrite IH. naive_solver.
Qed.

Lemma pinnedPeerVerifier_iff allowed rawCerts :
  parse_all rawCerts = Ok () → (pinnedPeerVerifier allowed rawCerts = Ok () ↔ peer_among allowed rawCerts).
Proof.
  intros Hp. unfold pinnedPeerVerifier, peer_among. split.
  - destruct rawCerts as [|raw rest]; [done|]. destruct (ParseCertificate raw) as [[key|]| |] eqn:E; cbn; [|done..].
    rewrite key_allowed_iff. intros Hk. by exists raw, rest, key.
  - intros (leaf & rest & key & -> & -> & Hk & _). cbn. by apply key_allowed_iff.
Qed.

(** The fields of the configuration leave all to the verifier. *)
Lemma verify_peer_pinned role resumed cfg rawCerts allowed rnd identity :
  clusterTLSConfig rnd identity allowed = Ok cfg → (verify_peer role resumed cfg rawCerts = Ok () ↔ peer_among allowed rawCerts).
Proof.
  unfold clusterTLSConfig. destruct (selfSignedCert rnd identity) as [cert| |]; cbn; [|done..]. intros [= <-].
  assert (∀ (k : result unit goerror), k = Ok () ∧ parse_all rawCerts = Ok () ↔ (try _ <- parse_all rawCerts; k) = Ok ()) as Htry.
  { intros k. destruct (parse_all rawCerts) as [[]| |]; cbn; naive_solver. }
  assert (peer_among allowed rawCerts → rawCerts ≠ [] ∧ parse_all rawCerts = Ok ()) as Hpa.
  { by intros (leaf & rest & key & -> & _ & _ & ?). }
  destruct role; cbn; [|rewrite andb_false_r; cbn].
  - case_bool_decide as En; [split; [done|intros H; by destruct (Hpa H)]|]. rewrite <- Htry. split.
    + intros [H Hp]. by apply pinnedPeerVerifier_iff.
    + intros H. destruct (Hpa H) as [_ Hp]. split; [by apply pinnedPeerVerifier_iff|done].
  - rewrite <- Htry. case_bool_decide as En; cbn; [split; [naive_solver|intros H; by destruct (Hpa H)]|]. split.
    + intros [H Hp]. by apply pinnedPeerVerifier_iff.
    + intros H. destruct (Hpa H) as [_ Hp]. split; [by apply pinnedPeerVerifier_iff|done].
Qed.
End lemmas.

Lemma toy_x509_laws : X509Laws toy_x509.
Proof. split. by intros rnd template pub priv der [= <-]. Qed.

(** ** Theorems *)

(** C18: with a cluster key configured, a connection that TLS accepts, as a client or as a server, is
    with a peer that presented a certificate of a key that the configuration lists for a
    cosigner, and every such peer is accepted; no session ticket stands in for it. *)
Theorem cluster_tls_exact `{X : !X509} LoadNodeKey rnd cfg fs tls role resumed rawCerts :
  ClusterTLSConfig LoadNodeKey rnd cfg fs = Ok (Some tls) →
  ∃ tm keys, cfg_ThresholdModeConfig (rc_Config cfg) = Some tm ∧ ClusterPeerPubKeys tm = Ok keys
    ∧ (verify_peer role resumed tls rawCerts = Ok () ↔ peer_among keys rawCerts).
Proof.
  unfold ClusterTLSConfig. destruct (String.eqb _ _); [done|].
  destruct (LoadConnKey _ _ _) as [identity| |]; cbn; [|done..]. destruct (cfg_ThresholdModeConfig _) as [tm|]; [|done].
  destruct (ClusterPeerPubKeys tm) as [keys| |] eqn:Ek; cbn; [|done..].
  destruct (clusterTLSConfig _ _ _) as [tls'| |] eqn:Et; cbn; [|done..]. intros [= <-].
  exists tm, keys. split; [done|]. split; [done|]. by eapply verify_peer_pinned.
Qed.

Lemma cluster_tls_exact_witness :
  ∃ tm keys, cfg_ThresholdModeConfig (rc_Config (toy_tls_config 1)) = Some tm ∧ ClusterPeerPubKeys tm = Ok keys
    ∧ (@verify_peer toy_x509 TLSServer true (mkTlsConfig [mkCertificate [1 :: replicate 32 1] (toy_identity 1)] 772 2 true true
          (@pinnedPeerVerifier toy_x509 [replicate 32 1; replicate 32 2])) [1 :: replicate 32 2] = Ok ()
        ↔ @peer_among toy_x509 keys [1 :: replicate 32 2]).
Proof.
  apply (@cluster_tls_exact toy_x509 (λ _ _, Ok (Ed25519PrivKey (toy_identity 1))) [] (toy_tls_config 1) empty_fs).
  vm_compute. reflexivity.
Defined.

(** Two cosigners of one cluster accept each other, from either side. *)
Theorem cluster_tls_mutual `{X : !X509} `{XL : !X509Laws X} LoadA LoadB rndA rndB cfgA cfgB fsA fsB tlsA tlsB tmA tmB identity pub keys role resumed :
  ClusterTLSConfig LoadA rndA cfgA fsA = Ok (Some tlsA) → ClusterTLSConfig LoadB rndB cfgB fsB = Ok (Some tlsB) →
  cfg_ThresholdModeConfig (rc_Config cfgA) = Some tmA → cfg_ThresholdModeConfig (rc_Config cfgB) = Some tmB →
  tm_Cosigners tmA = tm_Cosigners tmB → ClusterPeerPubKeys tmA = Ok keys →
  LoadConnKey LoadB (ClusterKeyFilePath cfgB) fsB = Ok identity → ed25519_Public identity = Ok pub → pub ∈ keys →
  verify_peer role resumed tlsA (presented tlsB) = Ok ().
Proof.
  unfold ClusterTLSConfig. intros HA HB EA EB Hc Hk Hi Hp Hin. rewrite EA in HA. rewrite EB, Hi in HB.
  destruct (String.eqb _ _); [done|]. destruct (String.eqb _ _); [done|].
  destruct (LoadConnKey LoadA _ _) as [identityA| |]; cbn in HA; [|done..]. rewrite Hk in HA. cbn in HA, HB.
  assert (ClusterPeerPubKeys tmB = Ok keys) as EkB by (unfold ClusterPeerPubKeys in *; by rewrite <- Hc).
  rewrite EkB in HB. cbn in HB.
  destruct (clusterTLSConfig rndA _ _) as [a| |] eqn:Ea; cbn in HA; [|done..]. injection HA as <-.
  destruct (clusterTLSConfig rndB _ _) as [b| |] eqn:Eb; cbn in HB; [|done..]. injection HB as <-.
  apply (verify_peer_pinned _ _ _ _ _ _ _ Ea). unfold clusterTLSConfig, selfSignedCert in Eb. rewrite Hp in Eb. cbn in Eb.
  destruct (CreateCertificate _ _ _ _) as [der| |] eqn:Ed; cbn in Eb; [|done..]. injection Eb as <-.
  pose proof (created_key _ _ _ _ _ Ed) as Hkey. exists der, [], pub. unfold presented. cbn. rewrite Hkey. done.
Qed.
