(* ===== verification/RaftStore.v ===== *)
(** * The replicated store

    [RaftStore] of signer/raft_store.go and its events (signer/raft_events.go): the leader
    submits commands to the consensus library, and every process applies the commands that
    are committed, in their order.  The only event is the sign state the leader shares,
    which each process saves in its validator and in its cosigner.

    The consensus library is the class [Raft] and the JSON encodings are the class
    [RaftJson], both with what the store relies on.  [f_m] is the map of the store, nil or
    not, and the validator's state is that of ThresholdValidator.v. *)

From S2P Require Import Prelude Hrs Errors Comet SignState Config Strconv Cosigner Conc NonceCache CosignerHealth LocalCosigner ThresholdValidator SignSafety LocalNet ValidatorSafety.
From stdpp Require Import base gmap list strings numbers pretty.
From Stdlib Require Import ZArith Lia.

Open Scope string_scope.
Open Scope list_scope.
Open Scope Z_scope.

(** ** Definitions *)

Record command := mkCommand {
  cmd_Op : string;
  cmd_Key : string;
  cmd_Value : string
}.

(** [json.Marshal] and [json.Unmarshal] at the types of the store *)
Class RaftJson := {
  ValidString : string → bool;
  marshal_command : command → result string goerror;
  unmarshal_command : string → result command goerror;
  marshal_event : ChainSignStateConsensus → result string goerror;
  unmarshal_event : string → result ChainSignStateConsensus goerror;
  marshal_store : gmap string string → result string goerror;
  unmarshal_store : string → result (option (gmap string string)) goerror
}.

(** What an event decodes to: the bytes that were signed are written in hex, which has no nil. *)
Definition event_decoded (lss : ChainSignStateConsensus) : ChainSignStateConsensus :=
  let ssc := cssc_SignStateConsensus lss in
  mkChainSSC (cssc_ChainID lss)
    (mkSSC (ssc_Height ssc) (ssc_Round ssc) (ssc_Step ssc) (ssc_Signature ssc) (ssc_VoteExtensionSignature ssc)
       (Some (slice (ssc_SignBytes ssc)))).

(** Strings of valid UTF-8 come back from JSON, JSON is valid UTF-8, and so are the strings it decodes to. *)
Class RaftJsonLaws (J : RaftJson) := {
  command_roundtrip c b :
    marshal_command c = Ok b → ValidString (cmd_Op c) = true → ValidString (cmd_Key c) = true →
    ValidString (cmd_Value c) = true → unmarshal_command b = Ok c;
  event_roundtrip lss b :
    marshal_event lss = Ok b → ValidString (cssc_ChainID lss) = true → unmarshal_event b = Ok (event_decoded lss);
  event_valid lss b : marshal_event lss = Ok b → ValidString b = true;
  store_roundtrip m b :
    marshal_store m = Ok b → map_Forall (λ k v, ValidString k = true ∧ ValidString v = true) m →
    unmarshal_store b = Ok (Some m);
  command_valid b c : unmarshal_command b = Ok c → ValidString (cmd_Key c) = true ∧ ValidString (cmd_Value c) = true;
  ascii_valid : ValidString "set" = true ∧ ValidString "LSS" = true
}.

Definition raftEventLSS : string := "LSS".

(** *** The state machine *)

Record FState (W : Type) := mkFState {
  f_m : option (gmap string string);
  f_tv : TVState W
}.
Arguments mkFState {W} _ _.
Arguments f_m {W} _.
Arguments f_tv {W} _.

(** [assignment to entry in nil map] *)
Definition nil_map : string := "assignment to entry in nil map".

Section fsm.
Context {W : Type} `{C : !Codec} `{J : !Json} `{N : !ClusterNet W} `{RJ : !RaftJson}.
Context (pv : ThresholdValidator).
(** [f.cosigner.SaveLastSignedState] *)
Context (cosigner_Save : string → SignStateConsensus → W → W * result unit goerror).
Local Abbreviation P A := (@prog (FState W) tv_event (result A goerror)).

Definition set_tv (tv : TVState W) (s : FState W) : FState W := mkFState (f_m s) tv.
Definition set_m (m : option (gmap string string)) (s : FState W) : FState W := mkFState m (f_tv s).

Definition on_validator {A} (p : @prog (TVState W) tv_event (result A goerror)) : P A := prog_lift f_tv set_tv id p.

(** A call whose error is dropped; a panic is not. *)
Definition ignoring {A} (p : P A) : P unit :=
  do r <- p;
  Ret (match r with Panics m => Panics m | _ => Ok () end).

(** The two saves of a shared sign state *)
Definition save_shared (lss : ChainSignStateConsensus) : P unit :=
  do loaded <- on_validator (ThresholdValidator.LoadSignStateIfNecessary pv (cssc_ChainID lss));
  match loaded with
  | Panics m => Ret (Panics m)
  | Err _ => Ret (Ok ())
  | Ok _ =>
      must _ <- ignoring (on_validator (ThresholdValidator.SaveLastSignedState (cssc_ChainID lss) (cssc_SignStateConsensus lss)));
      ignoring (on_validator (call (cosigner_Save (cssc_ChainID lss) (cssc_SignStateConsensus lss))))
  end.

Definition handleLSSEvent (value : string) : P unit :=
  match unmarshal_event value with
  | Panics m => Ret (Panics m)
  | Err _ => Ret (Ok ())
  | Ok lss => save_shared lss
  end.

Definition getEventHandler (key : string) : option (string → P unit) :=
  if String.eqb key raftEventLSS then Some handleLSSEvent else None.

Definition shouldRetain (key : string) : bool := negb (String.eqb key raftEventLSS).

Definition applySet (key value : string) : P unit :=
  must _ <- (match getEventHandler key with Some eventHandler => eventHandler value | None => Ret (Ok ()) end);
  if negb (shouldRetain key) then Ret (Ok ())
  else
    atomic (λ s,
      match f_m s with
      | None => (s, Panics nil_map)
      | Some m => (set_m (Some (<[key := value]> m)) s, Ok ())
      end).

Definition applyDelete (key : string) : P unit :=
  atomic (λ s, (set_m (delete key <$> f_m s) s, Ok ())).

Definition Apply (data : string) : P unit :=
  match unmarshal_command data with
  | Panics m => Ret (Panics m)
  | Err _ => Ret (Ok ())
  | Ok c =>
      if String.eqb (cmd_Op c) "set" then applySet (cmd_Key c) (cmd_Value c)
      else if String.eqb (cmd_Op c) "delete" then applyDelete (cmd_Key c)
      else Ret (Ok ())
  end.

(** The entries of the log one after the other *)
Fixpoint apply_log (entries : list string) : P unit :=
  match entries with
  | [] => Ret (Ok ())
  | b :: entries' => must _ <- Apply b; apply_log entries'
  end.

(** [Snapshot] and [Persist]: what is written to the sink; [range] of a nil map has no entries. *)
Definition Snapshot : P (gmap string string) := reading (λ s, Ok (default ∅ (f_m s))).

Definition Persist (store : gmap string string) (Write : string → option goerror) (Close : option goerror) : result string goerror :=
  try b <- marshal_store store;
  match Write b with
  | Some err => Err err
  | None => match Close with Some err => Err err | None => Ok b end
  end.

Definition Restore (data : string) : P unit :=
  match unmarshal_store data with
  | Err e => Ret (Err e)
  | Panics m => Ret (Panics m)
  | Ok o => atomic (λ s, (set_m o s, Ok ()))
  end.
End fsm.

(** *** The store *)

Record server := mkServer {
  srv_ID : string;
  srv_Address : string
}.

(** The consensus library *)
Class Raft (R : Type) := {
  raft_IsLeader : R → bool;
  raft_LeaderID : R → string;
  raft_Apply : string → R → R * option goerror;
  raft_GetConfiguration : R → result (list server) goerror;
  raft_RemoveServer : string → R → R * option goerror;
  raft_AddVoter : server → R → R * option goerror;
  raft_LeadershipTransfer : option server → R → R
}.

Section store.
Context {R : Type} `{RF : !Raft R} `{RJ : !RaftJson}.

(** The map of the store and the library, nil until [Open] *)
Definition Get (m : option (gmap string string)) (key : string) : string := default "" (m ≫= lookup key).

Definition IsLeader (raft : option R) : bool :=
  match raft with None => false | Some r => raft_IsLeader r end.

Definition GetLeader (raft : option R) : Z :=
  match raft with
  | None => -1
  | Some r =>
      let leaderID := raft_LeaderID r in
      if String.eqb leaderID "" then -1 else default (-1) (Atoi leaderID)
  end.

Definition submit (c : command) (r : R) : R * result unit goerror :=
  match marshal_command c with
  | Err e => (r, Err e)
  | Panics m => (r, Panics m)
  | Ok b =>
      let '(r', err) := raft_Apply b r in
      (r', match err with Some e => Err e | None => Ok () end)
  end.

Definition store_Set (key value : string) (raft : option R) : option R * result unit goerror :=
  match raft with
  | Some r =>
      if negb (raft_IsLeader r) then (raft, Err (ErrorString "not leader"))
      else let '(r', x) := submit (mkCommand "set" key value) r in (Some r', x)
  | None => (raft, Err (ErrorString "not leader"))
  end.

(** [s.raft.State()] has no check for nil. *)
Definition store_Delete (key : string) (raft : option R) : option R * result unit goerror :=
  match raft with
  | Some r =>
      if negb (raft_IsLeader r) then (raft, Err (ErrorString "not leader"))
      else let '(r', x) := submit (mkCommand "delete" key "") r in (Some r', x)
  | None => (raft, Panics nil_dereference)
  end.

Definition Emit (key : string) (valueJSON : result string goerror) (raft : option R) : option R * result unit goerror :=
  match valueJSON with
  | Err e => (raft, Err e)
  | Panics m => (raft, Panics m)
  | Ok v => store_Set key v raft
  end.

Definition ShareSigned (lss : ChainSignStateConsensus) : option R → option R * result unit goerror :=
  Emit raftEventLSS (marshal_event lss).

(** The loop of [Join] over the servers *)
Fixpoint join_servers (nodeID addr : string) (servers : list server) (r : R) : R * result bool goerror :=
  match servers with
  | [] => (r, Ok true)
  | srv :: servers' =>
      if String.eqb (srv_ID srv) nodeID || String.eqb (srv_Address srv) addr then
        if String.eqb (srv_Address srv) addr && String.eqb (srv_ID srv) nodeID then (r, Ok false)
        else
          let '(r', err) := raft_RemoveServer (srv_ID srv) r in
          match err with
          | Some e => (r', Err (ErrorString ("error removing existing node " +:+ nodeID +:+ " at " +:+ addr +:+ ": " +:+ Error e)))
          | None => join_servers nodeID addr servers' r'
          end
      else join_servers nodeID addr servers' r
  end.

Definition Join (nodeID addr : string) (r : R) : R * result unit goerror :=
  match raft_GetConfiguration r with
  | Err e => (r, Err e)
  | Panics m => (r, Panics m)
  | Ok servers =>
      let '(r', go) := join_servers nodeID addr servers r in
      match go with
      | Err e => (r', Err e)
      | Panics m => (r', Panics m)
      | Ok false => (r', Ok ())
      | Ok true =>
          let '(r'', err) := raft_AddVoter (mkServer nodeID addr) r' in
          (r'', match err with Some e => Err e | None => Ok () end)
      end
  end.
End store.

(** The addresses and the cluster that [Open] bootstraps *)
Definition p2pURLToRaftAddress `{NetParse} (p2pURL : string) : string :=
  match url_Parse p2pURL with Ok host => host | _ => p2pURL end.

Definition bootstrap_servers `{NetParse} (NodeID RaftBind : string) (cosigners : list (Z * string)) : list server :=
  mkServer NodeID (p2pURLToRaftAddress RaftBind)
    :: ((λ c, mkServer (fmt_d c.1) (p2pURLToRaftAddress c.2)) <$> cosigners).

(** *** The methods of the cluster's gRPC server on leadership *)

Section leadership.
Context {R : Type} `{RF : !Raft R} `{NP : !NetParse}.

(** The loop over the cosigners: the one whose ID is asked for *)
Fixpoint find_server (leaderID : string) (cosigners : list (Z * string)) : option server :=
  match cosigners with
  | [] => None
  | c :: cosigners' =>
      let shardID := fmt_d c.1 in
      if String.eqb shardID leaderID then Some (mkServer shardID (p2pURLToRaftAddress c.2))
      else find_server leaderID cosigners'
  end.

(** The response is the ID and the address of the server leadership goes to, when one was asked for. *)
Definition TransferLeadership (cosigners : list (Z * string)) (leaderID : string) (raft : option R)
    : option R * result (string * string) goerror :=
  match raft with
  | None => (raft, Panics nil_dereference)
  | Some r =>
      if negb (raft_IsLeader r) then (raft, Ok ("", ""))
      else
        match (if negb (String.eqb leaderID "") then find_server leaderID cosigners else None) with
        | Some srv => (Some (raft_LeadershipTransfer (Some srv) r), Ok (srv_ID srv, srv_Address srv))
        | None => (Some (raft_LeadershipTransfer None r), Ok ("", ""))
        end
  end.

Definition rpc_GetLeader (raft : option R) : Z := i32 (GetLeader raft).
End leadership.

(** *** Specifications *)

(** What an entry of the log does to the map: nothing, when it is an event or does not decode. *)
Definition apply_abstract `{RaftJson} (m : gmap string string) (b : string) : gmap string string :=
  match unmarshal_command b with
  | Ok c =>
      if String.eqb (cmd_Op c) "set" then
        if String.eqb (cmd_Key c) raftEventLSS then m else <[cmd_Key c := cmd_Value c]> m
      else if String.eqb (cmd_Op c) "delete" then delete (cmd_Key c) m
      else m
  | _ => m
  end.

(** Programs that leave the map alone *)
Definition keeps {W A} (sched : nat → nat) (p : @prog (FState W) tv_event A) : Prop :=
  ∀ s s' ev r, run sched p s = (s', ev, r) → f_m s' = f_m s.

(** The larger of two keys *)
Definition hrs_max (a b : HRSKey) : HRSKey := if GreaterThan b a then b else a.

(** An entry that shares a sign state of the chain *)
Definition lss_entry `{RaftJson} (chainID : string) (b : string) (ssc : SignStateConsensus) : Prop :=
  ∃ value, unmarshal_command b = Ok (mkCommand "set" raftEventLSS value)
    ∧ unmarshal_event value = Ok (mkChainSSC chainID ssc).

(** The watermark of the validator for a loaded chain *)
Definition tv_watermark {W} (chainID : string) (s : TVState W) : option HRSKey :=
  loc ← tv_chainState s !! chainID; css ← tv_heap s !! loc; Some (lockedHrsKey (css_lastSignState css)).

(** A cosigner whose saves do not panic, in the states [ok] *)
Definition saves_safely {W} (ok : W → Prop) (cosigner_Save : string → SignStateConsensus → W → W * result unit goerror) : Prop :=
  ∀ chainID ssc w, ok w → (∀ m, (cosigner_Save chainID ssc w).2 ≠ Panics m) ∧ ok (cosigner_Save chainID ssc w).1.

(** *** A concrete encoding and library, to run the model

    A value is the number it is counted as, in decimal digits. *)
Global Instance command_eq_dec : EqDecision command.
Proof. solve_decision. Defined.
Global Instance command_countable : Countable command.
Proof.
  apply (inj_countable' (λ c, (cmd_Op c, cmd_Key c, cmd_Value c)) (λ x, mkCommand x.1.1 x.1.2 x.2)). by intros [].
Defined.
Global Instance SSC_eq_dec : EqDecision SignStateConsensus.
Proof. solve_decision. Defined.
Global Instance SSC_countable : Countable SignStateConsensus.
Proof.
  apply (inj_countable' (λ c, (ssc_Height c, ssc_Round c, ssc_Step c, ssc_Signature c, ssc_VoteExtensionSignature c, ssc_SignBytes c))
    (λ x, let '(h, r, s, a, b, c) := x in mkSSC h r s a b c)). by intros [].
Defined.
Global Instance ChainSSC_eq_dec : EqDecision ChainSignStateConsensus.
Proof. solve_decision. Defined.
Global Instance ChainSSC_countable : Countable ChainSignStateConsensus.
Proof. apply (inj_countable' (λ c, (cssc_ChainID c, cssc_SignStateConsensus c)) (λ x, mkChainSSC x.1 x.2)). by intros []. Defined.

Definition toy_encode {A} `{Countable A} (x : A) : result string goerror := Ok (fmt_d (Zpos (encode x))).

Definition toy_decode {A} `{Countable A} (s : string) : result A goerror :=
  match digits s 0 with
  | Some (Zpos p) => match decode p with Some x => Ok x | None => Err (ErrorString "invalid character") end
  | _ => Err (ErrorString "invalid character")
  end.

Definition toy_raft_json : RaftJson := {|
  ValidString _ := true;
  marshal_command := toy_encode;
  unmarshal_command := toy_decode;
  marshal_event lss := toy_encode (event_decoded lss);
  unmarshal_event := toy_decode;
  marshal_store := toy_encode;
  unmarshal_store s := try m <- toy_decode s; Ok (Some m)
|}.

(** A library that commits at once: who leads, and the log *)
Definition toy_raft : Raft (string * list string) := {|
  raft_IsLeader r := String.eqb r.1 "1";
  raft_LeaderID r := r.1;
  raft_Apply b r := ((r.1, r.2 ++ [b]), None);
  raft_GetConfiguration _ := Ok [];
  raft_RemoveServer _ r := (r, None);
  raft_AddVoter _ r := (r, None);
  raft_LeadershipTransfer srv r := (match srv with Some s => srv_ID s | None => "2" end, r.2)
|}.

(** The cosigner of a process: [SaveLastSignedState] of the cosigner [id] of LocalNet.v, and that
    its chains point to their states *)
Definition local_Save {S} `{J : !Json} (id : Z) (chainID : string) (ssc : SignStateConsensus) : LocalNet S → LocalNet S * result unit goerror :=
  on_cosigner id (LocalCosigner.SaveLastSignedState chainID ssc).

Definition chains_ok {S} (id : Z) (w : LocalNet S) : Prop :=
  ∀ s, ln_states w !! id = Some s → map_Forall (λ _ loc, loc < length (lc_heap s))%nat (lc_chainState s).

(** The validator of LocalNet.v, with its chain loaded, and its cosigner *)
Definition toy_cosigner_Save := @local_Save unit toy_json 1.
Definition toy_ok : LocalNet unit → Prop := chains_ok 1.

Definition toy_replica : FState (LocalNet unit) :=
  mkFState (Some ∅)
    (run answering (@ThresholdValidator.LoadSignStateIfNecessary (LocalNet unit) toy_json example_net example_validator.1 "chain")
       example_validator.2).1.1.

Definition toy_shared (height : Z) : ChainSignStateConsensus :=
  mkChainSSC "chain" (mkSSC height 0 3 (Some [1]) None (Some [2])).

Definition toy_entry (height : Z) : string :=
  match (@ShareSigned _ toy_raft toy_raft_json (toy_shared height) (Some ("1", []))).1 with
  | Some (_, [b]) => b
  | _ => ""
  end.

Definition toy_set (key value : string) : string :=
  match @marshal_command toy_raft_json (mkCommand "set" key value) with Ok b => b | _ => "" end.

Definition toy_Apply (b : string) := @Apply _ toy_json example_net toy_raft_json example_validator.1 toy_cosigner_Save b.
Definition toy_apply_log (bs : list string) := @apply_log _ toy_json example_net toy_raft_json example_validator.1 toy_cosigner_Save bs.

Definition toy_run (bs : list string) (s : FState (LocalNet unit)) := run answering (toy_apply_log bs) s.

(** The snapshot after one entry *)
Definition toy_data : string :=
  match @Persist toy_raft_json (default ∅ (f_m (toy_run [toy_set "a" "1"] toy_replica).1.1)) (λ _, None) None with
  | Ok b => b
  | _ => ""
  end.

(** ** Lemmas *)

Lemma toy_roundtrip {A} `{Countable A} (x : A) b : toy_encode x = Ok b → toy_decode b = Ok x.
Proof.
  intros Hb. assert (b = fmt_d (Zpos (encode x))) as -> by (unfold toy_encode in Hb; congruence).
  unfold toy_decode. by rewrite digits_fmt_d, decode_encode.
Qed.

Lemma toy_raft_json_laws : RaftJsonLaws toy_raft_json.
Proof.
  split; cbn.
  - intros c b Hb _ _ _. by apply toy_roundtrip.
  - intros lss b Hb _. by apply toy_roundtrip.
  - done.
  - intros m b Hb _. by rewrite (toy_roundtrip _ _ Hb).
  - done.
  - done.
Qed.

(** *** The state machine *)

Section fsm_lemmas.
Context {W : Type} `{J : !Json} `{N : !ClusterNet W} `{RJ : !RaftJson}.
Context (pv : ThresholdValidator) (cosigner_Save : string → SignStateConsensus → W → W * result unit goerror) (sched : nat → nat).

Lemma run_on_validator {A} (p : @prog (TVState W) tv_event (result A goerror)) (s : FState W) :
  run sched (on_validator p) s = let '(tv, ev, r) := run sched p (f_tv s) in (set_tv tv s, ev, r).
Proof.
  unfold on_validator. rewrite run_lift by (by intros; destruct s0 || done || by intros []).
  destruct (run sched p (f_tv s)) as [[tv ev] r]. by rewrite list_fmap_id.
Qed.

Lemma keeps_bind {A B} (p : @prog (FState W) tv_event A) (g : A → @prog (FState W) tv_event B) :
  keeps sched p → (∀ a, keeps sched (g a)) → keeps sched (prog_bind p g).
Proof.
  intros Hp Hg s s' ev r. rewrite run_bind_eq. destruct (run sched p s) as [[s1 ev1] a] eqn:E1.
  destruct (run sched (g a) s1) as [[s2 ev2] b] eqn:E2. intros [= <- _ _]. by rewrite (Hg _ _ _ _ _ E2), (Hp _ _ _ _ E1).
Qed.

Lemma keeps_ret {A} (a : A) : keeps (W := W) sched (Ret a).
Proof. by intros s s' ev r [= <- _ _]. Qed.

Lemma keeps_on_validator {A} (p : @prog (TVState W) tv_event (result A goerror)) : keeps sched (on_validator p).
Proof. intros s s' ev r. rewrite run_on_validator. destruct (run sched p (f_tv s)) as [[tv ev'] r']. by intros [= <- _ _]. Qed.

Lemma keeps_handleLSSEvent value : keeps sched (handleLSSEvent pv cosigner_Save value).
Proof.
  unfold handleLSSEvent. destruct (unmarshal_event value) as [lss| |]; [|apply keeps_ret..]. unfold save_shared.
  apply keeps_bind; [apply keeps_on_validator|]. intros [[]| |]; [|apply keeps_ret..].
  apply keeps_bind; [|intros [[]| |]; [|apply keeps_ret..]]; (apply keeps_bind; [apply keeps_on_validator|intros; apply keeps_ret]).
Qed.

(** An entry that does not panic does to the map what it says. *)
Lemma Apply_m b s s' ev m :
  run sched (Apply pv cosigner_Save b) s = (s', ev, Ok ()) → f_m s = Some m → f_m s' = Some (apply_abstract m b).
Proof.
  unfold Apply, apply_abstract. intros Hr Hm. destruct (unmarshal_command b) as [c| |]; [|by injection Hr as <- _|done].
  destruct (String.eqb (cmd_Op c) "set").
  - unfold applySet, getEventHandler, shouldRetain in Hr. destruct (String.eqb (cmd_Key c) raftEventLSS); cbn [negb] in Hr.
    + rewrite <- Hm. eapply keeps_bind; [apply keeps_handleLSSEvent| |exact Hr]. intros [[]| |]; apply keeps_ret.
    + cbn in Hr. rewrite Hm in Hr. by injection Hr as <- _.
  - destruct (String.eqb (cmd_Op c) "delete"); injection Hr as <- _; [|done]. cbn. by rewrite Hm.
Qed.

Lemma apply_log_m entries s s' ev m :
  run sched (apply_log pv cosigner_Save entries) s = (s', ev, Ok ()) → f_m s = Some m →
  f_m s' = Some (fold_left apply_abstract entries m).
Proof.
  revert s m ev. induction entries as [|b entries IH]; intros s m ev; cbn [apply_log fold_left]; [by intros [= <- _]|].
  unfold prog_try. rewrite run_bind_eq. destruct (run sched (Apply _ _ b) s) as [[s1 ev1] [[]|e|x]] eqn:E1; [|done|done].
  destruct (run sched (apply_log _ _ entries) s1) as [[s2 ev2] r] eqn:E2. intros [= <- _ ->] Hm.
  eapply IH; [exact E2|]. by eapply Apply_m.
Qed.

Lemma abstract_valid `{RL : !RaftJsonLaws RJ} entries m :
  map_Forall (λ k v, ValidString k = true ∧ ValidString v = true) m →
  map_Forall (λ k v, ValidString k = true ∧ ValidString v = true) (fold_left apply_abstract entries m).
Proof.
  revert m. induction entries as [|b entries IH]; intros m Hm; [done|]. cbn [fold_left]. apply IH. unfold apply_abstract.
  destruct (unmarshal_command b) as [c| |] eqn:E; [|done|done]. destruct (command_valid _ _ E).
  destruct (String.eqb _ "set"); [destruct (String.eqb _ _); [done|]; by apply map_Forall_insert_2|].
  destruct (String.eqb _ "delete"); [by apply map_Forall_delete|done].
Qed.

(** *** Shared sign states *)

(** What a save does to the watermark *)
Lemma Save_watermark st ssc d :
  match Save st ssc true d with
  | Ok (st', _) => lockedHrsKey st' = hrs_max (lockedHrsKey st) (ssc_HRSKey ssc)
  | Err _ => hrs_max (lockedHrsKey st) (ssc_HRSKey ssc) = lockedHrsKey st
  | Panics _ => False
  end.
Proof.
  unfold Save, blockDoubleSign, lockedGetErrorIfLessOrEqual, hrs_max.
  fold (ssc_HRSKey ssc). destruct (GreaterThan (lockedHrsKey st) (ssc_HRSKey ssc)) eqn:E1.
  - cbn. destruct (GreaterThan (ssc_HRSKey ssc) (lockedHrsKey st)) eqn:E2; [|done].
    apply GreaterThan_lt in E1, E2. by destruct (hrs_lt_irrefl (lockedHrsKey st)); etransitivity.
  - destruct (bool_decide_reflect (ssc_HRSKey ssc = lockedHrsKey st)) as [He|Hne]; cbn.
    + rewrite He. by destruct (GreaterThan (lockedHrsKey st) (lockedHrsKey st)).
    + destruct (GreaterThan (ssc_HRSKey ssc) (lockedHrsKey st)) eqn:E2; [done|]. exfalso.
      apply GreaterThan_false in E1 as [E1|E1], E2 as [E2|E2]; try congruence.
      by destruct (hrs_lt_irrefl (lockedHrsKey st)); etransitivity.
Qed.

Lemma run_load_loaded cid (tv : TVState W) :
  ValidateChainID cid = Ok () → is_Some (tv_chainState tv !! cid) →
  run sched (ThresholdValidator.LoadSignStateIfNecessary pv cid) tv = (tv, [], Ok ()).
Proof.
  intros Hv Hl. unfold ThresholdValidator.LoadSignStateIfNecessary. rewrite Hv. cbn [prog_bind reading run].
  by rewrite bool_decide_eq_true_2.
Qed.

Lemma run_save cid ssc (tv : TVState W) k :
  tv_watermark cid tv = Some k →
  ∃ tv' ev r, run sched (ThresholdValidator.SaveLastSignedState cid ssc) tv = (tv', ev, r) ∧ (∀ m, r ≠ Panics m)
    ∧ tv_world tv' = tv_world tv ∧ tv_watermark cid tv' = Some (hrs_max k (ssc_HRSKey ssc)).
Proof.
  unfold tv_watermark. destruct (tv_chainState tv !! cid) as [loc|] eqn:El; [|done]. cbn.
  destruct (tv_heap tv !! loc) as [css|] eqn:Eh; [|done]. intros [= <-]. rewrite El. cbn.
  unfold save_section, deref. rewrite Eh. pose proof (Save_watermark (css_lastSignState css) ssc (tv_disk tv)) as Hw.
  destruct (Save _ ssc true _) as [[st' d']|e|]; [| |done]; eexists _, _, _; split; [done| |done|]; (split; [done|]); (split; [done|]); cbn.
  - rewrite El. cbn. rewrite list_lookup_insert_eq by (by eapply lookup_lt_Some). cbn. by rewrite Hw.
  - rewrite El. cbn. rewrite Eh. cbn. by rewrite Hw.
Qed.

Lemma run_ignoring {A} (p : @prog (FState W) tv_event (result A goerror)) s s' ev r :
  run sched p s = (s', ev, r) → (∀ m, r ≠ Panics m) → run sched (ignoring p) s = (s', ev ++ [], Ok ()).
Proof.
  intros Hp Hr. unfold ignoring. rewrite run_bind_eq, Hp. cbn. destruct r as [| |m]; [done|done|]. by destruct (Hr m).
Qed.

Context (ok : W → Prop) (Hcosigner : saves_safely ok cosigner_Save).

Lemma run_save_shared cid ssc (s : FState W) k :
  ValidateChainID cid = Ok () → ok (tv_world (f_tv s)) → tv_watermark cid (f_tv s) = Some k →
  ∃ s' ev, run sched (save_shared pv cosigner_Save (mkChainSSC cid ssc)) s = (s', ev, Ok ())
    ∧ ok (tv_world (f_tv s')) ∧ tv_watermark cid (f_tv s') = Some (hrs_max k (ssc_HRSKey ssc)).
Proof using Hcosigner.
  intros Hv Hok Hk. unfold save_shared. cbn [cssc_ChainID cssc_SignStateConsensus]. rewrite run_bind_eq, run_on_validator.
  rewrite run_load_loaded; [|done|by unfold tv_watermark in Hk; destruct (tv_chainState _ !! cid)]. cbv beta iota.
  destruct (run_save cid ssc _ _ Hk) as (tv' & ev & r & Hs & Hr & Hworld & Hw).
  unfold prog_try. rewrite run_bind_eq. erewrite run_ignoring; [|rewrite run_on_validator; cbn [f_tv set_tv]; by rewrite Hs|done].
  cbv beta iota. destruct (cosigner_Save cid ssc (tv_world tv')) as [w rc] eqn:Ec.
  rewrite <- Hworld in Hok. destruct (Hcosigner cid ssc _ Hok) as [Hn Hok']. rewrite Ec in Hn, Hok'.
  erewrite run_ignoring; [|rewrite run_on_validator; cbn; by rewrite Ec|exact Hn].
  eexists _, _. split; [done|]. cbn. by split.
Qed.

Lemma run_Apply_lss cid b ssc (s : FState W) k :
  ValidateChainID cid = Ok () → ok (tv_world (f_tv s)) → tv_watermark cid (f_tv s) = Some k → lss_entry cid b ssc →
  ∃ s' ev, run sched (Apply pv cosigner_Save b) s = (s', ev, Ok ())
    ∧ ok (tv_world (f_tv s')) ∧ tv_watermark cid (f_tv s') = Some (hrs_max k (ssc_HRSKey ssc)).
Proof using Hcosigner.
  intros Hv Hok Hk (value & Hc & He). destruct (run_save_shared cid ssc s k Hv Hok Hk) as (s' & ev & Hr & Hw). exists s', (ev ++ []).
  split; [|done]. unfold Apply, applySet, getEventHandler, shouldRetain, handleLSSEvent. rewrite Hc. cbn [cmd_Op cmd_Key cmd_Value String.eqb].
  unfold prog_try. cbn. rewrite He, run_bind_eq, Hr. done.
Qed.

Lemma run_log_lss cid bs sscs (s : FState W) k :
  ValidateChainID cid = Ok () → ok (tv_world (f_tv s)) → tv_watermark cid (f_tv s) = Some k → Forall2 (lss_entry cid) bs sscs →
  ∃ s' ev, run sched (apply_log pv cosigner_Save bs) s = (s', ev, Ok ())
    ∧ tv_watermark cid (f_tv s') = Some (fold_left hrs_max (ssc_HRSKey <$> sscs) k).
Proof using Hcosigner.
  intros Hv Hok Hk Hf. revert s k Hok Hk. induction Hf as [|b ssc bs sscs Hb _ IH]; intros s k Hok Hk; [by exists s, []|].
  destruct (run_Apply_lss cid b ssc s k Hv Hok Hk Hb) as (s1 & ev1 & Hr1 & Hok1 & Hw1). destruct (IH s1 _ Hok1 Hw1) as (s2 & ev2 & Hr2 & Hw2).
  exists s2, (ev1 ++ ev2). split; [|done]. cbn [apply_log]. by eapply run_try.
Qed.
End fsm_lemmas.

(** The watermark after a list of keys does not depend on their order or on repetitions. *)
Lemma hrs_max_spec a b c : hrs_le (hrs_max a b) c ↔ hrs_le a c ∧ hrs_le b c.
Proof.
  unfold hrs_max. destruct (GreaterThan b a) eqn:E.
  - apply GreaterThan_lt in E. split; [|by intros []]. intros H. split; [|done]. left. by eapply hrs_lt_le_trans.
  - apply GreaterThan_false in E. split; [|by intros []]. intros H. split; [done|]. by etransitivity.
Qed.

Lemma fold_hrs_max_spec l a c : hrs_le (fold_left hrs_max l a) c ↔ hrs_le a c ∧ ∀ b, b ∈ l → hrs_le b c.
Proof.
  revert a. induction l as [|b l IH]; intros a; cbn [fold_left].
  - split; [|by intros []]. intros H. split; [done|]. by intros b ?%elem_of_nil.
  - rewrite IH, hrs_max_spec. split.
    + intros [[Ha Hb] H]. split; [done|]. intros x [->|Hx]%elem_of_cons; auto.
    + intros [Ha H]. repeat split; [done|apply H; by left|]. intros x Hx. apply H. by right.
Qed.

Lemma fold_hrs_max_in l a : fold_left hrs_max l a ∈ a :: l.
Proof.
  revert a. induction l as [|b l IH]; intros a; cbn [fold_left]; [by left|].
  assert (hrs_max a b = a ∨ hrs_max a b = b) as Hm by (unfold hrs_max; case_match; auto).
  specialize (IH (hrs_max a b)). rewrite elem_of_cons in IH. rewrite !elem_of_cons.
  destruct IH as [IH|]; [|by auto]. rewrite IH. destruct Hm; auto.
Qed.

Lemma hrs_le_antisymm a b : hrs_le a b → hrs_le b a → a = b.
Proof. intros [H|H] H'; [|done]. by destruct (hrs_lt_not_le _ _ H). Qed.

Lemma share_entry {R} `{RF : !Raft R} `{RJ : !RaftJson} `{RL : !RaftJsonLaws RJ} lss (r r' : R) :
  ShareSigned lss (Some r) = (Some r', Ok ()) → ValidString (cssc_ChainID lss) = true →
  ∃ b, raft_Apply b r = (r', None) ∧ lss_entry (cssc_ChainID lss) b (cssc_SignStateConsensus (event_decoded lss)).
Proof.
  unfold ShareSigned, Emit. destruct (marshal_event lss) as [v| |] eqn:Ev; [|done|done]. cbn.
  destruct (raft_IsLeader r); [|done]. unfold submit. cbn. destruct (marshal_command _) as [b| |] eqn:Eb; [|done|done].
  destruct (raft_Apply b r) as [r1 [e|]] eqn:Ea; [done|]. intros [= <-] Hc. exists b. split; [done|]. exists v.
  destruct ascii_valid. split; [apply command_roundtrip; [done..|by eapply event_valid]|].
  by rewrite (event_roundtrip _ _ Ev Hc).
Qed.

(** What the theorems ask of the cosigner's save holds of the model of LocalCosigner.v. *)
Lemma local_saves_safely {S} `{J : !Json} id : saves_safely (chains_ok (S := S) id) (local_Save id).
Proof.
  intros chainID ssc w Hok. unfold local_Save, on_cosigner. destruct (ln_states w !! id) as [s|] eqn:Es; [|by split].
  unfold LocalCosigner.SaveLastSignedState, LocalCosigner.getChainState. cbn.
  destruct (lc_chainState s !! chainID) as [loc|] eqn:El; cbn.
  - unfold LocalCosigner.save_section, LocalCosigner.deref.
    destruct (lookup_lt_is_Some_2 (lc_heap s) loc) as [ccs Hccs]; [by apply (Hok _ Es chainID)|]. rewrite Hccs.
    pose proof (Save_watermark (cs_lastSignState ccs) ssc (lc_disk s)) as Hw.
    destruct (Save _ ssc true _) as [[st d]|e|]; [| |done]; (split; [done|]); cbn; intros s' Hs'; cbn in Hs'; apply lookup_insert_rev in Hs' as <-; cbn.
    + intros c l Hl. rewrite length_insert. by apply (Hok _ Es c).
    + by apply Hok.
  - split; [done|]. cbn. intros s' Hs'. cbn in Hs'. apply lookup_insert_rev in Hs' as <-. by apply Hok.
Qed.

Lemma toy_replica_ok : toy_ok (tv_world (f_tv toy_replica)).
Proof.
  assert (match ln_states (tv_world (f_tv toy_replica)) !! 1 with
          | Some s => bool_decide (map_Forall (λ _ loc, loc < length (lc_heap s))%nat (lc_chainState s))
          | None => true
          end = true) as H by (vm_compute; reflexivity).
  intros s Hs. rewrite Hs in H. by apply bool_decide_eq_true in H.
Qed.

(** ** Theorems *)

(** C11: a sign state that [ShareSigned] reports as shared was submitted to the consensus, and
    every process that applies the entry, with the chain loaded, raises the watermark of its
    validator to the height, round and step of the state if it was below. *)
Theorem share_signed_replicates {W R} `{J : !Json} `{N : !ClusterNet W} `{RF : !Raft R} `{RJ : !RaftJson} `{RL : !RaftJsonLaws RJ}
    pv cosigner_Save ok sched lss (r r' : R) :
  ShareSigned lss (Some r) = (Some r', Ok ()) → ValidString (cssc_ChainID lss) = true →
  ValidateChainID (cssc_ChainID lss) = Ok () → saves_safely ok cosigner_Save →
  ∃ b, raft_Apply b r = (r', None) ∧
    ∀ (s : FState W) k, ok (tv_world (f_tv s)) → tv_watermark (cssc_ChainID lss) (f_tv s) = Some k →
      ∃ s' ev, run sched (Apply pv cosigner_Save b) s = (s', ev, Ok ())
        ∧ tv_watermark (cssc_ChainID lss) (f_tv s') = Some (hrs_max k (ssc_HRSKey (cssc_SignStateConsensus lss))).
Proof.
  intros Hs Hu Hv Hc. destruct (share_entry lss r r' Hs Hu) as (b & Hb & He). exists b. split; [done|].
  intros s k Hok Hk. destruct (run_Apply_lss pv cosigner_Save sched ok Hc _ _ _ _ _ Hv Hok Hk He) as (s' & ev & Hr & _ & Hw). by exists s', ev.
Qed.

Lemma share_signed_replicates_witness :
  ∃ b, @raft_Apply _ toy_raft b ("1", []) = (("1", [toy_entry 5]), None) ∧
    ∀ (s : FState (LocalNet unit)) k, toy_ok (tv_world (f_tv s)) → tv_watermark "chain" (f_tv s) = Some k →
      ∃ s' ev, run answering (toy_Apply b) s = (s', ev, Ok ())
        ∧ tv_watermark "chain" (f_tv s') = Some (hrs_max k (mkHRSKey 5 0 3)).
Proof.
  refine (@share_signed_replicates _ _ toy_json example_net toy_raft toy_raft_json toy_raft_json_laws example_validator.1
    toy_cosigner_Save toy_ok answering (toy_shared 5) ("1", []) ("1", [toy_entry 5]) _ eq_refl eq_refl
    (local_saves_safely (J := toy_json) 1)).
  vm_compute. reflexivity.
Defined.

(** C12: replicas with one watermark that apply the same shared states, in any order and any number of
    times, end with the same watermark: the highest of the keys of the states and of the watermark
    they had. *)
Theorem shared_states_converge {W} `{J : !Json} `{N : !ClusterNet W} `{RJ : !RaftJson}
    pv cosigner_Save ok sched cid bs1 bs2 sscs1 sscs2 (s1 s2 : FState W) k :
  saves_safely ok cosigner_Save → ok (tv_world (f_tv s1)) → ok (tv_world (f_tv s2)) → ValidateChainID cid = Ok () →
  tv_watermark cid (f_tv s1) = Some k → tv_watermark cid (f_tv s2) = Some k →
  Forall2 (lss_entry cid) bs1 sscs1 → Forall2 (lss_entry cid) bs2 sscs2 → (∀ ssc, ssc ∈ sscs1 ↔ ssc ∈ sscs2) →
  ∃ s1' s2' ev1 ev2 k',
    run sched (apply_log pv cosigner_Save bs1) s1 = (s1', ev1, Ok ()) ∧ run sched (apply_log pv cosigner_Save bs2) s2 = (s2', ev2, Ok ())
    ∧ tv_watermark cid (f_tv s1') = Some k' ∧ tv_watermark cid (f_tv s2') = Some k'
    ∧ k' ∈ k :: (ssc_HRSKey <$> sscs1) ∧ ∀ key, key ∈ k :: (ssc_HRSKey <$> sscs1) → hrs_le key k'.
Proof.
  intros Hc Hok1 Hok2 Hv Hk1 Hk2 Hf1 Hf2 Hset.
  destruct (run_log_lss pv cosigner_Save sched ok Hc _ _ _ _ _ Hv Hok1 Hk1 Hf1) as (s1' & ev1 & Hr1 & Hw1).
  destruct (run_log_lss pv cosigner_Save sched ok Hc _ _ _ _ _ Hv Hok2 Hk2 Hf2) as (s2' & ev2 & Hr2 & Hw2).
  assert (∀ c, hrs_le (fold_left hrs_max (ssc_HRSKey <$> sscs1) k) c ↔ hrs_le (fold_left hrs_max (ssc_HRSKey <$> sscs2) k) c) as He.
  { intros c. rewrite !fold_hrs_max_spec. by setoid_rewrite list_elem_of_fmap; setoid_rewrite Hset. }
  assert (fold_left hrs_max (ssc_HRSKey <$> sscs2) k = fold_left hrs_max (ssc_HRSKey <$> sscs1) k) as Heq.
  { apply hrs_le_antisymm; apply He; by right. }
  exists s1', s2', ev1, ev2, (fold_left hrs_max (ssc_HRSKey <$> sscs1) k). rewrite Heq in Hw2.
  repeat split; [done..|apply fold_hrs_max_in|].
  destruct (proj1 (fold_hrs_max_spec (ssc_HRSKey <$> sscs1) k _) (reflexivity _)) as [H1 H2].
  intros key [->|Hin]%elem_of_cons; [done|by apply H2].
Qed.

Lemma shared_states_converge_witness :
  ∃ s1' s2' ev1 ev2 k',
    run answering (toy_apply_log [toy_entry 5; toy_entry 7]) toy_replica = (s1', ev1, Ok ())
    ∧ run answering (toy_apply_log [toy_entry 7; toy_entry 5; toy_entry 7]) toy_replica = (s2', ev2, Ok ())
    ∧ tv_watermark "chain" (f_tv s1') = Some k' ∧ tv_watermark "chain" (f_tv s2') = Some k'
    ∧ k' ∈ mkHRSKey 0 0 0 :: (ssc_HRSKey <$> [cssc_SignStateConsensus (toy_shared 5); cssc_SignStateConsensus (toy_shared 7)])
    ∧ ∀ key, key ∈ mkHRSKey 0 0 0 :: (ssc_HRSKey <$> [cssc_SignStateConsensus (toy_shared 5); cssc_SignStateConsensus (toy_shared 7)])
        → hrs_le key k'.
Proof.
  refine (@shared_states_converge _ toy_json example_net toy_raft_json example_validator.1 toy_cosigner_Save toy_ok answering "chain" _ _ _
    [cssc_SignStateConsensus (toy_shared 7); cssc_SignStateConsensus (toy_shared 5); cssc_SignStateConsensus (toy_shared 7)]
    toy_replica toy_replica (mkHRSKey 0 0 0) (local_saves_safely (J := toy_json) 1) toy_replica_ok toy_replica_ok eq_refl eq_refl eq_refl _ _ _).
  - repeat constructor; eexists; (split; vm_compute; reflexivity).
  - repeat constructor; eexists; (split; vm_compute; reflexivity).
  - intros ssc. rewrite !elem_of_cons, elem_of_nil. tauto.
Defined.

(** C30: the map of the store after a log is that of its set and delete commands; a process that
    restores a snapshot and applies the rest of the log has the map of one that applied
    all of it. *)
Theorem snapshot_and_log {W} `{J : !Json} `{N : !ClusterNet W} `{RJ : !RaftJson} `{RL : !RaftJsonLaws RJ}
    pv cosigner_Save sched l1 l2 (s1 s1' s2 s2' s3 s3' : FState W) ev1 ev2 ev3 data :
  f_m s1 = Some ∅ → run sched (apply_log pv cosigner_Save l1) s1 = (s1', ev1, Ok ()) →
  Persist (default ∅ (f_m s1')) (λ _, None) None = Ok data →
  run sched (must _ <- Restore data; apply_log pv cosigner_Save l2) s2 = (s2', ev2, Ok ()) →
  f_m s3 = Some ∅ → run sched (apply_log pv cosigner_Save (l1 ++ l2)) s3 = (s3', ev3, Ok ()) →
  f_m s2' = f_m s3' ∧ f_m s3' = Some (fold_left apply_abstract (l1 ++ l2) ∅).
Proof.
  intros Hm1 Hr1 Hp Hr2 Hm3 Hr3. rewrite (apply_log_m _ _ _ _ _ _ _ _ Hr3 Hm3). split; [|done].
  rewrite (apply_log_m _ _ _ _ _ _ _ _ Hr1 Hm1) in Hp. unfold Persist in Hp. cbn in Hp.
  destruct (marshal_store _) as [b| |] eqn:Eb; [|done|done]. injection Hp as <-.
  apply store_roundtrip in Eb; [|by apply abstract_valid, map_Forall_empty]. unfold Restore in Hr2. rewrite Eb in Hr2.
  unfold prog_try in Hr2. rewrite run_bind_eq in Hr2. cbn in Hr2.
  destruct (run sched (apply_log pv cosigner_Save l2) _) as [[s ev] r] eqn:E2. injection Hr2 as -> _ ->.
  erewrite apply_log_m; [|exact E2|done]. by rewrite fold_left_app.
Qed.

Lemma snapshot_and_log_witness :
  f_m (toy_run [toy_set "a" "1"; toy_entry 5; toy_set "b" "2"] toy_replica).1.1
  = Some (fold_left (apply_abstract (H := toy_raft_json)) [toy_set "a" "1"; toy_entry 5; toy_set "b" "2"] ∅).
Proof.
  pose (l1 := [toy_set "a" "1"]). pose (l2 := [toy_entry 5; toy_set "b" "2"]).
  pose (r := run answering (must _ <- @Restore _ toy_raft_json toy_data; toy_apply_log l2) toy_replica).
  refine (proj2 (@snapshot_and_log _ toy_json example_net toy_raft_json toy_raft_json_laws example_validator.1 toy_cosigner_Save answering
    l1 l2 toy_replica (toy_run l1 toy_replica).1.1 toy_replica r.1.1 toy_replica (toy_run (l1 ++ l2) toy_replica).1.1
    (toy_run l1 toy_replica).1.2 r.1.2 (toy_run (l1 ++ l2) toy_replica).1.2 toy_data eq_refl _ _ _ eq_refl _));
    vm_compute; reflexivity.
Defined.

(** The leader is known by the number in its server ID. *)
Theorem GetLeader_id {R} `{RF : !Raft R} `{NetParse} (r : R) bind cosigners c :
  c ∈ cosigners → 0 ≤ c.1 < 2 ^ 63 →
  ∃ srv, srv ∈ bootstrap_servers "" bind cosigners ∧ (raft_LeaderID r = srv_ID srv → GetLeader (Some r) = c.1).
Proof.
  intros Hc Hr. exists (mkServer (fmt_d c.1) (p2pURLToRaftAddress c.2)). split.
  - right. by apply (list_elem_of_fmap_2 (λ c, mkServer (fmt_d c.1) (p2pURLToRaftAddress c.2))).
  - cbn. intros ->. pose proof (Atoi_fmt_d _ Hr) as Ha. destruct (fmt_d c.1); [done|]. cbn [String.eqb]. by rewrite Ha.
Qed.
