(* ===== verification/Sha256.v ===== *)
(** * SHA-256

    [sha256.Sum256] of Go's standard library, as the security layer of the cosigners uses it:
    FIPS 180-4 on byte lists. *)

From S2P Require Import Prelude Sha512.
From stdpp Require Import base list numbers.
From Stdlib Require Import ZArith Lia.

Open Scope Z_scope.

(** ** Definitions *)

Definition w32 (x : Z) : Z := x mod 2 ^ 32.

Definition rotr32 (n x : Z) : Z := Z.lor (Z.shiftr x n) (w32 (Z.shiftl x (32 - n))).

Definition sha256_Ch (x y z : Z) : Z := Z.lxor (Z.land x y) (Z.land (2 ^ 32 - 1 - x) z).
Definition sha256_Maj (x y z : Z) : Z := Z.lxor (Z.lxor (Z.land x y) (Z.land x z)) (Z.land y z).
Definition sha256_S0 (x : Z) : Z := Z.lxor (Z.lxor (rotr32 2 x) (rotr32 13 x)) (rotr32 22 x).
Definition sha256_S1 (x : Z) : Z := Z.lxor (Z.lxor (rotr32 6 x) (rotr32 11 x)) (rotr32 25 x).
Definition sha256_s0 (x : Z) : Z := Z.lxor (Z.lxor (rotr32 7 x) (rotr32 18 x)) (Z.shiftr x 3).
Definition sha256_s1 (x : Z) : Z := Z.lxor (Z.lxor (rotr32 17 x) (rotr32 19 x)) (Z.shiftr x 10).

(** The round constants and the initial state are the first 32 bits of the fractional parts of
    the cube and square roots of the first primes, of which SHA-512 takes 64. *)
Definition sha256_K : list Z := Eval vm_compute in (λ k, Z.shiftr k 32) <$> take 64 sha_K.

Definition sha256_H0 : list Z := Eval vm_compute in (λ h, Z.shiftr h 32) <$> sha_H0.

(** Padding: a one bit, zeros, and the 64-bit length in bits *)
Definition sha256_pad (msg : list Z) : list Z :=
  let n := Z.of_nat (length msg) in
  msg ++ [128] ++ replicate (Z.to_nat ((55 - n) mod 64)) 0 ++ reverse (le_bytes 8 (8 * n)).

(** A block of 64 bytes as 16 big-endian words *)
Fixpoint sha256_words (n : nat) (b : list Z) : list Z :=
  match n with
  | O => []
  | S n' => le_val (reverse (take 4 b)) :: sha256_words n' (drop 4 b)
  end.

(** The message schedule, with the last sixteen words kept in a window *)
Definition sha256_next (w : list Z) : Z :=
  w32 (sha256_s1 (w !!! 14%nat) + w !!! 9%nat + sha256_s0 (w !!! 1%nat) + w !!! 0%nat).

Definition sha256_round (s : list Z) (k w : Z) : list Z :=
  match s with
  | [a; b; c; d; e; f; g; h] =>
      let t1 := w32 (h + sha256_S1 e + sha256_Ch e f g + k + w) in
      let t2 := w32 (sha256_S0 a + sha256_Maj a b c) in
      [w32 (t1 + t2); a; b; c; w32 (d + t1); e; f; g]
  | _ => s
  end.

Fixpoint sha256_rounds (ks w s : list Z) : list Z :=
  match ks with
  | [] => s
  | k :: ks' => sha256_rounds ks' (drop 1 w ++ [sha256_next w]) (sha256_round s k (w !!! 0%nat))
  end.

Definition sha256_block (h b : list Z) : list Z :=
  zip_with (λ x y, w32 (x + y)) h (sha256_rounds sha256_K (sha256_words 16 b) h).

Fixpoint sha256_blocks (n : nat) (h b : list Z) : list Z :=
  match n with
  | O => h
  | S n' => sha256_blocks n' (sha256_block h (take 64 b)) (drop 64 b)
  end.

Definition sha256 (msg : list Z) : list Z :=
  let p := sha256_pad msg in
  mjoin ((λ x, reverse (le_bytes 4 x)) <$> sha256_blocks (length p / 64) sha256_H0 p).

(** ** Lemmas *)

(** The digests of the standard's examples *)
Example sha256_abc :
  sha256 [97; 98; 99] = [186; 120; 22; 191; 143; 1; 207; 234; 65; 65; 64; 222; 93; 174; 34; 35; 176; 3; 97; 163; 150; 23; 122; 156; 180; 16; 255; 97; 242; 0; 21; 173].
Proof. vm_compute. reflexivity. Qed.

Example sha256_two_blocks :
  le_val (reverse (sha256 (replicate 64 97))) = 0xffe054fe7ae0cb6dc65c3af9b61d5209f439851db43d0ba5997337df154668eb.
Proof. vm_compute. reflexivity. Qed.
