(* ===== verification/Security.v ===== *)
(** * The security layer of the cosigners

    The nonces a cosigner sends are encrypted for their receiver and signed by their sender.
    This file has the two implementations of [CosignerSecurity]: ECIES with ECDSA
    (signer/cosigner_security_ecies.go) and RSA (signer/cosigner_security_rsa.go), their key
    files, and the making of the keys (signer/cosigner_key_shares.go).

    The primitives are the classes [Ecies] and [Rsa], with laws that say what decryption and
    verification do on what encryption and signing made.  A call takes the randomness it
    uses; each use of it gets a part of its own.  [first] says which of two goroutines of an
    [errgroup] ends first. *)

From S2P Require Import Prelude Errors SignState Tsed25519 Cosigner SoftSigner Sha256.
From stdpp Require Import base gmap list strings numbers.
From Stdlib Require Import ZArith Lia.

Open Scope string_scope.
Open Scope list_scope.
Open Scope Z_scope.

(** ** Definitions *)

(** [eg.Wait()] after two goroutines: the error of the one that ends first *)
Definition eg_two {A B} (first : bool) (a : result A goerror) (b : result B goerror) : result (A * B) goerror :=
  match a, b with
  | Ok x, Ok y => Ok (x, y)
  | Panics m, _ | _, Panics m => Panics m
  | Err e, Err e' => Err (if first then e else e')
  | Err e, Ok _ | Ok _, Err e => Err e
  end.

(** [big.Int.FillBytes] into a buffer of [w] bytes *)
Definition FillBytes (w : nat) (x : Z) : result (list Z) goerror :=
  if Z.abs x <? 256 ^ Z.of_nat w then Ok (reverse (le_bytes w (Z.abs x))) else Panics "math/big: buffer too small to fit value".

(** The map of the public keys by shard ID, from one *)
Fixpoint keys_from {A} (i : Z) (pubs : list A) : gmap Z A :=
  match pubs with
  | [] => ∅
  | p :: pubs' => <[i := p]> (keys_from (i + 1) pubs')
  end.

Definition keys_by_id {A} (pubs : list A) : gmap Z A := keys_from 1 pubs.

(** What is signed of a nonce: neither its destination nor a signature *)
Definition signed_part (id : Z) (pub share : gobytes) : CosignerNonce := mkCosignerNonce id 0 pub share None.

(** [cometjson.Marshal] of a nonce, [json.Marshal] and [json.Unmarshal] of the bytes of a key file *)
Class SecurityJson := {
  marshal_nonce : CosignerNonce → result (list Z) goerror;
  marshal_key_file : list Z * Z * list (list Z) → result (list Z) goerror;
  unmarshal_key_file : list Z → result (list Z * Z * list (list Z)) goerror
}.

Class SecurityJsonLaws (J : SecurityJson) := {
  key_file_json f b : marshal_key_file f = Ok b → unmarshal_key_file b = Ok f
}.

(** *** ECIES *)

Definition eciesCoordinateBytes : nat := 32.
Definition eciesPubKeyBytes : nat := 1 + 2 * eciesCoordinateBytes.
Definition eciesPubKeyPrefix : Z := 4.

(** [ecies.PublicKey] and [ecies.PrivateKey] on secp256k1 *)
Record EciesPublicKey := mkEciesPublicKey {
  epk_X : Z;
  epk_Y : Z
}.

Record EciesPrivateKey := mkEciesPrivateKey {
  esk_PublicKey : EciesPublicKey;
  esk_D : Z
}.

Global Instance EciesPublicKey_eq_dec : EqDecision EciesPublicKey.
Proof. solve_decision. Defined.

Class Ecies := {
  ecies_Encrypt : list Z → EciesPublicKey → gobytes → result gobytes goerror;
  ecies_Decrypt : EciesPrivateKey → gobytes → result gobytes goerror;
  ecdsa_SignASN1 : list Z → EciesPrivateKey → list Z → result gobytes goerror;
  ecdsa_VerifyASN1 : EciesPublicKey → list Z → gobytes → bool;
  ecies_GenerateKey : list Z → result EciesPrivateKey goerror;
  IsOnCurve : Z → Z → bool
}.

(** [matches key]: the private key was made with its public key. *)
Class EciesLaws (X : Ecies) := {
  ecies_matches : EciesPrivateKey → Prop;
  ecies_generated rnd key :
    ecies_GenerateKey rnd = Ok key →
    ecies_matches key ∧ 0 ≤ esk_D key < 2 ^ 256 ∧ 0 ≤ epk_X (esk_PublicKey key) < 2 ^ 256
    ∧ 0 ≤ epk_Y (esk_PublicKey key) < 2 ^ 256 ∧ IsOnCurve (epk_X (esk_PublicKey key)) (epk_Y (esk_PublicKey key)) = true;
  ecies_roundtrip rnd key m c :
    ecies_matches key → ecies_Encrypt rnd (esk_PublicKey key) m = Ok c → ecies_Decrypt key c = Ok (Some (slice m));
  ecdsa_verifies rnd key h sig :
    ecies_matches key → ecdsa_SignASN1 rnd key h = Ok sig → ecdsa_VerifyASN1 (esk_PublicKey key) h sig = true
}.

Record CosignerECIESKey := mkCosignerECIESKey {
  ek_ECIESKey : EciesPrivateKey;
  ek_ID : Z;
  ek_ECIESPubs : list EciesPublicKey
}.

Record CosignerSecurityECIES := mkCosignerSecurityECIES {
  se_key : CosignerECIESKey;
  se_eciesPubKeys : gmap Z EciesPublicKey
}.

(** One public key of a key file *)
Definition ecies_pub_bytes (pub : EciesPublicKey) : result (list Z) goerror :=
  try x <- FillBytes eciesCoordinateBytes (epk_X pub);
  try y <- FillBytes eciesCoordinateBytes (epk_Y pub);
  Ok (eciesPubKeyPrefix :: x ++ y).

Fixpoint each {A B} (f : A → result B goerror) (l : list A) : result (list B) goerror :=
  match l with
  | [] => Ok []
  | a :: l' => try b <- f a; try bs <- each f l'; Ok (b :: bs)
  end.

Section ecies.
Context `{J : !SecurityJson} `{X : !Ecies} (first : bool).

Definition ecies_MarshalJSON (key : CosignerECIESKey) : result (list Z) goerror :=
  try privateBytes <- FillBytes eciesCoordinateBytes (esk_D (ek_ECIESKey key));
  try pubKeysBytes <- each ecies_pub_bytes (ek_ECIESPubs key);
  marshal_key_file (privateBytes, ek_ID key, pubKeysBytes).

(** The loop of [UnmarshalJSON] over the public keys; [i] counts from one. *)
Definition parse_pub (i : Z) (pubBz : list Z) : result EciesPublicKey goerror :=
  if negb (length pubBz =? eciesPubKeyBytes)%nat then
    Err (ErrorString ("ecies pub key " +:+ fmt_d i +:+ ": got " +:+ fmt_d (Z.of_nat (length pubBz)) +:+ " bytes, want "
           +:+ fmt_d (Z.of_nat eciesPubKeyBytes)))
  else if negb (default 0 (pubBz !! 0%nat) =? eciesPubKeyPrefix) then
    Err (ErrorString ("ecies pub key " +:+ fmt_d i +:+ ": got prefix 0x" +:+ hex_EncodeToString (take 1 pubBz) +:+ ", want 0x"
           +:+ hex_EncodeToString [eciesPubKeyPrefix]))
  else
    let pub := mkEciesPublicKey (big_SetBytes (take eciesCoordinateBytes (drop 1 pubBz)))
                 (big_SetBytes (drop (1 + eciesCoordinateBytes) pubBz)) in
    if negb (IsOnCurve (epk_X pub) (epk_Y pub)) then
      Err (ErrorString ("ecies pub key " +:+ fmt_d i +:+ " is not on the secp256k1 curve"))
    else Ok pub.

Fixpoint parse_pubs (i : Z) (l : list (list Z)) : result (list EciesPublicKey) goerror :=
  match l with
  | [] => Ok []
  | pubBz :: l' => try pub <- parse_pub i pubBz; try pubs <- parse_pubs (i + 1) l'; Ok (pub :: pubs)
  end.

Definition ecies_UnmarshalJSON (data : list Z) : result CosignerECIESKey goerror :=
  try aux <- unmarshal_key_file data;
  let '(eciesKey, id, eciesPubs) := aux in
  try pubs <- parse_pubs 1 eciesPubs;
  if (id <? 1) || (Z.of_nat (length pubs) <? id) then
    Err (ErrorString ("cosigner id " +:+ fmt_d id +:+ " out of range for " +:+ fmt_d (Z.of_nat (length pubs)) +:+ " ecies pub keys"))
  else
    match zlookup (id - 1) pubs with
    | None => Panics index_out_of_range
    | Some pub => Ok (mkCosignerECIESKey (mkEciesPrivateKey pub (big_SetBytes eciesKey)) id pubs)
    end.

Definition LoadCosignerECIESKey (fs : FileSystem) (file : string) : result CosignerECIESKey goerror :=
  try keyJSONBytes <- ReadFile fs file;
  ecies_UnmarshalJSON keyJSONBytes.

Definition WriteCosignerECIESShardFile (cosigner : CosignerECIESKey) (file : string) (fs : FileSystem) : result FileSystem goerror :=
  try jsonBytes <- ecies_MarshalJSON cosigner;
  os_WriteFile fs file jsonBytes.

Definition NewCosignerSecurityECIES (key : CosignerECIESKey) : CosignerSecurityECIES :=
  mkCosignerSecurityECIES key (keys_by_id (ek_ECIESPubs key)).

Definition ecies_EncryptAndSign (c : CosignerSecurityECIES) (rnd : list Z) (id : Z) (noncePub nonceShare : gobytes)
    : result CosignerNonce goerror :=
  match se_eciesPubKeys c !! id with
  | None => Err (ErrorString ("unknown cosigner ID: " +:+ fmt_d id))
  | Some pubKey =>
      try enc <- eg_two first (ecies_Encrypt (0 :: rnd) pubKey nonceShare) (ecies_Encrypt (1 :: rnd) pubKey noncePub);
      let '(encryptedShare, encryptedPub) := enc in
      try jsonBytes <- marshal_nonce (signed_part (ek_ID (se_key c)) encryptedPub encryptedShare);
      try signature <- ecdsa_SignASN1 (2 :: rnd) (ek_ECIESKey (se_key c)) (sha256 jsonBytes);
      Ok (mkCosignerNonce (ek_ID (se_key c)) id encryptedPub encryptedShare signature)
  end.

Definition ecies_DecryptAndVerify (c : CosignerSecurityECIES) (id : Z) (encryptedNoncePub encryptedNonceShare signature : gobytes)
    : result (gobytes * gobytes) goerror :=
  match se_eciesPubKeys c !! id with
  | None => Err (ErrorString ("unknown cosigner: " +:+ fmt_d id))
  | Some pubKey =>
      try digestBytes <- marshal_nonce (signed_part id encryptedNoncePub encryptedNonceShare);
      if negb (ecdsa_VerifyASN1 pubKey (sha256 digestBytes) signature) then Err (ErrorString "signature is invalid")
      else
        eg_two first
          (map_err (WrapError "failed to decrypt nonce pub: ") (ecies_Decrypt (ek_ECIESKey (se_key c)) encryptedNoncePub))
          (map_err (WrapError "failed to decrypt nonce share: ") (ecies_Decrypt (ek_ECIESKey (se_key c)) encryptedNonceShare))
  end.

#[global] Instance ecies_security : CosignerSecurity CosignerSecurityECIES := {|
  sec_GetID c := ek_ID (se_key c);
  EncryptAndSign := ecies_EncryptAndSign;
  DecryptAndVerify := ecies_DecryptAndVerify
|}.

(** [makeECIESKeys] and [CreateCosignerECIESShards]; a goroutine makes a key of its own randomness. *)
Definition makeECIESKeys (rnd : nat → list Z) (num : nat) : result (list EciesPrivateKey * list EciesPublicKey) goerror :=
  try keys <- each (λ i, ecies_GenerateKey (rnd i)) (seq 0 num);
  Ok (keys, esk_PublicKey <$> keys).

Definition CreateCosignerECIESShards (rnd : nat → list Z) (shards : nat) : result (list CosignerECIESKey) goerror :=
  try made <- makeECIESKeys rnd shards;
  let '(eciesKeys, pubKeys) := made in
  Ok (imap (λ i key, mkCosignerECIESKey key (Z.of_nat i + 1) pubKeys) eciesKeys).
End ecies.

(** A key that was made *)
Definition made `{EciesLaws} (key : EciesPrivateKey) : Prop :=
  ecies_matches key ∧ 0 ≤ esk_D key < 2 ^ 256 ∧ 0 ≤ epk_X (esk_PublicKey key) < 2 ^ 256
  ∧ 0 ≤ epk_Y (esk_PublicKey key) < 2 ^ 256 ∧ IsOnCurve (epk_X (esk_PublicKey key)) (epk_Y (esk_PublicKey key)) = true.

(** *** RSA *)

(** The keys are opaque: [rsa_Public] is the field [PublicKey] of a private key. *)
Class Rsa (Priv Pub : Type) := {
  rsa_Public : Priv → Pub;
  rsa_EncryptOAEP : list Z → Pub → gobytes → result gobytes goerror;
  rsa_DecryptOAEP : Priv → gobytes → result gobytes goerror;
  rsa_SignPSS : list Z → Priv → list Z → result gobytes goerror;
  rsa_VerifyPSS : Pub → list Z → gobytes → result unit goerror;
  rsa_GenerateKey : list Z → result Priv goerror;
  MarshalPKCS1PrivateKey : Priv → list Z;
  ParsePKCS1PrivateKey : list Z → result Priv goerror;
  MarshalPKCS1PublicKey : Pub → list Z;
  ParsePKCS1PublicKey : list Z → result Pub goerror
}.

Class RsaLaws {Priv Pub : Type} (X : Rsa Priv Pub) := {
  oaep_roundtrip rnd key m c :
    rsa_EncryptOAEP rnd (rsa_Public key) m = Ok c → rsa_DecryptOAEP key c = Ok (Some (slice m));
  pss_verifies rnd key h sig : rsa_SignPSS rnd key h = Ok sig → rsa_VerifyPSS (rsa_Public key) h sig = Ok ();
  pkcs1_private key : ParsePKCS1PrivateKey (MarshalPKCS1PrivateKey key) = Ok key;
  pkcs1_public pub : ParsePKCS1PublicKey (MarshalPKCS1PublicKey pub) = Ok pub
}.

Record CosignerRSAKey (Priv Pub : Type) := mkCosignerRSAKey {
  rk_RSAKey : Priv;
  rk_ID : Z;
  rk_RSAPubs : list Pub
}.
Arguments mkCosignerRSAKey {Priv Pub} _ _ _.
Arguments rk_RSAKey {Priv Pub} _.
Arguments rk_ID {Priv Pub} _.
Arguments rk_RSAPubs {Priv Pub} _.

Record CosignerSecurityRSA (Priv Pub : Type) := mkCosignerSecurityRSA {
  sr_key : CosignerRSAKey Priv Pub;
  sr_rsaPubKeys : gmap Z Pub
}.
Arguments mkCosignerSecurityRSA {Priv Pub} _ _.
Arguments sr_key {Priv Pub} _.
Arguments sr_rsaPubKeys {Priv Pub} _.

Section rsa.
Context `{J : !SecurityJson} {Priv Pub : Type} `{X : !Rsa Priv Pub} (first : bool).

Definition rsa_MarshalJSON (key : CosignerRSAKey Priv Pub) : result (list Z) goerror :=
  marshal_key_file (MarshalPKCS1PrivateKey (rk_RSAKey key), rk_ID key, MarshalPKCS1PublicKey <$> rk_RSAPubs key).

Definition rsa_UnmarshalJSON (data : list Z) : result (CosignerRSAKey Priv Pub) goerror :=
  try aux <- unmarshal_key_file data;
  let '(rsaKey, id, rsaPubs) := aux in
  try privateKey <- ParsePKCS1PrivateKey rsaKey;
  try pubs <- each ParsePKCS1PublicKey rsaPubs;
  Ok (mkCosignerRSAKey privateKey id pubs).

Definition LoadCosignerRSAKey (fs : FileSystem) (file : string) : result (CosignerRSAKey Priv Pub) goerror :=
  try keyJSONBytes <- ReadFile fs file;
  rsa_UnmarshalJSON keyJSONBytes.

Definition WriteCosignerRSAShardFile (cosigner : CosignerRSAKey Priv Pub) (file : string) (fs : FileSystem)
    : result FileSystem goerror :=
  try jsonBytes <- rsa_MarshalJSON cosigner;
  os_WriteFile fs file jsonBytes.

Definition NewCosignerSecurityRSA (key : CosignerRSAKey Priv Pub) : CosignerSecurityRSA Priv Pub :=
  mkCosignerSecurityRSA key (keys_by_id (rk_RSAPubs key)).

Definition rsa_EncryptAndSign (c : CosignerSecurityRSA Priv Pub) (rnd : list Z) (id : Z) (noncePub nonceShare : gobytes)
    : result CosignerNonce goerror :=
  match sr_rsaPubKeys c !! id with
  | None => Err (ErrorString ("unknown cosigner ID: " +:+ fmt_d id))
  | Some pubKey =>
      try enc <- eg_two first (rsa_EncryptOAEP (0 :: rnd) pubKey nonceShare) (rsa_EncryptOAEP (1 :: rnd) pubKey noncePub);
      let '(encryptedShare, encryptedPub) := enc in
      try jsonBytes <- marshal_nonce (signed_part (rk_ID (sr_key c)) encryptedPub encryptedShare);
      try signature <- rsa_SignPSS (2 :: rnd) (rk_RSAKey (sr_key c)) (sha256 jsonBytes);
      Ok (mkCosignerNonce (rk_ID (sr_key c)) id encryptedPub encryptedShare signature)
  end.

Definition rsa_DecryptAndVerify (c : CosignerSecurityRSA Priv Pub) (id : Z)
    (encryptedNoncePub encryptedNonceShare signature : gobytes) : result (gobytes * gobytes) goerror :=
  match sr_rsaPubKeys c !! id with
  | None => Err (ErrorString ("unknown cosigner: " +:+ fmt_d id))
  | Some pubKey =>
      try digestBytes <- marshal_nonce (signed_part id encryptedNoncePub encryptedNonceShare);
      try _ <- rsa_VerifyPSS pubKey (sha256 digestBytes) signature;
      eg_two first (rsa_DecryptOAEP (rk_RSAKey (sr_key c)) encryptedNoncePub)
        (rsa_DecryptOAEP (rk_RSAKey (sr_key c)) encryptedNonceShare)
  end.

#[global] Instance rsa_security : CosignerSecurity (CosignerSecurityRSA Priv Pub) := {|
  sec_GetID c := rk_ID (sr_key c);
  EncryptAndSign := rsa_EncryptAndSign;
  DecryptAndVerify := rsa_DecryptAndVerify
|}.

Definition makeRSAKeys (rnd : nat → list Z) (num : nat) : result (list Priv * list Pub) goerror :=
  try keys <- each (λ i, rsa_GenerateKey (rnd i)) (seq 0 num);
  Ok (keys, rsa_Public <$> keys).

Definition CreateCosignerRSAShards (rnd : nat → list Z) (shards : nat) : result (list (CosignerRSAKey Priv Pub)) goerror :=
  try made <- makeRSAKeys rnd shards;
  let '(rsaKeys, pubKeys) := made in
  Ok (imap (λ i key, mkCosignerRSAKey key (Z.of_nat i + 1) pubKeys) rsaKeys).
End rsa.

(** *** Concrete primitives, to run the model

    A private key is a number and its public key the same number; a ciphertext is the key
    and the plaintext, a signature the key and the hash. *)
Fixpoint toy_split (fuel : nat) (b : list Z) : list (list Z) :=
  match fuel, b with
  | S fuel, n :: b => take (Z.to_nat n) b :: toy_split fuel (drop (Z.to_nat n) b)
  | _, _ => []
  end.

Definition toy_sec_json : SecurityJson := {|
  marshal_nonce n := Ok (cn_SourceID n :: slice (cn_PubKey n) ++ slice (cn_Share n));
  marshal_key_file f :=
    let '(k, id, pubs) := f in
    Ok (Z.of_nat (length k) :: id :: k ++ mjoin ((λ p, Z.of_nat (length p) :: p) <$> pubs));
  unmarshal_key_file b :=
    match b with
    | n :: id :: b => Ok (take (Z.to_nat n) b, id, toy_split (length b) (drop (Z.to_nat n) b))
    | _ => Err (ErrorString "unexpected end of JSON input")
    end
|}.

Definition toy_open (k : Z) (c : gobytes) : result gobytes goerror :=
  match slice c with
  | k' :: m => if k =? k' then Ok (Some m) else Err (ErrorString "ecies: invalid message")
  | [] => Err (ErrorString "ecies: invalid message")
  end.

Definition toy_ecies : Ecies := {|
  ecies_Encrypt _ pub m := Ok (Some (epk_X pub :: slice m));
  ecies_Decrypt key c := toy_open (esk_D key) c;
  ecdsa_SignASN1 _ key h := Ok (Some (esk_D key :: h));
  ecdsa_VerifyASN1 pub h sig := bool_decide (slice sig = epk_X pub :: h);
  ecies_GenerateKey rnd := let d := list_sum (Z.to_nat <$> rnd) in
    let d := Z.of_nat (d mod 100) in Ok (mkEciesPrivateKey (mkEciesPublicKey d (d + 1)) d);
  IsOnCurve x y := y =? x + 1
|}.

Definition toy_rsa : Rsa Z Z := {|
  rsa_Public k := k;
  rsa_EncryptOAEP _ pub m := Ok (Some (pub :: slice m));
  rsa_DecryptOAEP := toy_open;
  rsa_SignPSS _ key h := Ok (Some (key :: h));
  rsa_VerifyPSS pub h sig := if bool_decide (slice sig = pub :: h) then Ok () else Err (ErrorString "crypto/rsa: verification error");
  rsa_GenerateKey rnd := Ok (default 0 (head rnd));
  MarshalPKCS1PrivateKey k := [k];
  ParsePKCS1PrivateKey b := match b with [k] => Ok k | _ => Err (ErrorString "x509") end;
  MarshalPKCS1PublicKey k := [k];
  ParsePKCS1PublicKey b := match b with [k] => Ok k | _ => Err (ErrorString "x509") end
|}.

Definition toy_rnd (i : nat) : list Z := [Z.of_nat i + 5].

Definition toy_shard (i : nat) : CosignerECIESKey :=
  let pub k := mkEciesPublicKey k (k + 1) in
  mkCosignerECIESKey (mkEciesPrivateKey (pub (Z.of_nat i + 5)) (Z.of_nat i + 5)) (Z.of_nat i + 1) [pub 5; pub 6].

Definition toy_rsa_shard (i : nat) : CosignerRSAKey Z Z := mkCosignerRSAKey (Z.of_nat i + 5) (Z.of_nat i + 1) [5; 6].

(** ** Lemmas *)

Lemma keys_from_lookup {A} (pubs : list A) i j :
  keys_from i pubs !! j = if decide (i ≤ j) then pubs !! Z.to_nat (j - i) else None.
Proof.
  revert i. induction pubs as [|p pubs IH]; intros i; cbn [keys_from].
  - rewrite lookup_empty. by case_decide.
  - destruct (decide (i = j)) as [->|Hne].
    + rewrite lookup_insert_eq, decide_True by lia. by rewrite Z.sub_diag.
    + rewrite lookup_insert_ne, IH by done. destruct (decide (i ≤ j)) as [Hle|Hgt].
      * rewrite decide_True by lia. by replace (Z.to_nat (j - i)) with (S (Z.to_nat (j - (i + 1)))) by lia.
      * by rewrite decide_False by lia.
Qed.

Lemma keys_by_id_lookup {A} (pubs : list A) i : keys_by_id pubs !! (Z.of_nat i + 1) = pubs !! i.
Proof. unfold keys_by_id. rewrite keys_from_lookup, decide_True by lia. f_equal. lia. Qed.

Lemma each_Ok {A B} (f : A → result B goerror) l bs : each f l = Ok bs → Forall2 (λ a b, f a = Ok b) l bs.
Proof.
  revert bs. induction l as [|a l IH]; intros bs; cbn; [intros [= <-]; constructor|].
  destruct (f a) as [b| |] eqn:E; [|done|done]. cbn. destruct (each f l) as [bs'| |]; [|done|done]. intros [= <-].
  constructor; auto.
Qed.

Lemma each_all {A B} (f : A → result B goerror) l bs : Forall2 (λ a b, f a = Ok b) l bs → each f l = Ok bs.
Proof. induction 1 as [|a b l bs Hab _ IH]; [done|]. cbn. by rewrite Hab, IH. Qed.

Lemma eg_two_Ok {A B} first (a : result A goerror) (b : result B goerror) x y :
  eg_two first a b = Ok (x, y) ↔ a = Ok x ∧ b = Ok y.
Proof. split; [destruct a, b; cbn; intros ?; by simplify_eq|by intros [-> ->]]. Qed.

(** A number that fits comes back from its bytes. *)
Lemma FillBytes_SetBytes w x :
  0 ≤ x < 256 ^ Z.of_nat w → ∃ b, FillBytes w x = Ok b ∧ length b = w ∧ big_SetBytes b = x.
Proof.
  intros Hx. unfold FillBytes. rewrite Z.abs_eq by lia. rewrite (proj2 (Z.ltb_lt _ _)) by lia. eexists. split; [done|].
  rewrite length_reverse, le_bytes_length. split; [done|]. unfold big_SetBytes.
  by rewrite reverse_involutive, le_val_bytes, Z.mod_small.
Qed.

Section ecies_lemmas.
Context `{J : !SecurityJson} `{JL : !SecurityJsonLaws J} `{X : !Ecies} `{XL : !EciesLaws X}.

Lemma ecies_shards rnd n shards :
  CreateCosignerECIESShards rnd n = Ok shards →
  ∃ keys, Forall made keys ∧ shards = imap (λ i key, mkCosignerECIESKey key (Z.of_nat i + 1) (esk_PublicKey <$> keys)) keys.
Proof.
  unfold CreateCosignerECIESShards, makeECIESKeys. destruct (each _ _) as [keys| |] eqn:E; [|done|done]. cbn. intros [= <-].
  exists keys. split; [|done]. apply each_Ok in E. apply list.Forall_forall. intros key (i & Hi)%list_elem_of_lookup.
  destruct (Forall2_lookup_r _ _ _ _ _ E Hi) as (a & _ & Hg). by eapply ecies_generated.
Qed.

Lemma ecies_shard rnd n shards i k :
  CreateCosignerECIESShards rnd n = Ok shards → shards !! i = Some k →
  made (ek_ECIESKey k) ∧ ek_ID k = Z.of_nat i + 1 ∧ ek_ECIESPubs k !! i = Some (esk_PublicKey (ek_ECIESKey k)).
Proof.
  intros (keys & Hm & ->)%ecies_shards Hi. rewrite list_lookup_imap in Hi. destruct (keys !! i) as [key|] eqn:Ek; [|done].
  injection Hi as <-. cbn. rewrite list_lookup_fmap, Ek. split; [|done].
  rewrite list.Forall_forall in Hm. apply Hm. by eapply list_elem_of_lookup_2.
Qed.

Lemma ecies_shards_pubs rnd n shards i j ki kj :
  CreateCosignerECIESShards rnd n = Ok shards → shards !! i = Some ki → shards !! j = Some kj → ek_ECIESPubs ki = ek_ECIESPubs kj.
Proof.
  intros (keys & _ & ->)%ecies_shards. rewrite !list_lookup_imap. destruct (keys !! i), (keys !! j); [|done..].
  by intros [= <-] [= <-].
Qed.

(** What the receiver gets of a nonce that was made for it *)
Lemma ecies_exchange first first' rnd' rnd n shards i j ki kj noncePub nonceShare nonce :
  CreateCosignerECIESShards rnd n = Ok shards → shards !! i = Some ki → shards !! j = Some kj →
  ecies_EncryptAndSign first (NewCosignerSecurityECIES ki) rnd' (ek_ID kj) noncePub nonceShare = Ok nonce →
  ecies_DecryptAndVerify first' (NewCosignerSecurityECIES kj) (cn_SourceID nonce) (cn_PubKey nonce) (cn_Share nonce) (cn_Signature nonce)
  = Ok (Some (slice noncePub), Some (slice nonceShare)).
Proof using XL.
  intros Hs Hi Hj. destruct (ecies_shard _ _ _ _ _ Hs Hi) as ([Hmi _] & Hidi & Hpi).
  destruct (ecies_shard _ _ _ _ _ Hs Hj) as ([Hmj _] & Hidj & Hpj). pose proof (ecies_shards_pubs _ _ _ _ _ _ _ Hs Hi Hj) as Hp.
  unfold ecies_EncryptAndSign, ecies_DecryptAndVerify, NewCosignerSecurityECIES. cbn [se_eciesPubKeys se_key].
  rewrite Hidj, keys_by_id_lookup, Hp, Hpj.
  destruct (eg_two first _ _) as [[encShare encPub]| |] eqn:Ee; [|done|done]. apply eg_two_Ok in Ee as [Es Ep]. cbn [result_bind].
  destruct (marshal_nonce _) as [json| |] eqn:Ej; [|done|done]. cbn [result_bind].
  destruct (ecdsa_SignASN1 _ _ _) as [sig| |] eqn:Eg; [|done|done]. intros [= <-]. cbn [cn_SourceID cn_PubKey cn_Share cn_Signature].
  rewrite Hidi, keys_by_id_lookup. rewrite Hidi in Ej. rewrite <- Hp, Hpi, Ej. cbn [result_bind].
  rewrite (ecdsa_verifies _ _ _ _ Hmi Eg). cbn [negb].
  by rewrite (ecies_roundtrip _ _ _ _ Hmj Ep), (ecies_roundtrip _ _ _ _ Hmj Es).
Qed.

Lemma parse_made i key : made key → ∃ b, ecies_pub_bytes (esk_PublicKey key) = Ok b ∧ parse_pub i b = Ok (esk_PublicKey key).
Proof.
  intros (_ & _ & Hx & Hy & Hc). unfold ecies_pub_bytes.
  destruct (FillBytes_SetBytes eciesCoordinateBytes (epk_X (esk_PublicKey key))) as (bx & -> & Hlx & Hvx); [exact Hx|].
  destruct (FillBytes_SetBytes eciesCoordinateBytes (epk_Y (esk_PublicKey key))) as (by' & -> & Hly & Hvy); [exact Hy|].
  cbn [result_bind]. eexists. split; [done|]. unfold parse_pub. cbn [length]. rewrite length_app, Hlx, Hly.
  replace (Nat.eqb _ _) with true by reflexivity. cbn [negb].
  replace (default 0 ((eciesPubKeyPrefix :: bx ++ by') !! 0%nat) =? eciesPubKeyPrefix) with true by reflexivity. cbn [negb].
  replace (take eciesCoordinateBytes (drop 1 (eciesPubKeyPrefix :: bx ++ by'))) with bx
    by (symmetry; by apply (take_app_length' bx by')).
  replace (drop (1 + eciesCoordinateBytes) (eciesPubKeyPrefix :: bx ++ by')) with by'
    by (symmetry; by apply (drop_app_length' bx by' eciesCoordinateBytes)).
  cbn [epk_X epk_Y]. rewrite Hvx, Hvy, Hc. by destruct (esk_PublicKey key).
Qed.

Lemma parse_all_made i keys :
  Forall made keys → ∃ bs, each ecies_pub_bytes (esk_PublicKey <$> keys) = Ok bs ∧ parse_pubs i bs = Ok (esk_PublicKey <$> keys).
Proof.
  intros H. revert i. induction H as [|key keys Hk _ IH]; intros i; [by exists []|].
  destruct (parse_made i key Hk) as (b & Hb & Hp). destruct (IH (i + 1)) as (bs & Hbs & Hps). exists (b :: bs).
  cbn. by rewrite Hb, Hbs; cbn; rewrite Hp, Hps.
Qed.

(** A key file is read back. *)
Lemma ecies_file rnd n shards i k file fs fs' :
  CreateCosignerECIESShards rnd n = Ok shards → shards !! i = Some k →
  WriteCosignerECIESShardFile k file fs = Ok fs' → LoadCosignerECIESKey fs' file = Ok k.
Proof using JL XL.
  intros Hs Hi. destruct (ecies_shard _ _ _ _ _ Hs Hi) as ((_ & Hd & _) & Hid & Hpub).
  apply ecies_shards in Hs as (keys & Hm & ->). rewrite list_lookup_imap in Hi. destruct (keys !! i) as [key|] eqn:Ek; [|done].
  injection Hi as <-. cbn in Hd, Hpub. unfold WriteCosignerECIESShardFile, ecies_MarshalJSON. cbn [ek_ECIESKey ek_ID ek_ECIESPubs].
  destruct (FillBytes_SetBytes eciesCoordinateBytes (esk_D key)) as (bd & -> & _ & Hvd); [exact Hd|]. cbn [result_bind].
  destruct (parse_all_made 1 keys Hm) as (bs & -> & Hbs). cbn [result_bind].
  destruct (marshal_key_file _) as [json| |] eqn:Ej; [|done|done]. cbn [result_bind]. intros Hw.
  unfold LoadCosignerECIESKey. rewrite (ReadFile_written _ _ _ _ Hw). cbn [result_bind]. unfold ecies_UnmarshalJSON.
  rewrite (key_file_json _ _ Ej). cbn [result_bind]. rewrite Hbs. cbn [result_bind]. rewrite length_fmap.
  pose proof (lookup_lt_Some _ _ _ Ek) as Hlt.
  rewrite (proj2 (Z.ltb_ge _ _)) by lia. rewrite (proj2 (Z.ltb_ge _ _)) by lia. cbn [orb].
  unfold zlookup. rewrite (proj2 (Z.ltb_ge _ _)) by lia. replace (Z.to_nat (Z.of_nat i + 1 - 1)) with i by lia.
  rewrite Hpub, Hvd. by destruct key.
Qed.
End ecies_lemmas.

Section rsa_lemmas.
Context `{J : !SecurityJson} `{JL : !SecurityJsonLaws J} {Priv Pub : Type} `{X : !Rsa Priv Pub} `{XL : !RsaLaws X}.

Lemma rsa_shards rnd n shards :
  CreateCosignerRSAShards rnd n = Ok shards →
  ∃ keys, shards = imap (λ i key, mkCosignerRSAKey key (Z.of_nat i + 1) (rsa_Public <$> keys)) keys.
Proof.
  unfold CreateCosignerRSAShards, makeRSAKeys. destruct (each _ _) as [keys| |]; [|done|done]. cbn. intros [= <-]. by exists keys.
Qed.

Lemma rsa_exchange first first' rnd' rnd n shards i j (ki kj : CosignerRSAKey Priv Pub) noncePub nonceShare nonce :
  CreateCosignerRSAShards rnd n = Ok shards → shards !! i = Some ki → shards !! j = Some kj →
  rsa_EncryptAndSign first (NewCosignerSecurityRSA ki) rnd' (rk_ID kj) noncePub nonceShare = Ok nonce →
  rsa_DecryptAndVerify first' (NewCosignerSecurityRSA kj) (cn_SourceID nonce) (cn_PubKey nonce) (cn_Share nonce) (cn_Signature nonce)
  = Ok (Some (slice noncePub), Some (slice nonceShare)).
Proof using XL.
  intros (keys & ->)%rsa_shards Hi Hj. rewrite list_lookup_imap in Hi, Hj.
  destruct (keys !! i) as [x|] eqn:Ei; [|done]. destruct (keys !! j) as [y|] eqn:Ej; [|done]. injection Hi as <-. injection Hj as <-.
  unfold rsa_EncryptAndSign, rsa_DecryptAndVerify, NewCosignerSecurityRSA. cbn [sr_rsaPubKeys sr_key rk_RSAKey rk_ID rk_RSAPubs].
  rewrite keys_by_id_lookup, list_lookup_fmap, Ej. cbn [fmap option_fmap option_map].
  destruct (eg_two first _ _) as [[encShare encPub]| |] eqn:Ee; [|done|done]. apply eg_two_Ok in Ee as [Es Ep]. cbn [result_bind].
  destruct (marshal_nonce _) as [json| |] eqn:Em; [|done|done]. cbn [result_bind].
  destruct (rsa_SignPSS _ _ _) as [sig| |] eqn:Eg; [|done|done]. intros [= <-]. cbn [cn_SourceID cn_PubKey cn_Share cn_Signature].
  rewrite keys_by_id_lookup, list_lookup_fmap, Ei. cbn [fmap option_fmap option_map]. rewrite Em. cbn [result_bind].
  rewrite (pss_verifies _ _ _ _ Eg). cbn [result_bind]. by rewrite (oaep_roundtrip _ _ _ _ Ep), (oaep_roundtrip _ _ _ _ Es).
Qed.

Lemma rsa_file (k : CosignerRSAKey Priv Pub) file fs fs' :
  WriteCosignerRSAShardFile k file fs = Ok fs' → LoadCosignerRSAKey fs' file = Ok k.
Proof using JL XL.
  unfold WriteCosignerRSAShardFile, rsa_MarshalJSON. destruct (marshal_key_file _) as [json| |] eqn:Ej; [|done|done]. cbn [result_bind].
  intros Hw. unfold LoadCosignerRSAKey. rewrite (ReadFile_written _ _ _ _ Hw). cbn [result_bind]. unfold rsa_UnmarshalJSON.
  rewrite (key_file_json _ _ Ej). cbn [result_bind]. rewrite pkcs1_private. cbn [result_bind].
  rewrite (each_all ParsePKCS1PublicKey _ (rk_RSAPubs k)); [by destruct k|].
  apply Forall2_fmap_l. apply Forall_Forall2_diag, list.Forall_forall. intros pub _. apply pkcs1_public.
Qed.
End rsa_lemmas.

Lemma toy_split_join pubs fuel :
  (length pubs ≤ fuel)%nat → toy_split fuel (mjoin ((λ p, Z.of_nat (length p) :: p) <$> pubs)) = pubs.
Proof.
  revert fuel. induction pubs as [|p pubs IH]; intros [|fuel] Hf; try done; [cbn in Hf; lia|].
  rewrite fmap_cons. cbn [mjoin list_join app toy_split]. rewrite Nat2Z.id, take_app_length, drop_app_length.
  f_equal. apply IH. cbn in Hf. lia.
Qed.

Lemma join_length (pubs : list (list Z)) : (length pubs ≤ length (mjoin ((λ p, Z.of_nat (length p) :: p) <$> pubs)))%nat.
Proof. induction pubs as [|p pubs IH]; [done|]. cbn in *. rewrite length_app. apply le_n_S. etransitivity; [exact IH|]. apply Nat.le_add_l. Qed.

Lemma toy_sec_json_laws : SecurityJsonLaws toy_sec_json.
Proof.
  split. intros [[k id] pubs] b [= <-]. cbn [unmarshal_key_file toy_sec_json].
  rewrite Nat2Z.id, take_app_length, drop_app_length, toy_split_join; [done|].
  rewrite length_app. pose proof (join_length pubs). lia.
Qed.

Program Definition toy_ecies_laws : EciesLaws toy_ecies := {| ecies_matches key := epk_X (esk_PublicKey key) = esk_D key |}.
Next Obligation.
  cbn. intros rnd key [= <-]. cbn. pose proof (Nat.mod_upper_bound (list_sum (Z.to_nat <$> rnd)) 100 ltac:(lia)) as H.
  repeat split; lia.
Qed.
Next Obligation. cbn. intros rnd key m c Hm [= <-]. unfold toy_open. cbn. by rewrite Hm, Z.eqb_refl. Qed.
Next Obligation. cbn. intros rnd key h sig Hm [= <-]. cbn. by rewrite Hm, bool_decide_eq_true_2. Qed.

Lemma toy_rsa_laws : RsaLaws toy_rsa.
Proof.
  split; cbn; [|by intros rnd key h sig [= <-]; rewrite bool_decide_eq_true_2|done|done].
  intros rnd key m c [= <-]. unfold toy_open. cbn. by rewrite Z.eqb_refl.
Qed.

(** ** Theorems *)

(** C17: of the keys that are made together, a nonce that one cosigner encrypts and signs for
    another is accepted by the other as that cosigner's, and decrypts to what was sent, with
    ECIES and with RSA. *)
Theorem nonce_exchange `{J : !SecurityJson} `{X : !Ecies} `{XL : !EciesLaws X} {Priv Pub : Type} `{R : !Rsa Priv Pub} `{RL : !RsaLaws R}
    first first' rnd' rnd n i j noncePub nonceShare nonce :
  (∀ shards ki kj,
     CreateCosignerECIESShards rnd n = Ok shards → shards !! i = Some ki → shards !! j = Some kj →
     ecies_EncryptAndSign first (NewCosignerSecurityECIES ki) rnd' (ek_ID kj) noncePub nonceShare = Ok nonce →
     ecies_DecryptAndVerify first' (NewCosignerSecurityECIES kj) (cn_SourceID nonce) (cn_PubKey nonce) (cn_Share nonce)
       (cn_Signature nonce) = Ok (Some (slice noncePub), Some (slice nonceShare)))
  ∧ (∀ shards (ki kj : CosignerRSAKey Priv Pub),
       CreateCosignerRSAShards rnd n = Ok shards → shards !! i = Some ki → shards !! j = Some kj →
       rsa_EncryptAndSign first (NewCosignerSecurityRSA ki) rnd' (rk_ID kj) noncePub nonceShare = Ok nonce →
       rsa_DecryptAndVerify first' (NewCosignerSecurityRSA kj) (cn_SourceID nonce) (cn_PubKey nonce) (cn_Share nonce)
         (cn_Signature nonce) = Ok (Some (slice noncePub), Some (slice nonceShare))).
Proof. split; intros shards ki kj; [by apply ecies_exchange|by apply rsa_exchange]. Qed.

Lemma nonce_exchange_witness :
  let nonce := mkCosignerNonce 1 2 (Some [6; 9]) (Some [6; 8]) (Some (5 :: sha256 [1; 6; 9; 6; 8])) in
  @ecies_DecryptAndVerify toy_sec_json toy_ecies true (NewCosignerSecurityECIES (toy_shard 1)) 1 (cn_PubKey nonce) (cn_Share nonce)
    (cn_Signature nonce) = Ok (Some [9], Some [8])
  ∧ @rsa_DecryptAndVerify toy_sec_json Z Z toy_rsa true (NewCosignerSecurityRSA (toy_rsa_shard 1)) 1 (cn_PubKey nonce) (cn_Share nonce)
      (cn_Signature nonce) = Ok (Some [9], Some [8]).
Proof.
  intros nonce.
  destruct (@nonce_exchange toy_sec_json toy_ecies toy_ecies_laws Z Z toy_rsa toy_rsa_laws true true [] toy_rnd 2 0 1 (Some [9]) (Some [8]) nonce)
    as [He Hr]. split.
  - apply (He [toy_shard 0; toy_shard 1] (toy_shard 0) (toy_shard 1)); vm_compute; reflexivity.
  - apply (Hr [toy_rsa_shard 0; toy_rsa_shard 1] (toy_rsa_shard 0) (toy_rsa_shard 1)); vm_compute; reflexivity.
Defined.

(** C16: a nonce is decrypted only after the signature over exactly its two ciphertexts and its
    claimed source verified under the key listed for that source. *)
Theorem decrypt_authenticated `{J : !SecurityJson} `{X : !Ecies} {Priv Pub : Type} `{R : !Rsa Priv Pub}
    first id encPub encShare sig r :
  (∀ c, ecies_DecryptAndVerify first c id encPub encShare sig = Ok r →
     ∃ pub json, se_eciesPubKeys c !! id = Some pub ∧ marshal_nonce (signed_part id encPub encShare) = Ok json
       ∧ ecdsa_VerifyASN1 pub (sha256 json) sig = true)
  ∧ (∀ c : CosignerSecurityRSA Priv Pub, rsa_DecryptAndVerify first c id encPub encShare sig = Ok r →
       ∃ pub json, sr_rsaPubKeys c !! id = Some pub ∧ marshal_nonce (signed_part id encPub encShare) = Ok json
         ∧ rsa_VerifyPSS pub (sha256 json) sig = Ok ()).
Proof.
  split; intros c.
  - unfold ecies_DecryptAndVerify. destruct (se_eciesPubKeys c !! id) as [pub|]; [|done].
    destruct (marshal_nonce _) as [json| |]; [|done|done]. cbn [result_bind].
    destruct (ecdsa_VerifyASN1 pub (sha256 json) sig) eqn:Ev; [|done]. intros _. by exists pub, json.
  - unfold rsa_DecryptAndVerify. destruct (sr_rsaPubKeys c !! id) as [pub|]; [|done].
    destruct (marshal_nonce _) as [json| |]; [|done|done]. cbn [result_bind].
    destruct (rsa_VerifyPSS pub (sha256 json) sig) as [[]| |] eqn:Ev; [|done|done]. intros _. by exists pub, json.
Qed.

Lemma decrypt_authenticated_witness :
  ∃ pub json, keys_by_id [mkEciesPublicKey 5 6; mkEciesPublicKey 6 7] !! 1 = Some pub
    ∧ @marshal_nonce toy_sec_json (signed_part 1 (Some [6; 9]) (Some [6; 8])) = Ok json
    ∧ @ecdsa_VerifyASN1 toy_ecies pub (sha256 json) (Some (5 :: sha256 [1; 6; 9; 6; 8])) = true.
Proof.
  apply (proj1 (@decrypt_authenticated toy_sec_json toy_ecies Z Z toy_rsa true 1 (Some [6; 9]) (Some [6; 8])
    (Some (5 :: sha256 [1; 6; 9; 6; 8])) (Some [9], Some [8])) (NewCosignerSecurityECIES (toy_shard 1))).
  vm_compute. reflexivity.
Defined.

(** The key files that are written for the cosigners are read back as the keys they were
    made with, ECIES coordinates and scalars of any size among them. *)
Theorem security_key_files `{J : !SecurityJson} `{JL : !SecurityJsonLaws J} `{X : !Ecies} `{XL : !EciesLaws X}
    {Priv Pub : Type} `{R : !Rsa Priv Pub} `{RL : !RsaLaws R} rnd n i file fs fs' :
  (∀ shards k, CreateCosignerECIESShards rnd n = Ok shards → shards !! i = Some k →
     WriteCosignerECIESShardFile k file fs = Ok fs' → LoadCosignerECIESKey fs' file = Ok k)
  ∧ (∀ k : CosignerRSAKey Priv Pub, WriteCosignerRSAShardFile k file fs = Ok fs' → LoadCosignerRSAKey fs' file = Ok k).
Proof. split; intros; [by eapply ecies_file|by eapply rsa_file]. Qed.

Lemma security_key_files_witness :
  match @WriteCosignerECIESShardFile toy_sec_json (toy_shard 1) "/k" empty_fs with
  | Ok fs' => @LoadCosignerECIESKey toy_sec_json toy_ecies fs' "/k" = Ok (toy_shard 1)
  | _ => False
  end.
Proof.
  destruct (@WriteCosignerECIESShardFile toy_sec_json (toy_shard 1) "/k" empty_fs) as [fs'|e|m] eqn:E;
    [|vm_compute in E; discriminate|vm_compute in E; discriminate].
  apply (proj1 (@security_key_files toy_sec_json toy_sec_json_laws toy_ecies toy_ecies_laws Z Z toy_rsa toy_rsa_laws toy_rnd 2 1 "/k" empty_fs fs')
    [toy_shard 0; toy_shard 1] (toy_shard 1)); [vm_compute; reflexivity|reflexivity|exact E].
Defined.
