(* ===== verification/Services.v ===== *)
(** * The machine a process runs on, and the PID file

    [Host] is what the commands see of the machine: files, directories and the other processes.
    A command is a program whose steps are system calls, so that the steps of two processes can
    interleave.  The file has the PID file of signer/services.go: [RequireNotRunning] reads
    it, [WaitAndTerminate] holds it. *)

From S2P Require Import Prelude Errors Wire SignState Config Strconv Conc SoftSigner.
From stdpp Require Import base gmap list strings numbers.
From Stdlib Require Import ZArith Lia.

Open Scope string_scope.
Open Scope list_scope.
Open Scope Z_scope.

(** ** Definitions *)

(** *** The machine *)

(** What comes of signal 0 to a process *)
Inductive signal_result : Type :=
| SigDelivered
| SigProcessDone
| SigErrno (errno : Z)
| SigOtherError.

Record Host := mkHost {
  h_fs : FileSystem;
  h_dirs : gset string;
  h_process : Z → signal_result;
  h_remove_error : string → option goerror;
  h_mkdir_error : string → option goerror
}.

Definition set_fs (fs : FileSystem) (s : Host) : Host :=
  mkHost fs (h_dirs s) (h_process s) (h_remove_error s) (h_mkdir_error s).

Definition set_dirs (dirs : gset string) (s : Host) : Host :=
  mkHost (h_fs s) dirs (h_process s) (h_remove_error s) (h_mkdir_error s).

(** What a process is seen to do: serve its chain nodes, hold the PID file, stop. *)
Inductive host_event : Type :=
| EvServes (pid : Z)
| EvHolds (pid : Z)
| EvStops (pid : Z).

Abbreviation cmd A := (@prog Host host_event (result A goerror)).

Inductive stat_result : Type :=
| StatDir
| StatFile
| StatMissing
| StatError (e : goerror).

Definition os_Stat (path : string) (s : Host) : stat_result :=
  if bool_decide (path ∈ h_dirs s) then StatDir
  else match fs_files (h_fs s) !! path with
       | None => StatMissing
       | Some (StatFails e) => StatError e
       | Some _ => StatFile
       end.

Definition os_ReadFile (path : string) (s : Host) : result (list Z) goerror :=
  if bool_decide (path ∈ h_dirs s) then Err (ErrorString ("read " +:+ path +:+ ": is a directory"))
  else ReadFile (h_fs s) path.

Definition os_Remove (path : string) (s : Host) : Host * result unit goerror :=
  match h_remove_error s path with
  | Some e => (s, Err e)
  | None =>
      match fs_files (h_fs s) !! path with
      | None => (s, Err (ErrorString ("remove " +:+ path +:+ ": no such file or directory")))
      | Some _ => (set_fs (mkFS (delete path (fs_files (h_fs s))) (fs_write_error (h_fs s))) s, Ok ())
      end
  end.

(** A call that works on the files, as one step *)
Definition on_files {A} (f : FileSystem → result (A * FileSystem) goerror) : cmd A :=
  atomic (λ s,
    match f (h_fs s) with
    | Ok (a, fs) => (set_fs fs s, Ok a)
    | Err e => (s, Err e)
    | Panics m => (s, Panics m)
    end).

Definition wrap_errors {A} (f : goerror → goerror) (p : cmd A) : cmd A := do r <- p; Ret (map_err f r).

(** *** The PID file *)

Definition ESRCH : Z := 3.
Definition EPERM : Z := 1.

Definition pid_of (pidFilePath : string) (lockFile : list Z) : result Z goerror :=
  map_err (WrapError ("unexpected error parsing PID from PID file: " +:+ pidFilePath
             +:+ ". manual deletion of PID file required. ")) (ParseInt (bytes_string (TrimSpace lockFile))).

(** [self] is [os.Getpid]; [os.FindProcess] does not fail on Unix. *)
Definition RequireNotRunning (self : Z) (pidFilePath : string) : cmd unit :=
  do st <- reading (os_Stat pidFilePath);
  match st with
  | StatMissing => Ret (Ok ())
  | StatError err =>
      Ret (Err (WrapError ("unexpected error while checking for existence of PID file at " +:+ pidFilePath +:+ ": ") err))
  | StatFile | StatDir =>
      must lockFile <- wrap_errors (WrapError ("error reading lock file: " +:+ pidFilePath +:+ ", ")) (reading (os_ReadFile pidFilePath));
      must pid <- Ret (pid_of pidFilePath lockFile);
      if pid =? self then
        Ret (Panics ("error checking PID file: " +:+ pidFilePath +:+ ", PID: " +:+ fmt_d pid +:+ " matches current process"))
      else
        do sig <- reading (λ s, h_process s pid);
        match sig with
        | SigDelivered => Ret (Err (ErrorString ("horcrux is already running on PID: " +:+ fmt_d pid)))
        | SigProcessDone =>
            wrap_errors (WrapError ("failed to delete pid file " +:+ pidFilePath +:+ ": ")) (atomic (os_Remove pidFilePath))
        | SigOtherError => Ret (Err (ErrorString ("unexpected error type from signaling horcrux PID: " +:+ fmt_d pid)))
        | SigErrno errno =>
            Ret (Err (ErrorString ((if errno =? ESRCH then "search error while signaling horcrux PID: "
                                    else if errno =? EPERM then "permission denied accessing horcrux PID: "
                                    else "unexpected error while signaling horcrux PID: ") +:+ fmt_d pid)))
        end
  end.

(** [os.OpenFile] with [O_CREATE|O_EXCL] and the write of the PID, as one step: a process that reads in between finds
    an empty file, which does not parse. *)
Definition create_exclusive (path : string) (bs : list Z) (s : Host) : Host * result unit goerror :=
  match fs_write_error (h_fs s) path, os_Stat path s with
  | Some e, _ => (s, Err e)
  | None, StatMissing => (set_fs (mkFS (<[path := Content bs]> (fs_files (h_fs s))) (fs_write_error (h_fs s))) s, Ok ())
  | None, _ => (s, Err (ErrorString ("open " +:+ path +:+ ": file exists")))
  end.

Definition panic_with {A} (prefix : string) (r : result A goerror) : result A goerror :=
  match r with
  | Err e => Panics (prefix +:+ Error e)
  | r => r
  end.

Fixpoint stop_services {Svc} (Stop : Svc → option goerror) (services : list Svc) : result unit goerror :=
  match services with
  | [] => Ok ()
  | service :: l =>
      match Stop service with
      | Some err => Panics (Error err)
      | None => stop_services Stop l
      end
  end.

(** The last step is the handler of the signal, which comes when it comes. *)
Definition WaitAndTerminate {Svc} (Stop : Svc → option goerror) (self : Z) (services : list Svc) (pidFilePath : string) : cmd unit :=
  must _ <- (do r <- atomic (create_exclusive pidFilePath (string_bytes (fmt_d self) ++ [10]));
             Ret (panic_with ("error opening PID file: " +:+ pidFilePath +:+ ". ") r));
  do _ <- atomically (λ s, (s, [EvHolds self], ()));
  do _ <- atomic (os_Remove pidFilePath);
  atomically (λ s, (s, [EvStops self], stop_services Stop services)).

(** *** Specifications *)

(** The file that [WaitAndTerminate] leaves while a process runs *)
Definition pid_file (pid : Z) : list Z := string_bytes (fmt_d pid) ++ [10].

(** A file that is left of a process that has ended *)
Definition stale_pid_file (self : Z) (pidFilePath : string) (s : Host) : Prop :=
  (pidFilePath ∉ h_dirs s) ∧ ∃ bs pid, fs_files (h_fs s) !! pidFilePath = Some (Content bs) ∧ pid_of pidFilePath bs = Ok pid ∧ pid ≠ self
    ∧ h_process s pid = SigProcessDone ∧ h_remove_error s pidFilePath = None.

(** A process that checks, starts and waits, as the start command does *)
Definition daemon (self : Z) (pidFilePath : string) (start : cmd unit) : cmd unit :=
  must _ <- RequireNotRunning self pidFilePath;
  must _ <- start;
  WaitAndTerminate (Svc := unit) (λ _, None) self [] pidFilePath.

(** *** Examples *)

Definition toy_host (files : gmap string fs_entry) : Host :=
  mkHost (mkFS files (λ _, None)) {[ "/h" ]} (λ pid, if pid =? 7 then SigProcessDone else SigDelivered) (λ _, None) (λ _, None).

Definition toy_start (self : Z) : cmd unit := atomically (λ s, (s, [EvServes self], Ok ())).

Definition toy_daemon (self : Z) : cmd unit := daemon self "/h/horcrux.pid" (toy_start self).

(** Two processes start after a third left its file: the second removes the file of the first. *)
Definition toy_pid_race : pool (result unit goerror) :=
  pool_exec (map (λ i, (i, 0%nat)) [1; 1; 1; 0; 0; 0; 0; 0; 0; 0; 1; 1; 1; 1]%nat)
    (mkPool (toy_host {[ "/h/horcrux.pid" := Content (pid_file 7) ]}) [] [toy_daemon 1; toy_daemon 2]).

Definition toy_checked : Host * list host_event * result unit goerror :=
  run (λ _, 0%nat) (RequireNotRunning 1 "/h/horcrux.pid") (toy_host {[ "/h/horcrux.pid" := Content (pid_file 7) ]}).

(** Two processes start when there is no file. *)
Definition toy_start_race : pool (result unit goerror) :=
  pool_exec (map (λ i, (i, 0%nat)) [0; 1; 0; 1]%nat) (mkPool (toy_host ∅) [] [toy_daemon 1; toy_daemon 2]).

(** ** Lemmas *)

Lemma pid_of_file pidFilePath pid : 0 ≤ pid < 2 ^ 63 → pid_of pidFilePath (pid_file pid) = Ok pid.
Proof.
  intros H. unfold pid_of, pid_file. rewrite TrimSpace_number by lia. rewrite bytes_string_bytes. by rewrite ParseInt_fmt_d.
Qed.

(** *** Runs of commands *)

Lemma run_must_Ok {S E A B} sched (p : @prog S E (result A goerror)) (k : A → @prog S E (result B goerror)) s s' ev b :
  run sched (prog_try p k) s = (s', ev, Ok b) →
  ∃ s1 ev1 a ev2, run sched p s = (s1, ev1, Ok a) ∧ run sched (k a) s1 = (s', ev2, Ok b) ∧ ev = ev1 ++ ev2.
Proof.
  unfold prog_try. rewrite run_bind_eq. destruct (run sched p s) as [[s1 ev1] [a|e|m]]; cbn; [|done..].
  destruct (run sched (k a) s1) as [[s2 ev2] r] eqn:E2. intros [= <- <- <-]. by exists s1, ev1, a, ev2.
Qed.

(** A run that goes on, or stops with what is not a result *)
Lemma run_must_cases {S E A B} sched (p : @prog S E (result A goerror)) (k : A → @prog S E (result B goerror)) s s' ev r :
  run sched (prog_try p k) s = (s', ev, r) →
  (∃ s1 ev1 a ev2, run sched p s = (s1, ev1, Ok a) ∧ run sched (k a) s1 = (s', ev2, r) ∧ ev = ev1 ++ ev2)
  ∨ (∃ r0, run sched p s = (s', ev, r0) ∧ is_ok r0 = false ∧ is_ok r = false).
Proof.
  unfold prog_try. rewrite run_bind_eq. destruct (run sched p s) as [[s1 ev1] [a|e|m]]; cbn.
  - destruct (run sched (k a) s1) as [[s2 ev2] r2] eqn:E2. intros [= <- <- <-]. left. by exists s1, ev1, a, ev2.
  - rewrite app_nil_r. intros [= <- <- <-]. right. by exists (Err e).
  - rewrite app_nil_r. intros [= <- <- <-]. right. by exists (Panics m).
Qed.

Lemma run_reading_bind {S E A B} sched (f : S → B) (k : B → @prog S E A) s :
  run sched (prog_bind (reading f) k) s = run sched (k (f s)) s.
Proof. rewrite run_bind_eq. cbn. by destruct (run sched (k (f s)) s) as [[]]. Qed.

Lemma run_on_files_Ok {A} sched (f : FileSystem → result (A * FileSystem) goerror) s s' ev a :
  run sched (on_files f) s = (s', ev, Ok a) → ∃ fs, f (h_fs s) = Ok (a, fs) ∧ s' = set_fs fs s ∧ ev = [].
Proof. cbn. destruct (f (h_fs s)) as [[a' fs]| |]; cbn; intros [= <- <- <-]. by exists fs. Qed.

(** All that the check does to the machine is to remove the file. *)
Lemma RequireNotRunning_effect self pidFilePath sched s s' ev r :
  run sched (RequireNotRunning self pidFilePath) s = (s', ev, r) → ev = [] ∧ (s' = s ∨ s' = (os_Remove pidFilePath s).1).
Proof.
  unfold RequireNotRunning. cbn [prog_bind reading run]. destruct (os_Stat pidFilePath s); cbn; [| |by intros [= <- <- <-]; auto..].
  1-2: destruct (os_ReadFile pidFilePath s) as [bs|e|m]; cbn; [|by intros [= <- <- <-]; auto..];
    destruct (pid_of pidFilePath bs) as [pid|e|m]; cbn; [|by intros [= <- <- <-]; auto..];
    destruct (pid =? self); cbn; [by intros [= <- <- <-]; auto|];
    destruct (h_process s pid); cbn; [by intros [= <- <- <-]; auto| |by intros [= <- <- <-]; auto..];
    destruct (os_Remove pidFilePath s) as [s1 r1]; cbn; intros [= <- <- <-]; auto.
Qed.

(** ** Theorems *)

(** [RequireNotRunning], when no other process interferes, lets a process go on exactly when there
    is no PID file, or one of a process that has ended, which it removes; otherwise it
    leaves the machine as it was. *)
Theorem require_not_running self pidFilePath sched (s s' : Host) ev r :
  run sched (RequireNotRunning self pidFilePath) s = (s', ev, r) →
  (r = Ok () ↔ (os_Stat pidFilePath s = StatMissing ∨ stale_pid_file self pidFilePath s))
  ∧ (r = Ok () → os_Stat pidFilePath s' = StatMissing)
  ∧ (r ≠ Ok () → s' = s).
Proof.
  unfold RequireNotRunning. cbn [prog_bind reading run]. destruct (os_Stat pidFilePath s) eqn:Est; cbn.
  - unfold os_Stat in Est. case_bool_decide as Hd; [|by repeat case_match]. unfold os_ReadFile.
    rewrite bool_decide_eq_true_2 by done. cbn. intros [= <- <- <-]. split; [|done]. split; [done|]. intros [?|[? _]]; done.
  - unfold os_Stat in Est. case_bool_decide as Hd; [done|]. unfold os_ReadFile, ReadFile. rewrite bool_decide_eq_false_2 by done.
    destruct (fs_files (h_fs s) !! pidFilePath) as [[bs|e|e]|] eqn:Ef; [|done| |done]; cbn.
    2: { intros [= <- <- <-]. split; [|done]. split; [done|]. intros [?|(_ & bs & pid & H & _)]; [done|congruence]. }
    assert (∀ r' : result unit goerror, (r' = Ok () ↔ ∃ pid, pid_of pidFilePath bs = Ok pid ∧ pid ≠ self ∧ h_process s pid = SigProcessDone
      ∧ h_remove_error s pidFilePath = None) → (r' = Ok () ↔ StatFile = StatMissing ∨ stale_pid_file self pidFilePath s)) as Hiff.
    { intros r' ->. split.
      - intros (pid & H). right. split; [done|]. by exists bs, pid.
      - intros [|(_ & bs' & pid & E & H)]; [done|]. exists pid. congruence. }
    destruct (pid_of pidFilePath bs) as [pid|e|m] eqn:Ep; cbn.
    2-3: intros [= <- <- <-]; split; [apply Hiff; split; [done|by intros (pid & H & _)]|done].
    destruct (Z.eqb_spec pid self) as [->|Hne]; cbn.
    { intros [= <- <- <-]. split; [apply Hiff; split; [done|intros (pid & [= <-] & ? & _); done]|done]. }
    destruct (h_process s pid) eqn:Eh; cbn.
    1,3,4: intros [= <- <- <-]; split; [apply Hiff; split; [done|intros (p & [= <-] & _ & ? & _); congruence]|done].
    unfold os_Remove. destruct (h_remove_error s pidFilePath) as [e|] eqn:Er; cbn.
    { intros [= <- <- <-]. split; [apply Hiff; split; [done|intros (p & _ & _ & _ & ?); done]|done]. }
    rewrite Ef. cbn. intros [= <- <- <-]. split; [apply Hiff; split; [|done]; intros _; by exists pid|]. split; [|done]. intros _.
    unfold os_Stat. cbn. by rewrite bool_decide_eq_false_2, lookup_delete_eq.
  - intros [= <- <- <-]. split; [naive_solver|]. done.
  - unfold os_Stat in Est. case_bool_decide as Hd; [done|]. intros [= <- <- <-]. split; [|done]. split; [done|].
    intros [?|(_ & bs & pid & H & _)]; [done|]. by rewrite H in Est.
Qed.

Lemma require_not_running_witness : os_Stat "/h/horcrux.pid" toy_checked.1.1 = StatMissing.
Proof.
  refine (proj1 (proj2 (require_not_running 1 "/h/horcrux.pid" (λ _, 0%nat) (toy_host {[ "/h/horcrux.pid" := Content (pid_file 7) ]})
    toy_checked.1.1 toy_checked.1.2 toy_checked.2 _)) _); vm_compute; reflexivity.
Defined.

(** Processes that start at the same time both serve their chain nodes: the PID file is made after the signers started. *)
Theorem start_race : EvServes 1 ∈ pl_log toy_start_race ∧ EvServes 2 ∈ pl_log toy_start_race.
Proof. split; [apply (list_elem_of_lookup_2 _ 0)|apply (list_elem_of_lookup_2 _ 1)]; vm_compute; reflexivity. Qed.

(** A process that found the file of one that ended removes the file of one that started since. *)
Theorem pid_race :
  EvHolds 1 ∈ pl_log toy_pid_race ∧ EvHolds 2 ∈ pl_log toy_pid_race ∧ EvStops 1 ∉ pl_log toy_pid_race.
Proof.
  split; [apply (list_elem_of_lookup_2 _ 1); vm_compute; reflexivity|].
  split; [apply (list_elem_of_lookup_2 _ 3); vm_compute; reflexivity|].
  vm_compute. intros H. repeat (apply elem_of_cons in H as [H|H]; [done|]). by apply elem_of_nil in H.
Qed.
