(* ===== verification/StateCmd.v ===== *)
(** * Setting the sign state by hand

    The commands of cmd/horcrux/cmd/state.go on the sign state of a chain: [state show], [state set]
    and [state import].  The last two move the watermarks of the validator and of the cosigner
    while no signer runs; the theorems show that they never move one back, and when they
    succeed. *)

From S2P Require Import Prelude Hrs Errors SignState Config Strconv Conc Services.
From stdpp Require Import base gmap list strings numbers.
From Stdlib Require Import ZArith Lia.

Open Scope string_scope.
Open Scope list_scope.
Open Scope Z_scope.

(** ** Definitions *)

(** The fields that are read of a pasted priv_validator_state.json *)
Record PastedState := mkPastedState {
  ps_Height : Z;
  ps_Round : Z;
  ps_Step : Z
}.

Section state.
Context `{J : !Json}.
(** [cometjson.Unmarshal] at a pointer to the state, which null sets to nil *)
Context (unmarshal_pasted : string → result (option PastedState) goerror).
Context (self : Z) (config : RuntimeConfig).

(** [Save] with a nil wait group *)
Definition save_now (s : SignState) (ssc : SignStateConsensus) : cmd unit :=
  on_files (λ fs, try p <- Save s ssc false (mkDisk fs []); Ok ((), d_fs p.2)).

Definition set_NoncePublic (b : gobytes) (s : SignState) : SignState :=
  mkSignState (ss_Height s) (ss_Round s) (ss_Step s) b (ss_Signature s) (ss_SignBytes s) (ss_VoteExtensionSignature s)
    (ss_filePath s) (ss_cache s).

(** The two states of a chain, after the checks that both commands make *)
Definition load_states (chainID : string) : cmd (SignState * SignState) :=
  do home <- reading (os_Stat (rc_HomeDir config));
  match home with
  | StatMissing => Ret (Err (ErrorString (rc_HomeDir config +:+ " does not exist, initialize config with horcrux config init and try again")))
  | _ =>
      must _ <- RequireNotRunning self (rc_PidFile config);
      must pv <- on_files (LoadOrCreateSignState (PrivValStateFile config chainID));
      must cs <- on_files (LoadOrCreateSignState (CosignerStateFile config chainID));
      Ret (Ok (pv, cs))
  end.

Definition save_states (pv cs : SignState) (signState : SignStateConsensus) : cmd unit :=
  must _ <- save_now pv signState;
  save_now cs signState.

Definition setStateCmd (chainID heightArg : string) : cmd unit :=
  must states <- load_states chainID;
  must height <- Ret (ParseInt heightArg);
  save_states (set_NoncePublic None states.1) (set_NoncePublic None states.2) (mkSSC height 0 0 None None None).

(** The lines up to the first blank one, joined without their ends *)
Fixpoint pasted (lines : list string) : string :=
  match lines with
  | [] => ""
  | l :: lines' => if String.eqb l "" then "" else l +:+ pasted lines'
  end.

Definition importStateCmd (chainID : string) (lines : list string) : cmd unit :=
  must states <- load_states chainID;
  must pvState <- Ret (unmarshal_pasted (pasted lines));
  match pvState with
  | None => Ret (Panics nil_dereference)
  | Some pvState =>
      save_states (set_NoncePublic None states.1) states.2
        (mkSSC (ps_Height pvState) (ps_Round pvState) (ps_Step pvState) None None None)
  end.

(** The result are the two states that are printed. *)
Definition showStateCmd (chainID : string) : cmd (SignState * SignState) :=
  do home <- reading (os_Stat (rc_HomeDir config));
  match home with
  | StatMissing => Ret (Err (ErrorString (rc_HomeDir config +:+ " does not exist, initialize config with horcrux config init and try again")))
  | _ =>
      must pv <- reading (λ s, LoadSignState (PrivValStateFile config chainID) (h_fs s));
      must cs <- reading (λ s, LoadSignState (CosignerStateFile config chainID) (h_fs s));
      Ret (Ok (pv, cs))
  end.

(** *** Specifications *)

(** The watermark that a file gives a process that loads it *)
Definition file_watermark (file : string) (s : Host) : option HRSKey :=
  match LoadOrCreateSignState file (h_fs s) with
  | Ok (ss, _) => Some (lockedHrsKey ss)
  | _ => None
  end.

(** Both files of a chain moved up to a key. *)
Definition moved_up (chainID : string) (key : HRSKey) (s s' : Host) : Prop :=
  ∀ file, file ∈ [PrivValStateFile config chainID; CosignerStateFile config chainID] →
    (∃ k, file_watermark file s = Some k ∧ hrs_lt k key) ∧ file_watermark file s' = Some key.

(** The machine lets a command move both files of a chain to a key: its directory is there and no process has a PID file, the files
    load below the key and can be written. *)
Definition can_move (chainID : string) (key : HRSKey) (s : Host) : Prop :=
  (∀ j, is_ok (marshalJSON j) = true) ∧ os_Stat (rc_HomeDir config) s ≠ StatMissing ∧ os_Stat (rc_PidFile config) s = StatMissing
  ∧ ∀ file, file ∈ [PrivValStateFile config chainID; CosignerStateFile config chainID] →
      fs_write_error (h_fs s) file = None ∧ ∃ k, file_watermark file s = Some k ∧ hrs_lt k key.
End state.

(** The configuration that a command starts with (cmd/horcrux/cmd/root.go); [cfg] is what the file of the
    configuration holds, and [userHome] the home of the user. *)
Definition initConfig (userHome homeFlag : string) (cfg : Config) : RuntimeConfig :=
  let home := if String.eqb homeFlag "" then filepath_Join userHome ".horcrux" else homeFlag in
  mkRuntimeConfig home (filepath_Join home "config.yaml") (filepath_Join home "state") (filepath_Join home "horcrux.pid") cfg.

(** The paths that the commands use are different files. *)
Definition paths_apart (config : RuntimeConfig) (chainID : string) : Prop :=
  let pv := PrivValStateFile config chainID in
  let cs := CosignerStateFile config chainID in
  pv ≠ cs ∧ pv ≠ DevNull ∧ cs ≠ DevNull ∧ rc_PidFile config ≠ pv ∧ rc_PidFile config ≠ cs.

Definition last_char (s : string) : option Ascii.ascii := head (reverse (String.list_ascii_of_string s)).

(** Two file systems hold the same file. *)
Definition same_file (file : string) (fs fs' : FileSystem) : Prop :=
  fs_files fs !! file = fs_files fs' !! file ∧ fs_write_error fs = fs_write_error fs'.

(** *** Example *)

Definition toy_state_config : RuntimeConfig :=
  mkRuntimeConfig "/h" "/h/config.yaml" "/h/state" "/h/horcrux.pid" (mkConfig None "" "threshold" None [] "" "" 0).

Definition toy_set_state : Host * list host_event * result unit goerror :=
  run (λ _, 0%nat) (@setStateCmd toy_json 1 toy_state_config "chain" "12") (toy_host ∅).

Definition toy_import_state : Host * list host_event * result unit goerror :=
  run (λ _, 0%nat) (@importStateCmd toy_json (λ _, Ok (Some (mkPastedState 12 1 2))) 1 toy_state_config "chain" ["{"; "}"; ""])
    (toy_host {[ "/h/horcrux.pid" := Content (pid_file 7) ]}).

(** ** Lemmas *)

Lemma last_char_app a c s : last_char (a +:+ String c s) = last_char (String c s).
Proof.
  unfold last_char. rewrite chars_app, reverse_app. cbn [String.list_ascii_of_string].
  by destruct (reverse (c :: _)) eqn:E; [apply (f_equal reverse) in E; rewrite reverse_involutive in E|].
Qed.

(** Files of a chain are not those of another kind, the PID file, or the null device. *)
Lemma initConfig_paths userHome homeFlag cfg chainID :
  ValidateChainID chainID = Ok () → paths_apart (initConfig userHome homeFlag cfg) chainID.
Proof.
  intros Hv. pose proof (ValidateChainID_no_slash _ Hv) as Hs. unfold paths_apart, PrivValStateFile, CosignerStateFile. cbn [initConfig rc_StateDir rc_PidFile].
  set (home := if String.eqb homeFlag "" then _ else _).
  assert ("_priv_validator_state.json" ∈ file_suffixes) as M1 by (apply list_elem_of_In; cbn; tauto).
  assert ("_share_sign_state.json" ∈ file_suffixes) as M2 by (apply list_elem_of_In; cbn; tauto).
  pose proof (suffix_plain _ _ Hs M1) as P1. pose proof (suffix_plain _ _ Hs M2) as P2.
  assert (plain_name "horcrux.pid") as P3 by done.
  assert (∀ dir, last_char (filepath_Join dir (chainID +:+ "_priv_validator_state.json")) = Some (Ascii.ascii_of_N 110)) as L1.
  { intros dir. rewrite filepath_Join_plain by done. rewrite <- string_app_assoc. by rewrite last_char_app. }
  assert (∀ dir, last_char (filepath_Join dir (chainID +:+ "_share_sign_state.json")) = Some (Ascii.ascii_of_N 110)) as L2.
  { intros dir. rewrite filepath_Join_plain by done. rewrite <- string_app_assoc. by rewrite last_char_app. }
  assert (last_char (filepath_Join home "horcrux.pid") = Some (Ascii.ascii_of_N 100)) as L3.
  { rewrite filepath_Join_plain by done. by rewrite last_char_app. }
  split; [|split_and!; intros E; apply (f_equal last_char) in E; rewrite ?L1, ?L2, ?L3 in E; done].
  rewrite !filepath_Join_plain by done. intros E%string_app_inj_l.
  by destruct (suffix_unique _ _ _ _ M1 M2 E) as [_ [=]].
Qed.

#[global] Instance same_file_equivalence file : Equivalence (same_file file).
Proof. split; [by intros fs|by intros fs1 fs2 []|]. intros fs1 fs2 fs3 [] []. split; congruence. Qed.

(** A cleaned path is not empty. *)
Lemma path_string_Clean p : path_string (Clean p) ≠ "".
Proof.
  unfold Clean, path_string. cbn [path_components path_rooted]. set (stack := fold_left _ _ _).
  assert (Forall (λ w, w ≠ "") (reverse stack)) as Hs.
  { apply Forall_reverse. unfold stack. generalize (split_slash p) as ws. intros ws. assert (Forall (λ w : string, w ≠ "") []) as H by constructor.
    revert H. generalize (@nil string) as acc. induction ws as [|w ws IH]; intros acc Hacc; cbn; [done|]. apply IH. unfold clean_step.
    destruct (String.eqb_spec w ""); [done|]. destruct (String.eqb w "."); [done|]. cbn.
    destruct (String.eqb_spec w ".."); [|by constructor]. destruct Hacc as [|top rest]; [by destruct (IsAbs p); repeat constructor|].
    destruct (String.eqb top ".."); by repeat constructor. }
  destruct Hs as [|w ws Hw _]; [by destruct (IsAbs p)|]. destruct (IsAbs p); [done|]. destruct w; [done|]. by destruct ws.
Qed.

Lemma filepath_Join_nonempty dir name : name ≠ "" → filepath_Join dir name ≠ "".
Proof.
  intros Hn%String.eqb_neq. unfold filepath_Join, Join_path. rewrite Hn, andb_false_r. destruct (String.eqb dir ""); apply path_string_Clean.
Qed.

Lemma run_on_files_intro {A} sched (f : FileSystem → result (A * FileSystem) goerror) s a fs :
  f (h_fs s) = Ok (a, fs) → run sched (on_files f) s = (set_fs fs s, [], Ok a).
Proof. intros H. cbn. by rewrite H. Qed.

Section lemmas.
Context `{J : !Json}.

Lemma saveSignState_same file (ss : SignState) fs fs' : saveSignState ss fs = Ok fs' → file ≠ ss_filePath ss → same_file file fs fs'.
Proof.
  unfold saveSignState. destruct (marshalJSON _) as [bs| |]; [|done..]. destruct (String.eqb _ DevNull); [by intros [= <-]|].
  destruct (String.eqb _ ""); [done|]. unfold WriteFileAtomic. destruct (fs_write_error fs (ss_filePath ss)); [done|].
  intros [= <-] Hne. split; cbn; [|done]. by rewrite lookup_insert_ne.
Qed.

Lemma saveSignState_defined (ss : SignState) fs1 fs2 fs1' :
  fs_write_error fs1 = fs_write_error fs2 → saveSignState ss fs1 = Ok fs1' → ∃ fs2', saveSignState ss fs2 = Ok fs2'.
Proof.
  intros Hw. unfold saveSignState. destruct (marshalJSON _) as [bs| |]; [|done..]. destruct (String.eqb _ DevNull); [by eexists|].
  destruct (String.eqb _ ""); [done|]. unfold WriteFileAtomic. rewrite <- Hw. destruct (fs_write_error fs1 (ss_filePath ss)); [done|].
  by eexists.
Qed.

Lemma LoadOrCreate_same path file fs ss fs' :
  LoadOrCreateSignState path fs = Ok (ss, fs') → ss_filePath ss = path ∧ (file ≠ path → same_file file fs fs').
Proof.
  unfold LoadOrCreateSignState, LoadSignState. destruct (fs_files fs !! path) as [[bs|e|e]|]; [| done| |].
  1-2: destruct (ReadFile fs path) as [bs'| |]; cbn; [|done..]; destruct (unmarshalJSON bs') as [j| |]; cbn; [|done..];
    intros [= <- <-]; done.
  destruct (saveSignState _ _) as [fs''| |] eqn:E; cbn; [|done..]. intros [= <- <-]. split; [done|]. intros Hne.
  by eapply saveSignState_same.
Qed.

Lemma LoadOrCreate_agree file fs1 fs2 ss fs1' :
  same_file file fs1 fs2 → LoadOrCreateSignState file fs1 = Ok (ss, fs1') → ∃ fs2', LoadOrCreateSignState file fs2 = Ok (ss, fs2').
Proof.
  intros [Hf Hw]. unfold LoadOrCreateSignState, LoadSignState, ReadFile. rewrite <- Hf.
  destruct (fs_files fs1 !! file) as [[bs|e|e]|]; [|done|done|].
  - cbn. destruct (unmarshalJSON bs) as [j| |]; cbn; [|done..]. intros [= <- <-]. by eexists.
  - destruct (saveSignState _ fs1) as [fs| |] eqn:E; cbn; [|done..]. intros [= <- <-].
    destruct (saveSignState_defined _ _ fs2 _ Hw E) as [fs2' ->]. by eexists.
Qed.

Lemma file_watermark_load file s1 (s2 : Host) ss fs :
  same_file file (h_fs s1) (h_fs s2) → LoadOrCreateSignState file (h_fs s2) = Ok (ss, fs) →
  file_watermark file s1 = Some (lockedHrsKey ss).
Proof.
  intros H E. unfold file_watermark. destruct (LoadOrCreate_agree file (h_fs s2) (h_fs s1) ss fs) as [fs' ->]; [by symmetry|done..].
Qed.

(** A save moves the file of a state, and no other. *)
Lemma save_now_Ok `{JL : !JsonLaws J} sched ss ssc s s' ev :
  run sched (save_now ss ssc) s = (s', ev, Ok ()) → ss_filePath ss ≠ DevNull →
  hrs_lt (lockedHrsKey ss) (ssc_HRSKey ssc)
  ∧ (∀ s2, same_file (ss_filePath ss) (h_fs s') (h_fs s2) → file_watermark (ss_filePath ss) s2 = Some (ssc_HRSKey ssc))
  ∧ ∀ file, file ≠ ss_filePath ss → same_file file (h_fs s) (h_fs s').
Proof.
  intros (fs & E & -> & _)%run_on_files_Ok Hn. revert E. unfold Save.
  destruct (blockDoubleSign ss ssc) as [[s1 copy]| |] eqn:Eb; cbn; [|done..]. apply blockDoubleSign_Ok in Eb as (Hlt & -> & ->).
  destruct (saveSignState _ _) as [fs'| |] eqn:Es; cbn; [|done..]. intros [= <-].
  split; [done|]. split.
  - intros s2 H2. pose proof (LoadOrCreate_saved (saved_state ss ssc) (h_fs s) fs' Hn Es) as Hl. cbn in Hl.
    by rewrite (file_watermark_load _ s2 (set_fs fs' s) _ _ (symmetry H2) Hl).
  - intros file Hne. by eapply saveSignState_same.
Qed.

Lemma load_states_Ok self config chainID sched s s' ev pv cs :
  paths_apart config chainID → run sched (load_states self config chainID) s = (s', ev, Ok (pv, cs)) →
  ss_filePath pv = PrivValStateFile config chainID ∧ ss_filePath cs = CosignerStateFile config chainID
  ∧ file_watermark (PrivValStateFile config chainID) s = Some (lockedHrsKey pv)
  ∧ file_watermark (CosignerStateFile config chainID) s = Some (lockedHrsKey cs).
Proof.
  intros (Hpc & _ & _ & Hp & Hc). unfold load_states. rewrite run_reading_bind.
  destruct (os_Stat _ _); [| |done|]; intros Hr.
  all: apply run_must_Ok in Hr as (s1 & ev1 & [] & ev2 & Hreq & Hr & _); apply run_must_Ok in Hr as (s2 & ev3 & pv' & ev4 & Hpv & Hr & _);
    apply run_must_Ok in Hr as (s3 & ev5 & cs' & ev6 & Hcs & [= <- _ <- <-] & _).
  all: apply RequireNotRunning_effect in Hreq as [_ Heff]; apply run_on_files_Ok in Hpv as (fs1 & Hpv & -> & _);
    apply run_on_files_Ok in Hcs as (fs2 & Hcs & -> & _); cbn in Hcs.
  all: assert (∀ file, rc_PidFile config ≠ file → same_file file (h_fs s) (h_fs s1)) as Hs1 by
    (intros file Hf; destruct Heff as [->| ->]; [done|]; unfold os_Remove; repeat case_match; cbn; try done; split; cbn; [|done];
     by rewrite lookup_delete_ne).
  all: destruct (LoadOrCreate_same _ (CosignerStateFile config chainID) _ _ _ Hpv) as [Fpv Hs2];
    destruct (LoadOrCreate_same _ (PrivValStateFile config chainID) _ _ _ Hcs) as [Fcs _]; split; [done|]; split; [done|]; split;
    [by eapply file_watermark_load; [apply Hs1|exact Hpv]|].
  all: eapply (file_watermark_load _ s (set_fs fs1 s1)); [|exact Hcs]; etransitivity; [by apply Hs1|]; cbn; apply Hs2; congruence.
Qed.

Lemma save_states_Ok `{JL : !JsonLaws J} sched pv cs ssc s s' ev :
  ss_filePath pv ≠ ss_filePath cs → ss_filePath pv ≠ DevNull → ss_filePath cs ≠ DevNull →
  run sched (save_states pv cs ssc) s = (s', ev, Ok ()) →
  hrs_lt (lockedHrsKey pv) (ssc_HRSKey ssc) ∧ hrs_lt (lockedHrsKey cs) (ssc_HRSKey ssc)
  ∧ file_watermark (ss_filePath pv) s' = Some (ssc_HRSKey ssc) ∧ file_watermark (ss_filePath cs) s' = Some (ssc_HRSKey ssc).
Proof.
  intros Hne Hp Hc (s1 & ev1 & [] & ev2 & H1 & H2 & _)%run_must_Ok.
  apply save_now_Ok in H1 as (Hlt1 & Hw1 & _); [|done]. apply save_now_Ok in H2 as (Hlt2 & Hw2 & Hsame); [|done].
  split; [done|]. split; [done|]. split; [by apply Hw1, Hsame|by apply Hw2].
Qed.

Lemma states_moved_up `{JL : !JsonLaws J} self config chainID ssc sched s s1 s' ev1 ev2 pv cs pv' cs' :
  paths_apart config chainID → run sched (load_states self config chainID) s = (s1, ev1, Ok (pv, cs)) →
  ss_filePath pv' = ss_filePath pv → lockedHrsKey pv' = lockedHrsKey pv →
  ss_filePath cs' = ss_filePath cs → lockedHrsKey cs' = lockedHrsKey cs →
  run sched (save_states pv' cs' ssc) s1 = (s', ev2, Ok ()) → moved_up config chainID (ssc_HRSKey ssc) s s'.
Proof.
  intros Hpaths (Fp & Fc & Wp & Wc)%load_states_Ok Ep Kp Ec Kc Hs; [|done]. destruct Hpaths as (Hne & Hp & Hc & _).
  rewrite Fp in Ep. rewrite Fc in Ec. apply save_states_Ok in Hs as (L1 & L2 & W1 & W2); [|congruence..].
  rewrite Ep in W1. rewrite Ec in W2. rewrite Kp in L1. rewrite Kc in L2.
  intros file [->|[->|[]%elem_of_nil]%elem_of_cons]%elem_of_cons; eauto.
Qed.

(** *** When the commands succeed *)

Lemma saveSignState_write_error (ss : SignState) fs fs' : saveSignState ss fs = Ok fs' → fs_write_error fs' = fs_write_error fs.
Proof.
  unfold saveSignState. destruct (marshalJSON _) as [bs| |]; [|done..]. destruct (String.eqb _ DevNull); [by intros [= <-]|].
  destruct (String.eqb _ ""); [done|]. unfold WriteFileAtomic. by destruct (fs_write_error fs (ss_filePath ss)); [|intros [= <-]].
Qed.

Lemma LoadOrCreate_write_error path fs ss fs' :
  LoadOrCreateSignState path fs = Ok (ss, fs') → fs_write_error fs' = fs_write_error fs.
Proof.
  unfold LoadOrCreateSignState. destruct (fs_files fs !! path) as [[bs|e|e]|]; [|done| |].
  1-2: by destruct (LoadSignState _ _); cbn; [intros [= <- <-]|..].
  destruct (saveSignState _ _) as [fs''| |] eqn:E; cbn; [|done..]. intros [= <- <-]. by eapply saveSignState_write_error.
Qed.

Lemma save_now_run sched ss ssc s :
  (∀ j, is_ok (marshalJSON j) = true) → ss_filePath ss ≠ "" → fs_write_error (h_fs s) (ss_filePath ss) = None →
  hrs_lt (lockedHrsKey ss) (ssc_HRSKey ssc) →
  ∃ s', run sched (save_now ss ssc) s = (s', [], Ok ()) ∧ fs_write_error (h_fs s') = fs_write_error (h_fs s).
Proof.
  intros Hm Hp%String.eqb_neq Hw Hlt. unfold save_now.
  assert (∃ fs', saveSignState (lockedCopy (saved_state ss ssc)) (h_fs s) = Ok fs') as [fs' Hs].
  { unfold saveSignState. specialize (Hm (json_fields (lockedCopy (saved_state ss ssc)))). destruct (marshalJSON _) as [bs| |]; [|done..].
    destruct (String.eqb _ DevNull); [by eexists|]. cbn [ss_filePath lockedCopy saved_state]. rewrite Hp. unfold WriteFileAtomic.
    rewrite Hw. by eexists. }
  exists (set_fs fs' s). split; [|by eapply saveSignState_write_error]. apply run_on_files_intro. unfold Save.
  rewrite (proj2 (blockDoubleSign_Ok _ _ _ _) (conj Hlt (conj eq_refl eq_refl))). cbn [result_bind]. cbn. by rewrite Hs.
Qed.

Lemma load_states_run self config chainID sched s k1 k2 :
  paths_apart config chainID → os_Stat (rc_HomeDir config) s ≠ StatMissing → os_Stat (rc_PidFile config) s = StatMissing →
  file_watermark (PrivValStateFile config chainID) s = Some k1 → file_watermark (CosignerStateFile config chainID) s = Some k2 →
  ∃ s1 pv cs, run sched (load_states self config chainID) s = (s1, [], Ok (pv, cs)) ∧ lockedHrsKey pv = k1 ∧ lockedHrsKey cs = k2
    ∧ ss_filePath pv = PrivValStateFile config chainID ∧ ss_filePath cs = CosignerStateFile config chainID
    ∧ fs_write_error (h_fs s1) = fs_write_error (h_fs s).
Proof.
  intros (Hpc & _) Hhome Hpid. unfold file_watermark.
  destruct (LoadOrCreateSignState (PrivValStateFile config chainID) (h_fs s)) as [[pv fs1]| |] eqn:E1; intros [= <-].
  destruct (LoadOrCreateSignState (CosignerStateFile config chainID) (h_fs s)) as [[cs fs2]| |] eqn:E2; intros [= <-].
  destruct (LoadOrCreate_same _ (CosignerStateFile config chainID) _ _ _ E1) as [F1 Hsame].
  destruct (LoadOrCreate_same _ "" _ _ _ E2) as [F2 _].
  destruct (LoadOrCreate_agree _ _ fs1 _ _ (Hsame ltac:(congruence)) E2) as [fs3 E3].
  exists (set_fs fs3 (set_fs fs1 s)), pv, cs. split_and!; try done.
  - unfold load_states. rewrite run_reading_bind.
    assert (∀ p : cmd (SignState * SignState), match os_Stat (rc_HomeDir config) s with StatMissing => Ret (Err (ErrorString (rc_HomeDir config +:+ " does not exist, initialize config with horcrux config init and try again"))) | _ => p end = p) as ->
      by (intros p; by destruct (os_Stat _ s)).
    eapply (run_try _ _ _ _ s [] _ _ []). { unfold RequireNotRunning. rewrite run_reading_bind. by rewrite Hpid. }
    eapply (run_try _ _ _ _ _ [] _ _ []); [by apply run_on_files_intro|].
    by eapply (run_try _ _ _ _ _ [] _ _ []); [by apply run_on_files_intro|].
  - cbn. rewrite (LoadOrCreate_write_error _ _ _ _ E3). by eapply LoadOrCreate_write_error.
Qed.

Lemma save_states_run sched pv cs ssc s :
  (∀ j, is_ok (marshalJSON j) = true) → ss_filePath pv ≠ "" → ss_filePath cs ≠ "" →
  fs_write_error (h_fs s) (ss_filePath pv) = None → fs_write_error (h_fs s) (ss_filePath cs) = None →
  hrs_lt (lockedHrsKey pv) (ssc_HRSKey ssc) → hrs_lt (lockedHrsKey cs) (ssc_HRSKey ssc) →
  ∃ s', run sched (save_states pv cs ssc) s = (s', [], Ok ()).
Proof.
  intros Hm Hp Hc Wp Wc Lp Lc. destruct (save_now_run sched pv ssc s Hm Hp Wp Lp) as (s1 & H1 & E1).
  destruct (save_now_run sched cs ssc s1 Hm Hc ltac:(by rewrite E1) Lc) as (s2 & H2 & _).
  exists s2. by apply (run_try _ _ _ _ _ [] () _ [] _ H1).
Qed.

Lemma state_files_named config chainID : PrivValStateFile config chainID ≠ "" ∧ CosignerStateFile config chainID ≠ "".
Proof. split; apply filepath_Join_nonempty; by destruct chainID. Qed.

(** A machine that can move the files loads states that can be saved with the key. *)
Lemma can_move_run self config chainID ssc sched s (f : SignState → SignState) (g : SignState → SignState) :
  paths_apart config chainID → can_move config chainID (ssc_HRSKey ssc) s →
  (∀ x, ss_filePath (f x) = ss_filePath x ∧ lockedHrsKey (f x) = lockedHrsKey x) →
  (∀ x, ss_filePath (g x) = ss_filePath x ∧ lockedHrsKey (g x) = lockedHrsKey x) →
  ∃ s1 pv cs s', run sched (load_states self config chainID) s = (s1, [], Ok (pv, cs))
    ∧ run sched (save_states (f pv) (g cs) ssc) s1 = (s', [], Ok ()).
Proof.
  intros Hpaths (Hm & Hhome & Hpid & Hfiles) Hf Hg. destruct (state_files_named config chainID) as [N1 N2].
  destruct (Hfiles (PrivValStateFile config chainID)) as (W1 & k1 & E1 & L1); [by left|].
  destruct (Hfiles (CosignerStateFile config chainID)) as (W2 & k2 & E2 & L2); [right; by left|].
  destruct (load_states_run self config chainID sched s k1 k2 Hpaths Hhome Hpid E1 E2) as (s1 & pv & cs & Hl & <- & <- & F1 & F2 & We).
  destruct (Hf pv) as [Fp Kp]. destruct (Hg cs) as [Fc Kc]. rewrite <- F1 in *. rewrite <- F2 in *.
  destruct (save_states_run sched (f pv) (g cs) ssc s1) as [s' Hs]; [done|by rewrite ?Fp, ?Fc, ?We, ?Kp, ?Kc..|]. by exists s1, pv, cs, s'.
Qed.
End lemmas.

(** ** Theorems *)

Lemma LoadSignState_watermark `{J : !Json} file s ss :
  LoadSignState file (h_fs s) = Ok ss → file_watermark file s = Some (lockedHrsKey ss).
Proof.
  intros H. unfold file_watermark, LoadOrCreateSignState. pose proof H as Hr. unfold LoadSignState, ReadFile in Hr.
  destruct (fs_files (h_fs s) !! file) as [[bs|e|e]|]; [|done..]. by rewrite H.
Qed.

(** What [state show] prints are the watermarks that a signer would start with; it changes nothing, and shows no state where there is
    no file. *)
Theorem state_shown `{J : !Json} config chainID sched s s' ev r :
  run sched (showStateCmd config chainID) s = (s', ev, r) →
  s' = s ∧ ev = [] ∧ ∀ pv cs, r = Ok (pv, cs) →
    file_watermark (PrivValStateFile config chainID) s = Some (lockedHrsKey pv)
    ∧ file_watermark (CosignerStateFile config chainID) s = Some (lockedHrsKey cs)
    ∧ is_Some (fs_files (h_fs s) !! PrivValStateFile config chainID) ∧ is_Some (fs_files (h_fs s) !! CosignerStateFile config chainID).
Proof.
  unfold showStateCmd. rewrite run_reading_bind.
  assert (∀ file ss, LoadSignState file (h_fs s) = Ok ss → is_Some (fs_files (h_fs s) !! file)) as Hfile.
  { intros file ss. unfold LoadSignState, ReadFile. by destruct (fs_files (h_fs s) !! file). }
  destruct (os_Stat _ s); [| |by intros [= <- <- <-]|]; unfold prog_try at 1; rewrite run_reading_bind;
    (destruct (LoadSignState (PrivValStateFile config chainID) (h_fs s)) as [pv| |] eqn:Ep; [|by intros [= <- <- <-]..]);
    unfold prog_try; rewrite run_reading_bind;
    (destruct (LoadSignState (CosignerStateFile config chainID) (h_fs s)) as [cs| |] eqn:Ec; [|by intros [= <- <- <-]..]);
    intros [= <- <- <-]; split; [done| |done| |done|]; (split; [done|]); intros ? ? [= <- <-];
    split_and!; eauto using LoadSignState_watermark.
Qed.

(** C33: a command that sets or imports the sign state of a chain, and succeeds, moved the watermarks of the validator and of the
    cosigner up to the key it was given; it never moves one back.  It does succeed when no signer runs, the key is above both watermarks
    and the files can be written. *)
Theorem state_commands_move_up `{J : !Json} `{JL : !JsonLaws J} unmarshal_pasted self userHome homeFlag cfg chainID heightArg lines sched
    (s : Host) :
  let config := initConfig userHome homeFlag cfg in
  ValidateChainID chainID = Ok () →
  (∀ s' ev, run sched (setStateCmd self config chainID heightArg) s = (s', ev, Ok ()) →
     ∃ height, ParseInt heightArg = Ok height ∧ moved_up config chainID (mkHRSKey height 0 0) s s')
  ∧ (∀ s' ev, run sched (importStateCmd unmarshal_pasted self config chainID lines) s = (s', ev, Ok ()) →
       ∃ st, unmarshal_pasted (pasted lines) = Ok (Some st)
         ∧ moved_up config chainID (mkHRSKey (ps_Height st) (ps_Round st) (ps_Step st)) s s')
  ∧ (∀ height, ParseInt heightArg = Ok height → can_move config chainID (mkHRSKey height 0 0) s →
       ∃ s', run sched (setStateCmd self config chainID heightArg) s = (s', [], Ok ()))
  ∧ (∀ st, unmarshal_pasted (pasted lines) = Ok (Some st) →
       can_move config chainID (mkHRSKey (ps_Height st) (ps_Round st) (ps_Step st)) s →
       ∃ s', run sched (importStateCmd unmarshal_pasted self config chainID lines) s = (s', [], Ok ())).
Proof.
  intros config Hv. pose proof (initConfig_paths userHome homeFlag cfg _ Hv) as Hp. fold config in Hp.
  split; [|split; [|split]].
  - intros s' ev (s1 & ev1 & [pv cs] & ev2 & Hl & H & _)%run_must_Ok. cbn [fst snd] in H.
    destruct (ParseInt heightArg) as [height| |]; cbn [prog_try prog_bind run] in H; [|done..].
    exists height. split; [done|]. by apply (states_moved_up self config chainID (mkSSC height 0 0 None None None) sched s s1 s' _ _ pv cs
      (set_NoncePublic None pv) (set_NoncePublic None cs) Hp Hl eq_refl eq_refl eq_refl eq_refl H).
  - intros s' ev (s1 & ev1 & [pv cs] & ev2 & Hl & H & _)%run_must_Ok. cbn [fst snd] in H.
    destruct (unmarshal_pasted (pasted lines)) as [[st|]| |]; cbn [prog_try prog_bind run] in H; [|done..].
    exists st. split; [done|]. by apply (states_moved_up self config chainID (mkSSC (ps_Height st) (ps_Round st) (ps_Step st) None None None)
      sched s s1 s' _ _ pv cs (set_NoncePublic None pv) cs Hp Hl eq_refl eq_refl eq_refl eq_refl H).
  - intros height Hh Hmove. destruct (can_move_run self config chainID (mkSSC height 0 0 None None None) sched s (set_NoncePublic None)
      (set_NoncePublic None) Hp Hmove) as (s1 & pv & cs & s' & Hl & Hs); [done..|]. exists s'.
    apply (run_try _ _ _ _ _ [] _ _ [] _ Hl). rewrite Hh. exact (run_try _ (Ret (Ok height)) _ _ _ [] _ _ [] _ eq_refl Hs).
  - intros st Hst Hmove. destruct (can_move_run self config chainID (mkSSC (ps_Height st) (ps_Round st) (ps_Step st) None None None) sched s
      (set_NoncePublic None) (λ x, x) Hp Hmove) as (s1 & pv & cs & s' & Hl & Hs); [done..|]. exists s'.
    apply (run_try _ _ _ _ _ [] _ _ [] _ Hl). rewrite Hst. exact (run_try _ (Ret (Ok (Some st))) _ _ _ [] _ _ [] _ eq_refl Hs).
Qed.

Lemma state_commands_move_up_witness :
  (∃ height, ParseInt "12" = Ok height ∧ @moved_up toy_json toy_state_config "chain" (mkHRSKey height 0 0) (toy_host ∅) toy_set_state.1.1)
  ∧ @file_watermark toy_json "/h/state/chain_share_sign_state.json" toy_set_state.1.1 = Some (mkHRSKey 12 0 0).
Proof.
  split; [|vm_compute; reflexivity].
  refine (proj1 (@state_commands_move_up toy_json toy_json_laws (λ _, Ok None) 1 "/root" "/h" (rc_Config toy_state_config) "chain" "12" []
    (λ _, 0%nat) (toy_host ∅) eq_refl) toy_set_state.1.1 toy_set_state.1.2 _).
  vm_compute. reflexivity.
Defined.
