(* ===== verification/ShardsCmd.v ===== *)
(** * The commands that make keys

    cmd/horcrux/cmd/shards.go: the commands that split a validator key into the shards of the
    cosigners, and that make the keys with which cosigners encrypt and sign the nonces they
    exchange.  Each cosigner has a directory of its own, and each key a file. *)

From S2P Require Import Prelude Tsed25519 Errors Wire SignState Config Strconv Conc SoftSigner Services Security.
From stdpp Require Import base gmap list strings numbers pretty.
From Stdlib Require Import ZArith Lia.

Open Scope string_scope.
Open Scope list_scope.
Open Scope Z_scope.

(** ** Definitions *)

(** *** Directories *)

Definition is_dir (path : string) (s : Host) : bool :=
  bool_decide (path ∈ h_dirs s) || String.eqb path "/" || String.eqb path ".".

(** [filepath.Dir] of a path that is clean *)
Definition parent_dir (p : path) : string := path_string (mkPath (path_rooted p) (take (length (path_components p) - 1) (path_components p))).

(** [os.Mkdir] *)
Definition os_Mkdir (name : string) (s : Host) : Host * result unit goerror :=
  let dir := path_string (Clean name) in
  match h_mkdir_error s dir with
  | Some e => (s, Err e)
  | None =>
      match os_Stat dir s with
      | StatMissing =>
          if is_dir (parent_dir (Clean name)) s then (set_dirs ({[ dir ]} ∪ h_dirs s) s, Ok ())
          else (s, Err (ErrorString ("mkdir " +:+ name +:+ ": no such file or directory")))
      | _ => (s, Err (ErrorString ("mkdir " +:+ name +:+ ": file exists")))
      end
  end.

(** The path after each of its elements *)
Fixpoint path_prefixes (acc : string) (ws : list string) : list string :=
  match ws with
  | [] => []
  | w :: ws' => (if String.eqb w "" then [] else [acc +:+ w]) ++ path_prefixes (acc +:+ w +:+ "/") ws'
  end.

(** [os.MkdirAll] *)
Fixpoint mkdir_each (prefixes : list string) (s : Host) : Host * result unit goerror :=
  match prefixes with
  | [] => (s, Ok ())
  | p :: l =>
      let dir := path_string (Clean p) in
      if is_dir dir s then mkdir_each l s
      else
        match os_Stat dir s with
        | StatFile => (s, Err (ErrorString ("mkdir " +:+ p +:+ ": not a directory")))
        | _ =>
            let '(s', r) := os_Mkdir p s in
            match r with
            | Ok _ => mkdir_each l s'
            | r => (s', r)
            end
        end
  end.

Definition os_MkdirAll (path : string) : Host → Host * result unit goerror := mkdir_each (path_prefixes "" (split_slash path)).

Definition createCosignerDirectoryIfNecessary (out : string) (id : Z) : cmd string :=
  let dir := filepath_Join out ("cosigner_" +:+ fmt_d id) in
  do st <- reading (os_Stat dir);
  match st with
  | StatError err => Ret (Err (WrapError "unexpected error fetching info for cosigner directory: " err))
  | StatMissing =>
      must _ <- wrap_errors (WrapError "failed to make directory for cosigner files: ") (atomic (os_Mkdir dir));
      Ret (Ok dir)
  | StatFile => Ret (Err (ErrorString ("path must be a directory: " +:+ dir)))
  | StatDir => Ret (Ok dir)
  end.

(** *** Writing the files of the cosigners *)

Section write.
Context {K : Type} (ID : K → Z) (write : K → string → FileSystem → result FileSystem goerror).
Context (out name : string).

(** The loop of the three commands *)
Fixpoint write_shards (keys : list K) : cmd unit :=
  match keys with
  | [] => Ret (Ok ())
  | c :: l =>
      must dir <- createCosignerDirectoryIfNecessary out (ID c);
      must _ <- on_files (λ fs, try fs' <- write c (filepath_Join dir name) fs; Ok ((), fs'));
      write_shards l
  end.

(** What the commands do with the keys they made *)
Definition write_out (keys : list K) : cmd unit :=
  must _ <- (if negb (String.eqb out "") then atomic (os_MkdirAll out) else Ret (Ok ()));
  write_shards keys.

(** The file of a cosigner *)
Definition shard_file (id : Z) : string := filepath_Join (filepath_Join out ("cosigner_" +:+ fmt_d id)) name.
End write.

(** *** The commands *)

Record shard_flags := mkShardFlags {
  sf_ChainID : string;
  sf_KeyFile : string;
  sf_Threshold : Z;
  sf_Shards : Z;
  sf_Out : string
}.

(** The validation of the flags, in the order of the command; [st] is what is found at the key file. *)
Definition check_flags (f : shard_flags) (st : stat_result) : result unit goerror :=
  if String.eqb (sf_KeyFile f) "" then Err (ErrorString "key-file flag must not be empty")
  else
    try _ <- ValidateChainID (sf_ChainID f);
    if sf_Threshold f =? 0 then Err (ErrorString "threshold flag must be > 0, <= --shards, and > --shards/2")
    else if sf_Shards f =? 0 then Err (ErrorString "shards flag must be greater than zero")
    else
      let access err := Err (WrapError ("error accessing priv_validator_key file(" +:+ sf_KeyFile f +:+ "): ") err) in
      match st with
      | StatMissing => access (ErrorString ("stat " +:+ sf_KeyFile f +:+ ": no such file or directory"))
      | StatError err => access err
      | _ =>
          if sf_Shards f <? sf_Threshold f then
            Err (ErrorString ("threshold cannot be greater than total shards, got [threshold](" +:+ fmt_d (sf_Threshold f)
                   +:+ ") > [shards](" +:+ fmt_d (sf_Shards f) +:+ ")"))
          else if sf_Threshold f <=? sf_Shards f / 2 then
            Err (ErrorString ("threshold must be greater than total shards divided by 2, got [threshold](" +:+ fmt_d (sf_Threshold f)
                   +:+ ") <= [shards](" +:+ fmt_d (sf_Shards f) +:+ ") / 2"))
          else Ok ()
      end.

Definition createCosignerEd25519ShardsCmd `{KC : !KeyCodec} (rnd : nat → option Z) (f : shard_flags) : cmd unit :=
  do st <- reading (os_Stat (sf_KeyFile f));
  must _ <- Ret (check_flags f st);
  must csKeys <- reading (λ s, CreateCosignerEd25519ShardsFromFile rnd (h_fs s) (sf_KeyFile f) (sf_Threshold f) (sf_Shards f));
  write_out ck_ID WriteCosignerEd25519ShardFile (sf_Out f) (sf_ChainID f +:+ "_shard.json") csKeys.

(** The error that is wrapped is nil. *)
Definition no_shards : goerror := ErrorString "shards must be greater than zero (0): %!w(<nil>)".

Definition createCosignerECIESShardsCmd `{J : !SecurityJson} `{X : !Ecies} (rnd : nat → list Z) (shards : Z) (out : string) : cmd unit :=
  if shards <=? 0 then Ret (Err no_shards)
  else
    must csKeys <- Ret (CreateCosignerECIESShards rnd (Z.to_nat shards));
    write_out ek_ID WriteCosignerECIESShardFile out "ecies_keys.json" csKeys.

Definition createCosignerRSAShardsCmd `{J : !SecurityJson} {Priv Pub : Type} `{R : !Rsa Priv Pub} (rnd : nat → list Z) (shards : Z)
    (out : string) : cmd unit :=
  if shards <=? 0 then Ret (Err no_shards)
  else
    must csKeys <- Ret (CreateCosignerRSAShards rnd (Z.to_nat shards));
    write_out rk_ID WriteCosignerRSAShardFile out "rsa_keys.json" csKeys.

(** *** Specifications *)

(** What a key is written as is read back as the key. *)
Definition writes_key {K} (decode : list Z → result K goerror) (write : K → string → FileSystem → result FileSystem goerror) (k : K) : Prop :=
  ∀ file fs fs', write k file fs = Ok fs' →
    ∃ bs, fs' = mkFS (<[file := Content bs]> (fs_files fs)) (fs_write_error fs) ∧ decode bs = Ok k.

(** *** Example *)

Definition toy_shards_made : Host * list host_event * result unit goerror :=
  run (λ _, 0%nat) (@createCosignerECIESShardsCmd toy_sec_json toy_ecies toy_rnd 2 "/h/keys") (toy_host ∅).

(** ** Lemmas *)

(** *** Paths *)

Lemma dir_prefix_snoc ws w : dir_prefix (ws ++ [w]) = dir_prefix ws +:+ (w +:+ "/").
Proof.
  induction ws as [|v ws IH]; cbn; [by rewrite string_app_nil_r|]. by rewrite IH, !string_app_assoc.
Qed.

Lemma dir_prefix_slash ws : dir_prefix ws = "" ∨ ∃ q, dir_prefix ws = q +:+ "/".
Proof.
  destruct ws as [|w ws _] using rev_ind; [by left|]. right. exists (dir_prefix ws +:+ w). by rewrite dir_prefix_snoc, string_app_assoc.
Qed.

(** A file of a directory is in it, whatever its name. *)
Lemma Clean_Join out : ∃ b ws, ∀ name, plain_name name → Clean (filepath_Join out name) = mkPath b (ws ++ [name]).
Proof.
  set (pre := (if IsAbs out then "/" else "") +:+ dir_prefix (path_components (Clean out))).
  assert (pre = "" ∨ ∃ q, pre = q +:+ "/") as Hpre.
  { unfold pre. destruct (dir_prefix_slash (path_components (Clean out))) as [->|[q ->]].
    - rewrite string_app_nil_r. destruct (IsAbs out); [right; by exists ""|by left].
    - right. eexists. by rewrite <- string_app_assoc. }
  destruct Hpre as [Hpre|[q Hpre]].
  - exists false, []. intros name Hn. rewrite filepath_Join_plain by done. fold pre. rewrite Hpre. cbn [String.append].
    exact (Join_path_plain "" name Hn).
  - exists (IsAbs pre), (reverse (fold_left (clean_step (IsAbs pre)) (split_slash q) [])). intros name Hn.
    rewrite filepath_Join_plain by done. fold pre. unfold Clean. rewrite IsAbs_app by (rewrite Hpre; by destruct q).
    f_equal. rewrite Hpre at 2. rewrite string_app_assoc, string_app_cons, string_app_nil.
    destruct Hn as (Hs & Hn'). rewrite split_slash_app, (split_slash_single name), fold_left_app by done. cbn [fold_left].
    by rewrite clean_step_plain, reverse_cons.
Qed.

Lemma number_no_slash n : 0 ≤ n → no_slash (fmt_d n) = true.
Proof.
  intros Hn. pose proof (digits_fmt_d n Hn) as H. revert H. generalize (fmt_d n), 0. intros s.
  induction s as [|c s IH]; intros acc; [done|]. cbn [digits]. unfold no_slash. cbn [all_chars].
  destruct (_ && _) eqn:E; [|done]. intros H. apply andb_true_iff. split; [|by eapply IH].
  apply negb_true_iff, Ascii.eqb_neq. intros ->. done.
Qed.

Lemma shard_file_inj out name i j : plain_name name → 0 ≤ i → 0 ≤ j → shard_file out name i = shard_file out name j → i = j.
Proof.
  intros Hn Hi Hj. destruct (Clean_Join out) as (b & ws & Hc). unfold shard_file. rewrite !(filepath_Join_plain _ name) by done.
  assert (∀ k, 0 ≤ k → plain_name ("cosigner_" +:+ fmt_d k)) as Hp.
  { intros k Hk. split; [|by repeat split]. rewrite no_slash_app. cbn. apply number_no_slash. lia. }
  assert (∀ p, IsAbs p = path_rooted (Clean p)) as Habs by done.
  rewrite !Habs, !Hc by auto. cbn [path_rooted path_components]. rewrite !dir_prefix_snoc.
  rewrite !string_app_assoc. intros E. apply string_app_inj_l, string_app_inj_l, string_app_inj_l in E.
  apply (f_equal String.list_ascii_of_string) in E. rewrite !chars_app in E. apply app_inv_tail in E. apply chars_inj in E.
  by apply (inj pretty) in E.
Qed.

(** *** The files that are written *)

Lemma os_Mkdir_fs name s : h_fs (os_Mkdir name s).1 = h_fs s.
Proof. unfold os_Mkdir. by repeat case_match. Qed.

Lemma create_directory_Ok out id sched s s' ev dir :
  run sched (createCosignerDirectoryIfNecessary out id) s = (s', ev, Ok dir) →
  dir = filepath_Join out ("cosigner_" +:+ fmt_d id) ∧ h_fs s' = h_fs s.
Proof.
  unfold createCosignerDirectoryIfNecessary. rewrite run_reading_bind.
  destruct (os_Stat _ s); [by intros [= <- <- <-]|done| |done].
  intros (s1 & ev1 & [] & ev2 & H & [= <- <- <-] & _)%run_must_Ok. split; [done|]. revert H. cbn.
  pose proof (os_Mkdir_fs (filepath_Join out ("cosigner_" +:+ fmt_d id)) s) as Hm.
  destruct (os_Mkdir _ s) as [s2 r]. cbn in *. by intros [= <- _ _].
Qed.

Section written.
Context {K : Type} (ID : K → Z) (write : K → string → FileSystem → result FileSystem goerror).
Context (decode : list Z → result K goerror) (out name : string).

Lemma write_shards_Ok keys sched s s' ev :
  plain_name name → Forall (λ k, 0 ≤ ID k ∧ writes_key decode write k) keys → NoDup (ID <$> keys) →
  run sched (write_shards ID write out name keys) s = (s', ev, Ok ()) →
  (∀ file, (∀ k, k ∈ keys → file ≠ shard_file out name (ID k)) → fs_files (h_fs s') !! file = fs_files (h_fs s) !! file)
  ∧ ∀ k, k ∈ keys → ∃ bs, fs_files (h_fs s') !! shard_file out name (ID k) = Some (Content bs) ∧ decode bs = Ok k.
Proof.
  intros Hn. revert s ev. induction keys as [|c l IH]; intros s ev Hk Hd; cbn [write_shards].
  { intros [= <- <-]. split; [done|]. by intros k Hk'%elem_of_nil. }
  apply Forall_cons in Hk as [[Hid Hw] Hk]. apply NoDup_cons in Hd as [Hnot Hd].
  intros (s1 & ev1 & dir & ev2 & [-> Hs1]%create_directory_Ok & Hr & _)%run_must_Ok.
  apply run_must_Ok in Hr as (s2 & ev3 & [] & ev4 & Hwr & Hr & _). apply run_on_files_Ok in Hwr as (fs & Hwr & -> & _).
  destruct (write c _ _) as [fs'| |] eqn:E; cbn in Hwr; [|done..]. injection Hwr as <-.
  apply Hw in E as (bs & -> & Hb). rewrite Hs1 in Hr. destruct (IH _ _ Hk Hd Hr) as [Hother Hfiles]. cbn in Hother.
  assert (∀ k, k ∈ l → shard_file out name (ID c) ≠ shard_file out name (ID k)) as Hne.
  { intros k Hkl Ei. apply shard_file_inj in Ei; [|done|done|].
    - apply Hnot. apply list_elem_of_fmap. by exists k.
    - rewrite list.Forall_forall in Hk. by apply Hk. }
  split.
  - intros file Hf. rewrite Hother; [|intros k ?; apply Hf; by right]. apply lookup_insert_ne. intros <-. by apply (Hf c); [left|].
  - intros k [->|Hkl]%elem_of_cons; [|by apply Hfiles]. exists bs. split; [|done]. rewrite Hother by done. by rewrite lookup_insert_eq.
Qed.

Lemma write_out_Ok keys sched s s' ev :
  plain_name name → Forall (λ k, 0 ≤ ID k ∧ writes_key decode write k) keys → NoDup (ID <$> keys) →
  run sched (write_out ID write out name keys) s = (s', ev, Ok ()) →
  ∀ k, k ∈ keys → ∃ bs, ReadFile (h_fs s') (shard_file out name (ID k)) = Ok bs ∧ decode bs = Ok k.
Proof.
  intros Hn Hk Hd (s1 & ev1 & [] & ev2 & _ & Hr & _)%run_must_Ok k Hin.
  destruct (write_shards_Ok _ _ _ _ _ Hn Hk Hd Hr) as [_ Hf]. destruct (Hf k Hin) as (bs & Hbs & Hb). exists bs. split; [|done].
  unfold ReadFile. by rewrite Hbs.
Qed.
End written.

Lemma writes_key_file {K} (marshal : K → result (list Z) goerror) (decode : list Z → result K goerror) k :
  (∀ file fs fs', (try bs <- marshal k; os_WriteFile fs file bs) = Ok fs' → (try bs <- ReadFile fs' file; decode bs) = Ok k) →
  writes_key decode (λ k file fs, try bs <- marshal k; os_WriteFile fs file bs) k.
Proof.
  intros H file fs fs' Hw. pose proof (H _ _ _ Hw) as Hl. revert Hw. destruct (marshal k) as [bs| |]; cbn [result_bind]; [|done..].
  intros Hw. rewrite (ReadFile_written _ _ _ _ Hw) in Hl. exists bs. split; [|exact Hl]. revert Hw. unfold os_WriteFile.
  destruct (fs_write_error fs file); [done|]. by intros [= <-].
Qed.

(** Cosigners are numbered from one. *)
Lemma numbered {A K} (ID : K → Z) (f : nat → A → K) l :
  (∀ i a, ID (f i a) = Z.of_nat i + 1) → NoDup (ID <$> imap f l) ∧ Forall (λ k, 0 ≤ ID k) (imap f l).
Proof.
  intros Hf. split.
  - apply NoDup_alt. intros i j x. rewrite !list_lookup_fmap, !list_lookup_imap.
    destruct (l !! i), (l !! j); cbn; [|done..]. rewrite !Hf. intros [= <-] [= E]. lia.
  - apply list.Forall_forall. intros k (i & Hi)%list_elem_of_lookup. rewrite list_lookup_imap in Hi.
    destruct (l !! i); cbn in Hi; [|done]. injection Hi as <-. rewrite Hf. lia.
Qed.

Lemma check_flags_Ok f st :
  check_flags f st = Ok () → ValidateChainID (sf_ChainID f) = Ok () ∧ sf_Shards f / 2 < sf_Threshold f ≤ sf_Shards f.
Proof.
  unfold check_flags. destruct (String.eqb _ _); [done|]. destruct (ValidateChainID _) as [[]| |]; cbn; [|done..].
  destruct (_ =? _); [done|]. destruct (_ =? _); [done|].
  destruct st; [| |done..]; (destruct (Z.ltb_spec (sf_Shards f) (sf_Threshold f)); [done|]);
    (destruct (Z.leb_spec (sf_Threshold f) (sf_Shards f / 2)); [done|]); done.
Qed.

Section commands.
Context `{KC : !KeyCodec} `{KL : !KeyCodecLaws KC} `{J : !SecurityJson} `{JL : !SecurityJsonLaws J} `{X : !Ecies} `{XL : !EciesLaws X}.
Context {Priv Pub : Type} `{R : !Rsa Priv Pub} `{RL : !RsaLaws R}.

Lemma ed25519_written f rnd sched s s' ev :
  run sched (createCosignerEd25519ShardsCmd rnd f) s = (s', ev, Ok ()) →
  sf_Shards f / 2 < sf_Threshold f ≤ sf_Shards f
  ∧ ∃ keys, CreateCosignerEd25519ShardsFromFile rnd (h_fs s) (sf_KeyFile f) (sf_Threshold f) (sf_Shards f) = Ok keys
      ∧ ∀ c, c ∈ keys → LoadCosignerEd25519Key (h_fs s') (shard_file (sf_Out f) (sf_ChainID f +:+ "_shard.json") (ck_ID c)) = Ok c.
Proof.
  unfold createCosignerEd25519ShardsCmd. rewrite run_reading_bind.
  intros (s1 & ev1 & [] & ev2 & [= <- _ Hc] & Hr & _)%run_must_Ok. apply check_flags_Ok in Hc as [Hv Ht]. split; [done|].
  apply run_must_Ok in Hr as (s2 & ev3 & keys & ev4 & [= <- _ Hk] & Hr & _). exists keys. split; [done|]. intros c Hin.
  assert (NoDup (ck_ID <$> keys) ∧ Forall (λ k, 0 ≤ ck_ID k) keys) as [Hd Hpos].
  { revert Hk. unfold CreateCosignerEd25519ShardsFromFile, CreateCosignerEd25519Shards.
    destruct (ReadPrivValidatorFile _ _) as [pv| |]; cbn; [|done..]. destruct (_ <? _); [done|].
    destruct (Tsed25519.DealShares _ _ _ _) as [sh| |]; cbn; [|done..]. intros [= <-]. by apply numbered. }
  destruct (write_out_Ok _ _ key_UnmarshalJSON _ _ _ _ _ _ _ (suffix_plain _ "_shard.json" (ValidateChainID_no_slash _ Hv)
    ltac:(apply list_elem_of_In; cbn; tauto)) (Forall_impl _ _ _ Hpos (λ k Hk, conj Hk (writes_key_file key_MarshalJSON key_UnmarshalJSON k
    (key_file_spec k)))) Hd Hr c Hin) as (bs & Hb & He).
  unfold LoadCosignerEd25519Key. rewrite Hb. exact He.
Qed.

Lemma ecies_written rnd n out sched s s' ev :
  run sched (createCosignerECIESShardsCmd rnd n out) s = (s', ev, Ok ()) →
  ∃ keys, CreateCosignerECIESShards rnd (Z.to_nat n) = Ok keys
    ∧ ∀ c, c ∈ keys → LoadCosignerECIESKey (h_fs s') (shard_file out "ecies_keys.json" (ek_ID c)) = Ok c.
Proof.
  unfold createCosignerECIESShardsCmd. destruct (n <=? 0); [done|].
  intros (s1 & ev1 & keys & ev2 & [= <- _ Hk] & Hr & _)%run_must_Ok. exists keys. split; [done|]. intros c Hin.
  assert (NoDup (ek_ID <$> keys) ∧ Forall (λ k, 0 ≤ ek_ID k) keys) as [Hd Hpos].
  { destruct (ecies_shards _ _ _ Hk) as (l & _ & ->). by apply numbered. }
  assert (Forall (λ k, 0 ≤ ek_ID k ∧ writes_key ecies_UnmarshalJSON WriteCosignerECIESShardFile k) keys) as Hall.
  { apply list.Forall_forall. intros k Hkin. split; [rewrite list.Forall_forall in Hpos; by apply Hpos|].
    apply list_elem_of_lookup in Hkin as (i & Hi). apply (writes_key_file ecies_MarshalJSON ecies_UnmarshalJSON).
    intros file fs fs'. by apply (ecies_file rnd (Z.to_nat n) keys i). }
  destruct (write_out_Ok _ _ ecies_UnmarshalJSON _ "ecies_keys.json" _ _ _ _ _ ltac:(done) Hall Hd Hr c Hin) as (bs & Hb & He).
  unfold LoadCosignerECIESKey. rewrite Hb. exact He.
Qed.

Lemma rsa_written rnd n out sched s s' ev :
  run sched (createCosignerRSAShardsCmd rnd n out) s = (s', ev, Ok ()) →
  ∃ keys : list (CosignerRSAKey Priv Pub), CreateCosignerRSAShards rnd (Z.to_nat n) = Ok keys
    ∧ ∀ c, c ∈ keys → LoadCosignerRSAKey (h_fs s') (shard_file out "rsa_keys.json" (rk_ID c)) = Ok c.
Proof.
  unfold createCosignerRSAShardsCmd. destruct (n <=? 0); [done|].
  intros (s1 & ev1 & keys & ev2 & [= <- _ Hk] & Hr & _)%run_must_Ok. exists keys. split; [done|]. intros c Hin.
  assert (NoDup (rk_ID <$> keys) ∧ Forall (λ k, 0 ≤ rk_ID k) keys) as [Hd Hpos].
  { destruct (rsa_shards _ _ _ Hk) as (l & ->). by apply numbered. }
  destruct (write_out_Ok _ _ rsa_UnmarshalJSON _ "rsa_keys.json" _ _ _ _ _ ltac:(done) (Forall_impl _ _ _ Hpos
    (λ k Hk, conj Hk (writes_key_file rsa_MarshalJSON rsa_UnmarshalJSON k (rsa_file k)))) Hd Hr c Hin) as (bs & Hb & He).
  unfold LoadCosignerRSAKey. rewrite Hb. exact He.
Qed.

(** ** Theorems *)

(** C34: a command that makes shards, and succeeds, leaves every cosigner the file with its shard: what
    is loaded from the file in the directory of a cosigner is the shard that was dealt to it.
    The threshold is more than half of the shards. *)
Theorem shards_written (f : shard_flags) rndEd rnd n out sched (s s' : Host) ev :
  (run sched (createCosignerEd25519ShardsCmd rndEd f) s = (s', ev, Ok ()) →
     sf_Shards f / 2 < sf_Threshold f ≤ sf_Shards f
     ∧ ∃ keys, CreateCosignerEd25519ShardsFromFile rndEd (h_fs s) (sf_KeyFile f) (sf_Threshold f) (sf_Shards f) = Ok keys
         ∧ ∀ c, c ∈ keys → LoadCosignerEd25519Key (h_fs s') (shard_file (sf_Out f) (sf_ChainID f +:+ "_shard.json") (ck_ID c)) = Ok c)
  ∧ (run sched (createCosignerECIESShardsCmd rnd n out) s = (s', ev, Ok ()) →
       ∃ keys, CreateCosignerECIESShards rnd (Z.to_nat n) = Ok keys
         ∧ ∀ c, c ∈ keys → LoadCosignerECIESKey (h_fs s') (shard_file out "ecies_keys.json" (ek_ID c)) = Ok c)
  ∧ (run sched (createCosignerRSAShardsCmd rnd n out) s = (s', ev, Ok ()) →
       ∃ keys : list (CosignerRSAKey Priv Pub), CreateCosignerRSAShards rnd (Z.to_nat n) = Ok keys
         ∧ ∀ c, c ∈ keys → LoadCosignerRSAKey (h_fs s') (shard_file out "rsa_keys.json" (rk_ID c)) = Ok c).
Proof. split; [apply ed25519_written|]. split; [apply ecies_written|apply rsa_written]. Qed.
End commands.

Lemma shards_written_witness :
  @LoadCosignerECIESKey toy_sec_json toy_ecies (h_fs toy_shards_made.1.1) "/h/keys/cosigner_2/ecies_keys.json" = Ok (toy_shard 1).
Proof.
  assert (run (λ _, 0%nat) (@createCosignerECIESShardsCmd toy_sec_json toy_ecies toy_rnd 2 "/h/keys") (toy_host ∅)
    = (toy_shards_made.1.1, toy_shards_made.1.2, Ok ())) as Hrun.
  { vm_compute. reflexivity. }
  destruct (proj1 (proj2 (@shards_written toy_keys toy_keys_laws toy_sec_json toy_sec_json_laws toy_ecies toy_ecies_laws Z Z toy_rsa toy_rsa_laws
    (mkShardFlags "" "" 0 0 "") (λ _, None) toy_rnd 2 "/h/keys" (λ _, 0%nat) (toy_host ∅) toy_shards_made.1.1 toy_shards_made.1.2))
    Hrun) as (keys & Hk & Hall).
  assert (Ok keys = Ok [toy_shard 0; toy_shard 1] :> result _ goerror) as E by (rewrite <- Hk; vm_compute; reflexivity).
  injection E as ->. apply (Hall (toy_shard 1)). by apply list_elem_of_further, list_elem_of_here.
Defined.
