(* ===== verification/MigrateCmd.v ===== *)
(** * Migration of an older configuration

    cmd/horcrux/cmd/migrate.go: the command that turns the key file and the configuration of
    version 2, which hold the shard of the validator key and the RSA keys together, into the
    files of version 3, and removes the old key file.  The theorems show that the key is in
    the new files before the old one is gone, as long as these are different files. *)

From S2P Require Import Prelude Errors Wire SignState Config Strconv Conc SoftSigner Services Security StateCmd.
From stdpp Require Import base gmap list strings numbers.
From Stdlib Require Import ZArith Lia.

Open Scope string_scope.
Open Scope list_scope.
Open Scope Z_scope.

(** ** Definitions *)

Record v2CosignerConfig := mkV2CosignerConfig {
  v2_Threshold : Z;
  v2_Shares : Z;
  v2_P2PListen : string;
  v2_Peers : list (Z * string);
  v2_Timeout : string
}.

Record v2Config := mkV2Config {
  v2_ChainID : string;
  v2_PrivValKeyFile : option string;
  v2_Cosigner : option v2CosignerConfig;
  v2_ChainNodes : list string;
  v2_DebugAddr : string
}.

Definition v2Config_validate (c : v2Config) : result unit goerror :=
  if String.eqb (v2_ChainID c) "" then Err (ErrorString "chain-id is empty") else Ok ().

(** The fields of the old key file, as they are decoded *)
Record v2KeyJSON := mkV2KeyJSON {
  v2j_RSAKey : list Z;
  v2j_PubkeyBytes : gobytes;
  v2j_RSAPubs : list (list Z);
  v2j_ShareKey : gobytes;
  v2j_ID : Z
}.

Definition SignModeThreshold : string := "threshold".
Definition SignModeSingle : string := "single".

(** [filepath.Dir]: what precedes the last slash, cleaned *)
Definition filepath_Dir (p : string) : string :=
  let ws := split_slash p in path_string (Clean (dir_prefix (take (length ws - 1) ws))).

Section migrate.
Context `{KC : !KeyCodec} `{J : !SecurityJson} {Priv Pub : Type} `{R : !Rsa Priv Pub}.
(** [rsa.PrivateKey.Validate]; YAML at the two configurations and JSON at the old key, where null gives nil *)
Context (rsa_Validate : Priv → result unit goerror).
Context (yaml_v2 : list Z → result (option v2Config) goerror) (json_v2 : list Z → result (option v2KeyJSON) goerror).
Context (yaml_Marshal : Config → result (list Z) goerror).

Definition legacyConfig (config : RuntimeConfig) : cmd v2Config :=
  must configFile <- reading (os_ReadFile (rc_ConfigFile config));
  must c <- Ret (map_err (WrapError "failed to read config file as legacy: ") (yaml_v2 configFile));
  Ret (match c with
       | None => Panics nil_dereference
       | Some c => try _ <- v2Config_validate c; Ok c
       end).

Record v2CosignerKey := mkV2CosignerKey {
  v2k_PubKey : PubKey;
  v2k_ShareKey : gobytes;
  v2k_RSAKey : Priv;
  v2k_ID : Z;
  v2k_RSAPubs : list Pub
}.

(** The public key is read as protobuf or, failing that, as amino; the error is that of the first. *)
Definition v2_pubkey (pubkeyBytes : gobytes) : result PubKey goerror :=
  match protoPubkey_Unmarshal pubkeyBytes with
  | Err err =>
      match amino_UnmarshalBinaryBare pubkeyBytes with
      | Err _ => Err err
      | r => r
      end
  | Ok protoPubkey => PubKeyFromProto protoPubkey
  | Panics m => Panics m
  end.

Definition v2_UnmarshalJSON (data : list Z) : result v2CosignerKey goerror :=
  try aux <- json_v2 data;
  match aux with
  | None => Panics nil_dereference
  | Some aux =>
      try privateKey <- ParsePKCS1PrivateKey (v2j_RSAKey aux);
      try pubkey <- v2_pubkey (v2j_PubkeyBytes aux);
      try rsaPubs <- each ParsePKCS1PublicKey (v2j_RSAPubs aux);
      Ok (mkV2CosignerKey pubkey (v2j_ShareKey aux) privateKey (v2j_ID aux) rsaPubs)
  end.

Definition v2_validate (key : v2CosignerKey) : result unit goerror :=
  if blen (PubKey_Bytes (v2k_PubKey key)) =? 0 then Err (ErrorString "pub_key cannot be empty")
  else if blen (v2k_ShareKey key) =? 0 then Err (ErrorString "secret_share cannot be empty")
  else
    try _ <- map_err (WrapError "rsa_key is invalid: ") (rsa_Validate (v2k_RSAKey key));
    if v2k_ID key =? 0 then Err (ErrorString "id cannot be zero")
    else if (length (v2k_RSAPubs key) =? 0)%nat then Err (ErrorString "cosigner keys cannot be empty")
    else Ok ().

(** The new keys of an old one *)
Definition newEd25519Key (key : v2CosignerKey) : CosignerEd25519Key := mkCosignerEd25519Key (v2k_PubKey key) (v2k_ShareKey key) (v2k_ID key).

Definition newRSAKey (key : v2CosignerKey) : CosignerRSAKey Priv Pub := mkCosignerRSAKey (v2k_RSAKey key) (v2k_ID key) (v2k_RSAPubs key).

Definition set_key_dir (dir : option string) (c : Config) : Config :=
  mkConfig dir (cfg_ConnKeyFile c) (cfg_SignMode c) (cfg_ThresholdModeConfig c) (cfg_ChainNodes c) (cfg_DebugAddr c) (cfg_GRPCAddr c)
    (cfg_MaxReadSize c).

Definition with_config (c : Config) (config : RuntimeConfig) : RuntimeConfig :=
  mkRuntimeConfig (rc_HomeDir config) (rc_ConfigFile config) (rc_StateDir config) (rc_PidFile config) c.

(** The old key file, and the configuration with the directory of the new ones *)
Definition legacy_key_file (legacyCfg : result v2Config goerror) (config : RuntimeConfig) : string * RuntimeConfig :=
  let default_file := (filepath_Join (rc_HomeDir config) "share.json", config) in
  match legacyCfg with
  | Ok c =>
      match v2_PrivValKeyFile c with
      | Some file =>
          if negb (String.eqb file "") then (file, with_config (set_key_dir (Some (filepath_Dir file)) (rc_Config config)) config)
          else default_file
      | None => default_file
      end
  | _ => default_file
  end.

(** A file that is written with the errors of its two steps named *)
Definition write_file (marshalled : result (list Z) goerror) (what path : string) : cmd unit :=
  must bz <- Ret (map_err (WrapError ("failed to marshal new " +:+ what +:+ " key to json: ")) marshalled);
  wrap_errors (WrapError ("failed to write new " +:+ what +:+ " key to " +:+ path +:+ ": "))
    (on_files (λ fs, try fs' <- os_WriteFile fs path bz; Ok ((), fs'))).

(** The cosigners of the new configuration: the process itself, where it listens, and its peers *)
Definition migrated_cosigners (id : Z) (c : v2CosignerConfig) : list CosignerConfig :=
  (if negb (String.eqb (v2_P2PListen c) "") then [mkCosignerConfig id (v2_P2PListen c) ""] else [])
  ++ ((λ p, mkCosignerConfig p.1 p.2 "") <$> v2_Peers c).

Definition migrated_config (legacyCfg : v2Config) (id : Z) (c : Config) : Config :=
  mkConfig (cfg_PrivValKeyDir c) (cfg_ConnKeyFile c)
    (match v2_Cosigner legacyCfg with Some _ => SignModeThreshold | None => SignModeSingle end)
    (match v2_Cosigner legacyCfg with
     | Some cos => Some (mkThresholdModeConfig (v2_Threshold cos) (migrated_cosigners id cos) "" (v2_Timeout cos) (v2_Timeout cos) false)
     | None => cfg_ThresholdModeConfig c
     end)
    ((λ addr, mkChainNode addr "") <$> v2_ChainNodes legacyCfg) (v2_DebugAddr legacyCfg) (cfg_GRPCAddr c) (1024 * 1024).

(** [MustMarshalYaml] panics where marshalling fails. *)
Definition WriteConfigFile (config : RuntimeConfig) : cmd unit :=
  must bz <- Ret (panic_with "" (yaml_Marshal (rc_Config config)));
  on_files (λ fs, try fs' <- os_WriteFile fs (rc_ConfigFile config) bz; Ok ((), fs')).

Definition migrate_chainID (args : option string) (legacyCfg : result v2Config goerror) : result string goerror :=
  match args, legacyCfg with
  | Some chainID, _ => Ok chainID
  | None, Ok c => Ok (v2_ChainID c)
  | None, _ => Err (ErrorString "unable to migrate v2 config without chain-id. please provide [chain-id] argument")
  end.

(** [os.Stat] and [os.ReadFile] of the old key *)
Definition read_legacy_key (file : string) : cmd (list Z) :=
  do st <- reading (os_Stat file);
  match st with
  | StatMissing => Ret (Err (WrapError "error loading v2 key file: " (ErrorString ("stat " +:+ file +:+ ": no such file or directory"))))
  | StatError err => Ret (Err (WrapError "error loading v2 key file: " err))
  | _ => reading (os_ReadFile file)
  end.

Definition remove_legacy (file : string) : cmd unit :=
  wrap_errors (WrapError ("failed to remove legacy key file (" +:+ file +:+ "): ")) (atomic (os_Remove file)).

(** What follows once the old configuration was looked for *)
Definition migrate_with (args : option string) (legacyCfg : result v2Config goerror) (config : RuntimeConfig) : cmd unit :=
  must chainID <- Ret (migrate_chainID args legacyCfg);
  let '(file, config) := legacy_key_file legacyCfg config in
  must keyFile <- read_legacy_key file;
  must key <- Ret (map_err (WrapError "failed to read key file as legacy: ") (v2_UnmarshalJSON keyFile));
  must _ <- Ret (v2_validate key);
  must _ <- write_file (key_MarshalJSON (newEd25519Key key)) "Ed25519" (KeyFilePathCosigner config chainID);
  must _ <- write_file (rsa_MarshalJSON (newRSAKey key)) "RSA" (KeyFilePathCosignerRSA config);
  must _ <- (match legacyCfg with
             | Ok c => WriteConfigFile (with_config (migrated_config c (v2k_ID key) (rc_Config config)) config)
             | _ => Ret (Ok ())
             end);
  remove_legacy file.

Definition migrateCmd (args : option string) (config : RuntimeConfig) : cmd unit :=
  do legacyCfg <- legacyConfig config;
  match legacyCfg with
  | Panics m => Ret (Panics m)
  | _ => migrate_with args legacyCfg config
  end.

(** *** Specifications *)

(** What the new files hold when a migration succeeds; one that does not leaves the old file. *)
Definition migrated (legacyCfg : result v2Config goerror) (config : RuntimeConfig) (chainID : string) (s s' : Host) (r : result unit goerror)
    : Prop :=
  let file := (legacy_key_file legacyCfg config).1 in
  let config' := (legacy_key_file legacyCfg config).2 in
  if is_ok r then
    ∃ bs key, os_ReadFile file s = Ok bs ∧ v2_UnmarshalJSON bs = Ok key
      ∧ LoadCosignerEd25519Key (h_fs s') (KeyFilePathCosigner config' chainID) = Ok (newEd25519Key key)
      ∧ LoadCosignerRSAKey (h_fs s') (KeyFilePathCosignerRSA config') = Ok (newRSAKey key)
      ∧ fs_files (h_fs s') !! file = None
  else fs_files (h_fs s') !! file = fs_files (h_fs s) !! file.
End migrate.

(** A file was written, and nothing else. *)
Definition file_written (path : string) (bz : list Z) (s s' : Host) : Prop :=
  fs_files (h_fs s') = <[path := Content bz]> (fs_files (h_fs s)) ∧ h_remove_error s' = h_remove_error s ∧ h_dirs s' = h_dirs s.

(** *** Examples *)

Definition toy_v2_config (keyFile : string) : v2Config := mkV2Config "chain" (Some keyFile) None ["tcp://n:1"] "".

Definition toy_v2_json (bs : list Z) : result (option v2KeyJSON) goerror := Ok (Some (mkV2KeyJSON [5] (Some [1; 2]) [[5]; [6]] (Some bs) 1)).

Definition toy_migrate (keyFile : string) : cmd unit :=
  @migrateCmd toy_keys toy_sec_json Z Z toy_rsa (λ _, Ok ()) (λ _, Ok (Some (toy_v2_config keyFile))) toy_v2_json (λ _, Ok [0]) None
    (initConfig "/root" "/h" (mkConfig None "" "single" None [] "" "" 0)).

Definition toy_legacy_host (keyFile : string) : Host := toy_host {[ "/h/config.yaml" := Content []; keyFile := Content [7; 7] ]}.

Definition toy_migrated (keyFile : string) : Host * list host_event * result unit goerror :=
  run (λ _, 0%nat) (toy_migrate keyFile) (toy_legacy_host keyFile).

(** ** Lemmas *)

Lemma on_files_write_effect sched path bz s s' ev r :
  run sched (on_files (λ fs, try fs' <- os_WriteFile fs path bz; Ok ((), fs'))) s = (s', ev, r) →
  if is_ok r then file_written path bz s s' else s' = s.
Proof.
  cbn. unfold os_WriteFile. destruct (fs_write_error (h_fs s) path); cbn; intros [= <- <- <-]; [done|]. by split.
Qed.

Lemma write_file_effect sched m what path s s' ev r :
  run sched (write_file m what path) s = (s', ev, r) →
  if is_ok r then ∃ bz, m = Ok bz ∧ file_written path bz s s' else s' = s.
Proof.
  intros [(s1 & ev1 & bz & ev2 & Hm & Hr & _)|(r0 & Hm & _ & ->)]%run_must_cases; [|by destruct m; injection Hm as <-].
  destruct m as [bz'| |]; cbn in Hm; [|done..]. injection Hm as <- <- <-. revert Hr. unfold wrap_errors. rewrite run_bind_eq.
  destruct (run sched (on_files _) s) as [[s2 ev3] r2] eqn:E. apply on_files_write_effect in E. cbn. intros [= <- <- <-].
  destruct r2; cbn in *; [|done..]. by exists bz'.
Qed.

Section effects.
Context `{KC : !KeyCodec} `{J : !SecurityJson} {Priv Pub : Type} `{R : !Rsa Priv Pub}.
Context (rsa_Validate : Priv → result unit goerror).
Context (yaml_v2 : list Z → result (option v2Config) goerror) (json_v2 : list Z → result (option v2KeyJSON) goerror).
Context (yaml_Marshal : Config → result (list Z) goerror).

Lemma legacyConfig_run config sched s : ∃ r, run sched (legacyConfig yaml_v2 config) s = (s, [], r).
Proof.
  unfold legacyConfig. unfold prog_try at 1. rewrite run_reading_bind. destruct (os_ReadFile _ s) as [bs| |]; [|by eexists..]. cbn.
  destruct (yaml_v2 bs) as [[c|]| |]; cbn; by eexists.
Qed.

Lemma WriteConfigFile_effect config sched s s' ev r :
  run sched (WriteConfigFile yaml_Marshal config) s = (s', ev, r) →
  if is_ok r then ∃ bz, file_written (rc_ConfigFile config) bz s s' else s' = s.
Proof.
  intros [(s1 & ev1 & bz & ev2 & Hm & Hr & _)|(r0 & Hm & _ & ->)]%run_must_cases; [|by injection Hm as <-].
  injection Hm as <- <- _. apply on_files_write_effect in Hr. destruct (is_ok r); [by exists bz|done].
Qed.
End effects.

(** The two files of keys, and that of the configuration, are different ones. *)
Lemma migrate_paths userHome homeFlag cfg legacyCfg chainID :
  ValidateChainID chainID = Ok () →
  let config := initConfig userHome homeFlag cfg in
  let config' := (legacy_key_file legacyCfg config).2 in
  rc_ConfigFile config' = rc_ConfigFile config ∧
  KeyFilePathCosigner config' chainID ≠ KeyFilePathCosignerRSA config'
  ∧ rc_ConfigFile config ≠ KeyFilePathCosigner config' chainID ∧ rc_ConfigFile config ≠ KeyFilePathCosignerRSA config'.
Proof.
  intros Hv config config'. pose proof (ValidateChainID_no_slash _ Hv) as Hs.
  assert (plain_name (chainID +:+ "_shard.json")) as P1 by (apply suffix_plain; [done|]; apply list_elem_of_In; cbn; tauto).
  assert (plain_name "rsa_keys.json") as P2 by done. assert (plain_name "config.yaml") as P3 by done.
  assert (rc_ConfigFile config' = rc_ConfigFile config) as ->.
  { unfold config', legacy_key_file. destruct legacyCfg as [c| |]; [|done..]. destruct (v2_PrivValKeyFile c) as [f|]; [|done].
    by destruct (negb _). }
  split; [done|]. unfold KeyFilePathCosigner, KeyFilePathCosignerRSA. cbn [config initConfig rc_ConfigFile].
  assert (∀ dir, last_char (filepath_Join dir (chainID +:+ "_shard.json")) = Some (Ascii.ascii_of_N 110)) as L1.
  { intros dir. rewrite filepath_Join_plain by done. rewrite <- string_app_assoc. by rewrite last_char_app. }
  assert (∀ dir, last_char (filepath_Join dir "rsa_keys.json") = Some (Ascii.ascii_of_N 110)) as L2.
  { intros dir. rewrite filepath_Join_plain by done. by rewrite last_char_app. }
  assert (∀ dir, last_char (filepath_Join dir "config.yaml") = Some (Ascii.ascii_of_N 108)) as L3.
  { intros dir. rewrite filepath_Join_plain by done. by rewrite last_char_app. }
  split; [|split; intros E; apply (f_equal last_char) in E; rewrite ?L1, ?L2, ?L3 in E; done].
  rewrite !filepath_Join_plain by done. intros E%string_app_inj_l.
  apply (f_equal String.list_ascii_of_string), (f_equal reverse) in E. rewrite chars_app, reverse_app in E. vm_compute in E. discriminate E.
Qed.

Section theorems.
Context `{KC : !KeyCodec} `{KL : !KeyCodecLaws KC} `{J : !SecurityJson} `{JL : !SecurityJsonLaws J} {Priv Pub : Type} `{R : !Rsa Priv Pub} `{RL : !RsaLaws R}.
Context (rsa_Validate : Priv → result unit goerror).
Context (yaml_v2 : list Z → result (option v2Config) goerror) (json_v2 : list Z → result (option v2KeyJSON) goerror).
Context (yaml_Marshal : Config → result (list Z) goerror).

Lemma rsa_json_roundtrip (k : CosignerRSAKey Priv Pub) bz : rsa_MarshalJSON k = Ok bz → rsa_UnmarshalJSON bz = Ok k.
Proof using JL RL.
  intros Hm. assert (WriteCosignerRSAShardFile k "" empty_fs = Ok (mkFS {[ "" := Content bz ]} (λ _, None))) as Hw.
  { unfold WriteCosignerRSAShardFile. by rewrite Hm. }
  apply rsa_file in Hw. exact Hw.
Qed.

Lemma remove_legacy_effect file sched s s' ev r :
  run sched (remove_legacy file) s = (s', ev, r) →
  if is_ok r then fs_files (h_fs s') = delete file (fs_files (h_fs s)) else s' = s.
Proof.
  unfold remove_legacy, wrap_errors. rewrite run_bind_eq. cbn. unfold os_Remove. destruct (h_remove_error s file); cbn; [by intros [= <- _ <-]|].
  destruct (fs_files (h_fs s) !! file); cbn; by intros [= <- _ <-].
Qed.

Lemma read_legacy_key_run file sched s s' ev r :
  run sched (read_legacy_key file) s = (s', ev, r) → s' = s ∧ (∀ bs, r = Ok bs → os_ReadFile file s = Ok bs).
Proof.
  unfold read_legacy_key. rewrite run_reading_bind. destruct (os_Stat file s); cbn; intros [= <- _ <-]; done.
Qed.

Lemma migrate_with_Ok args legacyCfg config chainID sched s s' ev r :
  migrate_chainID args legacyCfg = Ok chainID →
  (let file := (legacy_key_file legacyCfg config).1 in
   let config' := (legacy_key_file legacyCfg config).2 in
   let ed := KeyFilePathCosigner config' chainID in
   let rsa := KeyFilePathCosignerRSA config' in
   rc_ConfigFile config' = rc_ConfigFile config ∧ ed ≠ rsa ∧ rc_ConfigFile config ≠ ed ∧ rc_ConfigFile config ≠ rsa
   ∧ file ≠ ed ∧ file ≠ rsa ∧ file ≠ rc_ConfigFile config) →
  run sched (migrate_with rsa_Validate json_v2 yaml_Marshal args legacyCfg config) s = (s', ev, r) →
  migrated json_v2 legacyCfg config chainID s s' r.
Proof.
  unfold migrate_with, migrated. intros ->. destruct (legacy_key_file legacyCfg config) as [file config'].
  cbn [prog_try prog_bind fst snd]. intros (Hc & Hne & Hce & Hcr & Hfe & Hfr & Hfc).
  intros [(s1 & ev1 & bs & ev2 & [-> Hbs]%read_legacy_key_run & H & _)|(r0 & [-> _]%read_legacy_key_run & _ & ->)]%run_must_cases; [|done].
  specialize (Hbs bs eq_refl). destruct (v2_UnmarshalJSON json_v2 bs) as [key| |] eqn:Ek; cbn [map_err prog_try prog_bind] in H;
    [|by injection H as <- _ <-..].
  destruct (v2_validate rsa_Validate key) as [[]| |]; cbn [prog_try prog_bind] in H; [|by injection H as <- _ <-..].
  apply run_must_cases in H as [(s2 & ev3 & [] & ev4 & H2%write_file_effect & H & _)|(r0 & H2%write_file_effect & E0 & ->)];
    [|by rewrite E0 in H2; subst].
  destruct H2 as (ed & Hed & F2 & _). assert (fs_files (h_fs s2) !! file = fs_files (h_fs s) !! file) as P2 by (rewrite F2; by rewrite lookup_insert_ne).
  apply run_must_cases in H as [(s3 & ev5 & [] & ev6 & H3%write_file_effect & H & _)|(r0 & H3%write_file_effect & E0 & ->)];
    [|by rewrite E0 in H3; subst].
  destruct H3 as (rsa & Hrsa & F3 & _). assert (fs_files (h_fs s3) !! file = fs_files (h_fs s) !! file) as P3 by (rewrite F3, lookup_insert_ne; done).
  apply run_must_cases in H as [(s4 & ev7 & [] & ev8 & H4 & H & _)|(r0 & H4 & E0 & ->)].
  2: { destruct legacyCfg as [c| |]; [|by injection H4 as <- _ <-..]. apply WriteConfigFile_effect in H4. rewrite E0 in H4. by subst. }
  assert (∀ p, p ≠ rc_ConfigFile config → fs_files (h_fs s4) !! p = fs_files (h_fs s3) !! p) as F4.
  { intros p Hp. destruct legacyCfg as [c| |]; [|by injection H4 as <- _..]. apply WriteConfigFile_effect in H4 as (bz & -> & _). cbn.
    rewrite lookup_insert_ne; [done|]. congruence. }
  assert (fs_files (h_fs s4) !! file = fs_files (h_fs s) !! file) as P4 by (rewrite F4; done). apply remove_legacy_effect in H.
  destruct (is_ok r); [|by subst]. exists bs, key. split; [done|]. split; [done|].
  unfold LoadCosignerEd25519Key, LoadCosignerRSAKey, ReadFile. rewrite H. rewrite !lookup_delete_ne by done.
  rewrite !F4, F3, lookup_insert_eq, lookup_insert_ne, F2, lookup_insert_eq by done. cbn [result_bind].
  split; [by apply key_json_roundtrip|]. split; [by apply rsa_json_roundtrip|apply lookup_delete_eq].
Qed.

(** ** Theorems *)

(** C35: a migration that succeeds has written the shard and the RSA keys of the old key file to the new
    files, which load as these keys, before it removed the old file; one that fails leaves
    the old file as it was.  The old file must not be one of those that are written, by its
    path, and the chain ID must be a valid one, which the command does not check. *)
Theorem migrate_keeps_key userHome homeFlag cfg args chainID sched (s s' : Host) ev r :
  let config := initConfig userHome homeFlag cfg in
  let legacyCfg := (run sched (legacyConfig yaml_v2 config) s).2 in
  let file := (legacy_key_file legacyCfg config).1 in
  let config' := (legacy_key_file legacyCfg config).2 in
  migrate_chainID args legacyCfg = Ok chainID → ValidateChainID chainID = Ok () →
  file ≠ KeyFilePathCosigner config' chainID → file ≠ KeyFilePathCosignerRSA config' → file ≠ rc_ConfigFile config →
  run sched (migrateCmd rsa_Validate yaml_v2 json_v2 yaml_Marshal args config) s = (s', ev, r) →
  migrated json_v2 legacyCfg config chainID s s' r.
Proof.
  intros config legacyCfg file config' Hc Hv He Hr Hf. unfold migrateCmd. rewrite run_bind_eq.
  destruct (legacyConfig_run yaml_v2 config sched s) as [lc Hlc]. subst legacyCfg file config'. rewrite Hlc in Hc, He, Hr, Hf |- *.
  cbn [snd] in *.
  destruct (migrate_paths userHome homeFlag cfg lc chainID Hv) as (Q1 & Q2 & Q3 & Q4).
  destruct (run sched (match lc with Panics m => _ | _ => _ end) s) as [[s2 ev2] r2] eqn:E. intros H. injection H as <- _ <-.
  destruct lc as [c|e|m]; [| |by injection E as <- _ <-]; by eapply migrate_with_Ok in E.
Qed.
End theorems.

Lemma migrate_keeps_key_witness :
  ∃ bs key, os_ReadFile "/k/share.json" (toy_legacy_host "/k/share.json") = Ok bs
    ∧ @v2_UnmarshalJSON toy_keys Z Z toy_rsa toy_v2_json bs = Ok key
    ∧ @LoadCosignerEd25519Key toy_keys (h_fs (toy_migrated "/k/share.json").1.1) "/k/chain_shard.json" = Ok (newEd25519Key key)
    ∧ @LoadCosignerRSAKey toy_sec_json Z Z toy_rsa (h_fs (toy_migrated "/k/share.json").1.1) "/k/rsa_keys.json" = Ok (newRSAKey key)
    ∧ fs_files (h_fs (toy_migrated "/k/share.json").1.1) !! "/k/share.json" = None.
Proof.
  refine (@migrate_keeps_key toy_keys toy_keys_laws toy_sec_json toy_sec_json_laws Z Z toy_rsa toy_rsa_laws (λ _, Ok ())
    (λ _, Ok (Some (toy_v2_config "/k/share.json"))) toy_v2_json (λ _, Ok [0]) "/root" "/h" (mkConfig None "" "single" None [] "" "" 0) None
    "chain" (λ _, 0%nat) (toy_legacy_host "/k/share.json") (toy_migrated "/k/share.json").1.1 (toy_migrated "/k/share.json").1.2
    (Ok ()) _ _ _ _ _ _); vm_compute; first [reflexivity|discriminate].
Defined.

(** When the old file has the name of the new one, the migration succeeds and the shard is gone. *)
Theorem migrate_loses_key :
  (toy_migrated "/k/chain_shard.json").2 = Ok ()
  ∧ fs_files (h_fs (toy_legacy_host "/k/chain_shard.json")) !! "/k/chain_shard.json" = Some (Content [7; 7])
  ∧ fs_files (h_fs (toy_migrated "/k/chain_shard.json").1.1) !! "/k/chain_shard.json" = None.
Proof. split_and!; vm_compute; reflexivity. Qed.
