(* ===== verification/Startup.v ===== *)
(** * Starting a signer

    The start command (cmd/horcrux/cmd/start.go) and what it composes: the threshold validator with its peers and
    its raft store (cmd/horcrux/cmd/threshold.go), the single signer (single_signer.go), the keys that a
    process has for its peers (signer/config.go) and the clients it dials them with
    (signer/remote_cosigner.go).  The theorems say when a process serves its chain nodes, and that the
    processes of a cluster agree on who the cluster is. *)

From S2P Require Import Prelude Errors Wire SignState Config Strconv Cosigner CosignerHealth Conc LocalCosigner ThresholdValidator SignerLoop ClusterTls RaftStore Security Services StateCmd ShardsCmd MigrateCmd.
From stdpp Require Import base gmap list strings numbers sorting.
From Stdlib Require Import ZArith Lia.

Open Scope string_scope.
Open Scope list_scope.
Open Scope Z_scope.

(** ** Definitions *)

(** *** Clients of the peers *)

Inductive transport_creds : Type :=
| InsecureCreds
| TLSCreds (cfg : tls_Config).

Definition ClusterTransportCreds (tlsConfig : option tls_Config) : transport_creds :=
  match tlsConfig with
  | None => InsecureCreds
  | Some cfg => TLSCreds cfg
  end.

(** [keepalive.ClientParameters], in nanoseconds *)
Record ClientParameters := mkClientParameters {
  cp_Time : Z;
  cp_Timeout : Z;
  cp_PermitWithoutStream : bool
}.

Definition peerKeepaliveMinTime : Z := 5 * 1000000000.

Definition peerKeepalive : ClientParameters := mkClientParameters (10 * 1000000000) (3 * 1000000000) true.

(** The client of a remote cosigner is what it dials and how. *)
Record CosignerClient := mkCosignerClient {
  cl_target : string;
  cl_creds : transport_creds;
  cl_keepalive : ClientParameters
}.

Record RemoteCosigner := mkRemoteCosigner {
  rcos_id : Z;
  rcos_address : string;
  rcos_client : CosignerClient
}.

(** *** The raft store of a process *)

Record RaftStoreConfig (K : Type) := mkRaftStore {
  rst_NodeID : string;
  rst_RaftDir : string;
  rst_RaftBind : string;
  rst_RaftTimeout : Z;
  rst_cosigner : LocalCosigner K;
  rst_Cosigners : list RemoteCosigner;
  rst_tlsConfig : option tls_Config
}.
Arguments mkRaftStore {K} _ _ _ _ _ _ _.
Arguments rst_NodeID {K} _.
Arguments rst_RaftDir {K} _.
Arguments rst_RaftBind {K} _.
Arguments rst_RaftTimeout {K} _.
Arguments rst_cosigner {K} _.
Arguments rst_Cosigners {K} _.
Arguments rst_tlsConfig {K} _.

Definition NewRaftStore {K} (nodeID directory bindAddress : string) (timeout : Z) (cosigner : LocalCosigner K)
    (cosigners : list RemoteCosigner) (tlsConfig : option tls_Config) : RaftStoreConfig K :=
  mkRaftStore nodeID directory bindAddress timeout cosigner cosigners tlsConfig.

(** The fields of the raft library's configuration that [Open] sets *)
Record raft_Config := mkRaftConfig {
  ra_LocalID : string;
  ra_ElectionTimeout : Z;
  ra_HeartbeatTimeout : Z;
  ra_LeaderLeaseTimeout : Z
}.

Definition open_config {K} (s : RaftStoreConfig K) : raft_Config :=
  mkRaftConfig (rst_NodeID s) (rst_RaftTimeout s) (rst_RaftTimeout s) (Z.quot (rst_RaftTimeout s) 2).

(** The cluster that [Open] bootstraps *)
Definition open_servers `{NetParse} {K} (s : RaftStoreConfig K) : list server :=
  bootstrap_servers (rst_NodeID s) (rst_RaftBind s) ((λ c, (rcos_id c, rcos_address c)) <$> rst_Cosigners s).

(** *** The services of a process *)

Inductive service : Type :=
| RaftService
| GRPCService (listenAddr : string)
| SignerService (signer : ReconnRemoteSigner).

Definition maxWaitForSameBlockAttempts : Z := 3.

Section start.
Context `{NP : !NetParse} `{J : !SecurityJson} `{X : !Ecies} {Priv Pub : Type} `{R : !Rsa Priv Pub} `{X5 : !X509}.
(** [cometp2p.LoadNodeKey], [grpc.NewClient], YAML at the old configuration *)
Context (LoadNodeKey : string → FileSystem → result node_key goerror).
Context (NewClient : string → transport_creds → option goerror).
Context (yaml_v2 : list Z → result (option v2Config) goerror).

Definition peerGRPCTarget (address : string) : string :=
  "passthrough:///" +:+ match url_Parse address with Ok host => host | _ => address end.

Definition getGRPCClient (address : string) (tlsConfig : option tls_Config) : result CosignerClient goerror :=
  let target := peerGRPCTarget address in
  let creds := ClusterTransportCreds tlsConfig in
  match NewClient target creds with
  | Some err => Err err
  | None => Ok (mkCosignerClient target creds peerKeepalive)
  end.

Definition NewRemoteCosigner (id : Z) (address : string) (tlsConfig : option tls_Config) : result RemoteCosigner goerror :=
  try client <- getGRPCClient address tlsConfig;
  Ok (mkRemoteCosigner id address client).

(** *** The keys of a cosigner *)

Definition config_CosignerSecurityECIES (c : RuntimeConfig) (s : Host) : result CosignerSecurityECIES goerror :=
  try keyFile <- KeyFileExistsCosignerECIES (elements (h_dirs s)) (h_fs s) c;
  try key <- map_err (WrapError ("error reading cosigner key (" +:+ keyFile +:+ "): ")) (LoadCosignerECIESKey (h_fs s) keyFile);
  Ok (NewCosignerSecurityECIES key).

Definition config_CosignerSecurityRSA (c : RuntimeConfig) (s : Host) : result (CosignerSecurityRSA Priv Pub) goerror :=
  try keyFile <- KeyFileExistsCosignerRSA (elements (h_dirs s)) (h_fs s) c;
  try key <- map_err (WrapError ("error reading cosigner key (" +:+ keyFile +:+ "): ")) (LoadCosignerRSAKey (h_fs s) keyFile);
  Ok (NewCosignerSecurityRSA key).

(** The interface value that holds one of the two *)
Inductive security : Type :=
| SecECIES (c : CosignerSecurityECIES)
| SecRSA (c : CosignerSecurityRSA Priv Pub).

#[global] Instance either_security (first : bool) : CosignerSecurity security := {|
  sec_GetID c := match c with SecECIES c => ek_ID (se_key c) | SecRSA c => rk_ID (sr_key c) end;
  EncryptAndSign c := match c with SecECIES c => ecies_EncryptAndSign first c | SecRSA c => rsa_EncryptAndSign first c end;
  DecryptAndVerify c := match c with SecECIES c => ecies_DecryptAndVerify first c | SecRSA c => rsa_DecryptAndVerify first c end
|}.

Definition security_ID (c : security) : Z := sec_GetID (CosignerSecurity := either_security true) c.

(** ECIES keys, and RSA keys where there are none; the error has the texts of both. *)
Definition load_security (c : RuntimeConfig) (s : Host) : result security goerror :=
  match config_CosignerSecurityECIES c s with
  | Ok sec => Ok (SecECIES sec)
  | Panics m => Panics m
  | Err eciesErr =>
      match config_CosignerSecurityRSA c s with
      | Ok sec => Ok (SecRSA sec)
      | Panics m => Panics m
      | Err rsaErr =>
          Err (ErrorString ("failed to initialize cosigner ECIES / RSA security : " +:+ Error eciesErr +:+ " / " +:+ Error rsaErr))
      end
  end.

(** *** The threshold validator *)

(** The loop over the cosigners of the configuration: clients for the others, the address of our own *)
Fixpoint make_peers (id : Z) (clusterTLS : option tls_Config) (cosigners : list CosignerConfig) (remoteCosigners : list RemoteCosigner)
    (p2pListen : string) : result (list RemoteCosigner * string) goerror :=
  match cosigners with
  | [] => Ok (remoteCosigners, p2pListen)
  | c :: l =>
      if negb (cc_ShardID c =? id) then
        try rc <- map_err (WrapError "failed to initialize remote cosigner: ") (NewRemoteCosigner (cc_ShardID c) (cc_P2PAddr c) clusterTLS);
        make_peers id clusterTLS l (remoteCosigners ++ [rc]) p2pListen
      else make_peers id clusterTLS l remoteCosigners (cc_P2PAddr c)
  end.

Definition NewLocalCosigner (config : RuntimeConfig) (sec : security) (address : string) : LocalCosigner security :=
  mkLocalCosigner config sec address.

(** A duration that was validated before; its error is dropped. *)
Definition parsed_duration (d : string) : Z := match ParseDuration d with Ok t => t | _ => 0 end.

Section world.
(** The world that the validator calls *)
Context {W : Type} (world : W) (zeroTime : Z) (rnd : list Z).

(** [raftStore.Start] and [val.Start] start goroutines and return nil. *)
Definition cmd_NewThresholdValidator (config : RuntimeConfig)
    : cmd (RaftStoreConfig security * (ThresholdValidator * TVState W)) :=
  must _ <- Ret (ValidateThresholdModeConfig (rc_Config config));
  match cfg_ThresholdModeConfig (rc_Config config) with
  | None => Ret (Panics nil_dereference)
  | Some thresholdCfg =>
      must clusterTLS <- wrap_errors (WrapError "failed to build cluster TLS config: ")
                           (reading (λ s, ClusterTLSConfig LoadNodeKey rnd config (h_fs s)));
      must sec <- reading (load_security config);
      must peers <- Ret (make_peers (security_ID sec) clusterTLS (tm_Cosigners thresholdCfg) [] "");
      let '(remoteCosigners, p2pListen) := peers in
      if String.eqb p2pListen "" then
        Ret (Err (ErrorString ("cosigner config does not exist for our shard ID " +:+ fmt_d (security_ID sec))))
      else
        let localCosigner := NewLocalCosigner config sec p2pListen in
        let raftDir := filepath_Join (rc_HomeDir config) "raft" in
        must _ <- wrap_errors (WrapError "error creating raft directory: ") (atomic (os_MkdirAll raftDir));
        let raftStore := NewRaftStore (fmt_d (security_ID sec)) raftDir p2pListen (parsed_duration (tm_RaftTimeout thresholdCfg))
                           localCosigner remoteCosigners clusterTLS in
        do fs <- reading h_fs;
        Ret (Ok (raftStore,
          NewThresholdValidator config (tm_Threshold thresholdCfg) (parsed_duration (tm_GRPCTimeout thresholdCfg)) maxWaitForSameBlockAttempts
            (security_ID sec) ((λ c, PeerRemote (rcos_id c)) <$> remoteCosigners) zeroTime fs world))
  end.

(** *** The start command *)

(** The warning of the single signer is printed first. *)
Definition cmd_NewSingleSignerValidator (acceptRisk : bool) (config : RuntimeConfig) : result unit goerror :=
  if negb acceptRisk then Panics "risk not accepted. --accept-risk flag required to run single signer mode"
  else ValidateSingleSignerConfig (rc_Config config).

Definition loadConfiguredConnKey (cfg : RuntimeConfig) (fs : FileSystem) : result gobytes goerror :=
  let connKeyFile := ConnKeyFilePath cfg in
  if String.eqb connKeyFile "" then Ok None
  else try key <- LoadConnKey LoadNodeKey connKeyFile fs; Ok (Some key).

(** The services of the mode that is configured *)
Definition mode_services (acceptRisk : bool) (config : RuntimeConfig) : cmd (list service) :=
  if String.eqb (cfg_SignMode (rc_Config config)) SignModeThreshold then
    must _ <- cmd_NewThresholdValidator config;
    Ret (Ok [RaftService])
  else if String.eqb (cfg_SignMode (rc_Config config)) SignModeSingle then
    must _ <- Ret (cmd_NewSingleSignerValidator acceptRisk config);
    Ret (Ok [])
  else Ret (Panics ("unexpected sign mode: " +:+ cfg_SignMode (rc_Config config))).

(** [isLeader] gates the connections, or is nil. *)
Definition leader_gated (c : Config) : result bool goerror :=
  if String.eqb (cfg_SignMode c) SignModeThreshold then
    match cfg_ThresholdModeConfig c with
    | None => Panics nil_dereference
    | Some tm => Ok (tm_LeaderOnlyChainNodeConnections tm)
    end
  else Ok false.

(** [listen] is the result of [net.Listen]; [Start], [genPrivKey] and [Stop] are those of the signers. *)
Context (listen : string → option goerror) (Start : ReconnRemoteSigner → option goerror) (genPrivKey : nat → gobytes)
  (Stop : service → option goerror).

Definition start_grpc (self : Z) (config : RuntimeConfig) (services : list service) : cmd (list service) :=
  let addr := cfg_GRPCAddr (rc_Config config) in
  if negb (String.eqb addr "") then
    match listen addr with
    | Some err => Ret (Err (WrapError "failed to start grpc server: " err))
    | None => atomically (λ s, (s, [EvServes self], Ok (services ++ [GRPCService addr])))
    end
  else Ret (Ok services).

(** The signers that were started serve also when a later one fails. *)
Definition start_signers_cmd (self : Z) (config : RuntimeConfig) (services : list service) (connKey : gobytes) (gated : bool)
    : cmd (list service) :=
  let c := rc_Config config in
  let '(started, r) := StartRemoteSigners Start genPrivKey [] (cfg_ChainNodes c) (cfg_MaxReadSize c) connKey gated in
  must signers <- atomically (λ s, (s, (λ _, EvServes self) <$> started, map_err (WrapError "failed to start remote signer(s): ") r));
  Ret (Ok (services ++ (SignerService <$> signers))).

Definition startCmd (self : Z) (acceptRisk : bool) (config : RuntimeConfig) : cmd unit :=
  must _ <- RequireNotRunning self (rc_PidFile config);
  do legacy <- legacyConfig yaml_v2 config;
  match legacy with
  | Ok _ => Ret (Err (ErrorString "this is a legacy config. run `horcrux config migrate` to migrate to the latest format"))
  | Panics m => Ret (Panics m)
  | Err _ =>
      must _ <- atomic (os_MkdirAll (rc_StateDir config));
      must services <- mode_services acceptRisk config;
      must services <- start_grpc self config services;
      must connKey <- reading (λ s, loadConfiguredConnKey config (h_fs s));
      must gated <- Ret (leader_gated (rc_Config config));
      must services <- start_signers_cmd self config services connKey gated;
      WaitAndTerminate Stop self services (rc_PidFile config)
  end.
End world.
End start.
Arguments security Priv Pub : clear implicits.

(** *** The cluster's gRPC server *)

(** [Start] of the raft store runs [init] on a goroutine, which hands the store's validator to the server it registers;
    the validator is a number. *)
Record StoreState := mkStoreState {
  sst_thresholdValidator : option nat;
  sst_server : option (option nat)
}.

Definition SetThresholdValidator (thresholdValidator : nat) : @prog StoreState unit unit :=
  atomic (λ s, (mkStoreState (Some thresholdValidator) (sst_server s), ())).

(** The end of [init], after it listens and the store is open *)
Definition register_server : @prog StoreState unit unit :=
  do thresholdValidator <- reading sst_thresholdValidator;
  atomic (λ s, (mkStoreState (sst_thresholdValidator s) (Some thresholdValidator), ())).

(** *** Specifications *)

(** The servers of a cluster, as its configuration lists them *)
Definition config_servers `{NetParse} (cosigners : list CosignerConfig) : list server :=
  (λ c, mkServer (fmt_d (cc_ShardID c)) (p2pURLToRaftAddress (cc_P2PAddr c))) <$> cosigners.

(** How a process was set up: it is [own] of the cosigners of its configuration, the validator's peers and the store's clients are
    the others, at their addresses, and the transport is TLS exactly when a cluster key is configured. *)
Definition set_up `{NetParse} {K W} (config : RuntimeConfig) (tm : ThresholdModeConfig) (own : CosignerConfig)
    (store : RaftStoreConfig K) (tv : ThresholdValidator * TVState W) : Prop :=
  own ∈ tm_Cosigners tm ∧ tv_myID tv.1 = cc_ShardID own ∧ tv_threshold tv.1 = tm_Threshold tm
  ∧ rst_NodeID store = fmt_d (cc_ShardID own) ∧ rst_RaftBind store = cc_P2PAddr own ∧ lc_address (rst_cosigner store) = cc_P2PAddr own
  ∧ peer_GetID <$> tv_peerCosigners tv.1 = cc_ShardID <$> filter (λ c, cc_ShardID c ≠ cc_ShardID own) (tm_Cosigners tm)
  ∧ (λ c, (rcos_id c, rcos_address c)) <$> rst_Cosigners store
    = (λ c, (cc_ShardID c, cc_P2PAddr c)) <$> filter (λ c, cc_ShardID c ≠ cc_ShardID own) (tm_Cosigners tm)
  ∧ open_servers store ≡ₚ config_servers (tm_Cosigners tm)
  ∧ (rst_tlsConfig store = None ↔ ClusterKeyFilePath config = "")
  ∧ Forall (λ c, cl_creds (rcos_client c) = ClusterTransportCreds (rst_tlsConfig store)
                 ∧ cl_target (rcos_client c) = peerGRPCTarget (rcos_address c)) (rst_Cosigners store).

(** A program that logs nothing *)
Definition silent {S E A} (p : @prog S E A) : Prop := ∀ sched s, (run sched p s).1.2 = [].

(** *** Examples *)

Definition toy_start_config (tls : bool) : RuntimeConfig :=
  initConfig "/root" "/h" (mkConfig None "" "threshold"
    (Some (mkThresholdModeConfig 2 [mkCosignerConfig 1 "a:1" (toy_tls_pub "01"); mkCosignerConfig 2 "b:1" (toy_tls_pub "02")]
       (if tls then "/h/cluster_key.json" else "") "1s" "1s" false)) [] "" ":5555" 0).

Definition toy_start_host (shard : nat) : Host :=
  match @WriteCosignerECIESShardFile toy_sec_json (toy_shard shard) "/h/ecies_keys.json" empty_fs with
  | Ok fs => toy_host (fs_files fs)
  | _ => toy_host ∅
  end.

Definition toy_node (shard : nat) :=
  run (λ _, 0%nat) (@cmd_NewThresholdValidator toy_net toy_sec_json toy_ecies Z Z toy_rsa toy_x509 (λ _ _, Ok (Ed25519PrivKey (toy_identity 1)))
    (λ _ _, None) unit () 0 [] (toy_start_config false)) (toy_start_host shard).

Definition toy_started :=
  run (λ _, 0%nat) (@startCmd toy_net toy_sec_json toy_ecies Z Z toy_rsa toy_x509 (λ _ _, Ok (Ed25519PrivKey (toy_identity 1))) (λ _ _, None)
    (λ _, Ok (Some (mkV2Config "" None None [] ""))) unit () 0 [] (λ _, None) (λ _, None) (λ _, None) (λ _, None) 9 false
    (toy_start_config false)) (set_fs (mkFS (<["/h/config.yaml" := Content [1]]> (fs_files (h_fs (toy_start_host 0)))) (λ _, None)) (toy_start_host 0)).

(** ** Lemmas *)

Lemma fmt_d_inj i j : 0 ≤ i → 0 ≤ j → fmt_d i = fmt_d j → i = j.
Proof. intros Hi Hj E. apply digits_fmt_d in Hi, Hj. rewrite E in Hi. congruence. Qed.

(** *** Silent programs *)

Lemma silent_ret {S E A} (a : A) : silent (@Ret S E A a).
Proof. done. Qed.

Lemma silent_bind {S E A B} (p : @prog S E A) (g : A → @prog S E B) : silent p → (∀ a, silent (g a)) → silent (prog_bind p g).
Proof.
  intros Hp Hg sched s. rewrite run_bind_eq. specialize (Hp sched s). destruct (run sched p s) as [[s1 ev1] a]. cbn in Hp. subst.
  specialize (Hg a sched s1). destruct (run sched (g a) s1) as [[s2 ev2] b]. cbn in *. done.
Qed.

Lemma silent_try {S E A B} (p : @prog S E (result A goerror)) (g : A → @prog S E (result B goerror)) :
  silent p → (∀ a, silent (g a)) → silent (prog_try p g).
Proof. intros Hp Hg. apply silent_bind; [done|]. intros [a|e|m]; [apply Hg|done|done]. Qed.

Lemma silent_reading {S E B} (f : S → B) : silent (@reading S E B f).
Proof. done. Qed.

Lemma silent_atomic {S E B} (f : S → S * B) : silent (@atomic S E B f).
Proof. intros sched s. cbn. by destruct (f s). Qed.

Create HintDb silent.
#[export] Hint Resolve silent_ret silent_bind silent_try silent_reading silent_atomic : silent.

(** *** The peers of a process *)

Section start_lemmas.
Context `{NP : !NetParse} `{J : !SecurityJson} `{X : !Ecies} {Priv Pub : Type} `{R : !Rsa Priv Pub} `{X5 : !X509}.
Context (LoadNodeKey : string → FileSystem → result node_key goerror).
Context (NewClient : string → transport_creds → option goerror).

Lemma make_peers_Ok id tls cs acc listen remotes p2p :
  make_peers NewClient id tls cs acc listen = Ok (remotes, p2p) →
  ∃ new, remotes = acc ++ new
  ∧ (λ c, (rcos_id c, rcos_address c)) <$> new = (λ c, (cc_ShardID c, cc_P2PAddr c)) <$> filter (λ c, cc_ShardID c ≠ id) cs
  ∧ Forall (λ c, cl_creds (rcos_client c) = ClusterTransportCreds tls ∧ cl_target (rcos_client c) = peerGRPCTarget (rcos_address c)) new
  ∧ (p2p = listen ∨ ∃ own, own ∈ cs ∧ cc_ShardID own = id ∧ p2p = cc_P2PAddr own).
Proof.
  revert acc listen. induction cs as [|c cs IH]; intros acc listen; cbn [make_peers].
  - intros [= <- <-]. exists []. rewrite app_nil_r. auto.
  - rewrite filter_cons. destruct (Z.eqb_spec (cc_ShardID c) id) as [Heq|Hne]; cbn [negb].
    + rewrite decide_False by auto. intros H. destruct (IH _ _ H) as (new & -> & H1 & H2 & H3). exists new.
      split; [done|]. split; [done|]. split; [done|]. right. destruct H3 as [->|(own & Hin & Hid & ->)].
      * exists c. split; [by left|done].
      * exists own. split; [by right|done].
    + rewrite decide_True by done. unfold NewRemoteCosigner, getGRPCClient. destruct (NewClient _ _); [done|]. cbn. intros H.
      destruct (IH _ _ H) as (new & -> & H1 & H2 & H3). eexists (_ :: new). rewrite <- app_assoc. split; [done|].
      cbn. rewrite H1. split; [done|]. split; [by constructor|]. destruct H3 as [->|(own & Hin & Hid & ->)]; [by left|right].
      exists own. split; [by right|done].
Qed.

Lemma own_and_others cs own :
  NoDup (cc_ShardID <$> cs) → own ∈ cs → own :: filter (λ c, cc_ShardID c ≠ cc_ShardID own) cs ≡ₚ cs.
Proof.
  intros Hnd Hin. apply NoDup_Permutation.
  - constructor; [rewrite list_elem_of_filter; intros [? _]; done|]. apply NoDup_filter. by eapply NoDup_fmap_1.
  - by eapply NoDup_fmap_1.
  - intros c. rewrite elem_of_cons, list_elem_of_filter. split; [intros [->|[_ ?]]; done|].
    intros Hc. destruct (decide (cc_ShardID c = cc_ShardID own)) as [E|]; [left|by right].
    apply list_elem_of_lookup in Hc as [i Hi]. apply list_elem_of_lookup in Hin as [j Hj].
    assert (i = j) as ->; [|congruence]. eapply NoDup_lookup; [exact Hnd|rewrite list_lookup_fmap, Hi; done|rewrite list_lookup_fmap, Hj; cbn; by f_equal].
Qed.

Lemma config_servers_NoDup cs n : NoDup (cc_ShardID <$> cs) → Forall (λ c, 1 ≤ cc_ShardID c ≤ n) cs → NoDup (srv_ID <$> config_servers cs).
Proof.
  intros Hnd Hr. assert (srv_ID <$> config_servers cs = fmt_d <$> (cc_ShardID <$> cs)) as ->.
  { unfold config_servers. rewrite <- !list_fmap_compose. done. }
  apply NoDup_fmap_2_strong; [|done]. intros x y (c & -> & Hc)%list_elem_of_fmap (c' & -> & Hc')%list_elem_of_fmap.
  rewrite list.Forall_forall in Hr. apply fmt_d_inj; [destruct (Hr c Hc)|destruct (Hr c' Hc')]; lia.
Qed.

Lemma ClusterTLSConfig_nil rnd config fs tls :
  ClusterTLSConfig LoadNodeKey rnd config fs = Ok tls → (tls = None ↔ ClusterKeyFilePath config = "").
Proof.
  unfold ClusterTLSConfig. destruct (String.eqb_spec (ClusterKeyFilePath config) "") as [E|Hne]; [by intros [= <-]|].
  destruct (LoadConnKey _ _ _); [|done..]. cbn. destruct (cfg_ThresholdModeConfig _); [|done].
  destruct (ClusterPeerPubKeys _); [|done..]. cbn. destruct (clusterTLSConfig _ _ _); [|done..]. cbn. by intros [= <-].
Qed.

(** A validator that was made is set up as the configuration says. *)
Lemma threshold_set_up {W} (world : W) zeroTime rnd config sched s s' ev store tv :
  run sched (cmd_NewThresholdValidator LoadNodeKey NewClient world zeroTime rnd config) s = (s', ev, Ok (store, tv)) →
  ValidateThresholdModeConfig (rc_Config config) = Ok () ∧
  ∃ tm own, cfg_ThresholdModeConfig (rc_Config config) = Some tm ∧ set_up config tm own store tv.
Proof.
  unfold cmd_NewThresholdValidator. intros (? & ? & [] & ? & Hv & H & _)%run_must_Ok. injection Hv as -> _ Hv. split; [done|].
  apply ValidateThresholdModeConfig_spec in Hv as (tm & Etm & _ & _ & Hnd & Hr & _). rewrite Etm in H.
  apply run_must_Ok in H as (? & ? & tls & ? & Htls & H & _). cbn in Htls. injection Htls as <- _ Htls.
  destruct (ClusterTLSConfig _ _ _ _) as [t| |] eqn:Et in Htls; [|done..]. injection Htls as ->. apply ClusterTLSConfig_nil in Et.
  apply run_must_Ok in H as (? & ? & sec & ? & Hsec & H & _). cbn in Hsec. injection Hsec as <- _ _.
  generalize dependent (security_ID sec). intros id H.
  apply run_must_Ok in H as (? & ? & [remotes p2p] & ? & Hp & H & _). injection Hp as <- _ Hp.
  destruct (String.eqb_spec p2p "") as [|Hne]; [done|].
  apply make_peers_Ok in Hp as (new & -> & H1 & H2 & [?|(own & Hin & Hid & ->)]); [done|]. cbn [app] in *.
  apply run_must_Ok in H as (? & ? & [] & ? & _ & H & _). cbn in H. injection H as _ _ <- <-.
  exists tm, own. split; [done|]. unfold set_up, NewThresholdValidator, NewRaftStore, open_servers. cbn.
  subst id. split; [done|]. do 5 (split; [done|]). split; [|split; [exact H1|split; [|done]]].
  - rewrite <- list_fmap_compose. apply (f_equal (fmap fst)) in H1. rewrite <- !list_fmap_compose in H1. exact H1.
  - unfold bootstrap_servers. rewrite H1, <- list_fmap_compose. unfold config_servers.
    etransitivity; [|apply fmap_Permutation, (own_and_others _ own Hnd Hin)]. done.
Qed.
End start_lemmas.

(** *** The start command *)

Section serving.
Context `{NP : !NetParse} `{J : !SecurityJson} `{X : !Ecies} {Priv Pub : Type} `{R : !Rsa Priv Pub} `{X5 : !X509}.
Context (LoadNodeKey : string → FileSystem → result node_key goerror).
Context (NewClient : string → transport_creds → option goerror).
Context (yaml_v2 : list Z → result (option v2Config) goerror).
Context {W : Type} (world : W) (zeroTime : Z) (rnd : list Z).

Lemma silent_new_validator config : silent (cmd_NewThresholdValidator LoadNodeKey NewClient world zeroTime rnd config).
Proof.
  apply silent_try; [done|]. intros _. destruct (cfg_ThresholdModeConfig _) as [tm|]; [|done].
  apply silent_try; [by apply silent_bind|]. intros tls. apply silent_try; [done|]. intros sec.
  apply silent_try; [done|]. intros [remotes p2p]. destruct (String.eqb p2p ""); [done|].
  apply silent_try; [apply silent_bind; [apply silent_atomic|done]|]. intros _. by apply silent_bind.
Qed.

Lemma silent_mode_services acceptRisk config : silent (mode_services LoadNodeKey NewClient world zeroTime rnd acceptRisk config).
Proof.
  unfold mode_services. destruct (String.eqb _ SignModeThreshold); [apply silent_try; [apply silent_new_validator|done]|].
  destruct (String.eqb _ SignModeSingle); [|done]. by apply silent_try.
Qed.

(** What a mode starts with was validated. *)
Lemma mode_services_Ok acceptRisk config sched s s' ev services :
  run sched (mode_services LoadNodeKey NewClient world zeroTime rnd acceptRisk config) s = (s', ev, Ok services) →
  (cfg_SignMode (rc_Config config) = SignModeThreshold ∧ ValidateThresholdModeConfig (rc_Config config) = Ok ())
  ∨ (cfg_SignMode (rc_Config config) = SignModeSingle ∧ acceptRisk = true ∧ ValidateSingleSignerConfig (rc_Config config) = Ok ()).
Proof.
  unfold mode_services. destruct (String.eqb_spec (cfg_SignMode (rc_Config config)) SignModeThreshold) as [E|].
  - intros (? & ? & [store tv] & ? & H & _)%run_must_Ok. left. split; [done|]. by eapply threshold_set_up in H as [? _].
  - destruct (String.eqb_spec (cfg_SignMode (rc_Config config)) SignModeSingle) as [E|]; [|done].
    intros (? & ? & [] & ? & H & _)%run_must_Ok. right. split; [done|]. injection H as _ _ H.
    unfold cmd_NewSingleSignerValidator in H. by destruct acceptRisk.
Qed.

Lemma legacyConfig_Err config sched s s' ev e bs c :
  run sched (legacyConfig yaml_v2 config) s = (s', ev, Err e) →
  os_ReadFile (rc_ConfigFile config) s = Ok bs → yaml_v2 bs = Ok (Some c) → v2_ChainID c = "".
Proof.
  unfold legacyConfig. cbn. intros H Hb Hc. rewrite Hb in H. cbn in H. rewrite Hc in H. cbn in H. unfold v2Config_validate in H.
  by destruct (String.eqb_spec (v2_ChainID c) "").
Qed.
End serving.

Lemma silent_run {S E A} sched (p : @prog S E A) s s' ev a : silent p → run sched p s = (s', ev, a) → ev = [].
Proof. intros Hp Hr. specialize (Hp sched s). by rewrite Hr in Hp. Qed.

Lemma ReadFile_after_Remove path file s : path ≠ file → os_ReadFile path (os_Remove file s).1 = os_ReadFile path s.
Proof.
  intros Hne. unfold os_Remove. destruct (h_remove_error s file); [done|]. destruct (fs_files (h_fs s) !! file) eqn:E; [|done].
  unfold os_ReadFile, ReadFile. cbn. by rewrite lookup_delete_ne by done.
Qed.

(** ** Theorems *)

(** C19: the processes of a cluster agree on it.  When two processes whose configurations list the same cosigners are
    started, each is one of these cosigners, listens at the address the list has for it and has the others as its peers; both
    bootstrap the same set of raft servers, which are the listed cosigners, each once; and each talks TLS to all its peers
    exactly when it has a cluster key. *)
Theorem cluster_members_agree `{NP : !NetParse} `{J : !SecurityJson} `{X : !Ecies} {Priv Pub : Type} `{R : !Rsa Priv Pub} `{X5 : !X509}
    {W} (world : W) zeroTime load1 load2 client1 client2 rnd1 rnd2 (config1 config2 : RuntimeConfig) sched1 sched2
    s1 s1' ev1 store1 tv1 s2 s2' ev2 store2 tv2 :
  tm_Cosigners <$> cfg_ThresholdModeConfig (rc_Config config1) = tm_Cosigners <$> cfg_ThresholdModeConfig (rc_Config config2) →
  run sched1 (cmd_NewThresholdValidator load1 client1 world zeroTime rnd1 config1) s1 = (s1', ev1, Ok (store1, tv1)) →
  run sched2 (cmd_NewThresholdValidator load2 client2 world zeroTime rnd2 config2) s2 = (s2', ev2, Ok (store2, tv2)) →
  open_servers store1 ≡ₚ open_servers store2 ∧ NoDup (srv_ID <$> open_servers store1)
  ∧ (tv_myID tv1.1 = tv_myID tv2.1 ↔ rst_NodeID store1 = rst_NodeID store2)
  ∧ ∃ tm1 own1 tm2 own2, cfg_ThresholdModeConfig (rc_Config config1) = Some tm1 ∧ cfg_ThresholdModeConfig (rc_Config config2) = Some tm2
      ∧ set_up config1 tm1 own1 store1 tv1 ∧ set_up config2 tm2 own2 store2 tv2.
Proof.
  intros Hsame [V1 (tm1 & own1 & E1 & U1)]%threshold_set_up [V2 (tm2 & own2 & E2 & U2)]%threshold_set_up.
  rewrite E1, E2 in Hsame. injection Hsame as Hsame.
  apply ValidateThresholdModeConfig_spec in V1 as (tm & E & _ & _ & Hnd & Hr & _). rewrite E1 in E. injection E as <-.
  pose proof U1 as (I1 & M1 & _ & N1 & _ & _ & _ & _ & S1 & _). pose proof U2 as (I2 & M2 & _ & N2 & _ & _ & _ & _ & S2 & _).
  rewrite <- Hsame in S2, I2. split; [by rewrite S1, S2|]. split; [rewrite S1; by eapply config_servers_NoDup|]. split.
  - rewrite M1, M2, N1, N2. split; [by intros ->|]. rewrite list.Forall_forall in Hr.
    apply fmt_d_inj; [destruct (Hr _ I1)|destruct (Hr _ I2)]; lia.
  - by exists tm1, own1, tm2, own2.
Qed.

Lemma cluster_members_agree_witness :
  match (toy_node 0).2, (toy_node 1).2 with
  | Ok (store1, _), Ok (store2, _) => @open_servers toy_net _ store1 ≡ₚ @open_servers toy_net _ store2
  | _, _ => False
  end.
Proof.
  destruct (toy_node 0) as [[s1 ev1] r1] eqn:E1. destruct (toy_node 1) as [[s2 ev2] r2] eqn:E2.
  assert (is_ok r1 = true) as H1 by (replace r1 with (toy_node 0).2 by (by rewrite E1); vm_compute; reflexivity).
  assert (is_ok r2 = true) as H2 by (replace r2 with (toy_node 1).2 by (by rewrite E2); vm_compute; reflexivity).
  destruct r1 as [[store1 tv1]| |]; [|discriminate H1..]. destruct r2 as [[store2 tv2]| |]; [|discriminate H2..]. cbn.
  exact (proj1 (@cluster_members_agree toy_net toy_sec_json toy_ecies Z Z toy_rsa toy_x509 unit () 0 _ _ _ _ [] []
    (toy_start_config false) (toy_start_config false) _ _ _ _ _ _ _ _ _ _ _ _ eq_refl E1 E2)).
Defined.

(** C23: a process serves only after all checks passed: when it serves, there was no PID file or one of a process that had
    ended, the configuration file is not one of the old format, and the configuration of the sign mode was validated, for a
    single signer with the risk accepted.  A start that fails before leaves nothing that serves. *)
Theorem start_serves `{NP : !NetParse} `{J : !SecurityJson} `{X : !Ecies} {Priv Pub : Type} `{R : !Rsa Priv Pub} `{X5 : !X509}
    LoadNodeKey NewClient yaml_v2 {W} (world : W) zeroTime rnd listen Start genPrivKey Stop self acceptRisk config sched s s' ev r :
  rc_ConfigFile config ≠ rc_PidFile config →
  run sched (startCmd LoadNodeKey NewClient yaml_v2 world zeroTime rnd listen Start genPrivKey Stop self acceptRisk config) s = (s', ev, r) →
  EvServes self ∈ ev →
  (os_Stat (rc_PidFile config) s = StatMissing ∨ stale_pid_file self (rc_PidFile config) s)
  ∧ (∀ bs c, os_ReadFile (rc_ConfigFile config) s = Ok bs → yaml_v2 bs = Ok (Some c) → v2_ChainID c = "")
  ∧ ((cfg_SignMode (rc_Config config) = SignModeThreshold ∧ ValidateThresholdModeConfig (rc_Config config) = Ok ())
     ∨ (cfg_SignMode (rc_Config config) = SignModeSingle ∧ acceptRisk = true ∧ ValidateSingleSignerConfig (rc_Config config) = Ok ())).
Proof.
  intros Hpaths Hrun Hserves. assert (ev ≠ []) as Hev by (by intros ->; apply elem_of_nil in Hserves). clear Hserves.
  unfold startCmd in Hrun. apply run_must_cases in Hrun as [(s1 & ev1 & [] & ev2 & H1 & Hrun & ->)|(r0 & H1 & _)];
    [|by apply RequireNotRunning_effect in H1 as [-> _]].
  pose proof (RequireNotRunning_effect _ _ _ _ _ _ _ H1) as [-> Hs1]. apply require_not_running in H1 as (H1 & _). cbn [app] in Hev.
  rewrite run_bind_eq in Hrun. destruct (legacyConfig_run yaml_v2 config sched s1) as [legacy Hleg]. rewrite Hleg in Hrun.
  destruct (run sched (match legacy with Ok _ => _ | _ => _ end) s1) as [[s2 ev3] r2] eqn:E2. injection Hrun as -> <- ->.
  destruct legacy as [c|e|m]; [by injection E2 as _ <- _| |by injection E2 as _ <- _]. split; [by apply H1|]. split.
  { intros bs c Hb Hc. eapply legacyConfig_Err; [exact Hleg| |exact Hc].
    destruct Hs1 as [->| ->]; [done|]. by rewrite ReadFile_after_Remove. }
  apply run_must_cases in E2 as [(? & ? & [] & ? & H2 & E2 & ->)|(? & H2 & _)]; [|by apply silent_run in H2; [|apply silent_atomic]].
  apply silent_run in H2 as ->; [|apply silent_atomic]. cbn [app] in Hev.
  apply run_must_cases in E2 as [(? & ? & services & ? & H2 & E2 & ->)|(? & H2 & _)]; [|by apply silent_run in H2; [|apply silent_mode_services]].
  by eapply mode_services_Ok.
Qed.

Lemma start_serves_witness :
  EvServes 9 ∈ toy_started.1.2 ∧ @ValidateThresholdModeConfig toy_net (rc_Config (toy_start_config false)) = Ok ().
Proof.
  assert (EvServes 9 ∈ toy_started.1.2) as Hs by (apply (list_elem_of_lookup_2 _ 0); vm_compute; reflexivity).
  split; [exact Hs|]. destruct toy_started as [[s' ev] r] eqn:E.
  destruct (@start_serves toy_net toy_sec_json toy_ecies Z Z toy_rsa toy_x509 _ _ _ unit () 0 [] _ _ _ _ 9 false (toy_start_config false)
    (λ _, 0%nat) _ s' ev r ltac:(vm_compute; discriminate) E Hs) as (_ & _ & [[_ H]|[_ [H _]]]); [exact H|discriminate H].
Defined.

(** The goroutine that registers the cluster's gRPC server may run before the validator is set, and the server then keeps the nil
    validator it was given: it cannot sign the blocks that other cosigners pass on when this one leads. *)
Theorem server_without_validator :
  let pl := pool_exec [(1, 0); (1, 0); (0, 0)]%nat (mkPool (mkStoreState None None) [] [SetThresholdValidator 1; register_server]) in
  pl_threads pl = [Ret (); Ret ()] ∧ pl_state pl = mkStoreState (Some 1%nat) (Some None).
Proof. vm_compute. done. Qed.
