(* ===== verification/KeysCmd.v ===== *)
(** * The commands that set a machine up

    [config init] (cmd/horcrux/cmd/config.go), which writes the configuration that a process starts
    with, and [create-conn-key] and [create-cluster-key] (conn_key.go, cluster_key.go), which make the
    identities of a process toward the chain nodes and toward its peers.  The theorems show that
    none of them replaces a file, and that what they write is what a process then finds. *)

From S2P Require Import Prelude Errors Wire SignState Config Conc SoftSigner SignerLoop Security Services StateCmd ShardsCmd MigrateCmd Startup.
From stdpp Require Import base gmap list strings numbers.
From Stdlib Require Import ZArith Lia.

Open Scope string_scope.
Open Scope list_scope.
Open Scope Z_scope.

(** ** Definitions *)

(** *** The keys *)

Definition defaultConnKeyFile : string := "conn_key.json".
Definition defaultClusterKeyFile : string := "cluster_key.json".

Section keys.
Context (LoadNodeKey : string → FileSystem → result node_key goerror).
Context (SaveAs : list Z → string → FileSystem → result FileSystem goerror).
(** The key that is generated *)
Context (privKey : list Z).

(** What the two commands do with the path they found; [what] is the name of the key in their messages. *)
Definition create_key (what keyFile : string) : cmd (string * list Z) :=
  do st <- reading (os_Stat keyFile);
  match st with
  | StatFile | StatDir => Ret (Err (ErrorString (what +:+ " key already exists: " +:+ keyFile)))
  | StatError err => Ret (Err (WrapError ("unexpected error checking for " +:+ what +:+ " key (" +:+ keyFile +:+ "): ") err))
  | StatMissing =>
      must _ <- atomic (os_MkdirAll (filepath_Dir keyFile));
      must key <- on_files (CreateConnKey SaveAs privKey keyFile);
      Ret (Ok (keyFile, key))
  end.

(** The results are the path and the key that are printed. *)
Definition createConnKeyCmd (config : RuntimeConfig) : cmd (string * list Z) :=
  let keyFile := ConnKeyFilePath config in
  create_key "connection" (if String.eqb keyFile "" then filepath_Join (KeyDirectory config) defaultConnKeyFile else keyFile).

Definition createClusterKeyCmd (config : RuntimeConfig) : cmd (string * list Z) :=
  let keyFile := ClusterKeyFilePath config in
  create_key "cluster" (if String.eqb keyFile "" then filepath_Join (KeyDirectory config) defaultClusterKeyFile else keyFile).
End keys.

(** *** The configuration *)

Record init_flags := mkInitFlags {
  if_SignMode : string;
  if_Nodes : list string;
  if_Cosigners : list string;
  if_Threshold : Z;
  if_KeyDir : string;
  if_DebugAddr : string;
  if_GRPCAddr : string;
  if_RaftTimeout : string;
  if_GRPCTimeout : string;
  if_MaxReadSize : Z;
  if_Overwrite : bool;
  if_Bare : bool
}.

(** The flags that are not given *)
Definition default_flags (bare : bool) : init_flags := mkInitFlags SignModeThreshold [] [] 0 "" "" "" "500ms" "500ms" (1024 * 1024) false bare.

Section init.
Context `{NP : !NetParse} (yaml_Marshal : Config → result (list Z) goerror).

(** The configuration of the flags; [cn] are the chain nodes among them. *)
Definition flags_config (f : init_flags) (cn : list ChainNode) : result Config goerror :=
  let keyDir := if String.eqb (if_KeyDir f) "" then None else Some (if_KeyDir f) in
  if String.eqb (if_SignMode f) SignModeThreshold then
    let cfg := mkConfig keyDir "" SignModeThreshold
      (Some (mkThresholdModeConfig (if_Threshold f) (CosignersFromFlag (if_Cosigners f)) "" (if_GRPCTimeout f) (if_RaftTimeout f) false))
      cn (if_DebugAddr f) (if_GRPCAddr f) (if_MaxReadSize f) in
    try _ <- (if if_Bare f then Ok () else ValidateThresholdModeConfig cfg); Ok cfg
  else
    let cfg := mkConfig keyDir "" SignModeSingle None cn (if_DebugAddr f) "" (if_MaxReadSize f) in
    try _ <- (if if_Bare f then Ok () else ValidateSingleSignerConfig cfg); Ok cfg.

Definition initCmd (f : init_flags) (config : RuntimeConfig) : cmd unit :=
  must cn <- Ret (ChainNodesFromFlag (if_Nodes f));
  do st <- reading (os_Stat (rc_ConfigFile config));
  if (match st with StatMissing => false | _ => true end) && negb (if_Overwrite f) then
    Ret (Err (ErrorString (rc_ConfigFile config +:+ " already exists. Provide the -o flag to overwrite the existing config")))
  else
    must cfg <- Ret (flags_config f cn);
    must _ <- atomic (os_MkdirAll (rc_StateDir config));
    WriteConfigFile yaml_Marshal (with_config cfg config).
End init.

(** *** Specifications *)

(** A node key file holds the key that was saved, and no other file changes. *)
Definition node_key_files (LoadNodeKey : string → FileSystem → result node_key goerror)
    (SaveAs : list Z → string → FileSystem → result FileSystem goerror) : Prop :=
  ∀ key path fs fs', SaveAs key path fs = Ok fs' →
    LoadNodeKey path fs' = Ok (Ed25519PrivKey key) ∧ ∀ file, file ≠ path → fs_files fs' !! file = fs_files fs !! file.

(** A command made a key where there was no file, or changed no file. *)
Definition key_made LoadNodeKey (keyFile : string) (privKey : list Z) (s s' : Host) (r : result (string * list Z) goerror) : Prop :=
  if is_ok r then
    r = Ok (keyFile, privKey) ∧ os_Stat keyFile s = StatMissing ∧ LoadConnKey LoadNodeKey keyFile (h_fs s') = Ok privKey
    ∧ ∀ file, file ≠ keyFile → fs_files (h_fs s') !! file = fs_files (h_fs s) !! file
  else h_fs s' = h_fs s.

Definition set_conn_key_file (file : string) (c : Config) : Config :=
  mkConfig (cfg_PrivValKeyDir c) file (cfg_SignMode c) (cfg_ThresholdModeConfig c) (cfg_ChainNodes c) (cfg_DebugAddr c) (cfg_GRPCAddr c)
    (cfg_MaxReadSize c).

(** The configuration after the operator followed the instruction that [create-conn-key] prints *)
Definition instructed (config : RuntimeConfig) : RuntimeConfig :=
  if String.eqb (cfg_ConnKeyFile (rc_Config config)) "" then with_config (set_conn_key_file defaultConnKeyFile (rc_Config config)) config else config.

(** The check that a process makes of its mode when it starts *)
Definition mode_check `{NetParse} (c : Config) : result unit goerror :=
  if String.eqb (cfg_SignMode c) SignModeThreshold then ValidateThresholdModeConfig c else ValidateSingleSignerConfig c.

(** *** Examples *)

(** A node key file that holds the bytes of the key *)
Definition toy_LoadNodeKey (path : string) (fs : FileSystem) : result node_key goerror :=
  try bs <- ReadFile fs path; Ok (Ed25519PrivKey bs).

Definition toy_SaveAs (key : list Z) (path : string) (fs : FileSystem) : result FileSystem goerror := os_WriteFile fs path key.

Definition toy_new_config : RuntimeConfig := initConfig "/root" "/h" (mkConfig None "" "single" None [] "" "" 0).

Definition toy_conn_key : Host * list host_event * result (string * list Z) goerror :=
  run (λ _, 0%nat) (createConnKeyCmd toy_SaveAs (repeat 1 64) toy_new_config) (toy_host ∅).

Definition toy_init_flags (overwrite : bool) : init_flags :=
  mkInitFlags "threshold" ["tcp://n:1"] ["tcp://a:1"; "tcp://b:1"; "tcp://c:1"] 2 "" "" "" "500ms" "500ms" 1048576 overwrite false.

Definition toy_init (f : init_flags) (files : gmap string fs_entry) : Host * list host_event * result unit goerror :=
  run (λ _, 0%nat) (@initCmd toy_net (λ _, Ok [7]) f toy_new_config) (toy_host files).

(** ** Lemmas *)

Lemma mkdir_each_fs l s : h_fs (mkdir_each l s).1 = h_fs s.
Proof.
  revert s. induction l as [|p l IH]; intros s; cbn; [done|]. destruct (is_dir _ s); [apply IH|].
  pose proof (os_Mkdir_fs p s) as Hm. destruct (os_Stat _ s); [|done| |]; destruct (os_Mkdir p s) as [s' [[]| |]]; cbn in *; try done; by rewrite IH.
Qed.

Lemma run_MkdirAll sched path s s' ev r : run sched (atomic (os_MkdirAll path) : cmd unit) s = (s', ev, r) → h_fs s' = h_fs s.
Proof. cbn. pose proof (mkdir_each_fs (path_prefixes "" (split_slash path)) s) as H. unfold os_MkdirAll. destruct (mkdir_each _ s). by intros [= <- _ _]. Qed.

Lemma run_Ret_inv {S E A} sched (a b : A) (s s' : S) (ev : list E) : run sched (Ret a) s = (s', ev, b) → s' = s ∧ a = b.
Proof. by intros [= <- _ <-]. Qed.

Section key_files.
Context (LoadNodeKey : string → FileSystem → result node_key goerror).
Context (SaveAs : list Z → string → FileSystem → result FileSystem goerror).
Context (Hfiles : node_key_files LoadNodeKey SaveAs).

Lemma create_key_made privKey what keyFile sched s s' ev r :
  length privKey = 64%nat → run sched (create_key SaveAs privKey what keyFile) s = (s', ev, r) → key_made LoadNodeKey keyFile privKey s s' r.
Proof using Hfiles.
  intros Hlen. unfold create_key. rewrite run_reading_bind. destruct (os_Stat keyFile s) eqn:Est; [by intros [= <- _ <-]..| |by intros [= <- _ <-]].
  intros [(s1 & ev1 & [] & ev2 & Hd & Hr & _)|(r0 & Hd & _ & Hr)]%run_must_cases; apply run_MkdirAll in Hd; [|by unfold key_made; rewrite Hr].
  revert Hr. intros [(s2 & ev3 & key & ev4 & Hk & Hr & _)|(r0 & Hk & H0 & Hr)]%run_must_cases.
  - injection Hr as <- _ <-. apply run_on_files_Ok in Hk as (fs & Hk & -> & _). unfold CreateConnKey in Hk.
    destruct (SaveAs privKey keyFile (h_fs s1)) as [fs'| |] eqn:E; cbn in Hk; [|done..]. injection Hk as <- <-.
    destruct (Hfiles _ _ _ _ E) as [Hload Hother]. split; [done|]. split; [done|]. unfold LoadConnKey. cbn [h_fs set_fs]. rewrite Hload. cbn.
    rewrite Hlen, <- Hd. by split.
  - unfold key_made. rewrite Hr. revert Hk. cbn. destruct (CreateConnKey _ _ _ _) as [[? ?]| |]; cbn; intros [= <- _ <-]; done.
Qed.
End key_files.

(** The default file is where the setting is resolved to. *)
Lemma instructed_path config :
  ConnKeyFilePath (instructed config)
  = if String.eqb (ConnKeyFilePath config) "" then filepath_Join (KeyDirectory config) defaultConnKeyFile else ConnKeyFilePath config.
Proof.
  unfold instructed. destruct (String.eqb_spec (cfg_ConnKeyFile (rc_Config config)) "") as [E|Hne].
  - unfold ConnKeyFilePath at 2. by rewrite E.
  - destruct (String.eqb_spec (ConnKeyFilePath config) "") as [E|]; [|done]. exfalso. revert E. unfold ConnKeyFilePath.
    pose proof Hne as Hf%String.eqb_neq. rewrite Hf. destruct (IsAbs _); [done|]. by apply filepath_Join_nonempty.
Qed.

Lemma flags_config_Ok `{NetParse} f cn cfg :
  flags_config f cn = Ok cfg → cfg_ChainNodes cfg = cn ∧ (if_Bare f = false → mode_check cfg = Ok ()).
Proof.
  unfold flags_config. destruct (String.eqb (if_SignMode f) SignModeThreshold).
  - destruct (if_Bare f); [by intros [= <-]|].
    destruct (ValidateThresholdModeConfig _) as [[]| |] eqn:E; [|done..]. intros [= <-]. by unfold mode_check.
  - destruct (if_Bare f); [by intros [= <-]|].
    destruct (ValidateSingleSignerConfig _) as [[]| |] eqn:E; [|done..]. intros [= <-]. by unfold mode_check.
Qed.

(** ** Theorems *)

(** The commands that create an identity never replace one.  A command that succeeds found no file at the path, and afterwards the
    file there loads as the key that was printed, with every other file as it was; one that fails changes no file.  The connection
    key is then the identity that a process loads, once the instruction that the command prints has been followed, and the cluster key
    that of a configuration that names one. *)
Theorem identities_created LoadNodeKey SaveAs privKey config sched s s' ev r :
  node_key_files LoadNodeKey SaveAs → length privKey = 64%nat →
  (run sched (createConnKeyCmd SaveAs privKey config) s = (s', ev, r) →
     key_made LoadNodeKey (ConnKeyFilePath (instructed config)) privKey s s' r
     ∧ (is_ok r = true → loadConfiguredConnKey LoadNodeKey (instructed config) (h_fs s') = Ok (Some privKey)))
  ∧ (run sched (createClusterKeyCmd SaveAs privKey config) s = (s', ev, r) →
     ∃ keyFile, key_made LoadNodeKey keyFile privKey s s' r
       ∧ (ClusterKeyFilePath config ≠ "" → keyFile = ClusterKeyFilePath config)).
Proof.
  intros Hfiles Hlen. split.
  - unfold createConnKeyCmd. cbv zeta. rewrite <- instructed_path. intros H%(create_key_made LoadNodeKey SaveAs Hfiles); [|done]. split; [done|].
    intros Hr. unfold key_made in H. rewrite Hr in H. destruct H as (_ & _ & Hload & _). unfold loadConfiguredConnKey.
    rewrite Hload. destruct (String.eqb_spec (ConnKeyFilePath (instructed config)) "") as [E|]; [|done]. exfalso. revert E. rewrite instructed_path.
    destruct (String.eqb_spec (ConnKeyFilePath config) ""); [by apply filepath_Join_nonempty|done].
  - intros H%(create_key_made LoadNodeKey SaveAs Hfiles); [|done]. eexists. split; [exact H|]. intros Hne%String.eqb_neq. by rewrite Hne.
Qed.

Lemma toy_node_key_files : node_key_files toy_LoadNodeKey toy_SaveAs.
Proof.
  intros key path fs fs'. unfold toy_SaveAs, os_WriteFile. destruct (fs_write_error fs path); [done|]. intros [= <-].
  unfold toy_LoadNodeKey, ReadFile. cbn. rewrite lookup_insert_eq. split; [done|]. intros file Hf. by rewrite lookup_insert_ne.
Qed.

Lemma identities_created_witness :
  loadConfiguredConnKey toy_LoadNodeKey (instructed toy_new_config) (h_fs toy_conn_key.1.1) = Ok (Some (repeat 1 64)).
Proof.
  assert (is_ok toy_conn_key.2 = true) as Hok by (vm_compute; reflexivity). revert Hok.
  destruct toy_conn_key as [[s' ev] r] eqn:E. exact (proj2 (proj1 (identities_created toy_LoadNodeKey toy_SaveAs (repeat 1 64) toy_new_config _ _ _ _ _ toy_node_key_files eq_refl) E)).
Defined.

(** [config init] keeps a configuration that is there, unless it is told to overwrite it; what it writes are the flags, which pass
    the check that a process makes when it starts unless [bare] is given, and nothing else changes; one that fails changes no file. *)
Theorem init_config `{NetParse} yaml_Marshal f config sched s s' ev r :
  run sched (initCmd yaml_Marshal f config) s = (s', ev, r) →
  if is_ok r then
    (if_Overwrite f = true ∨ os_Stat (rc_ConfigFile config) s = StatMissing)
    ∧ ∃ cn cfg bz, ChainNodesFromFlag (if_Nodes f) = Ok cn ∧ flags_config f cn = Ok cfg ∧ (if_Bare f = false → mode_check cfg = Ok ())
        ∧ yaml_Marshal cfg = Ok bz ∧ fs_files (h_fs s') = <[rc_ConfigFile config := Content bz]> (fs_files (h_fs s))
  else h_fs s' = h_fs s.
Proof.
  intros [(s1 & ev1 & cn & ev2 & [-> Hcn]%run_Ret_inv & Hr & _)|(r0 & Hd & _ & Hr)]%run_must_cases; [|by apply run_Ret_inv in Hd as [-> _]; rewrite Hr].
  rewrite run_reading_bind in Hr. destruct (_ && negb _) eqn:Eo in Hr; [by injection Hr as <- _ <-|].
  apply run_must_cases in Hr as [(s1 & ev3 & cfg & ev4 & [-> Hcfg]%run_Ret_inv & Hr & _)|(r0 & Hd & _ & Hr)]; [|by apply run_Ret_inv in Hd as [-> _]; rewrite Hr].
  apply run_must_cases in Hr as [(s1 & ev5 & [] & ev6 & Hd & Hr & _)|(r0 & Hd & _ & Hr)]; apply run_MkdirAll in Hd; [|by rewrite Hr].
  apply run_must_cases in Hr as [(s2 & ev7 & bz & ev8 & [-> Hbz]%run_Ret_inv & Hr & _)|(r0 & Hw & _ & Hr)]; [|apply run_Ret_inv in Hw as [-> _]; by rewrite Hr].
  apply on_files_write_effect in Hr. destruct (is_ok r); [|by subst]. destruct Hr as (Hr & _). split.
  - destruct (if_Overwrite f); [by left|]. right. rewrite andb_true_r in Eo. by destruct (os_Stat _ s).
  - exists cn, cfg, bz. split; [done|]. split; [done|]. split; [by apply flags_config_Ok in Hcfg as [_ ?]|]. split; [|by rewrite <- Hd].
    unfold panic_with in Hbz. cbn in Hbz. by destruct (yaml_Marshal cfg).
Qed.

(** A configuration that is there is kept, or overwritten when that is asked for; without flags nothing is written, unless [bare] is
    given. *)
Lemma init_config_examples :
  (toy_init (toy_init_flags false) ∅).2 = Ok ()
  ∧ is_ok (toy_init (toy_init_flags false) {[ "/h/config.yaml" := Content [1] ]}).2 = false
  ∧ fs_files (h_fs (toy_init (toy_init_flags true) {[ "/h/config.yaml" := Content [1] ]}).1.1) !! "/h/config.yaml" = Some (Content [7])
  ∧ is_ok (toy_init (default_flags false) ∅).2 = false
  ∧ (toy_init (default_flags true) ∅).2 = Ok ().
Proof. vm_compute. done. Qed.
