(* ===== verification/Resolver.v ===== *)
(** * The resolver of several addresses

    signer/multiresolver/multi.go: a resolver of gRPC for an address that lists the addresses of
    all cosigners.  Each target has a resolver of its own, which reports to a part of the
    group; a report updates the part and hands the union of all parts to the connection.
    The parts have a lock each and the group has none, so reports interleave.

    What gRPC provides is an argument: the registered resolvers ([Get]), the parser of URLs and
    the connection.  A builder is the reports it makes while it builds, and its result. *)

From S2P Require Import Prelude Errors Config Conc.
From stdpp Require Import base list strings numbers relations.
From Stdlib Require Import ZArith Lia.

Open Scope string_scope.
Open Scope list_scope.
Open Scope nat_scope.

(** ** Definitions *)

(** [resolver.State]; a configuration or attributes may be nil. *)
Record ResolverState := mkResolverState {
  st_Addresses : list string;
  st_ServiceConfig : option string;
  st_Attributes : option string
}.

Definition zero_state : ResolverState := mkResolverState [] None None.

(** The parts of the group by the order of their targets, the children, and those that were closed *)
Record Group := mkGroup {
  g_parts : list ResolverState;
  g_children : list nat;
  g_closed : list nat
}.

(** A part took a state; the connection was given one, or an error; a child was asked to
    resolve again. *)
Inductive res_event : Type :=
| EvReport (part : nat) (st : ResolverState)
| EvDeliver (st : ResolverState)
| EvError (err : goerror)
| EvResolve (child : nat).

Section resolver.
Local Abbreviation P A := (@prog Group res_event (result A goerror)).
(** [UpdateState] and [ParseServiceConfig] of the connection *)
Context (cc_UpdateState : ResolverState → result unit goerror) (cc_ParseServiceConfig : string → option string).

(** The loop over the parts, one lock at a time *)
Fixpoint collect_addresses (parts : list nat) : @prog Group res_event (list string) :=
  match parts with
  | [] => Ret []
  | p :: parts' =>
      do addrs <- reading (λ s, match g_parts s !! p with Some st => st_Addresses st | None => [] end);
      do rest <- collect_addresses parts';
      Ret (addrs ++ rest)
  end.

Definition group_updateState : P unit :=
  do first <- reading (λ s, g_parts s !! 0);
  match first with
  | None => Ret (Panics index_out_of_range)
  | Some first =>
      do parts <- reading (λ s, seq 0 (length (g_parts s)));
      do addresses <- collect_addresses parts;
      let st := mkResolverState addresses (st_ServiceConfig first) (st_Attributes first) in
      atomically (λ s, (s, [EvDeliver st], cc_UpdateState st))
  end.

(** A part changes its state under its lock. *)
Definition set_part (part : nat) (f : ResolverState → ResolverState) : @prog Group res_event unit :=
  atomically (λ s,
    match g_parts s !! part with
    | Some st => (mkGroup (<[part := f st]> (g_parts s)) (g_children s) (g_closed s), [EvReport part (f st)], ())
    | None => (s, [], ())
    end).

Definition part_UpdateState (part : nat) (st : ResolverState) : P unit :=
  do _ <- set_part part (λ _, st);
  group_updateState.

(** The deprecated calls drop the error. *)
Definition part_NewAddress (part : nat) (addresses : list string) : P unit :=
  do _ <- set_part part (λ st, mkResolverState addresses (st_ServiceConfig st) (st_Attributes st));
  must _ <- (do r <- group_updateState; Ret (match r with Panics m => Panics m | _ => Ok () end));
  Ret (Ok ()).

Definition part_NewServiceConfig (part : nat) (serviceConfig : string) : P unit :=
  do _ <- set_part part (λ st, mkResolverState (st_Addresses st) (cc_ParseServiceConfig serviceConfig) (st_Attributes st));
  must _ <- (do r <- group_updateState; Ret (match r with Panics m => Panics m | _ => Ok () end));
  Ret (Ok ()).

Definition part_ReportError (err : goerror) : P unit := atomically (λ s, (s, [EvError err], Ok ())).

Definition resolver_ResolveNow : P unit := atomically (λ s, (s, EvResolve <$> g_children s, Ok ())).

(** *** Building *)

Context {U : Type} (url_Parse : string → result U goerror) (Scheme : U → string) (URL : string → string → U).
Context (GetDefaultScheme : string) (Get : string → option (U → list ResolverState * result unit goerror)).

(** The builder of a target, and the URL it builds *)
Definition find_builder (rawTarget : string) : result ((U → list ResolverState * result unit goerror) * U) goerror :=
  let parsable := if negb (strings_Contains rawTarget "://") then "tcp://" +:+ rawTarget else rawTarget in
  try u <- url_Parse parsable;
  match Get (Scheme u) with
  | Some builder => Ok (builder, u)
  | None =>
      match Get GetDefaultScheme with
      | Some builder => Ok (builder, URL GetDefaultScheme rawTarget)
      | None => Err (ErrorString ("could not get resolver for default scheme: " +:+ fmt_q GetDefaultScheme))
      end
  end.

Fixpoint report_all (part : nat) (states : list ResolverState) : P unit :=
  match states with
  | [] => Ret (Ok ())
  | st :: l => must _ <- (do r <- part_UpdateState part st; Ret (match r with Panics m => Panics m | _ => Ok () end)); report_all part l
  end.

Definition resolverBuilder (rawTarget : string) : P unit :=
  must found <- Ret (find_builder rawTarget);
  do part <- atomic (λ s, (mkGroup (g_parts s ++ [zero_state]) (g_children s) (g_closed s), length (g_parts s)));
  let '(states, r) := found.1 found.2 in
  must _ <- report_all part states;
  must _ <- Ret r;
  atomic (λ s, (mkGroup (g_parts s) (g_children s ++ [part]) (g_closed s), Ok ())).

Definition resolver_Close : @prog Group res_event unit :=
  atomic (λ s, (mkGroup (g_parts s) (g_children s) (g_closed s ++ g_children s), ())).

(** [strings.Split] at commas *)
Fixpoint split_comma (s : string) : list string :=
  match s with
  | EmptyString => [EmptyString]
  | String c s' =>
      if Ascii.eqb c (Ascii.ascii_of_N 44) then EmptyString :: split_comma s'
      else match split_comma s' with
           | [] => [String c EmptyString]
           | w :: ws => String c w :: ws
           end
  end.

Fixpoint build_targets (rawTargets : list string) : P unit :=
  match rawTargets with
  | [] => Ret (Ok ())
  | t :: l =>
      do r <- resolverBuilder t;
      match r with
      | Err err => do _ <- resolver_Close; Ret (Err err)
      | Panics m => Ret (Panics m)
      | Ok _ => build_targets l
      end
  end.

Definition Build (endpoint : string) : P unit := build_targets (split_comma endpoint).

(** All that runs on a group: it is built once, and its resolvers report. *)
Inductive res_handler (endpoint : string) : P unit → Prop :=
| ResBuild : res_handler endpoint (Build endpoint)
| ResUpdate part st : res_handler endpoint (part_UpdateState part st)
| ResAddress part addrs : res_handler endpoint (part_NewAddress part addrs)
| ResConfig part cfg : res_handler endpoint (part_NewServiceConfig part cfg)
| ResError err : res_handler endpoint (part_ReportError err)
| ResNow : res_handler endpoint resolver_ResolveNow.
End resolver.

(** *** Specifications *)

(** What the parts hold together *)
Definition merged (parts : list ResolverState) : ResolverState :=
  mkResolverState (mjoin (st_Addresses <$> parts)) (parts !! 0 ≫= st_ServiceConfig) (parts !! 0 ≫= st_Attributes).

(** A state was made of what the resolvers reported. *)
Definition from_reports (log : list res_event) (st : ResolverState) : Prop :=
  (∀ a, a ∈ st_Addresses st → ∃ part r, EvReport part r ∈ log ∧ a ∈ st_Addresses r)
  ∧ (∀ cfg, st_ServiceConfig st = Some cfg → ∃ r, EvReport 0 r ∈ log ∧ st_ServiceConfig r = Some cfg).

(** The parts hold what was reported, and what was delivered was made of it. *)
Definition group_inv (s : Group) (log : list res_event) : Prop :=
  (∀ part st, g_parts s !! part = Some st → st = zero_state ∨ EvReport part st ∈ log)
  ∧ ∀ st, EvDeliver st ∈ log → from_reports log st.

(** *** Example *)

Definition toy_update (part : nat) (addr : string) : @prog Group res_event (result unit goerror) :=
  part_UpdateState (λ _, Ok ()) part (mkResolverState [addr] None None).

(** Two resolvers report at the same time: the first has read both parts when the second reports. *)
Definition toy_resolver_race : @pool Group res_event (result unit goerror) :=
  pool_exec (map (λ i, (i, 0)) [0; 0; 0; 0; 0; 1; 1; 1; 1; 1; 1; 0]) (mkPool (mkGroup [zero_state; zero_state] [0; 1] []) [] [toy_update 0 "a"; toy_update 1 "b"]).

(** The schemes of a group in which [dns] resolves at once and nothing else is known *)
Definition toy_Get (scheme : string) : option (string → list ResolverState * result unit goerror) :=
  if String.eqb scheme "dns" then Some (λ u, ([mkResolverState [u] None None], Ok ())) else None.

(** ** Lemmas *)

Lemma from_reports_mono log log' st : log ⊆ log' → from_reports log st → from_reports log' st.
Proof.
  intros Hl [Ha Hc]; split.
  - intros a Hin. destruct (Ha a Hin) as (p & r & Hr & Hin'). exists p, r. auto.
  - intros cfg Hcfg. destruct (Hc cfg Hcfg) as (r & Hr & Hcfg'). exists r. auto.
Qed.

(** A section that leaves the parts alone and delivers nothing keeps the invariant. *)
Lemma group_inv_log s s' log ev :
  g_parts s' = g_parts s → (∀ st, EvDeliver st ∈ ev → from_reports (log ++ ev) st) →
  group_inv s log → group_inv s' (log ++ ev).
Proof.
  intros Hp Hev [Hparts Hdel]. split.
  - intros part st Hst. rewrite Hp in Hst. destruct (Hparts _ _ Hst) as [?|?]; [by left|right]. apply elem_of_app; by left.
  - intros st [Hin|Hin]%elem_of_app; [|by apply Hev].
    eapply from_reports_mono; [|by apply Hdel]. intros x Hx. apply elem_of_app; by left.
Qed.

Lemma group_inv_set s log part st f :
  group_inv s log → g_parts s !! part = Some st →
  group_inv (mkGroup (<[part := f st]> (g_parts s)) (g_children s) (g_closed s)) (log ++ [EvReport part (f st)]).
Proof.
  intros [Hparts Hdel] Hst. split.
  - intros q st' Hq. cbn in Hq. destruct (decide (q = part)) as [->|Hne].
    + rewrite list_lookup_insert_eq in Hq by (by eapply lookup_lt_Some). simplify_eq. right. set_solver.
    + rewrite list_lookup_insert_ne in Hq by done. destruct (Hparts _ _ Hq) as [?|?]; [by left|right]. set_solver.
  - intros st' Hin. eapply from_reports_mono; [|apply Hdel; set_solver]. set_solver.
Qed.

Lemma group_inv_new s log ch cl :
  group_inv s log → group_inv (mkGroup (g_parts s ++ [zero_state]) ch cl) log.
Proof.
  intros [Hparts Hdel]. split; [|done]. intros q st Hq. cbn in Hq.
  apply lookup_app_Some in Hq as [Hq|[_ Hq]]; [by apply Hparts|].
  left. destruct (q - length (g_parts s)) as [|m]; cbn in Hq; [by simplify_eq|by destruct m].
Qed.

Section resolver_lemmas.
Context (cc_UpdateState : ResolverState → result unit goerror) (cc_ParseServiceConfig : string → option string).
Local Abbreviation wpg p known Q := (wp group_inv p known Q).
Local Abbreviation holds := (λ _ _, True).

Lemma wp_collect parts known :
  wpg (collect_addresses parts) known
    (λ addrs log, ∀ a, a ∈ addrs → ∃ part r, EvReport part r ∈ log ∧ a ∈ st_Addresses r).
Proof.
  revert known. induction parts as [|p parts IH]; intros known; cbn [collect_addresses]; [set_solver|].
  apply wp_reading. intros s log HI _. eapply wp_seq; [apply IH|]. cbn. intros rest l Hl Hrest a Ha.
  apply elem_of_app in Ha as [Ha|Ha]; [|by apply Hrest].
  destruct (g_parts s !! p) as [st|] eqn:Ep; [|set_solver].
  destruct HI as [Hparts _]. destruct (Hparts p st Ep) as [->|Hin]; [by apply elem_of_nil in Ha|].
  exists p, st. auto.
Qed.

Lemma wp_updateState known : wpg (group_updateState cc_UpdateState) known holds.
Proof.
  apply wp_reading. intros s log HI _. destruct (g_parts s !! 0) as [first|] eqn:E0; [|done].
  apply wp_reading. intros s1 log1 _ Hl1. eapply wp_seq; [apply wp_collect|]. cbn.
  intros addrs l Hl Ha s2 log2 s2' ev b HI2 Hl2 [= <- <- <-]. split; [|done].
  eapply group_inv_log; [done| |done]. intros st Hst%list_elem_of_singleton. simplify_eq. split; cbn.
  - intros a Hin. destruct (Ha a Hin) as (p & r & Hr & Hin'). exists p, r. split; [|done]. set_solver.
  - intros cfg Hcfg. destruct HI as [Hparts _]. destruct (Hparts 0 first E0) as [->|Hin]; [done|].
    exists first. split; [|done]. set_solver.
Qed.

Lemma wp_set_part part f known : wpg (set_part part f) known holds.
Proof.
  intros s log s' ev b HI _ Hf. split; [|done].
  destruct (g_parts s !! part) as [st|] eqn:Ep; simplify_eq; [by apply group_inv_set|by rewrite app_nil_r].
Qed.

Lemma wp_UpdateState part st known : wpg (part_UpdateState cc_UpdateState part st) known holds.
Proof. eapply wp_seq; [apply wp_set_part|]. intros. apply wp_updateState. Qed.

Lemma wp_dropped {A} (p : @prog Group res_event (result A goerror)) (k : unit → @prog Group res_event (result unit goerror)) known :
  (∀ l, wpg p l holds) → (∀ l, wpg (k ()) l holds) →
  wpg (must x <- (do r <- p; Ret (match r with Panics m => Panics m | _ => Ok () end)); k x) known holds.
Proof.
  intros Hp Hk. eapply wp_seq_try with (R := holds); [|by intros [] l _ _|done..].
  eapply wp_seq; [apply Hp|done].
Qed.

Context {U : Type} (url_Parse : string → result U goerror) (Scheme : U → string) (URL : string → string → U).
Context (GetDefaultScheme : string) (Get : string → option (U → list ResolverState * result unit goerror)).
Local Abbreviation resolverBuilder := (resolverBuilder cc_UpdateState url_Parse Scheme URL GetDefaultScheme Get).
Local Abbreviation build_targets := (build_targets cc_UpdateState url_Parse Scheme URL GetDefaultScheme Get).

Lemma wp_report_all part states known : wpg (report_all cc_UpdateState part states) known holds.
Proof.
  revert known. induction states as [|st l IH]; intros known; cbn [report_all]; [done|].
  apply wp_dropped; [|done]. intros. apply wp_UpdateState.
Qed.

Lemma wp_resolverBuilder t known : wpg (resolverBuilder t) known holds.
Proof.
  eapply wp_seq_try with (R := holds); [done| |done..]. intros [b u] l _ _.
  eapply (wp_seq _ _ _ _ holds). 
  { intros s log s' ev n HI _ [= <- <- <-]. rewrite app_nil_r. split; [by apply group_inv_new|done]. }
  intros part l' _ _. cbn [fst snd]. destruct (b u) as [states r].
  eapply wp_seq_try with (R := holds); [apply wp_report_all| |done..]. intros _ l1 _ _.
  eapply wp_seq_try with (R := holds); [done| |done..]. intros _ l2 _ _.
  intros s log s' ev n HI _ [= <- <- <-]. split; [|done]. by eapply group_inv_log; [|set_solver|].
Qed.

Lemma wp_Close known : wpg resolver_Close known holds.
Proof. intros s log s' ev n HI _ [= <- <- <-]. split; [|done]. by eapply group_inv_log; [|set_solver|]. Qed.

Lemma wp_build_targets ts known : wpg (build_targets ts) known holds.
Proof.
  revert known. induction ts as [|t ts IH]; intros known; cbn [Resolver.build_targets]; [done|].
  eapply wp_seq; [apply wp_resolverBuilder|]. intros [a|e|m] l _ _; [apply IH| |done].
  eapply wp_seq; [apply wp_Close|done].
Qed.

Lemma wp_res_handler endpoint p :
  res_handler cc_UpdateState cc_ParseServiceConfig url_Parse Scheme URL GetDefaultScheme Get endpoint p → wpg p [] holds.
Proof.
  intros []; [apply wp_build_targets|apply wp_UpdateState| | | |].
  1,2: eapply wp_seq; [apply wp_set_part|]; intros; apply wp_dropped; [intros; apply wp_updateState|done].
  - intros s log s' ev n HI _ [= <- <- <-]. split; [|done]. by eapply group_inv_log; [|set_solver|].
  - intros s log s' ev n HI _ [= <- <- <-]. split; [|done]. eapply group_inv_log; [done| |done].
    intros st Hst%list_elem_of_fmap. by destruct Hst as (? & ? & _).
Qed.
End resolver_lemmas.

(** Alone, the loop collects the addresses of the parts. *)
Lemma run_collect sched parts s :
  run sched (collect_addresses parts) s
  = (s, [], mjoin ((λ p, match g_parts s !! p with Some st => st_Addresses st | None => [] end) <$> parts)).
Proof.
  induction parts as [|p parts IH]; [done|]. cbn [collect_addresses].
  rewrite run_bind_eq. cbn [reading run]. rewrite run_bind_eq, IH. done.
Qed.

Lemma collected_all (parts : list ResolverState) :
  (λ p, match parts !! p with Some st => st_Addresses st | None => [] end) <$> seq 0 (length parts) = st_Addresses <$> parts.
Proof.
  apply list_eq. intros i. rewrite !list_lookup_fmap. destruct (decide (i < length parts)) as [Hi|Hi].
  - rewrite lookup_seq_lt by lia. cbn. destruct (lookup_lt_is_Some_2 _ _ Hi) as [st Hst]. by rewrite Hst.
  - rewrite lookup_seq_ge by lia. by rewrite lookup_ge_None_2 by lia.
Qed.

Lemma run_updateState cc sched s :
  g_parts s ≠ [] → run sched (group_updateState cc) s = (s, [EvDeliver (merged (g_parts s))], cc (merged (g_parts s))).
Proof.
  intros Hne. unfold group_updateState. rewrite run_bind_eq. cbn [reading run].
  unfold merged. destruct (g_parts s) as [|first parts] eqn:Ep; [done|]. cbn [lookup list_lookup].
  rewrite run_bind_eq. cbn [reading run]. rewrite run_bind_eq, run_collect, Ep, collected_all. done.
Qed.

(** ** Theorems *)

(** However the reports of the resolvers, the building of the group and the requests to resolve again interleave, every
    state the connection is given is made of what was reported: its addresses are addresses a resolver reported, and
    its configuration is one the resolver of the first target reported. *)
Theorem resolver_delivers_reported cc parse {U} (url_Parse : string → result U goerror) Scheme URL default Get endpoint pl st :
  rtc (pool_step (res_handler cc parse url_Parse Scheme URL default Get endpoint)) (mkPool (mkGroup [] [] []) [] []) pl →
  EvDeliver st ∈ pl_log pl → from_reports (pl_log pl) st.
Proof.
  intros Hpl Hst. destruct (pool_sound group_inv (λ _ _, True)
    (res_handler cc parse url_Parse Scheme URL default Get endpoint) (λ _ _ _ _ _, I) (wp_res_handler _ _ _ _ _ _ _ _)
    (mkGroup [] [] []) [] pl) as [[_ H] _]; [|done|by apply H].
  split; [done|]. intros st' Hst'. by apply elem_of_nil in Hst'.
Qed.

Lemma resolver_delivers_reported_witness :
  let pl := pool_exec (map (λ i, (0, i)) (repeat 0 20)) (mkPool (mkGroup [] [] []) []
    [Build (λ _, Ok ()) Ok (λ _, "dns") (λ _ p, p) "dns" toy_Get "a,b"]) in
  EvDeliver (mkResolverState ["tcp://a"; "tcp://b"] None None) ∈ pl_log pl ∧
  from_reports (pl_log pl) (mkResolverState ["tcp://a"; "tcp://b"] None None).
Proof.
  assert (EvDeliver (mkResolverState ["tcp://a"; "tcp://b"] None None) ∈ pl_log (pool_exec (map (λ i, (0, i)) (repeat 0 20))
    (mkPool (mkGroup [] [] []) [] [Build (λ _, Ok ()) Ok (λ _, "dns") (λ _ p, p) "dns" toy_Get "a,b"]))) as H.
  { vm_compute. repeat constructor. }
  split; [exact H|].
  apply (resolver_delivers_reported (λ _, Ok ()) (λ _, None) Ok (λ _, "dns") (λ _ p, p) "dns" toy_Get "a,b"); [|exact H].
  etransitivity; [apply pool_spawn_all|apply pool_exec_rtc]. repeat constructor.
Defined.

(** A report that is not interrupted gives the connection the states of all parts, the reporting one with what it
    reported, and returns what the connection answers. *)
Theorem resolver_update_alone cc sched part st s :
  part < length (g_parts s) →
  let parts := <[part := st]> (g_parts s) in
  run sched (part_UpdateState cc part st) s
  = (mkGroup parts (g_children s) (g_closed s), [EvReport part st; EvDeliver (merged parts)], cc (merged parts)).
Proof.
  intros Hp parts. destruct (lookup_lt_is_Some_2 _ _ Hp) as [old Hold]. unfold part_UpdateState.
  rewrite run_bind_eq. unfold set_part. cbn [atomically run]. rewrite Hold. rewrite run_updateState; [done|].
  cbn. intros H%(f_equal length). rewrite length_insert in H. cbn in H. lia.
Qed.

(** Reports that overlap may reach the connection in the wrong order: here both parts hold an address at the end, every
    report is finished, and the last state the connection was given has only the first. *)
Theorem resolver_update_lost :
  let pl := toy_resolver_race in
  pl_threads pl = [Ret (Ok ()); Ret (Ok ())]
  ∧ st_Addresses (merged (g_parts (pl_state pl))) = ["a"; "b"]
  ∧ head (reverse (pl_log pl)) = Some (EvDeliver (mkResolverState ["a"] None None)).
Proof. vm_compute. done. Qed.
