(* ===== verification/LeaderCmd.v ===== *)
(** * The commands on the leader

    cmd/horcrux/cmd/leader_election.go: [elect] dials all cosigners as one address, of which the resolver of
    several addresses makes targets again, and asks the leader among them to transfer its
    leadership; [leader] asks the cosigner whose keys are on the machine.  The theorem composes the
    command with the resolver: the targets are the cosigners of the configuration. *)

From S2P Require Import Prelude Errors Config Conc Wire SignState SignerLoop ClusterTls RaftStore Security Services StateCmd ShardsCmd Startup Resolver.
From stdpp Require Import base gmap list strings numbers.
From Stdlib Require Import ZArith Lia.

Open Scope string_scope.
Open Scope list_scope.
Open Scope Z_scope.

(** ** Definitions *)

(** The commands read the keys of the machine and dial a cosigner; the connection is gRPC's. *)
Section leader.
Context `{NP : !NetParse} `{J : !SecurityJson} `{X : !Ecies} {Priv Pub : Type} `{R : !Rsa Priv Pub} `{X5 : !X509}.
Context (LoadNodeKey : string → FileSystem → result node_key goerror) (rnd : list Z).
(** [grpc.Dial], and the two calls on a connection *)
Context {C : Type} (Dial : string → transport_creds → result C goerror).
Context (client_TransferLeadership : C → string → result unit goerror) (client_GetLeader : C → result Z goerror).

Definition dial (address : string) (clusterTLS : option tls_Config) : result C goerror :=
  map_err (λ err, ErrorString ("dialing failed: " +:+ Error err)) (Dial address (ClusterTransportCreds clusterTLS)).

(** The cosigners of the configuration, which both commands need *)
Definition configured_cosigners (c : Config) : result ThresholdModeConfig goerror :=
  match cfg_ThresholdModeConfig c with
  | None => Err (ErrorString "threshold mode configuration is not present in config file")
  | Some tm =>
      if (length (tm_Cosigners tm) =? 0)%nat then Err (ErrorString "threshold mode configuration has no cosigners")
      else Ok tm
  end.

(** The argument is the ID of the next leader, or none; the result is the leader that is printed. *)
Definition leaderElectionCmd (args : option string) (config : RuntimeConfig) (s : Host) : result Z goerror :=
  try tm <- configured_cosigners (rc_Config config);
  try grpcAddress <- LeaderElectMultiAddress tm;
  try clusterTLS <- ClusterTLSConfig LoadNodeKey rnd config (h_fs s);
  try conn <- dial grpcAddress clusterTLS;
  let leaderID := default "" args in
  try _ <- client_TransferLeadership conn leaderID;
  client_GetLeader conn.

(** The ID in the keys of the machine: those of ECIES, or of RSA when there are none *)
Definition key_ID (config : RuntimeConfig) (s : Host) : result Z goerror :=
  let dirs := elements (h_dirs s) in
  match KeyFileExistsCosignerECIES dirs (h_fs s) config with
  | Ok keyFile =>
      try key <- map_err (WrapError ("error reading cosigner key (" +:+ keyFile +:+ "): ")) (LoadCosignerECIESKey (h_fs s) keyFile);
      Ok (ek_ID key)
  | Panics m => Panics m
  | Err _ =>
      try keyFile <- map_err (WrapError ("cosigner encryption keys not found (" +:+ KeyFilePathCosignerECIES config +:+ ") - ("
                                         +:+ KeyFilePathCosignerRSA config +:+ "): "))
                       (KeyFileExistsCosignerRSA dirs (h_fs s) config);
      try key <- map_err (WrapError ("error reading cosigner key (" +:+ keyFile +:+ "): "))
                   (LoadCosignerRSAKey (Priv := Priv) (Pub := Pub) (h_fs s) keyFile);
      Ok (rk_ID key)
  end.

(** The loop over the cosigners: the address of the last one with the ID *)
Definition own_address (id : Z) (cosigners : list CosignerConfig) : string :=
  fold_left (λ p2pListen c, if cc_ShardID c =? id then cc_P2PAddr c else p2pListen) cosigners "".

Definition getLeaderCmd (config : RuntimeConfig) (s : Host) : result Z goerror :=
  try tm <- configured_cosigners (rc_Config config);
  try id <- key_ID config s;
  let p2pListen := own_address id (tm_Cosigners tm) in
  if String.eqb p2pListen "" then Err (ErrorString ("cosigner config does not exist for our shard ID " +:+ fmt_d id))
  else
    try grpcAddress <- SanitizeAddress p2pListen;
    try clusterTLS <- ClusterTLSConfig LoadNodeKey rnd config (h_fs s);
    try conn <- dial grpcAddress clusterTLS;
    client_GetLeader conn.
End leader.

(** *** Specifications *)

Definition no_comma (s : string) : bool := all_chars (λ c, negb (Ascii.eqb c (Ascii.ascii_of_N 44))) s.

(** The endpoint of a target of the scheme [multi] *)
Definition multi_endpoint (target : string) : option string :=
  if HasPrefix target "multi:///" then Some (String.substring 9 (String.length target - 9) target) else None.

(** *** Examples *)

Definition toy_leader_config : RuntimeConfig := toy_start_config false.

Definition toy_elect : result Z goerror :=
  @leaderElectionCmd toy_net toy_x509 (λ _ _, Ok (Ed25519PrivKey [])) [] string (λ a _, Ok a) (λ _ _, Ok ()) (λ _, Ok 1) None toy_leader_config
    (toy_start_host 0).

Definition toy_leader : result Z goerror :=
  @getLeaderCmd toy_net toy_sec_json toy_ecies Z Z toy_rsa toy_x509 (λ _ _, Ok (Ed25519PrivKey [])) [] string (λ a _, Ok a) (λ _, Ok 1)
    toy_leader_config (toy_start_host 0).

(** ** Lemmas *)

Lemma split_comma_nonempty s : split_comma s ≠ [].
Proof. destruct s as [|c s]; [done|]. cbn. destruct (Ascii.eqb c _); [done|]. by destruct (split_comma s). Qed.

Lemma split_comma_app a b : no_comma a = true → split_comma (a +:+ b) = match split_comma b with [] => [a] | w :: ws => (a +:+ w) :: ws end.
Proof.
  pose proof (split_comma_nonempty b) as Hb. destruct (split_comma b) as [|w ws] eqn:Eb; [done|].
  induction a as [|c a IH]; intros Ha; [exact Eb|]. apply andb_true_iff in Ha as [Hc Ha]. apply negb_true_iff in Hc.
  change (String c a +:+ b) with (String c (a +:+ b)). cbn [split_comma]. rewrite Hc. by rewrite (IH Ha).
Qed.

(** Joining with commas is undone by splitting at them. *)
Lemma split_comma_join ws : ws ≠ [] → Forall (λ w, no_comma w = true) ws → split_comma (join_with "," ws) = ws.
Proof.
  intros Hne Hws. induction Hws as [|w ws Hw Hws IH]; [done|]. destruct ws as [|v ws].
  - cbn. rewrite <- (string_app_nil_r w) at 1. rewrite split_comma_app by done. change (split_comma "") with [""]. cbv iota. by rewrite string_app_nil_r.
  - change (join_with "," (w :: v :: ws)) with (w +:+ "," +:+ join_with "," (v :: ws)). rewrite split_comma_app by done.
    change (split_comma ("," +:+ join_with "," (v :: ws))) with ("" :: split_comma (join_with "," (v :: ws))).
    cbv iota. rewrite string_app_nil_r. f_equal. by apply IH.
Qed.

Lemma sanitize_all_Ok `{NetParse} addresses hosts :
  sanitize_all addresses = Ok hosts → length hosts = length addresses ∧ ∀ i a, addresses !! i = Some a → ∃ h, hosts !! i = Some h ∧ url_Parse a = Ok h.
Proof.
  revert hosts. induction addresses as [|a l IH]; intros hosts; cbn [sanitize_all]; [by intros [= <-]|].
  unfold SanitizeAddress. destruct (url_Parse a) as [h| |] eqn:E; [|done..]. cbn.
  destruct (sanitize_all l) as [hs| |]; [|done..]. cbn. intros [= <-]. destruct (IH hs eq_refl) as [Hl Hi]. cbn. split; [by rewrite Hl|].
  intros [|i] b; cbn; [intros [= <-]; by exists h|apply Hi].
Qed.

Lemma substring_all s : String.substring 0 (String.length s) s = s.
Proof. induction s as [|c s IH]; [done|]. cbn. by rewrite IH. Qed.

Lemma multi_endpoint_app e : multi_endpoint ("multi:///" +:+ e) = Some e.
Proof.
  unfold multi_endpoint. replace (HasPrefix ("multi:///" +:+ e) "multi:///") with true by (by destruct e).
  change (String.length ("multi:///" +:+ e)) with (9 + String.length e)%nat.
  replace (9 + String.length e - 9)%nat with (String.length e) by lia.
  change (String.substring 9 (String.length e) ("multi:///" +:+ e)) with (String.substring 0 (String.length e) e). by rewrite substring_all.
Qed.

Lemma configured_cosigners_Ok c tm :
  configured_cosigners c = Ok tm → cfg_ThresholdModeConfig c = Some tm ∧ tm_Cosigners tm ≠ [].
Proof.
  unfold configured_cosigners. destruct (cfg_ThresholdModeConfig c) as [tm'|]; [|done].
  destruct (Nat.eqb_spec (length (tm_Cosigners tm')) 0) as [|Hl]; [done|]. intros [= <-]. split; [done|]. intros E. by rewrite E in Hl.
Qed.

Lemma own_address_found id cosigners :
  own_address id cosigners ≠ "" → ∃ own, own ∈ cosigners ∧ cc_ShardID own = id ∧ own_address id cosigners = cc_P2PAddr own.
Proof.
  unfold own_address. induction cosigners as [|c l IH] using rev_ind; [done|]. rewrite fold_left_app. cbn.
  destruct (Z.eqb_spec (cc_ShardID c) id); intros Hne.
  - exists c. split; [apply elem_of_app; right; by left|done].
  - destruct (IH Hne) as (own & Hin & H). exists own. split; [apply elem_of_app; by left|done].
Qed.

Lemma elect_targets `{NetParse} (cosigners : list CosignerConfig) hosts :
  Forall (λ c, no_comma (p2pURLToRaftAddress (cc_P2PAddr c)) = true) cosigners → cosigners ≠ [] → sanitize_all (cc_P2PAddr <$> cosigners) = Ok hosts →
  split_comma (join_with "," hosts) = (λ c, p2pURLToRaftAddress (cc_P2PAddr c)) <$> cosigners.
Proof.
  intros Hcomma Hne [Hl Hi]%sanitize_all_Ok. rewrite length_fmap in Hl.
  assert (hosts = (λ c, p2pURLToRaftAddress (cc_P2PAddr c)) <$> cosigners) as ->.
  { apply list_eq_same_length with (length cosigners); [by rewrite length_fmap|done|]. intros i x y _ Hx Hy.
    apply list_lookup_fmap_Some in Hy as (c & -> & Hc). destruct (Hi i (cc_P2PAddr c)) as (h & Hh & Hu); [by rewrite list_lookup_fmap, Hc|].
    unfold p2pURLToRaftAddress. rewrite Hu. congruence. }
  apply split_comma_join; [by destruct cosigners|]. by apply Forall_fmap.
Qed.

(** ** Theorems *)

(** With no comma in a host, [elect] reaches the cosigners: it dials one address with the credentials of the cluster, and the targets that the resolver makes of
    that address are the hosts of all cosigners of the configuration, in order, as their raft addresses have them; [leader] dials the
    host of the cosigner whose keys are on the machine. *)
Theorem leader_commands_reach `{NP : !NetParse} `{J : !SecurityJson} `{X : !Ecies} {Priv Pub : Type} `{R : !Rsa Priv Pub} `{X5 : !X509}
    LoadNodeKey rnd {C} (Dial : string → transport_creds → result C goerror) transfer getLeader args config s leader :
  (∀ tm, cfg_ThresholdModeConfig (rc_Config config) = Some tm →
     Forall (λ c, no_comma (p2pURLToRaftAddress (cc_P2PAddr c)) = true) (tm_Cosigners tm)) →
  (leaderElectionCmd LoadNodeKey rnd Dial transfer getLeader args config s = Ok leader →
     ∃ tm endpoint target conn tls, cfg_ThresholdModeConfig (rc_Config config) = Some tm
       ∧ ClusterTLSConfig LoadNodeKey rnd config (h_fs s) = Ok tls ∧ Dial target (ClusterTransportCreds tls) = Ok conn
       ∧ multi_endpoint target = Some endpoint
       ∧ split_comma endpoint = (λ c, p2pURLToRaftAddress (cc_P2PAddr c)) <$> tm_Cosigners tm
       ∧ transfer conn (default "" args) = Ok () ∧ getLeader conn = Ok leader)
  ∧ (getLeaderCmd (Priv := Priv) (Pub := Pub) LoadNodeKey rnd Dial getLeader config s = Ok leader →
     ∃ tm id own conn tls, cfg_ThresholdModeConfig (rc_Config config) = Some tm ∧ key_ID (Priv := Priv) (Pub := Pub) config s = Ok id
       ∧ own ∈ tm_Cosigners tm ∧ cc_ShardID own = id ∧ ClusterTLSConfig LoadNodeKey rnd config (h_fs s) = Ok tls
       ∧ Dial (p2pURLToRaftAddress (cc_P2PAddr own)) (ClusterTransportCreds tls) = Ok conn ∧ getLeader conn = Ok leader).
Proof.
  intros Hcomma. split.
  - unfold leaderElectionCmd, LeaderElectMultiAddress, MultiAddress.
    destruct (configured_cosigners _) as [tm| |] eqn:Etm; [|done..]. cbn. apply configured_cosigners_Ok in Etm as [Etm Hne].
    destruct (sanitize_all _) as [hosts| |] eqn:Eh; [|done..]. cbn. destruct (ClusterTLSConfig _ _ _ _) as [tls| |] eqn:Et; [|done..]. cbn.
    unfold dial. destruct (Dial _ _) as [conn| |] eqn:Ed; [|done..]. cbn. destruct (transfer _ _) as [[]| |] eqn:Etr; [|done..]. cbn.
    intros Hl. exists tm, (join_with "," hosts), ("multi:///" +:+ join_with "," hosts), conn, tls.
    split; [done|]. split; [done|]. split; [exact Ed|]. split; [apply multi_endpoint_app|]. split; [|done].
    apply elect_targets; [by apply Hcomma|done|done].
  - unfold getLeaderCmd. destruct (configured_cosigners _) as [tm| |] eqn:Etm; [|done..]. cbn. apply configured_cosigners_Ok in Etm as [Etm _].
    destruct (key_ID config s) as [id| |] eqn:Eid; [|done..]. cbn. destruct (String.eqb_spec (own_address id (tm_Cosigners tm)) "") as [|Hne]; [done|].
    apply own_address_found in Hne as (own & Hin & Hid & ->). unfold SanitizeAddress.
    destruct (url_Parse (cc_P2PAddr own)) as [h| |] eqn:Eu; [|done..]. cbn. destruct (ClusterTLSConfig _ _ _ _) as [tls| |] eqn:Et; [|done..]. cbn.
    unfold dial. destruct (Dial _ _) as [conn| |] eqn:Ed; [|done..]. cbn. intros Hl. exists tm, id, own, conn, tls.
    unfold p2pURLToRaftAddress. by rewrite Eu.
Qed.

Lemma leader_commands_reach_witness :
  ∃ endpoint target, multi_endpoint target = Some endpoint ∧ split_comma endpoint = ["a:1"; "b:1"].
Proof.
  assert (toy_elect = Ok 1) as He by (vm_compute; reflexivity). assert (toy_leader = Ok 1) as Hl by (vm_compute; reflexivity).
  destruct (proj1 (@leader_commands_reach toy_net toy_sec_json toy_ecies Z Z toy_rsa toy_x509 (λ _ _, Ok (Ed25519PrivKey [])) [] string (λ a _, Ok a)
    (λ _ _, Ok ()) (λ _, Ok 1) None toy_leader_config (toy_start_host 0) 1
    ltac:(intros tm [= <-]; repeat constructor)) He) as (tm & endpoint & target & conn & tls & [= <-] & _ & _ & Ht & Hs & _).
  exists endpoint, target. split; [exact Ht|exact Hs].
Defined.
